(* ===== verification/_CoqProject ===== *)
-Q . S2P
Prelude.v
Wp.v
Types.v
Codec.v
Hash.v
GenesisJson.v
Crypto.v
Wire.v
Toy.v
Primitives.v
Storage.v
Rocks.v
RocksLayout.v
RocksRefine.v
RocksExamples.v
Smt.v
Staking.v
Mempool.v
Zk.v
Evm.v
EthTx.v
Execution.v
ExecutionExamples.v
Network.v
Fanout.v
Setup.v
Rounds.v
Durability.v
Consensus.v
ConsensusInv.v
Certificates.v
ConsensusSafety.v
ConsensusProgress.v
ProposalCheck.v
Delivery.v
Finality.v
Solo.v
ConsensusExamples.v
Bootstrap.v
Provider.v
Startup.v
LivenessExamples.v
Json.v
Rpc.v
RpcProofs.v
RpcNode.v
Cli.v
RpcExamples.v
Sync.v
SyncProgress.v
Services.v
SyncExamples.v
ServicesExamples.v
