(* ===== verification/Prelude.v ===== *)
(** * A verification library for the Zeno PQ chain

    The program is a proof-of-stake chain with post-quantum signatures, an EVM and a
    shielded pool: the Rust workspace under [src/ZenoQPL1/crates].  This library models its
    crates one by one as executable definitions and proves what makes them correct.  The
    files, in dependency order (all paths are under [crates/]):

    - [Prelude.v], [Wp.v]: results with panics ([res]), computations on a state mutated in
      place where an error keeps the earlier writes ([eff]), machine-width arithmetic
      ([wrapping], [saturating_add], [checked_add], ...), bytes and byte arrays, ordered
      maps ([BTreeMap] iteration), sums over maps, and a weakest-precondition calculus.
    - [Types.v]: zeno-types, the records and enums all crates share.
    - [Codec.v], [Hash.v], [Crypto.v], [Wire.v], [Primitives.v]: zeno-codec, zeno-hash,
      zeno-crypto and zeno-primitives; canonical bytes, digests, Merkle roots, domain
      separated signatures, and the admission rules of transactions, blocks and votes.
      [Toy.v] gives concrete codecs, digests and signatures, for the examples only.
    - [GenesisJson.v]: the accounts of a genesis file, an object of hexadecimal names.
    - [Storage.v]: zeno-storage, the [ChainStore] trait by its in-memory implementation.
      A store is one record, [MemoryInner]; every method is one function on it.
    - [Rocks.v]: zeno-storage, [RocksStore]: every method over the byte strings of a
      key-value database.  [RocksLayout.v] says which slot of the store is under which
      key, [RocksRefine.v] gives the trait as a type of operations with its two
      implementations and relates them, and [RocksExamples.v] runs both side by side.
    - [Smt.v], [Staking.v]: zeno-state; the sparse Merkle commitment to the accounts, the
      staking ledger with slashing, unbonding and rewards, and governance.
    - [Mempool.v]: zeno-mempool; the pool behind its lock with its five indexes.
    - [Zk.v]: zeno-zk; commitments, the incremental tree, the pool and its precompile.
    - [Evm.v], [EthTx.v]: zeno-evm; the executor around the interpreter, the precompiles,
      RLP, raw Ethereum transactions and the recovery of their senders.
    - [Execution.v], [ExecutionExamples.v]: zeno-execution; native and EVM transactions,
      the accounting of a block (fees, rewards, epochs), dry runs, preparation, validation
      and atomic commit.
    - [Network.v]: zeno-network; the peer table, handshakes, scores and bans, the window
      of recent messages and the loop of a connection.  [Fanout.v]: the bounded channels
      between the tasks, the loop that hands messages out, and the connections.
    - [Rounds.v], [Durability.v], [Consensus.v]: zeno-consensus; the round state, the
      write-ahead log and its replay, and every handler of the engine: proposals, votes,
      locks, certificates, finalization, import, timeouts, and the event loop.
      [ConsensusInv.v], [Certificates.v], [ConsensusSafety.v], [ConsensusProgress.v],
      [ProposalCheck.v] hold its theorems and [ConsensusExamples.v] runs it on concrete
      chains.
    - [Delivery.v], [Finality.v], [Solo.v]: what the engine achieves.  [Delivery.v] computes
      the runs of the ledger, of the block of a round and of single votes, up to the
      equivalence [alike] of stores that votes do not tell apart; [Finality.v] the
      conclusion of a round and the delivery of a proposal with its votes; [Solo.v] the
      life of a network of one validator.
    - [Setup.v]: zeno-config, zeno-genesis and zeno-wallet; configurations, the generation
      of a devnet, wallets and the transactions they sign.
    - [Bootstrap.v], [Provider.v], [Sync.v], [SyncExamples.v]: zeno-node; the planes and the
      bootstrap of the store, the operations behind the RPC server, and the download of
      blocks from a peer with the gossip task around it.  [SyncProgress.v] follows an
      external block through its import and a download through one round.  [Startup.v] follows a node from
      its configuration to the first call of the engine; [LivenessExamples.v] runs it, and
      networks of four validators and of one.  [Services.v], [ServicesExamples.v]: the
      tasks of a running node, with gossip, synchronisation, ticks, RPC requests and
      consensus turns in any order.
    - [Json.v], [Rpc.v], [RpcProofs.v]: zeno-rpc; JSON values and numbers in texts, the
      provider interface, the rate limiter, requests and batches, the 42 methods and the
      data of the explorer's pages, all over an abstract node.  [RpcNode.v] puts the
      operations of [Provider.v] behind that interface.
    - [Cli.v]: zeno-cli; every command with the client's side of the RPC.
      [RpcExamples.v] runs server and client on JSON texts and a concrete node.

    ** How the parts interact

    The consensus engine ([Consensus.on_event]) is a state-passing computation over a
    [Node]: the store, the mempool, the round state, the messages sent and the journal.
    It calls [Execution] to build, check and commit blocks, [Primitives] to sign and
    verify, [Staking] for the active validators and for evidence, and [Mempool] for the
    transactions of a proposal.  [Execution] works on a snapshot ([Smt]) of the store and
    writes it back in one commit; EVM payloads run against the store itself through the
    interpreter.  Locks of the source guard whole operations, so that an operation is one
    function on the state; where the source takes a lock more than once the steps are
    kept apart (the journal is written before the message is sent, the network table is
    read and written in separate looks).  What a part promises to another is a class with
    laws: [Serde]/[SerdeLaws], [SignatureScheme]/[SignatureSchemeLaws],
    [HashBackend], [OqsBackend]/[OqsLaws], [RevmBackend], [RocksDb]/[RocksDbLaws],
    [HexBackend]/[HexLaws], [SerdeJson]/[SerdeJsonLaws] and [CliJson]/[CliJsonLaws].
    The server sees the node only through the class [RpcProvider]; its theorems hold for
    every provider, and [RpcNode.node_provider] is the one of the node.  [ChainStore] is
    the trait as a type of operations with their answers: a client is a tree of them, and
    [RocksRefine.run] executes it on an implementation.

    ** What the theorems show

    - Consensus: no two votes for one step of a round; a lock is taken only on a quorum of
      signed prevotes, binds the prevotes of its holder and survives a restart; the
      tallies are authentic; two certificates for different blocks expose more than a
      third of the validators, counting signers that are no validators; finalization
      commits exactly the certified proposal; an external block is imported when it is
      valid and refused without effect on the chain when it is not; every timeout makes
      progress; the check of proposals agrees with execution (for EVM transactions in one
      direction).
    - Liveness: a proposal and a supermajority of votes, in any order, make the block
      final; each timeout of a network of one validator adds one block when the selected
      transactions are native and execute and the height is not yet signed, and stops the
      chain for good when they do not execute.
    - Execution: the exact effect of a native transaction, conservation of the supply, no
      replay, a commit that is all or nothing but for the EVM accounts, and that an honest
      proposal is accepted (dry run and preparation agree, EVM transactions included).
    - State: the staking ledger invariant, exact unbonding and slashing, the exact rewards
      and treasury of an epoch; completeness (for accounts alone on their path) and binding
      of account proofs.
    - Mempool: the index invariant in every reachable pool, the exact effect of an insert,
      optimality of block selection.
    - Storage: on a database that represents a memory store, every client of the trait
      gets the same answers from [RocksStore] as from [MemoryStore], faults of the
      database apart (the journal's compaction is admissible once, because later ones
      delete by position: [compaction_misses]); a commit of a block is all or nothing.
    - Network: the window of recent messages refines its specification, the table keeps
      its bounds, repetition ends a connection, and connections do not interfere; the
      bounded channels implement the unbounded fan-out, and one peer that stops reading
      stops them all.
    - RPC and CLI: queries, whatever their form, leave the node as it is; every body is
      answered, in order and with its identifiers; a printed height is read back; the
      burst of the rate limiter; a faucet payment shows in the balance of its recipient;
      a transfer built and submitted from the command line reaches an empty pool and is
      what the next proposal takes from it.
    - Node: whatever peers and clients do, in any interleaving of the tasks and over
      restarts, the node never equivocates; an error that ends the consensus task goes
      unnoticed, and the node is silent from then on; a generated genesis bootstraps to an
      active validator set, and the only validator of one ends its first turn with block 1
      final; log queries are exact; the download keeps its invariant in every order of
      events, accepts exactly the well-linked batches, and catches up with a peer that is
      one block ahead and answers.
    - Zk, Hash, Codec, EthTx: equivalence of the incremental tree with the reference tree,
      binding of proofs up to an explicit collision, single use of nullifiers, round
      trips of encodings, and the termination behaviour of the RLP loop.

    Cryptographic statements are never assumed: binding theorems produce an explicit
    collision, and signature laws are only correctness of honest signatures.

    ** Bounds and fuel

    Integers are [Z] with the wrap-around, saturation or check of the operation the source
    uses; [usize] is 64 bits.  Fuel is used where the recursion is not structural: the
    Merkle loop and the subtree recursion run on the length or depth, the eviction loops
    on the length of their queue, the RLP loop on the length of its payload; each has a
    lemma that this fuel is enough (for the RLP loop: or no fuel is).  The digits of a
    number printed in base sixteen have fuel 32, enough for 128 bits.  The tokens of the
    rate limiter are double-precision numbers of the Standard Library's specification.

    ** Not modelled

    Third-party crates are parameters with the laws the code relies on: [bincode], the
    digests, [hex], [oqs], [k256], [revm], [rocksdb], [serde_json] with the conversions it
    derives, and the parser of IP addresses.  Clocks, randomness and the iteration order
    of hash maps are arguments.  Left out: opening a RocksDB database; the HTML templates of
    the pages, whose data is modelled; the HTTP server and the parsing of command lines; in
    zeno-node the network plane (a wrapper) and the metrics; file formats and logging.  The
    node runs on the in-memory store, which the RocksDB store refines.  A turn of a task
    ([Services.turn]) is one handler from its start to its end: the points inside a handler
    at which another task may run are not interleaved, and the first turn of the consensus
    task comes before the turns of the others.  A raw transaction whose decoding never ends
    ([Services.send_raw]) is a request without an answer: the memory that its loop takes, and
    with it the end of a process that runs out of memory, is not modelled.  Sockets are inputs of the network's steps.
    Float logging and [Display] texts are kept only where a value carries them. *)

From Stdlib Require Export Strings.Byte Lia.
From stdpp Require Export sorting lexico countable numbers prelude gmap strings list.

Open Scope Z_scope.

(** ** Results, panics and state passing *)

(** The three ways a call of the program ends: [Ok], [Err] with the error value
    of its [Result], or a panic (slice out of range, [expect], division by
    zero). *)
Inductive res (E A : Type) : Type :=
  | Ok (a : A)
  | Err (e : E)
  | Panic.
Arguments Ok {E A} a.
Arguments Err {E A} e.
Arguments Panic {E A}.

#[export] Instance res_ret {E} : MRet (res E) := λ A a, Ok a.
#[export] Instance res_bind {E} : MBind (res E) := λ A B f m,
  match m with Ok a => f a | Err e => Err e | Panic => Panic end.
#[export] Instance res_fmap {E} : FMap (res E) := λ A B f m,
  match m with Ok a => Ok (f a) | Err e => Err e | Panic => Panic end.

(** [map_err]. *)
Definition map_err {E F A} (f : E → F) (m : res E A) : res F A :=
  match m with Ok a => Ok a | Err e => Err (f e) | Panic => Panic end.
(** [ok_or_else]. *)
Definition ok_or {E A} (e : E) (o : option A) : res E A :=
  match o with Some a => Ok a | None => Err e end.
(** [expect]. *)
Definition expect {E A} (o : option A) : res E A :=
  match o with Some a => Ok a | None => Panic end.
Definition is_ok {E A} (m : res E A) : bool :=
  match m with Ok _ => true | _ => false end.

(** Computations over a state [S] that is mutated in place: an [Err] keeps the
    writes made before it. *)
Definition eff (S E A : Type) : Type := S → res E A * S.

#[export] Instance eff_ret {S E} : MRet (eff S E) := λ A a s, (Ok a, s).
#[export] Instance eff_bind {S E} : MBind (eff S E) := λ A B f m s,
  match m s with
  | (Ok a, s') => f a s'
  | (Err e, s') => (Err e, s')
  | (Panic, s') => (Panic, s')
  end.
Definition eff_get {S E} : eff S E S := λ s, (Ok s, s).
Definition eff_put {S E} (s : S) : eff S E () := λ _, (Ok tt, s).
Definition eff_modify {S E} (f : S → S) : eff S E () := λ s, (Ok tt, f s).
Definition eff_lift {S E A} (m : res E A) : eff S E A := λ s, (m, s).

Lemma eff_bind_ok {S E A B} (m : eff S E A) (f : A → eff S E B) s a s' :
  m s = (Ok a, s') → (m ≫= f) s = f a s'.
Proof. intros H. unfold mbind, eff_bind. by rewrite H. Qed.

(** A run of a bind that ends in [Ok] splits into two such runs. *)
Lemma eff_bind_inv_ok {S E A B} (m : eff S E A) (f : A → eff S E B) s b s2 :
  (m ≫= f) s = (Ok b, s2) → ∃ a s1, m s = (Ok a, s1) ∧ f a s1 = (Ok b, s2).
Proof.
  unfold mbind, eff_bind. destruct (m s) as [[a|e|] s1]; intros H; simplify_eq; eauto.
Qed.

Lemma res_bind_inv_ok {E A B} (m : res E A) (f : A → res E B) b :
  m ≫= f = Ok b → ∃ a, m = Ok a ∧ f a = Ok b.
Proof. destruct m; simpl; intros; simplify_eq/=; eauto. Qed.

Lemma res_bind_ok {E A B} (m : res E A) (f : A → res E B) b :
  m ≫= f = Ok b ↔ ∃ a, m = Ok a ∧ f a = Ok b.
Proof. split; [apply res_bind_inv_ok | intros (a & -> & Hf); done]. Qed.
(** An early [return Err(..)]. *)
Lemma guard_ok {E A} (c : bool) (e : E) (m : res E A) a :
  (if c then Err e else m) = Ok a ↔ c = false ∧ m = Ok a.
Proof. destruct c; split; [done | by intros [] | by split | by intros []]. Qed.
Lemma map_err_ok {E F A} (f : E → F) (m : res E A) a : map_err f m = Ok a ↔ m = Ok a.
Proof. destruct m; simpl; split; intros; by simplify_eq. Qed.
Lemma eff_bind_ok_iff {S E A B} (m : eff S E A) (f : A → eff S E B) s b s2 :
  (m ≫= f) s = (Ok b, s2) ↔ ∃ a s1, m s = (Ok a, s1) ∧ f a s1 = (Ok b, s2).
Proof.
  split; [apply eff_bind_inv_ok|]. intros (a & s1 & Hm & Hf). by erewrite eff_bind_ok.
Qed.

(** Takes a run that ended in [Ok] apart, one guard or bind at a time. *)
Ltac run_ok Hrun :=
  repeat lazymatch type of Hrun with
  | (if _ then Err _ else _) = Ok _ => apply guard_ok in Hrun; destruct Hrun as [? Hrun]
  | _ ≫= _ = Ok _ => apply res_bind_ok in Hrun; destruct Hrun as (? & ? & Hrun)
  | map_err ?f ?m = Ok ?a =>
      let Hm := fresh in pose proof (proj1 (map_err_ok f m a) Hrun) as Hm;
      clear Hrun; rename Hm into Hrun
  end.
(** Turns the Booleans of the code's conditions into propositions. *)
Ltac to_prop :=
  repeat match goal with
  | H : bool_decide (_ ≠ _) = false |- _ => apply bool_decide_eq_false, dec_stable in H
  | H : bool_decide _ = true |- _ => apply bool_decide_eq_true in H
  | H : bool_decide _ = false |- _ => apply bool_decide_eq_false in H
  | H : negb _ = true |- _ => apply negb_true_iff in H
  | H : negb _ = false |- _ => apply negb_false_iff in H
  | H : _ && _ = true |- _ => apply andb_true_iff in H as [? ?]
  | H : _ || _ = false |- _ => apply orb_false_iff in H as [? ?]
  | H : _ && _ = false |- _ => apply andb_false_iff in H
  | H : _ || _ = true |- _ => apply orb_true_iff in H
  | H : (_ <? _)%Z = _ |- _ => first [apply Z.ltb_lt in H | apply Z.ltb_ge in H]
  | H : (_ <=? _)%Z = _ |- _ => first [apply Z.leb_le in H | apply Z.leb_gt in H]
  | H : (_ =? _)%Z = _ |- _ => first [apply Z.eqb_eq in H | apply Z.eqb_neq in H]
  end.

(** ** Machine integers

    Unsigned Rust integers are values of [Z]; the largest value of each width is
    an abbreviation, so [lia] sees the literal. *)
Abbreviation U8_MAX := 255 (only parsing).
Abbreviation U16_MAX := 65535 (only parsing).
Abbreviation U32_MAX := 4294967295 (only parsing).
Abbreviation U64_MAX := 18446744073709551615 (only parsing).
Abbreviation U128_MAX := 340282366920938463463374607431768211455 (only parsing).

Definition in_range (max x : Z) : Prop := 0 ≤ x ≤ max.
(** [+], [-] and [*] of the release profile wrap around. *)
Definition wrapping (max x : Z) : Z := x mod (max + 1).
Definition saturating_add (max a b : Z) : Z := Z.min max (a + b).
Definition saturating_sub (a b : Z) : Z := Z.max 0 (a - b).
Definition saturating_mul (max a b : Z) : Z := Z.min max (a * b).
Definition checked_add (max a b : Z) : option Z :=
  if decide (a + b ≤ max) then Some (a + b) else None.
Definition checked_sub (a b : Z) : option Z :=
  if decide (b ≤ a) then Some (a - b) else None.

Lemma wrapping_small max x : in_range max x → wrapping max x = x.
Proof. unfold in_range, wrapping. intros. apply Z.mod_small. lia. Qed.
Lemma wrapping_range max x : 0 ≤ max → in_range max (wrapping max x).
Proof. unfold in_range, wrapping. intros. pose proof (Z.mod_pos_bound x (max + 1)). lia. Qed.

(** [lia] after unfolding the integer operations. *)
Ltac ulia :=
  unfold in_range, saturating_add, saturating_sub, saturating_mul in *; lia.

(** ** Bytes and fixed-size byte arrays *)

#[export] Instance byte_eq_dec : EqDecision byte := Byte.byte_eq_dec.
#[export] Program Instance byte_countable : Countable byte :=
  inj_countable Byte.to_N Byte.of_N _.
Next Obligation. intros b. apply Byte.of_to_N. Qed.

(** The value of a byte, and the byte of a value modulo 256 ([as u8]). *)
Definition byte_Z (b : byte) : Z := Z.of_N (Byte.to_N b).
Definition Z_byte (z : Z) : byte :=
  default x00 (Byte.of_N (Z.to_N (z mod 256))).

Lemma byte_Z_range b : in_range U8_MAX (byte_Z b).
Proof. unfold in_range, byte_Z. pose proof (Byte.to_N_bounded b). lia. Qed.
Lemma Z_byte_Z b : Z_byte (byte_Z b) = b.
Proof.
  unfold Z_byte. rewrite Z.mod_small by (pose proof (byte_Z_range b); ulia).
  unfold byte_Z. by rewrite N2Z.id, Byte.of_to_N.
Qed.
Lemma byte_Z_byte_mod z : byte_Z (Z_byte z) = z mod 256.
Proof.
  unfold Z_byte, byte_Z. pose proof (Z.mod_pos_bound z 256 ltac:(lia)).
  destruct (Byte.of_N (Z.to_N (z mod 256))) as [b|] eqn:E; simpl.
  - apply Byte.to_of_N in E. rewrite E. lia.
  - apply Byte.of_N_None_iff in E. lia.
Qed.
Lemma byte_Z_byte z : in_range U8_MAX z → byte_Z (Z_byte z) = z.
Proof. intros. rewrite byte_Z_byte_mod. apply Z.mod_small. ulia. Qed.
#[export] Instance byte_Z_inj : Inj (=) (=) byte_Z.
Proof. intros a b H. by rewrite <-(Z_byte_Z a), <-(Z_byte_Z b), H. Qed.

(** [[u8; n]]: the length is part of the type, as in the source. *)
Record array (n : nat) : Type := Array {
  array_bytes : list byte;
  array_len : bool_decide (length array_bytes = n)
}.
Arguments Array {n} _ _.
Arguments array_bytes {n} _.
Arguments array_len {n} _.

Lemma array_eq {n} (a b : array n) : array_bytes a = array_bytes b → a = b.
Proof.
  destruct a as [x Hx], b as [y Hy]; simpl; intros ->. f_equal. apply proof_irrel.
Qed.
Lemma array_length {n} (a : array n) : length (array_bytes a) = n.
Proof. exact (bool_decide_unpack _ (array_len a)). Qed.

#[export] Instance array_eq_dec {n} : EqDecision (array n).
Proof.
  refine (λ a b, cast_if (decide (array_bytes a = array_bytes b)));
    abstract (first [by apply array_eq | congruence]).
Defined.

(** [copy_from_slice]: [None] is the panic on a length mismatch. *)
Definition array_of (n : nat) (bs : list byte) : option (array n) :=
  match decide (length bs = n) with
  | left H => Some (Array bs (bool_decide_pack _ H))
  | right _ => None
  end.
Lemma array_of_bytes {n} (a : array n) : array_of n (array_bytes a) = Some a.
Proof.
  unfold array_of. destruct (decide _) as [H|H]; [f_equal; by apply array_eq|].
  by destruct H; apply array_length.
Qed.
Lemma array_of_Some n bs a : array_of n bs = Some a → array_bytes a = bs.
Proof. unfold array_of. destruct (decide _); intros; by simplify_eq/=. Qed.

#[export] Program Instance array_countable {n} : Countable (array n) :=
  inj_countable array_bytes (array_of n) _.
Next Obligation. intros n a. apply array_of_bytes. Qed.

(** [[b; n]]. *)
Program Definition array_repeat (n : nat) (b : byte) : array n :=
  Array (replicate n b) _.
Next Obligation. intros. apply bool_decide_pack. apply length_replicate. Qed.
(** Any byte string, cut or zero-padded to [n] bytes: used to build examples. *)
Program Definition array_pad (n : nat) (bs : list byte) : array n :=
  Array (take n (bs ++ replicate n x00)) _.
Next Obligation.
  intros. apply bool_decide_pack.
  rewrite length_take, length_app, length_replicate. lia.
Qed.

(** Two concatenations with equal-length first parts agree part by part. *)
Lemma array_app_inj {n} (a b : array n) (xs ys : list byte) :
  array_bytes a ++ xs = array_bytes b ++ ys → a = b ∧ xs = ys.
Proof.
  intros H. apply app_inj_1 in H as [H ->]; [|by rewrite !array_length].
  split; [by apply array_eq | done].
Qed.

(** Bytes of string literals ([b"..."]). *)
Definition bytes_of_string (s : string) : list byte := String.list_byte_of_string s.

(** [to_le_bytes] and [from_le_bytes]. *)
Fixpoint le_bytes (n : nat) (z : Z) : list byte :=
  match n with
  | O => []
  | S n => Z_byte z :: le_bytes n (Z.shiftr z 8)
  end.
Fixpoint le_value (bs : list byte) : Z :=
  match bs with
  | [] => 0
  | b :: bs => byte_Z b + Z.shiftl (le_value bs) 8
  end.
(** [from_be_bytes]. *)
Definition be_value (bs : list byte) : Z := le_value (rev bs).
Definition be_bytes (n : nat) (z : Z) : list byte := rev (le_bytes n z).

Lemma length_le_bytes n z : length (le_bytes n z) = n.
Proof. revert z. induction n; intros; simpl; [done | by rewrite IHn]. Qed.

Lemma le_value_bounds bs : 0 ≤ le_value bs < 256 ^ Z.of_nat (length bs).
Proof.
  induction bs as [|b bs IH]; [simpl; lia|].
  cbn [le_value length]. rewrite Nat2Z.inj_succ, Z.pow_succ_r, Z.shiftl_mul_pow2 by lia.
  pose proof (byte_Z_range b) as Hb. unfold in_range in Hb.
  change (2 ^ 8) with 256. nia.
Qed.

Lemma le_value_bytes n z :
  0 ≤ z < 256 ^ Z.of_nat n → le_value (le_bytes n z) = z.
Proof.
  revert z. induction n as [|n IH]; intros z Hz; [simpl in *; lia|].
  cbn [le_bytes le_value].
  rewrite Nat2Z.inj_succ, Z.pow_succ_r in Hz by lia.
  rewrite IH.
  2:{ rewrite Z.shiftr_div_pow2 by lia. change (2 ^ 8) with 256.
      split; [apply Z.div_pos; lia|]. apply Z.div_lt_upper_bound; lia. }
  rewrite Z.shiftl_mul_pow2, Z.shiftr_div_pow2 by lia. change (2 ^ 8) with 256.
  pose proof (Z.mod_pos_bound z 256 ltac:(lia)).
  rewrite byte_Z_byte_mod.
  pose proof (Z.div_mod z 256). lia.
Qed.

(** ** Ordered iteration

    The [Ord] instances derived in the source are lexicographic; [lexico] is
    stdpp's strict lexicographic order. *)
#[export] Instance byte_lexico : Lexico byte := λ a b, lexico (Byte.to_N a) (Byte.to_N b).
#[export] Instance byte_lexico_po : StrictOrder (@lexico byte _).
Proof.
  split.
  - intros a. unfold complement, lexico, byte_lexico. apply irreflexivity. apply _.
  - intros a b c. unfold lexico, byte_lexico. apply transitivity.
Qed.
#[export] Instance byte_lexico_tri : TrichotomyT (@lexico byte _).
Proof.
  refine (λ a b, match trichotomyT lexico (Byte.to_N a) (Byte.to_N b) with
    | inleft (left H) => inleft (left H)
    | inleft (right H) => inleft (right _)
    | inright H => inright H end).
  abstract (apply Some_inj; by rewrite <-(Byte.of_to_N a), <-(Byte.of_to_N b), H).
Defined.
#[export] Instance array_lexico {n} : Lexico (array n) :=
  λ a b, lexico (array_bytes a) (array_bytes b).
#[export] Instance array_lexico_po {n} : StrictOrder (@lexico (array n) _).
Proof.
  split.
  - intros a. unfold complement, lexico, array_lexico. apply irreflexivity. apply _.
  - intros a b c. unfold lexico, array_lexico. apply transitivity.
Qed.
#[export] Instance array_lexico_tri {n} : TrichotomyT (@lexico (array n) _).
Proof.
  refine (λ a b, match trichotomyT lexico (array_bytes a) (array_bytes b) with
    | inleft (left H) => inleft (left H)
    | inleft (right H) => inleft (right _)
    | inright H => inright H end).
  abstract (by apply array_eq).
Defined.

(** A [BTreeMap] is a [gmap] together with the iteration order of its keys. *)
Section btree.
Context `{Countable K, Lexico K}.
Context `{!StrictOrder (@lexico K _), !TrichotomyT (@lexico K _)}.

Definition key_le (a b : K) : Prop := lexico a b ∨ a = b.

#[global] Instance key_le_dec : RelDecision key_le.
Proof.
  refine (λ a b, match trichotomyT lexico a b with
    | inleft (left Hl) => left (or_introl Hl)
    | inleft (right He) => left (or_intror He)
    | inright Hr => right _ end).
  abstract (intros [Hl|He]; subst;
    [apply (irreflexivity lexico a); by trans b | by apply (irreflexivity lexico b)]).
Defined.
#[global] Instance key_le_total : Total key_le.
Proof.
  intros a b. unfold key_le.
  destruct (trichotomyT lexico a b) as [[?|?]|?]; subst; auto.
Qed.
#[global] Instance key_le_trans : Transitive key_le.
Proof.
  intros a b c [Hab| ->] [Hbc| ->]; unfold key_le; auto. left. by trans b.
Qed.
Lemma key_le_antisym a b : key_le a b → key_le b a → a = b.
Proof.
  intros [Hab| ->] [Hba|Heq]; try done.
  exfalso. apply (irreflexivity lexico a). by trans b.
Qed.

(** [iter] of a map: its entries in increasing key order. *)
Definition entry_le {V} (p q : K * V) : Prop := key_le p.1 q.1.
#[global] Instance entry_le_dec {V} : RelDecision (@entry_le V) :=
  λ p q, key_le_dec p.1 q.1.
#[global] Instance entry_le_total {V} : Total (@entry_le V).
Proof. intros p q. apply (total key_le). Qed.
#[global] Instance entry_le_trans {V} : Transitive (@entry_le V).
Proof. intros p q r. unfold entry_le. apply transitivity. Qed.

Definition entries {V} (m : gmap K V) : list (K * V) :=
  merge_sort entry_le (map_to_list m).
(** [last_key_value]. *)
Definition last_key_value {V} (m : gmap K V) : option (K * V) := last (entries m).
(** [iter] and [iter().next()] of a set. *)
Definition set_entries (s : gset K) : list K := merge_sort key_le (elements s).
Definition set_first (s : gset K) : option K := head (set_entries s).

Lemma entries_Permutation {V} (m : gmap K V) : entries m ≡ₚ map_to_list m.
Proof. apply merge_sort_Permutation. Qed.
Lemma elem_of_entries {V} (m : gmap K V) k v :
  (k, v) ∈ entries m ↔ m !! k = Some v.
Proof. rewrite entries_Permutation. apply elem_of_map_to_list. Qed.
Lemma entries_keys_NoDup {V} (m : gmap K V) : NoDup (entries m).*1.
Proof. rewrite entries_Permutation. apply NoDup_fst_map_to_list. Qed.
Lemma entries_sorted {V} (m : gmap K V) : StronglySorted entry_le (entries m).
Proof. apply StronglySorted_merge_sort; apply _. Qed.

Lemma sorted_last {A} (R : relation A) `{!Reflexive R} (l : list A) x y :
  StronglySorted R l → last l = Some y → x ∈ l → R x y.
Proof.
  induction 1 as [|z l Hs IH Hz]; [by rewrite elem_of_nil|].
  rewrite last_cons. intros Hl Hx. apply elem_of_cons in Hx as [->|Hx].
  - destruct (last l) as [w|] eqn:E; simplify_eq; [|reflexivity].
    rewrite Forall_forall in Hz. apply Hz. by apply last_Some_elem_of.
  - destruct (last l) as [w|] eqn:E; simplify_eq; [by apply IH|].
    apply last_None in E as ->. by apply not_elem_of_nil in Hx.
Qed.
#[global] Instance entry_le_refl {V} : Reflexive (@entry_le V).
Proof. intros p. right. done. Qed.
#[global] Instance key_le_refl : Reflexive key_le.
Proof. intros p. right. done. Qed.

(** [last_key_value] is the entry with the greatest key. *)
Lemma last_key_value_Some {V} (m : gmap K V) k v :
  last_key_value m = Some (k, v) ↔
  m !! k = Some v ∧ ∀ k', is_Some (m !! k') → key_le k' k.
Proof.
  unfold last_key_value. split.
  - intros Hl. split.
    + apply elem_of_entries. by apply last_Some_elem_of.
    + intros k' [v' Hk'%elem_of_entries].
      exact (sorted_last entry_le _ (k', v') (k, v) (entries_sorted m) Hl Hk').
  - intros [Hk Hmax]. apply elem_of_entries in Hk as Hin.
    destruct (last (entries m)) as [[k2 v2]|] eqn:E.
    + pose proof (last_Some_elem_of _ _ E) as Hin2.
      apply elem_of_entries in Hin2.
      assert (k = k2) as <-.
      { apply key_le_antisym; [|by apply Hmax].
        exact (sorted_last entry_le _ (k, v) (k2, v2) (entries_sorted m) E Hin). }
      congruence.
    + apply last_None in E. rewrite E in Hin. by apply not_elem_of_nil in Hin.
Qed.
Lemma last_key_value_None {V} (m : gmap K V) : last_key_value m = None ↔ m = ∅.
Proof.
  unfold last_key_value. rewrite last_None. split.
  - intros E. apply map_to_list_empty_iff. apply Permutation_nil_r.
    by rewrite <-entries_Permutation, E.
  - intros ->. unfold entries. by rewrite map_to_list_empty.
Qed.
Lemma last_key_value_insert {V} (m : gmap K V) k v :
  (∀ k', is_Some (m !! k') → key_le k' k) →
  last_key_value (<[k := v]> m) = Some (k, v).
Proof.
  intros Hmax. apply last_key_value_Some. split; [apply lookup_insert_eq|].
  intros k'. destruct (decide (k = k')) as [->|Hne]; [by intros; right|].
  rewrite lookup_insert_ne by done. apply Hmax.
Qed.

Lemma elem_of_set_entries (s : gset K) k : k ∈ set_entries s ↔ k ∈ s.
Proof. unfold set_entries. rewrite merge_sort_Permutation. apply elem_of_elements. Qed.
Lemma set_first_Some (s : gset K) k :
  set_first s = Some k → k ∈ s ∧ ∀ k', k' ∈ s → key_le k k'.
Proof.
  unfold set_first. intros Hh.
  assert (StronglySorted key_le (set_entries s)) as Hs.
  { apply StronglySorted_merge_sort; apply _. }
  destruct (set_entries s) as [|k0 l] eqn:E; simplify_eq/=.
  apply StronglySorted_inv in Hs as [_ Hall]. rewrite Forall_forall in Hall.
  split; [apply elem_of_set_entries; rewrite E; left|].
  intros k' Hk'%elem_of_set_entries. rewrite E in Hk'.
  apply elem_of_cons in Hk' as [->|?]; [by right | by apply Hall].
Qed.
Lemma set_first_None (s : gset K) : set_first s = None → s = ∅.
Proof.
  unfold set_first. intros Hh. apply set_eq. intros k. rewrite <-elem_of_set_entries.
  destruct (set_entries s); [set_solver | done].
Qed.
End btree.

(** ** Sums over maps and lists *)
Section msum.
Context `{Countable K} {V : Type}.
Implicit Types (m : gmap K V) (f g : K → V → Z).

Definition msum (f : K → V → Z) (m : gmap K V) : Z :=
  map_fold (λ k v acc, f k v + acc) 0 m.

Lemma msum_empty f : msum f ∅ = 0.
Proof. apply map_fold_empty. Qed.
Lemma msum_insert_None f m k v :
  m !! k = None → msum f (<[k := v]> m) = f k v + msum f m.
Proof.
  intros Hk. unfold msum. apply (map_fold_insert_L (λ k v acc, f k v + acc)); [|done].
  intros. lia.
Qed.
Lemma msum_delete f m k v :
  m !! k = Some v → msum f m = f k v + msum f (delete k m).
Proof.
  intros Hk. rewrite <-(insert_delete_id m k v Hk) at 1.
  apply msum_insert_None. apply lookup_delete_eq.
Qed.
Lemma msum_insert f m k v :
  msum f (<[k := v]> m) = msum f m - from_option (f k) 0 (m !! k) + f k v.
Proof.
  rewrite <-insert_delete_eq, msum_insert_None by apply lookup_delete_eq.
  destruct (m !! k) as [w|] eqn:E; simpl.
  - rewrite (msum_delete f m k w E). lia.
  - rewrite delete_id by done. lia.
Qed.
Lemma msum_ext f g m :
  (∀ k v, m !! k = Some v → f k v = g k v) → msum f m = msum g m.
Proof.
  induction m as [|k v m Hk IH] using map_ind; intros Hfg; [done|].
  rewrite !msum_insert_None by done. rewrite (Hfg k v) by apply lookup_insert_eq.
  rewrite IH; [done|]. intros k' v' Hk'. apply Hfg.
  rewrite lookup_insert_ne by congruence. done.
Qed.
Lemma msum_le f g m :
  (∀ k v, m !! k = Some v → f k v ≤ g k v) → msum f m ≤ msum g m.
Proof.
  induction m as [|k v m Hk IH] using map_ind; intros Hfg; [done|].
  rewrite !msum_insert_None by done.
  assert (f k v ≤ g k v) by (apply Hfg, lookup_insert_eq).
  assert (msum f m ≤ msum g m); [|lia]. apply IH. intros k' v' Hk'. apply Hfg.
  rewrite lookup_insert_ne by congruence. done.
Qed.
Lemma msum_const_0 m : msum (λ _ _, 0) m = 0.
Proof.
  induction m as [|k v m Hk IH] using map_ind; [done|].
  by rewrite msum_insert_None, IH.
Qed.
Lemma msum_nonneg f m : (∀ k v, m !! k = Some v → 0 ≤ f k v) → 0 ≤ msum f m.
Proof. intros Hf. rewrite <-(msum_const_0 m). by apply msum_le. Qed.
Lemma msum_lookup_le f m k v :
  (∀ k v, m !! k = Some v → 0 ≤ f k v) → m !! k = Some v → f k v ≤ msum f m.
Proof.
  intros Hf Hk. rewrite (msum_delete f m k v Hk).
  assert (0 ≤ msum f (delete k m)); [|lia].
  apply msum_nonneg. intros k' v' [_ Hk']%lookup_delete_Some. eauto.
Qed.
Lemma msum_add f g m : msum (λ k v, f k v + g k v) m = msum f m + msum g m.
Proof.
  induction m as [|k v m Hk IH] using map_ind; [done|].
  rewrite !msum_insert_None by done. lia.
Qed.
Lemma msum_mul_l c f m : msum (λ k v, c * f k v) m = c * msum f m.
Proof.
  induction m as [|k v m Hk IH] using map_ind; [rewrite !msum_empty; lia|].
  rewrite !msum_insert_None by done. lia.
Qed.
(** Stated with the fold, because the sum of [g <$> m] is over another type. *)
Lemma msum_fmap {W} (g : V → W) (f : K → W → Z) m :
  msum (λ k v, f k (g v)) m = map_fold (λ k v acc, f k v + acc) 0 (g <$> m).
Proof.
  induction m as [|k v m Hk IH] using map_ind; [by rewrite fmap_empty, map_fold_empty|].
  rewrite msum_insert_None, fmap_insert by done.
  rewrite (map_fold_insert_L (λ k v acc, f k v + acc)); [by rewrite IH|intros; lia|].
  by rewrite lookup_fmap, Hk.
Qed.
End msum.

(** [iter().sum()] over a list. *)
Definition lsum {A} (f : A → Z) (l : list A) : Z := foldr (λ x acc, f x + acc) 0 l.

Lemma lsum_cons {A} (f : A → Z) x l : lsum f (x :: l) = f x + lsum f l.
Proof. done. Qed.
Lemma lsum_app {A} (f : A → Z) l1 l2 : lsum f (l1 ++ l2) = lsum f l1 + lsum f l2.
Proof. induction l1; simpl; [done|]. rewrite IHl1. lia. Qed.
Lemma lsum_nonneg {A} (f : A → Z) l : (∀ x, x ∈ l → 0 ≤ f x) → 0 ≤ lsum f l.
Proof.
  induction l as [|x l IH]; intros Hf; simpl; [done|].
  assert (0 ≤ f x) by (apply Hf; left).
  assert (0 ≤ lsum f l) by (apply IH; intros; apply Hf; by right). lia.
Qed.
#[export] Instance lsum_Permutation {A} (f : A → Z) : Proper ((≡ₚ) ==> (=)) (lsum f).
Proof. induction 1; simpl; lia. Qed.
Lemma lsum_map_to_list `{Countable K} {V} (f : K → V → Z) (m : gmap K V) :
  lsum (λ p, f p.1 p.2) (map_to_list m) = msum f m.
Proof.
  induction m as [|k v m Hk IH] using map_ind.
  - by rewrite map_to_list_empty, msum_empty.
  - rewrite map_to_list_insert, msum_insert_None by done. simpl. by rewrite IH.
Qed.

(** ** Lists *)

(** Keys dropped one after the other. *)
Lemma drop_keys_cons {A} `{EqDecision K} (k a : K) (l : list K) (o : option A) :
  (if decide (k ∈ l) then None else if decide (k = a) then None else o) =
  if decide (k ∈ a :: l) then None else o.
Proof. repeat case_decide; try done; rewrite elem_of_cons in *; tauto. Qed.

Lemma StronglySorted_app_cons {A} (R : relation A) (l1 l2 : list A) x y :
  StronglySorted R (l1 ++ l2) → x ∈ l1 → y ∈ l2 → R x y.
Proof.
  induction l1 as [|z l1 IH]; simpl; intros Hs Hx Hy; [by apply not_elem_of_nil in Hx|].
  apply StronglySorted_inv in Hs as [Hs Hz]. apply elem_of_cons in Hx as [->|Hx]; [|by apply IH].
  rewrite Forall_forall in Hz. apply Hz, elem_of_app. by right.
Qed.
Lemma StronglySorted_app_l {A} (R : relation A) (l1 l2 : list A) :
  StronglySorted R (l1 ++ l2) → StronglySorted R l1.
Proof.
  induction l1 as [|z l1 IH]; simpl; intros Hs; [constructor|].
  apply StronglySorted_inv in Hs as [Hs Hz]. constructor; [by apply IH|].
  rewrite Forall_forall in *. intros x Hx. apply Hz, elem_of_app. by left.
Qed.
Lemma StronglySorted_snoc {A} (R : relation A) (l : list A) x :
  StronglySorted R l → (∀ y, y ∈ l → R y x) → StronglySorted R (l ++ [x]).
Proof.
  induction 1 as [|z l Hs IH Hz]; intros Hx; simpl; [by repeat constructor|].
  constructor; [apply IH; intros; apply Hx; by right|].
  rewrite Forall_app. split; [done|]. constructor; [apply Hx; left | done].
Qed.
Lemma StronglySorted_rev {A} (R : relation A) (l : list A) :
  StronglySorted R l → StronglySorted (flip R) (rev l).
Proof.
  induction 1 as [|x l Hs IH Hx]; simpl; [constructor|].
  apply StronglySorted_snoc; [done|]. intros y Hy. rewrite Forall_forall in Hx.
  apply Hx. by apply list_elem_of_In, in_rev, list_elem_of_In in Hy.
Qed.
Lemma StronglySorted_fmap {A B} (R : relation A) (S : relation B) (f : A → B) (l : list A) :
  (∀ x y, R x y → S (f x) (f y)) → StronglySorted R l → StronglySorted S (f <$> l).
Proof.
  intros HRS. induction 1 as [|x l Hs IH Hx]; simpl; constructor; [done|].
  rewrite Forall_fmap. eapply Forall_impl; [exact Hx|]. intros y. apply HRS.
Qed.

(** ** Automation *)

(** Facts that close the routine side conditions. *)
Create HintDb zeno discriminated.
Create Rewrite HintDb zeno_rw.
#[export] Hint Resolve byte_Z_range array_length : zeno.
#[export] Hint Rewrite @array_length @length_le_bytes : zeno_rw.

(** Splits the conditionals and matches of a goal or hypothesis. *)
Ltac split_cases :=
  repeat (case_match || case_decide || simplify_eq/=).
Ltac inv_res :=
  repeat match goal with
  | H : Ok _ = Ok _ |- _ => injection H as H; subst
  | H : Err _ = Ok _ |- _ => discriminate H
  | H : Ok _ = Err _ |- _ => discriminate H
  | H : Panic = _ |- _ => discriminate H
  | H : _ = Panic |- _ => discriminate H
  | H : _ ≫= _ = Ok _ |- _ => apply res_bind_inv_ok in H as (? & ? & H)
  end.
