(* ===== verification/Wp.v ===== *)
(** Weakest preconditions for the state-passing computations of the prelude: one
    postcondition for a run that ends in [Ok] and one for a run that does not. *)

From S2P Require Import Prelude.

Definition wp {S E A} (m : eff S E A) (s : S) (Q : A → S → Prop) (X : S → Prop) : Prop :=
  match m s with (Ok a, s') => Q a s' | (_, s') => X s' end.
(** Both kinds of run keep [P]. *)
Abbreviation keeps m s P := (wp m s (λ _, P) P).

Section wp.
Context {S E : Type}.
Implicit Types (s : S) (X : S → Prop).

Lemma wp_bind {A B} (m : eff S E A) (f : A → eff S E B) s Q X :
  wp m s (λ a s', wp (f a) s' Q X) X → wp (m ≫= f) s Q X.
Proof. unfold wp, mbind, eff_bind. by destruct (m s) as [[a|e|] s']. Qed.
Lemma wp_ret {A} (a : A) s (Q : A → S → Prop) X : Q a s → wp (mret a : eff S E A) s Q X.
Proof. done. Qed.
Lemma wp_get s (Q : S → S → Prop) X : Q s s → wp (eff_get : eff S E S) s Q X.
Proof. done. Qed.
Lemma wp_modify (f : S → S) s (Q : () → S → Prop) X :
  Q tt (f s) → wp (eff_modify f : eff S E ()) s Q X.
Proof. done. Qed.
Lemma wp_lift {A} (m : res E A) s (Q : A → S → Prop) X :
  (∀ a, m = Ok a → Q a s) → X s → wp (eff_lift m) s Q X.
Proof. unfold wp, eff_lift. destruct m; eauto. Qed.
Lemma wp_mono {A} (m : eff S E A) s (Q Q' : A → S → Prop) X X' :
  wp m s Q X → (∀ a s', Q a s' → Q' a s') → (∀ s', X s' → X' s') → wp m s Q' X'.
Proof. unfold wp. destruct (m s) as [[a|e|] s']; eauto. Qed.
Lemma wp_run {A} (m : eff S E A) s Q X r s' :
  wp m s Q X → m s = (r, s') → match r with Ok a => Q a s' | _ => X s' end.
Proof. unfold wp. intros Hw E'. rewrite E' in Hw. by destruct r. Qed.
Lemma keeps_run {A} (m : eff S E A) s (P : S → Prop) : keeps m s P ↔ P (m s).2.
Proof. unfold wp. by destruct (m s) as [[a|e|] s']. Qed.
Lemma keeps_mono {A} (m : eff S E A) s (P P' : S → Prop) :
  keeps m s P → (∀ s', P s' → P' s') → keeps m s P'.
Proof. intros Hm HP. eapply wp_mono; [exact Hm | intros a; exact (HP) | exact HP]. Qed.
(** A run with a known outcome. *)
Lemma wp_ok {A} (m : eff S E A) s a s' (Q : A → S → Prop) X : m s = (Ok a, s') → Q a s' → wp m s Q X.
Proof. unfold wp. intros E' HQ. by rewrite E'. Qed.
Lemma wp_conj {A} (m : eff S E A) s (Q Q' : A → S → Prop) X X' :
  wp m s Q X → wp m s Q' X' → wp m s (λ a s', Q a s' ∧ Q' a s') (λ s', X s' ∧ X' s').
Proof. unfold wp. by destruct (m s) as [[a|e|] s']. Qed.
End wp.

(** One step of symbolic execution; conditionals and matches are left to the caller. *)
Ltac wp_step :=
  lazymatch goal with
  | |- wp (_ ≫= _) _ _ _ => apply wp_bind
  | |- wp (mret _) _ _ _ => apply wp_ret
  | |- wp eff_get _ _ _ => apply wp_get
  | |- wp (eff_modify _) _ _ _ => apply wp_modify
  | |- wp (eff_lift _) _ _ _ => apply wp_lift; [intros ? ?|]
  end.
