(* ===== verification/Types.v ===== *)
(** The shared domain types of [crates/zeno-types/src/lib.rs].  Field names carry
    a short prefix per record, because Rocq projections are global; constructors
    of enums keep the source's names, prefixed where two enums share one.
    Integers are [Z]; [usize] is 64 bits. *)

From S2P Require Import Prelude.

(** ** Addresses, accounts and staking *)
Abbreviation Hash32 := (array 32).
Abbreviation Address := (array 32).
Abbreviation EvmAddress := (array 20).

Record ChainId := { chain_id_str : string }.

Record Account := { acct_nonce : Z; acct_balance : Z }.
#[export] Instance account_default : Inhabited Account :=
  populate {| acct_nonce := 0; acct_balance := 0 |}.

Inductive ValidatorStatus := Active | Jailed | Inactive.

Record ValidatorStake := {
  vs_validator_address : Address;
  vs_self_bond : Z;
  vs_total_stake : Z;
  vs_commission_bps : Z;
  vs_status : ValidatorStatus;
  vs_last_liveness_epoch : Z
}.

Record Delegation := {
  dl_delegator : Address;
  dl_validator_address : Address;
  dl_amount : Z
}.

Record UnbondingDelegation := {
  ub_delegator : Address;
  ub_validator_address : Address;
  ub_amount : Z;
  ub_release_epoch : Z
}.

Record SlashingEvent := {
  se_validator_address : Address;
  se_epoch : Z;
  se_slash_bps : Z;
  se_reason : string
}.

Record EconomicsParams := {
  ec_minimum_self_bond : Z;
  ec_epoch_length : Z;
  ec_unbonding_epochs : Z;
  ec_treasury_bps : Z;
  ec_downtime_slash_bps : Z;
  ec_double_sign_slash_bps : Z
}.

Inductive ParameterUpdate := Economics (e : EconomicsParams).

Record GovernanceProposal := {
  gp_proposal_id : Z;
  gp_activation_epoch : Z;
  gp_update : ParameterUpdate;
  gp_description : string
}.

Record GovernanceState := {
  gs_economics : EconomicsParams;
  gs_pending : list GovernanceProposal;
  gs_next_proposal_id : Z
}.

Definition GovernanceState_new (economics : EconomicsParams) : GovernanceState :=
  {| gs_economics := economics; gs_pending := []; gs_next_proposal_id := 1 |}.

Record EpochTransition := {
  et_epoch : Z;
  et_height : Z;
  et_validator_set : list Address;
  et_validator_set_root : Hash32;
  et_economics : EconomicsParams
}.

Record StakingState := {
  ss_epoch : Z;
  ss_validators : gmap Address ValidatorStake;
  ss_delegations : gmap (Address * Address) Delegation;
  ss_unbonding : list UnbondingDelegation;
  ss_treasury_balance : Z;
  ss_slashing_events : list SlashingEvent
}.
Definition StakingState_default : StakingState :=
  {| ss_epoch := 0; ss_validators := ∅; ss_delegations := ∅; ss_unbonding := [];
     ss_treasury_balance := 0; ss_slashing_events := [] |}.

(** ** Transactions and receipts *)
Inductive EvmTransactionKind :=
  | Create (bytecode : list byte)
  | Call (contract : EvmAddress) (input : list byte).

Record EvmTransaction := {
  ev_kind : EvmTransactionKind;
  ev_value : Z;
  ev_gas_limit : Z;
  ev_gas_price : Z
}.

Record TransactionBody := {
  tb_chain_id : ChainId;
  tb_sender : Address;
  tb_recipient : Address;
  tb_amount : Z;
  tb_nonce : Z;
  tb_fee : Z;
  tb_evm : option EvmTransaction;
  tb_memo : option string;
  tb_valid_until : option Z
}.

Record Transaction := {
  tx_body : TransactionBody;
  tx_public_key : list byte;
  tx_signature : list byte
}.

Inductive ExecutionOutcome := Success | Rejected (reason : string).

Record EvmLog := {
  el_address : EvmAddress;
  el_topics : list Hash32;
  el_data : list byte
}.

Record EvmCallResult := {
  ecr_contract_address : option EvmAddress;
  ecr_output : list byte;
  ecr_gas_used : Z;
  ecr_logs : list EvmLog
}.

Record Receipt := {
  rc_tx_hash : Hash32;
  rc_height : Z;
  rc_fee_charged : Z;
  rc_outcome : ExecutionOutcome;
  rc_evm : option EvmCallResult
}.

Record EvmAccountState := {
  ea_nonce : Z;
  ea_balance : Z;
  ea_code : list byte;
  ea_storage : gmap Hash32 Hash32
}.
Definition EvmAccountState_default : EvmAccountState :=
  {| ea_nonce := 0; ea_balance := 0; ea_code := []; ea_storage := ∅ |}.

Record EvmCallRequest := {
  ecq_from : option EvmAddress;
  ecq_to : EvmAddress;
  ecq_data : list byte;
  ecq_gas_limit : option Z;
  ecq_value : option Z
}.

(** Log filter for [eth_getLogs]. *)
Record EvmLogFilter := {
  lf_from_block : option Z;
  lf_to_block : option Z;
  lf_address : option EvmAddress;
  lf_topics : list (option Hash32)
}.

(** ** Genesis and parameters *)
Record Validator := {
  vd_validator_id : string;
  vd_voting_power : Z;
  vd_p2p_address : string;
  vd_rpc_address : string;
  vd_public_key : list byte;
  vd_address : Address
}.

Record ConsensusParams := {
  cp_proposal_timeout_ms : Z;
  cp_vote_timeout_ms : Z;
  cp_max_transactions_per_block : Z;
  cp_max_block_bytes : Z;
  cp_target_gas_per_block : Z;
  cp_max_gas_per_block : Z
}.
Definition default_max_block_bytes : Z := 2097152.
Definition default_target_gas : Z := 15000000.
Definition default_max_gas : Z := 30000000.

Record GasPricingState := { gps_base_fee : Z; gps_last_block_gas_used : Z }.
Definition GasPricingState_default : GasPricingState :=
  {| gps_base_fee := 0; gps_last_block_gas_used := 0 |}.

Record SlashingProtection := {
  sp_last_signed_proposal_height : Z;
  sp_last_signed_prevote_height : Z;
  sp_last_signed_precommit_height : Z
}.
Definition SlashingProtection_default : SlashingProtection :=
  {| sp_last_signed_proposal_height := 0; sp_last_signed_prevote_height := 0;
     sp_last_signed_precommit_height := 0 |}.

Record ValidatorJoinRequest := {
  vj_public_key : list byte;
  vj_p2p_address : string;
  vj_rpc_address : string;
  vj_self_bond : Z
}.

Record NetworkMetadata := {
  nm_network_name : string;
  nm_ticker : string;
  nm_rpc_urls : list string;
  nm_block_explorer_url : string;
  nm_metamask_compatible : bool;
  nm_metamask_snap_compatible : bool;
  nm_smart_contracts_supported : bool;
  nm_evm_chain_id : option Z;
  nm_compatibility_notice : string;
  nm_metamask_snap_id : option string
}.

Record CryptoParams := { cr_ml_dsa_parameter : string }.

Record Genesis := {
  gn_chain_id : ChainId;
  gn_metadata : NetworkMetadata;
  gn_accounts : gmap Address Account;
  gn_validators : list Validator;
  gn_consensus : ConsensusParams;
  gn_crypto : CryptoParams;
  gn_economics : EconomicsParams
}.

(** ** Blocks, proposals and votes *)
Record BlockHeader := {
  bh_height : Z;
  bh_round : Z;
  bh_chain_id : ChainId;
  bh_parent_hash : Hash32;
  bh_tx_root : Hash32;
  bh_state_root : Hash32;
  bh_receipt_root : Hash32;
  bh_proposer : Address;
  bh_timestamp_ms : Z
}.

Record Block := {
  bk_header : BlockHeader;
  bk_transactions : list Transaction;
  bk_proposer_public_key : list byte;
  bk_proposer_signature : list byte
}.

Record Proposal := {
  pr_height : Z;
  pr_round : Z;
  pr_block : Block;
  pr_validator_address : Address
}.

Inductive VoteStep := Prevote | Precommit.

Record Vote := {
  vt_height : Z;
  vt_round : Z;
  vt_step : VoteStep;
  vt_block_hash : Hash32;
  vt_validator_address : Address;
  vt_public_key : list byte;
  vt_signature : list byte
}.

Record Evidence := {
  evd_validator_address : Address;
  evd_height : Z;
  evd_round : Z;
  evd_reason : string
}.

Record CommitCertificate := {
  cc_block_hash : Hash32;
  cc_height : Z;
  cc_round : Z;
  cc_votes : list Vote
}.

Record FinalizedBlock := {
  fb_block : Block;
  fb_certificate : CommitCertificate;
  fb_receipts : list Receipt;
  fb_epoch_transition : option EpochTransition
}.

(** ** Messages *)
Inductive SyncRequest :=
  | ReqHeaders (start_height limit : Z)
  | ReqBlockByHeight (height : Z)
  | ReqBlockByHash (hash : Hash32).

Inductive SyncResponse :=
  | RespHeaders (headers : list BlockHeader)
  | RespBlock (block : option FinalizedBlock)
  | RespNotFound.

Record Handshake := {
  hs_chain_id : ChainId;
  hs_node_id : string;
  hs_best_height : Z
}.

Record ChainStatus := {
  cs_metadata : NetworkMetadata;
  cs_chain_id : ChainId;
  cs_latest_height : Z;
  cs_latest_hash : Hash32;
  cs_node_id : string;
  cs_peers : list string
}.

Inductive NetworkMessage :=
  | MsgHandshake (h : Handshake)
  | MsgTransaction (t : Transaction)
  | MsgProposal (p : Proposal)
  | MsgVote (v : Vote)
  | MsgCommit (f : FinalizedBlock)
  | MsgStatus (s : ChainStatus)
  | MsgSyncRequest (request_id : Z) (request : SyncRequest)
  | MsgSyncResponse (request_id : Z) (response : SyncResponse)
  | MsgPing (nonce : Z)
  | MsgPong (nonce : Z).

(** ** Consensus persistence *)
Record ConsensusSnapshot := { sn_height : Z; sn_round : Z }.

Inductive ConsensusWalEntry :=
  | SnapshotPersisted (height round : Z)
  | ProposalAccepted (height round : Z) (block_hash : Hash32)
  | ProposalBroadcast (height round : Z) (block_hash : Hash32)
  | VoteRecorded (height round : Z) (step : VoteStep) (block_hash : Hash32)
      (validator_address : Address)
  | VoteBroadcast (height round : Z) (step : VoteStep) (block_hash : Hash32)
      (validator_address : Address)
  | CommitFinalized (height round : Z) (block_hash : Hash32)
  | HeightAdvanced (next_height : Z)
  | RoundAdvanced (height next_round : Z)
  | EvidenceRecorded (height round : Z) (validator_address : Address) (reason : string)
  | Locked (height locked_round : Z) (block_hash : Hash32) (block : Block)
  | PolkaObserved (height valid_round : Z) (block_hash : Hash32) (block : Block).

Inductive TransactionStatus :=
  | Unknown
  | Pending
  | Finalized (receipt : Receipt).

Inductive TransactionError :=
  | ZeroAmount
  | ZeroFee
  | MemoTooLarge
  | Expired (height : Z)
  | WrongChainId
  | InsufficientBalance
  | InvalidNonce (expected actual : Z)
  | SenderMismatch
  | InvalidSignature
  | TransactionTooLarge (size : Z)
  | GasLimitExceeded (max actual : Z).

(** ** Decidable equality ([derive(PartialEq, Eq)]) *)
#[export] Instance chain_id_eq_dec : EqDecision ChainId.
Proof. solve_decision. Defined.
#[export] Instance account_eq_dec : EqDecision Account.
Proof. solve_decision. Defined.
#[export] Instance status_eq_dec : EqDecision ValidatorStatus.
Proof. solve_decision. Defined.
#[export] Instance stake_eq_dec : EqDecision ValidatorStake.
Proof. solve_decision. Defined.
#[export] Instance delegation_eq_dec : EqDecision Delegation.
Proof. solve_decision. Defined.
#[export] Instance unbonding_eq_dec : EqDecision UnbondingDelegation.
Proof. solve_decision. Defined.
#[export] Instance slashing_eq_dec : EqDecision SlashingEvent.
Proof. solve_decision. Defined.
#[export] Instance economics_eq_dec : EqDecision EconomicsParams.
Proof. solve_decision. Defined.
#[export] Instance update_eq_dec : EqDecision ParameterUpdate.
Proof. solve_decision. Defined.
#[export] Instance gproposal_eq_dec : EqDecision GovernanceProposal.
Proof. solve_decision. Defined.
#[export] Instance transition_eq_dec : EqDecision EpochTransition.
Proof. solve_decision. Defined.
#[export] Instance evm_kind_eq_dec : EqDecision EvmTransactionKind.
Proof. solve_decision. Defined.
#[export] Instance evm_tx_eq_dec : EqDecision EvmTransaction.
Proof. solve_decision. Defined.
#[export] Instance body_eq_dec : EqDecision TransactionBody.
Proof. solve_decision. Defined.
#[export] Instance tx_eq_dec : EqDecision Transaction.
Proof. solve_decision. Defined.
#[export] Instance outcome_eq_dec : EqDecision ExecutionOutcome.
Proof. solve_decision. Defined.
#[export] Instance log_eq_dec : EqDecision EvmLog.
Proof. solve_decision. Defined.
#[export] Instance call_result_eq_dec : EqDecision EvmCallResult.
Proof. solve_decision. Defined.
#[export] Instance receipt_eq_dec : EqDecision Receipt.
Proof. solve_decision. Defined.
#[export] Instance evm_account_eq_dec : EqDecision EvmAccountState.
Proof. solve_decision. Defined.
#[export] Instance header_eq_dec : EqDecision BlockHeader.
Proof. solve_decision. Defined.
#[export] Instance block_eq_dec : EqDecision Block.
Proof. solve_decision. Defined.
#[export] Instance proposal_eq_dec : EqDecision Proposal.
Proof. solve_decision. Defined.
#[export] Instance step_eq_dec : EqDecision VoteStep.
Proof. solve_decision. Defined.
#[export] Instance vote_eq_dec : EqDecision Vote.
Proof. solve_decision. Defined.
#[export] Instance certificate_eq_dec : EqDecision CommitCertificate.
Proof. solve_decision. Defined.
#[export] Instance finalized_eq_dec : EqDecision FinalizedBlock.
Proof. solve_decision. Defined.
#[export] Instance sync_request_eq_dec : EqDecision SyncRequest.
Proof. solve_decision. Defined.
#[export] Instance wal_eq_dec : EqDecision ConsensusWalEntry.
Proof. solve_decision. Defined.
