(* ===== verification/Codec.v ===== *)
(** [crates/zeno-codec]: the canonical encoding.  [bincode] is not part of the
    repository: its two entry points are the operations of the class [Serde],
    one instance per type, and [SerdeLaws] is what the code relies on. *)

From S2P Require Import Prelude.

Inductive CodecError :=
  | Encode (msg : string)
  | Decode (msg : string)
  | TrailingBytes.

(** [bincode::serde::encode_to_vec] (total for the types of the repository) and
    [decode_from_slice], which also returns the number of consumed bytes. *)
Class Serde (T : Type) := {
  encode_to_vec : T → list byte;
  decode_from_slice : list byte → res string (T * nat)
}.

(** A value is decoded back from the front of any input that starts with its
    encoding. *)
Class SerdeLaws (T : Type) `{!Serde T} : Prop :=
  decode_encode_prefix : ∀ (x : T) (rest : list byte),
    decode_from_slice (encode_to_vec x ++ rest) = Ok (x, length (encode_to_vec x)).

Module Codec.
Section codec.
Context `{Serde T}.

Definition encode (value : T) : res CodecError (list byte) := Ok (encode_to_vec value).
Definition decode (bytes : list byte) : res CodecError T :=
  '(value, consumed) ← map_err Decode (decode_from_slice bytes);
  if negb (Nat.eqb consumed (length bytes)) then Err TrailingBytes else Ok value.

Context `{!SerdeLaws T}.

Lemma encode_inj_prefix (x y : T) r s :
  encode_to_vec x ++ r = encode_to_vec y ++ s → x = y ∧ r = s.
Proof.
  intros Heq. pose proof (decode_encode_prefix x r) as Hx. rewrite Heq in Hx.
  rewrite decode_encode_prefix in Hx. simplify_eq.
  split; [done|]. by apply (inj (encode_to_vec x ++.)).
Qed.
#[global] Instance encode_to_vec_inj : Inj (=) (=) (@encode_to_vec T _).
Proof. intros x y Heq. apply (encode_inj_prefix x y [] []). by rewrite Heq. Qed.

Lemma decode_encode_app (x : T) rest :
  decode (encode_to_vec x ++ rest) =
    match rest with [] => Ok x | _ => Err TrailingBytes end.
Proof.
  unfold decode. rewrite decode_encode_prefix. simpl. rewrite length_app.
  destruct rest as [|b rest]; simpl.
  - by rewrite Nat.add_0_r, Nat.eqb_refl.
  - destruct (Nat.eqb_spec (length (encode_to_vec x))
      (length (encode_to_vec x) + S (length rest))); [lia | done].
Qed.

Lemma decode_encode (x : T) : decode (encode_to_vec x) = Ok x.
Proof. rewrite <-(app_nil_r (encode_to_vec x)). apply (decode_encode_app x []). Qed.
End codec.
End Codec.

(** ** A concrete codec

    Combinators for the examples of the development, which take them for
    [bincode]: an integer is the bits of its code, one per byte, and an end mark; a
    tuple is the sequence of its parts; a list is its length and its elements. *)
Module ToyCodec.
Fixpoint write (p : positive) : list byte :=
  match p with
  | xH => [x02]
  | xO p => x00 :: write p
  | xI p => x01 :: write p
  end.
Fixpoint read (bs : list byte) : option (positive * nat) :=
  match bs with
  | x00 :: bs => '(p, n) ← read bs; Some (xO p, S n)
  | x01 :: bs => '(p, n) ← read bs; Some (xI p, S n)
  | x02 :: _ => Some (xH, 1%nat)
  | _ => None
  end.
Lemma read_write p rest : read (write p ++ rest) = Some (p, length (write p)).
Proof. induction p; simpl; rewrite ?IHp; done. Qed.

Definition by_count {T} `{Countable T} : Serde T := {|
  encode_to_vec x := write (encode x);
  decode_from_slice bs :=
    match read bs with
    | Some (p, n) =>
        match countable.decode p with Some x => Ok (x, n) | None => Err "tag"%string end
    | None => Err "eof"%string
    end
|}.
Lemma by_count_laws {T} `{Countable T} : @SerdeLaws T by_count.
Proof.
  intros x rest. unfold decode_from_slice, encode_to_vec, by_count.
  by rewrite read_write, decode_encode.
Qed.
#[export] Instance Z_serde : Serde Z := by_count.
#[export] Instance Z_laws : SerdeLaws Z := by_count_laws.
#[export] Instance bool_serde : Serde bool := by_count.
#[export] Instance bool_laws : SerdeLaws bool := by_count_laws.

#[export] Instance byte_serde : Serde byte := {|
  encode_to_vec b := [b];
  decode_from_slice bs :=
    match bs with b :: _ => Ok (b, 1%nat) | [] => Err "eof"%string end
|}.
#[export] Instance byte_laws : SerdeLaws byte.
Proof. done. Qed.

(** The second part is read after the bytes of the first. *)
Definition then_read {A B} (r : res string (A * nat)) (bs : list byte)
    (f : A → list byte → res string (B * nat)) : res string (B * nat) :=
  '(a, n) ← r; '(b, m) ← f a (drop n bs); Ok (b, (n + m)%nat).
Lemma then_read_app {A B} `{SerdeLaws A} (a : A) rest
    (f : A → list byte → res string (B * nat)) b m :
  f a rest = Ok (b, m) →
  then_read (decode_from_slice (encode_to_vec a ++ rest)) (encode_to_vec a ++ rest) f =
    Ok (b, (length (encode_to_vec a) + m)%nat).
Proof.
  intros Hf. unfold then_read. rewrite decode_encode_prefix. simpl.
  by rewrite drop_app_length, Hf.
Qed.

#[export] Instance prod_serde `{Serde A, Serde B} : Serde (A * B) := {|
  encode_to_vec p := encode_to_vec p.1 ++ encode_to_vec p.2;
  decode_from_slice bs := then_read (decode_from_slice bs) bs (λ a bs,
    then_read (decode_from_slice bs) bs (λ b _, Ok ((a, b), 0%nat)))
|}.
#[export] Instance prod_laws `{SerdeLaws A, SerdeLaws B} : SerdeLaws (A * B).
Proof.
  intros [a b] rest. simpl. rewrite <-app_assoc, length_app.
  erewrite then_read_app; [done|]. erewrite then_read_app; [|done]. by rewrite Nat.add_0_r.
Qed.

Fixpoint write_list `{Serde A} (l : list A) : list byte :=
  match l with [] => [] | a :: l => encode_to_vec a ++ write_list l end.
Fixpoint read_list `{Serde A} (n : nat) (bs : list byte) : res string (list A * nat) :=
  match n with
  | O => Ok ([], 0%nat)
  | S n => then_read (decode_from_slice bs) bs (λ a bs,
      '(l, m) ← read_list n bs; Ok (a :: l, m))
  end.
#[export] Instance list_serde `{Serde A} : Serde (list A) := {|
  encode_to_vec l := encode_to_vec (Z.of_nat (length l)) ++ write_list l;
  decode_from_slice bs := then_read (decode_from_slice bs) bs (λ n, read_list (Z.to_nat n))
|}.
Lemma read_list_app `{SerdeLaws A} (l : list A) rest :
  read_list (length l) (write_list l ++ rest) =
    Ok (l, length (write_list l)).
Proof.
  induction l as [|a l IH]; [done|]. cbn [length read_list write_list].
  rewrite <-app_assoc, length_app. erewrite then_read_app; [done|]. by rewrite IH.
Qed.
#[export] Instance list_laws `{SerdeLaws A} : SerdeLaws (list A).
Proof.
  intros l rest. cbn [encode_to_vec decode_from_slice list_serde]. rewrite <-app_assoc, length_app.
  erewrite then_read_app; [done|]. rewrite Nat2Z.id. apply read_list_app.
Qed.

(** A type is encoded through another one. *)
Definition via {A B} (f : A → B) (g : B → option A) `{Serde B} : Serde A := {|
  encode_to_vec a := encode_to_vec (f a);
  decode_from_slice bs :=
    '(b, n) ← decode_from_slice bs; (ok_or "tag"%string ((., n) <$> g b))
|}.
Lemma via_laws {A B} (f : A → B) (g : B → option A) `{SerdeLaws B} :
  (∀ a, g (f a) = Some a) → @SerdeLaws A (via f g).
Proof. intros Hg a rest. simpl. rewrite decode_encode_prefix. simpl. by rewrite Hg. Qed.

#[export] Instance option_serde `{Serde A} : Serde (option A) :=
  via option_list (λ l, Some (head l)).
#[export] Instance option_laws `{SerdeLaws A} : SerdeLaws (option A).
Proof. apply (via_laws option_list _). intros [x|]; done. Qed.
#[export] Instance string_serde : Serde string :=
  via String.list_byte_of_string (λ l, Some (String.string_of_list_byte l)).
#[export] Instance string_laws : SerdeLaws string.
Proof.
  apply (via_laws _ _). intros s. by rewrite String.string_of_list_byte_of_string.
Qed.
#[export] Instance array_serde {n} : Serde (array n) := via array_bytes (array_of n).
#[export] Instance array_laws {n} : SerdeLaws (array n).
Proof. apply (via_laws _ _), array_of_bytes. Qed.
End ToyCodec.

(** A canonical encoding decodes to its value, is rejected when anything
    follows it, and no two values share one. *)
Lemma codec_canonical `{SerdeLaws T} (x y : T) (rest : list byte) :
  Codec.decode (encode_to_vec x) = Ok x ∧
  (rest ≠ [] → Codec.decode (encode_to_vec x ++ rest) = Err TrailingBytes) ∧
  (encode_to_vec x = encode_to_vec y → x = y).
Proof.
  split; [apply Codec.decode_encode|]. split.
  - intros Hr. rewrite Codec.decode_encode_app. by destruct rest.
  - apply (inj _).
Qed.
#[local] Existing Instances ToyCodec.Z_serde ToyCodec.Z_laws.
Lemma codec_canonical_witness :
  Codec.decode (encode_to_vec 7 ++ [x05]) = @Err CodecError Z TrailingBytes.
Proof. apply (codec_canonical 7 7 [x05]); done. Defined.
