(* ===== verification/Hash.v ===== *)
(** [crates/zeno-hash]: digests and the Merkle root.  The digest functions of the
    [blake3], [sha3] and [hex] crates are parameters. *)

From S2P Require Import Prelude Types.

(** [blake3::hash], [Sha3_256::digest] and [hex::decode]. *)
Class HashBackend := {
  blake3_hash : list byte → Hash32;
  sha3_256 : list byte → Hash32
}.
Class HexBackend := hex_decode : string → res string (list byte).
(** [hex::encode]. *)
Class HexEncode := hex_encode : list byte → string.
(** What the code relies on of the [hex] crate. *)
Class HexLaws `{HexBackend, HexEncode} : Prop := {
  hex_decode_encode bytes : hex_decode (hex_encode bytes) = Ok bytes;
  hex_decode_length s bytes :
    hex_decode s = Ok bytes → String.length s = (2 * length bytes)%nat;
  hex_decode_returns s : hex_decode s ≠ Panic
}.

Inductive HashParseError := Hex (msg : string) | Length.

Definition zero : Hash32 := array_repeat 32 x00.

Definition from_str `{HexBackend} (value : string) : res HashParseError Hash32 :=
  bytes ← map_err Hex (hex_decode value);
  if negb (Nat.eqb (length bytes) 32) then Err Length else expect (array_of 32 bytes).

Section hash.
Context `{HashBackend}.

Definition hash_bytes (bytes : list byte) : Hash32 := blake3_hash bytes.
Definition sha3_hash (bytes : list byte) : Hash32 := sha3_256 bytes.

(** The bytes hashed for a pair of a layer: the last leaf of an odd layer is
    its own sibling. *)
Fixpoint pair_bytes (layer : list Hash32) : list (list byte) :=
  match layer with
  | a :: b :: layer => (array_bytes a ++ array_bytes b) :: pair_bytes layer
  | [a] => [array_bytes a ++ array_bytes a]
  | [] => []
  end.
(** One turn of the loop: [layer.chunks(2)]. *)
Definition next_layer (layer : list Hash32) : list Hash32 :=
  hash_bytes <$> pair_bytes layer.

(** [while layer.len() > 1]; [None] is out of fuel. *)
Fixpoint merkle_loop (fuel : nat) (layer : list Hash32) : option (list Hash32) :=
  if Nat.leb (length layer) 1 then Some layer else
  match fuel with
  | O => None
  | S fuel => merkle_loop fuel (next_layer layer)
  end.

Definition merkle_root (leaves : list Hash32) : Hash32 :=
  match leaves with
  | [] => hash_bytes []
  | _ => match merkle_loop (length leaves) leaves with
         | Some (h :: _) => h
         | _ => zero
         end
  end.

(** Every byte string the computation hashes. *)
Fixpoint layer_preimages (fuel : nat) (layer : list Hash32) : list (list byte) :=
  if Nat.leb (length layer) 1 then [] else
  match fuel with
  | O => []
  | S fuel => pair_bytes layer ++ layer_preimages fuel (next_layer layer)
  end.
Definition preimages (leaves : list Hash32) : list (list byte) :=
  layer_preimages (length leaves) leaves.

(** Two different byte strings of the two lists have the same digest. *)
Definition collision (xs ys : list (list byte)) : Prop :=
  ∃ p q, p ∈ xs ∧ q ∈ ys ∧ p ≠ q ∧ hash_bytes p = hash_bytes q.

Lemma collision_mono xs ys xs' ys' :
  xs ⊆ xs' → ys ⊆ ys' → collision xs ys → collision xs' ys'.
Proof. intros Hx Hy (p & q & ? & ? & ? & ?). exists p, q. auto. Qed.

(** Induction two elements at a time, as [chunks(2)] goes. *)
Lemma pair_ind (P : list Hash32 → Prop) :
  P [] → (∀ a, P [a]) → (∀ a b l, P l → P (a :: b :: l)) → ∀ l, P l.
Proof.
  intros H0 H1 H2. refine (fix go l := match l with
    | [] => H0 | [a] => H1 a | a :: b :: l => H2 a b l (go l) end).
Qed.

Lemma length_pair_bytes l : length (pair_bytes l) = Nat.div2 (S (length l)).
Proof. induction l using pair_ind; simpl in *; [done..|]. by rewrite IHl. Qed.
Lemma length_next_layer l : length (next_layer l) = Nat.div2 (S (length l)).
Proof. unfold next_layer. by rewrite length_fmap, length_pair_bytes. Qed.
Lemma next_layer_shrinks l : (1 < length l)%nat → (0 < length (next_layer l) < length l)%nat.
Proof.
  intros Hl. rewrite length_next_layer. destruct l as [|a [|b l]]; [simpl in *; lia..|].
  change (Nat.div2 (S (length (a :: b :: l)))) with (S (Nat.div2 (S (length l)))).
  pose proof (Nat.le_div2 (length l)) as Hd. revert Hd.
  generalize (Nat.div2 (S (length l))). simpl. lia.
Qed.

(** The loop ends: [length leaves] turns are always enough. *)
Lemma merkle_loop_total fuel l :
  l ≠ [] → (length l ≤ S fuel)%nat → ∃ h, merkle_loop fuel l = Some [h].
Proof.
  revert l. induction fuel as [|fuel IH]; intros l Hne Hl; simpl.
  - destruct l as [|a [|b l]]; simpl in *; [done | eauto | lia].
  - destruct (Nat.leb_spec (length l) 1).
    + destruct l as [|a [|b l]]; simpl in *; [done | eauto | lia].
    + pose proof (next_layer_shrinks l ltac:(lia)). apply IH; [|lia].
      intros E. rewrite E in *. simpl in *. lia.
Qed.

(** More fuel changes nothing. *)
Lemma merkle_loop_fuel fuel fuel' l r :
  merkle_loop fuel l = Some r → (fuel ≤ fuel')%nat → merkle_loop fuel' l = Some r.
Proof.
  revert fuel' l. induction fuel as [|fuel IH]; intros [|fuel'] l Hr Hle; simpl in *;
    try lia; case_match; try done. by apply IH; [|lia].
Qed.

(** One layer is determined by the next one and its length, up to a collision. *)
Lemma pair_bytes_inj l1 l2 :
  length l1 = length l2 → pair_bytes l1 = pair_bytes l2 → l1 = l2.
Proof.
  revert l2. induction l1 as [|a|a b l1 IH] using pair_ind;
    intros [|c [|d l2]] Hl E; simpl in *; try lia; try done.
  - apply (inj2 cons) in E as [E _]. by apply array_app_inj in E as [-> _].
  - apply (inj2 cons) in E as [E E']. apply array_app_inj in E as [-> E].
    apply array_eq in E as ->. f_equal. f_equal. apply IH; [lia | done].
Qed.
Lemma hash_list_inj xs ys :
  length xs = length ys → hash_bytes <$> xs = hash_bytes <$> ys →
  xs = ys ∨ collision xs ys.
Proof.
  revert ys. induction xs as [|x xs IH]; intros [|y ys] Hl E; simpl in *; try lia; [by left|].
  injection E as E1 E2. destruct (IH ys ltac:(lia) E2) as [->|Hc].
  - destruct (decide (x = y)) as [->|Hne]; [by left|].
    right. exists x, y. repeat split; set_solver.
  - right. eapply collision_mono; [..|done]; set_solver.
Qed.

Lemma merkle_loop_binding f1 f2 l1 l2 h :
  length l1 = length l2 →
  merkle_loop f1 l1 = Some [h] → merkle_loop f2 l2 = Some [h] →
  l1 = l2 ∨ collision (layer_preimages f1 l1) (layer_preimages f2 l2).
Proof.
  revert f2 l1 l2. induction f1 as [|f1 IH]; intros [|f2] l1 l2 Hl E1 E2;
    simpl in *; rewrite <-?Hl in *; destruct (Nat.leb (length l1) 1); simplify_eq; auto.
  assert (length (next_layer l1) = length (next_layer l2)) as Hn
    by by rewrite !length_next_layer, Hl.
  destruct (IH _ _ _ Hn E1 E2) as [Heq|Hc].
  - apply hash_list_inj in Heq as [Heq|Hc].
    + left. by apply pair_bytes_inj.
    + right. eapply collision_mono; [..|done]; set_solver.
    + by rewrite !length_pair_bytes, Hl.
  - right. eapply collision_mono; [..|done]; set_solver.
Qed.

Lemma merkle_root_loop l h :
  l ≠ [] → merkle_root l = h → merkle_loop (length l) l = Some [h].
Proof.
  intros Hne <-. destruct (merkle_loop_total (length l) l Hne ltac:(lia)) as [h Hh].
  unfold merkle_root. rewrite Hh. by destruct l.
Qed.

(** An even prefix is paired on its own. *)
Lemma pair_bytes_app l1 l2 :
  Nat.Even (length l1) → pair_bytes (l1 ++ l2) = pair_bytes l1 ++ pair_bytes l2.
Proof.
  induction l1 as [|a|a b l1 IH] using pair_ind; simpl; intros He.
  - done.
  - apply Nat.even_spec in He. done.
  - f_equal. apply IH. apply Nat.even_spec. by apply Nat.even_spec in He.
Qed.
End hash.

(** A concrete backend for the examples, cheap to evaluate: a tag, the first bytes and the
    last ones. *)
Module ToyHash.
Definition digest (seed : Z) (bs : list byte) : Hash32 :=
  array_pad 32 (Z_byte seed :: Z_byte (Z.of_nat (length bs)) :: take 14 bs ++ drop (length bs - 16) bs).
#[local] Instance backend : HashBackend :=
  {| blake3_hash := digest 17; sha3_256 := digest 23 |}.
End ToyHash.

(** The Merkle root of every list of leaves is computed (the loop runs at most
    once per leaf), and two lists of the same length with the same root are equal
    unless the two computations hash two different byte strings to one digest. *)
Lemma merkle_root_binding `{HashBackend} (l1 l2 : list Hash32) :
  length l1 = length l2 → merkle_root l1 = merkle_root l2 →
  l1 = l2 ∨ collision (preimages l1) (preimages l2).
Proof.
  intros Hl Hr. destruct (decide (l1 = [])) as [->|Hne].
  - left. symmetry. by apply length_zero_iff_nil.
  - apply (merkle_loop_binding _ _ _ _ (merkle_root l1)); [done|..];
      apply merkle_root_loop; try done. intros ->. by destruct l1.
Qed.
Lemma merkle_root_binding_witness :
  let l := [zero; array_repeat 32 x01; array_repeat 32 x02] in
  l = l ∨ @collision ToyHash.backend (@preimages ToyHash.backend l) (@preimages ToyHash.backend l).
Proof. apply (@merkle_root_binding ToyHash.backend); reflexivity. Defined.

(** The root does not commit to the number of leaves: when an even, non-zero
    number of leaves is followed by one more, repeating that last leaf gives the
    same root. *)
Lemma merkle_root_duplicate_last `{HashBackend} (l : list Hash32) (x : Hash32) :
  l ≠ [] → Nat.Even (length l) → merkle_root (l ++ [x]) = merkle_root (l ++ [x; x]).
Proof.
  intros Hne He.
  assert (next_layer (l ++ [x]) = next_layer (l ++ [x; x])) as Hn
    by (unfold next_layer; by rewrite !pair_bytes_app).
  assert (∀ s, s ≠ [] → (length s ≤ 2)%nat →
    merkle_loop (length (l ++ s)) (l ++ s) =
    merkle_loop (length l + length s - 1) (next_layer (l ++ s))) as Hstep.
  { intros s Hs Hs2. rewrite length_app. destruct l as [|a l], s as [|b s]; try done.
    simpl. rewrite length_app. simpl.
    destruct (Nat.leb_spec (length l + S (length s)) 0); [lia|].
    by replace (length l + S (length s))%nat with (length l + S (length s) - 0)%nat at 1 by lia. }
  destruct (merkle_loop_total (length l + 0) (next_layer (l ++ [x]))) as [h Hh].
  { intros E. pose proof (next_layer_shrinks (l ++ [x])) as Hsh. rewrite E in Hsh.
    rewrite length_app in Hsh. destruct l; simpl in *; [done | lia]. }
  { pose proof (next_layer_shrinks (l ++ [x])) as Hsh. rewrite length_app in *.
    destruct l; simpl in *; [done | lia]. }
  assert (merkle_loop (length (l ++ [x])) (l ++ [x]) = Some [h]) as H1.
  { rewrite Hstep by (simpl; first [done | lia]). eapply merkle_loop_fuel; [done|]. simpl. lia. }
  assert (merkle_loop (length (l ++ [x; x])) (l ++ [x; x]) = Some [h]) as H2.
  { rewrite Hstep, <-Hn by (simpl; first [done | lia]).
    eapply merkle_loop_fuel; [done|]. simpl. lia. }
  unfold merkle_root. rewrite H1, H2. by destruct l.
Qed.
Lemma merkle_root_duplicate_last_witness :
  @merkle_root ToyHash.backend [zero; zero; array_repeat 32 x01] =
  @merkle_root ToyHash.backend [zero; zero; array_repeat 32 x01; array_repeat 32 x01].
Proof.
  apply (@merkle_root_duplicate_last ToyHash.backend [zero; zero]);
    [discriminate | by exists 1%nat].
Defined.
