(* ===== verification/GenesisJson.v ===== *)
(** [genesis_accounts_serde] of [crates/zeno-types]: the accounts of [genesis.json] are an
    object whose field names are the addresses in hexadecimal. *)

From S2P Require Import Prelude Types Codec Hash.
Open Scope Z_scope.

(** ** The order of field names *)
#[export] Instance string_lexico : Lexico string := λ a b,
  lexico (bytes_of_string a) (bytes_of_string b).
#[export] Instance string_lexico_po : StrictOrder (@lexico string _).
Proof.
  split.
  - intros a. unfold complement, lexico, string_lexico. apply irreflexivity. apply _.
  - intros a b c. unfold lexico, string_lexico. apply transitivity.
Qed.
Lemma bytes_of_string_inj a b : bytes_of_string a = bytes_of_string b → a = b.
Proof.
  intros He%(f_equal String.string_of_list_byte). unfold bytes_of_string in He.
  by rewrite !String.string_of_list_byte_of_string in He.
Qed.
#[export] Instance string_lexico_tri : TrichotomyT (@lexico string _).
Proof.
  refine (λ a b, match trichotomyT lexico (bytes_of_string a) (bytes_of_string b) with
    | inleft (left H) => inleft (left H)
    | inleft (right H) => inleft (right (bytes_of_string_inj a b H))
    | inright H => inright H end).
Defined.

(** ** The conversions *)
Module GenesisAccounts.
Section serde.
Context `{HexEncode, HexBackend}.

(** [serde::de::Error::custom] keeps the text. *)
Definition serialize (accounts : gmap Address Account) : gmap string Account :=
  list_to_map ((λ '(address, account), (hex_encode (array_bytes address), account)) <$>
    entries accounts).
Definition read_address (address : string) : res string Address :=
  bytes ← hex_decode address;
  if negb (Nat.eqb (length bytes) 32) then Err "address must decode to 32 bytes"%string
  else expect (array_of 32 bytes).
(** Collecting into a [BTreeMap] stops at the first error and keeps the last value. *)
Fixpoint collect (as_strings : list (string * Account)) (accounts : gmap Address Account) :
    res string (gmap Address Account) :=
  match as_strings with
  | [] => Ok accounts
  | (address, account) :: as_strings =>
      raw ← read_address address; collect as_strings (<[raw := account]> accounts)
  end.
Definition deserialize (as_strings : gmap string Account) : res string (gmap Address Account) :=
  collect (entries as_strings) ∅.
End serde.
End GenesisAccounts.

(** ** What is written is read back *)
Section roundtrip.
Context `{HexLaws}.
Definition name (a : Address) : string := hex_encode (array_bytes a).

Lemma read_name a : GenesisAccounts.read_address (name a) = Ok a.
Proof.
  unfold GenesisAccounts.read_address, name. rewrite hex_decode_encode. cbn [mbind res_bind].
  by rewrite array_length, array_of_bytes.
Qed.
#[local] Instance name_inj : Inj (=) (=) name.
Proof. intros a b E. pose proof (read_name a) as Ha. rewrite E, read_name in Ha. by injection Ha. Qed.

Lemma collect_names (l : list (string * Account)) : ∀ out,
  NoDup l.*1 → Forall (λ e, ∃ a, e.1 = name a) l →
  ∃ out', GenesisAccounts.collect l out = Ok out' ∧
    ∀ a, out' !! a = match (list_to_map l : gmap string Account) !! name a with
                     | Some account => Some account | None => out !! a end.
Proof.
  induction l as [|[s account] l IH]; intros out Hnd Hnames.
  { exists out. split; [done|]. intros a. cbn [list_to_map foldr]. done. }
  apply NoDup_cons in Hnd as [Hs Hnd]. apply Forall_cons in Hnames as [[a0 Ha0] Hnames].
  simpl in Ha0. subst s. cbn [GenesisAccounts.collect]. rewrite read_name. cbn [mbind res_bind].
  destruct (IH (<[a0 := account]> out) Hnd Hnames) as (out' & Hc & Hl).
  exists out'. split; [done|]. intros a. rewrite Hl, list_to_map_cons.
  destruct (decide (a = a0)) as [->|Hne].
  - rewrite (not_elem_of_list_to_map_1 _ _ Hs), !lookup_insert_eq. reflexivity.
  - rewrite (lookup_insert_ne _ (name a0)) by (by intros ?%(inj name)).
    by rewrite lookup_insert_ne.
Qed.

Lemma serialize_lookup accounts a :
  GenesisAccounts.serialize accounts !! name a = accounts !! a.
Proof.
  unfold GenesisAccounts.serialize.
  assert (∀ l : list (Address * Account), (list_to_map ((λ '(address, account),
    (hex_encode (array_bytes address), account)) <$> l) : gmap string Account) !! name a =
    (list_to_map l : gmap Address Account) !! a) as ->.
  { induction l as [|[b account] l IH]; simpl; [by rewrite !lookup_empty|].
    fold (name b). destruct (decide (b = a)) as [->|Hne]; [by rewrite !lookup_insert_eq|].
    rewrite (lookup_insert_ne _ (name b)) by (by intros ?%(inj name)). by rewrite lookup_insert_ne. }
  rewrite <-(list_to_map_to_list accounts) at 2. f_equal. apply list_to_map_proper;
    [apply entries_keys_NoDup | apply entries_Permutation].
Qed.
Lemma serialize_names accounts s account :
  GenesisAccounts.serialize accounts !! s = Some account → ∃ a, s = name a.
Proof.
  intros Hs%elem_of_list_to_map_2. apply list_elem_of_fmap in Hs as ([a acc] & Ha & _).
  exists a. by injection Ha.
Qed.
(** The accounts of a genesis survive being written to [genesis.json] and read back. *)
Lemma genesis_accounts_roundtrip (accounts : gmap Address Account) :
  GenesisAccounts.deserialize (GenesisAccounts.serialize accounts) = Ok accounts.
Proof.
  unfold GenesisAccounts.deserialize. set (m := GenesisAccounts.serialize accounts).
  destruct (collect_names (entries m) ∅ (entries_keys_NoDup m)) as (out & -> & Hout).
  { apply Forall_forall. intros [s account] Hin. apply elem_of_entries in Hin.
    by eapply serialize_names. }
  f_equal. apply map_eq. intros a. rewrite Hout.
  assert ((list_to_map (entries m) : gmap string Account) = m) as ->.
  { rewrite <-(list_to_map_to_list m) at 2. apply list_to_map_proper;
      [apply entries_keys_NoDup | apply entries_Permutation]. }
  unfold m. rewrite serialize_lookup. by destruct (accounts !! a).
Qed.
End roundtrip.
