(* ===== verification/Crypto.v ===== *)
(** [crates/zeno-crypto]: signing domains, the [SignatureScheme] interface and its
    ML-DSA implementation.  The [oqs] crate is the class [OqsBackend]; what the
    code relies on is [OqsLaws]. *)

From S2P Require Import Prelude Types Hash.

Inductive SigningDomain := DomTransaction | DomBlockProposal | DomConsensusVote.

Definition tag (d : SigningDomain) : list byte :=
  bytes_of_string
    match d with
    | DomTransaction => "zeno.tx.v1"
    | DomBlockProposal => "zeno.block_proposal.v1"
    | DomConsensusVote => "zeno.consensus_vote.v1"
    end.

Inductive MlDsaParameter := MlDsa44 | MlDsa65 | MlDsa87.
Definition MlDsaParameter_default : MlDsaParameter := MlDsa65.

Record SignatureSchemeMetadata := {
  public_key_bytes : Z;
  secret_key_bytes : Z;
  signature_bytes : Z
}.

Inductive CryptoError :=
  | MalformedKey
  | MalformedSignature
  | CryptoInvalidSignature
  | Backend (msg : string).

(** The trait.  Keys and signatures are byte vectors; [entropy] is the operating
    system's randomness, an argument here. *)
Class SignatureScheme := {
  metadata : SignatureSchemeMetadata;
  generate_keypair (entropy : list byte) : res CryptoError (list byte * list byte);
  sign (domain : SigningDomain) (message secret_key : list byte) :
    res CryptoError (list byte);
  verify (domain : SigningDomain) (message public_key signature : list byte) :
    res CryptoError ();
  derive_address (public_key : list byte) : res CryptoError (array 32)
}.

(** What the clients of the trait rely on, for the key pairs of [keypair]. *)
Class SignatureSchemeLaws (S : SignatureScheme)
    (keypair : list byte → list byte → Prop) : Prop := {
  verify_sign domain message pk sk sig :
    keypair pk sk → sign domain message sk = Ok sig → verify domain message pk sig = Ok ();
  derive_address_ok pk sk : keypair pk sk → is_ok (derive_address pk) = true
}.

(** [oqs::sig::Algorithm] and [oqs::sig::Sig]. *)
Inductive Algorithm := AlgMlDsa44 | AlgMlDsa65 | AlgMlDsa87.
Class OqsBackend := {
  length_public_key : Algorithm → Z;
  length_secret_key : Algorithm → Z;
  length_signature : Algorithm → Z;
  oqs_keypair : Algorithm → list byte → res string (list byte * list byte);
  secret_key_from_bytes : Algorithm → list byte → option (list byte);
  public_key_from_bytes : Algorithm → list byte → option (list byte);
  signature_from_bytes : Algorithm → list byte → option (list byte);
  oqs_sign : Algorithm → list byte → list byte → res string (list byte);
  oqs_verify : Algorithm → list byte → list byte → list byte → res string ()
}.

(** The library's contract for a generated key pair: the key has the advertised
    length, and what it signs is a well-formed signature that verifies. *)
Class OqsLaws `{OqsBackend} (alg : Algorithm) (keypair : list byte → list byte → Prop) :
    Prop := {
  oqs_keypair_length pk sk : keypair pk sk → Z.of_nat (length pk) = length_public_key alg;
  oqs_sign_verify msg pk sk key sig :
    keypair pk sk → secret_key_from_bytes alg sk = Some key → oqs_sign alg msg key = Ok sig →
    ∃ pk' sig', public_key_from_bytes alg pk = Some pk' ∧
      signature_from_bytes alg sig = Some sig' ∧ oqs_verify alg msg sig' pk' = Ok ()
}.

Module MlDsaScheme.
Definition algorithm (parameter : MlDsaParameter) : Algorithm :=
  match parameter with
  | MlDsa44 => AlgMlDsa44
  | MlDsa65 => AlgMlDsa65
  | MlDsa87 => AlgMlDsa87
  end.

Definition domain_message (domain : SigningDomain) (message : list byte) : list byte :=
  tag domain ++ xff :: message.

Section scheme.
Context `{HashBackend, OqsBackend} (parameter : MlDsaParameter).
Let alg := algorithm parameter.

Definition metadata : SignatureSchemeMetadata := {|
  public_key_bytes := length_public_key alg;
  secret_key_bytes := length_secret_key alg;
  signature_bytes := length_signature alg
|}.
Definition generate_keypair (entropy : list byte) :
    res CryptoError (list byte * list byte) :=
  map_err Backend (oqs_keypair alg entropy).
Definition sign (domain : SigningDomain) (message secret_key : list byte) :
    res CryptoError (list byte) :=
  let msg := domain_message domain message in
  key ← ok_or MalformedKey (secret_key_from_bytes alg secret_key);
  map_err Backend (oqs_sign alg msg key).
Definition verify (domain : SigningDomain) (message public_key signature : list byte) :
    res CryptoError () :=
  let msg := domain_message domain message in
  public_key ← ok_or MalformedKey (public_key_from_bytes alg public_key);
  signature ← ok_or MalformedSignature (signature_from_bytes alg signature);
  map_err (λ _, CryptoInvalidSignature) (oqs_verify alg msg signature public_key).
Definition derive_address (public_key : list byte) : res CryptoError (array 32) :=
  if negb (Z.of_nat (length public_key) =? length_public_key alg)
  then Err MalformedKey
  else Ok (hash_bytes (bytes_of_string "zeno.address.v1" ++ public_key)).

Definition scheme : SignatureScheme := {|
  Crypto.metadata := metadata;
  Crypto.generate_keypair := generate_keypair;
  Crypto.sign := sign;
  Crypto.verify := verify;
  Crypto.derive_address := derive_address
|}.

(** The ML-DSA provider keeps the trait's promises. *)
#[export] Instance scheme_laws keypair `{!OqsLaws alg keypair} :
  SignatureSchemeLaws scheme keypair.
Proof.
  split.
  - intros domain message pk sk sig Hk Hs. simpl in *. unfold sign, verify in *.
    destruct (secret_key_from_bytes alg sk) as [key|] eqn:Ek; [|done]. simpl in Hs.
    destruct (oqs_sign alg _ key) as [s| |] eqn:Es; simplify_eq/=.
    edestruct oqs_sign_verify as (pk' & sig' & Hpk & Hsig & Hv); [done..|].
    by rewrite Hpk; simpl; rewrite Hsig; simpl; rewrite Hv.
  - intros pk sk Hk. simpl. unfold derive_address.
    by rewrite (oqs_keypair_length pk sk Hk), Z.eqb_refl.
Qed.
End scheme.
End MlDsaScheme.

Definition public_key_fingerprint `{HashBackend} (public_key : list byte) : Hash32 :=
  hash_bytes public_key.

(** Domain tags followed by [0xff] are prefix-free. *)
Lemma domain_message_inj d1 d2 m1 m2 :
  MlDsaScheme.domain_message d1 m1 = MlDsaScheme.domain_message d2 m2 → d1 = d2 ∧ m1 = m2.
Proof.
  unfold MlDsaScheme.domain_message. intros E.
  destruct d1, d2; vm_compute in E; simplify_eq; done.
Qed.

(** A concrete backend for the examples: the public key is the secret key, a
    signature is the key followed by the message. *)
Module ToyOqs.
#[local] Instance backend : OqsBackend := {|
  length_public_key _ := 2;
  length_secret_key _ := 2;
  length_signature _ := 34;
  oqs_keypair _ e := Ok (take 2 e, take 2 e);
  secret_key_from_bytes _ sk := if Nat.eqb (length sk) 2 then Some sk else None;
  public_key_from_bytes _ pk := if Nat.eqb (length pk) 2 then Some pk else None;
  signature_from_bytes _ sig := Some sig;
  oqs_sign _ msg sk := Ok (sk ++ msg);
  oqs_verify _ msg sig pk := if decide (sig = pk ++ msg) then Ok () else Err "bad"%string
|}.
Definition keypair (pk sk : list byte) : Prop := pk = sk ∧ length pk = 2%nat.
#[local] Instance laws alg : OqsLaws alg keypair.
Proof.
  split.
  - intros pk sk [-> Hl]. simpl. by rewrite Hl.
  - intros msg pk sk key sig [-> Hl] Hk Hs. simpl in *. rewrite Hl in *. simplify_eq/=.
    eexists _, _. split; [done|]. split; [done|]. by rewrite decide_True.
Qed.
#[local] Existing Instance ToyHash.backend.
Definition scheme : SignatureScheme := MlDsaScheme.scheme MlDsaParameter_default.
#[export] Instance scheme_laws : SignatureSchemeLaws scheme keypair :=
  MlDsaScheme.scheme_laws MlDsaParameter_default keypair.
End ToyOqs.

(** Domain separation: the bytes signed in one domain for one message are
    signed in no other domain and for no other message, so a signature cannot be
    replayed across transactions, blocks and votes. *)
Lemma domain_separation d1 d2 m1 m2 :
  MlDsaScheme.domain_message d1 m1 = MlDsaScheme.domain_message d2 m2 ↔ d1 = d2 ∧ m1 = m2.
Proof. split; [apply domain_message_inj | by intros [-> ->]]. Qed.
