(* ===== verification/Wire.v ===== *)
(** The values of the chain that are encoded by [zeno-codec], and their
    identifiers ([Transaction::id], [Block::hash]); the errors that [anyhow]
    carries through the crates. *)

From S2P Require Import Prelude Types Codec Hash Crypto.

(** [VoteSignable], local to [canonical_vote_bytes]. *)
Record VoteSignable := {
  vsg_height : Z;
  vsg_round : Z;
  vsg_step : VoteStep;
  vsg_block_hash : Hash32;
  vsg_validator_address : Address
}.

Class ChainCodec := {
  serde_body :: Serde TransactionBody;
  serde_tx :: Serde Transaction;
  serde_header :: Serde BlockHeader;
  serde_block :: Serde Block;
  serde_vote :: Serde VoteSignable;
  serde_receipt :: Serde Receipt;
  serde_proposal :: Serde Proposal;
  serde_certificate :: Serde CommitCertificate;
  serde_set_leaf :: Serde (string * Address);
  serde_smt_leaf :: Serde (string * Address * Account)
}.

(** An [anyhow::Error]: a message, or a typed error that was converted by [?]. *)
Inductive AnyError :=
  | Anyhow (msg : string)
  | TxErr (e : TransactionError)
  | CryptoErr (e : CryptoError)
  | CodecErr (e : CodecError).

Section ids.
Context `{HashBackend, ChainCodec}.

Definition Transaction_id (tx : Transaction) : Hash32 := hash_bytes (encode_to_vec tx).
Definition Block_hash (block : Block) : Hash32 := hash_bytes (encode_to_vec block).
End ids.
