(* ===== verification/Toy.v ===== *)
(** Concrete parameters for the examples of the development: a codec for every
    encoded type (from the combinators of [ToyCodec]), next to the digest of
    [ToyHash] and the signatures of [ToyOqs]. *)

From S2P Require Import Prelude Types Codec Hash Crypto Wire.
Import ToyCodec.

Module Toy.

#[export] Instance chainid_serde : Serde ChainId :=
  via (λ r : ChainId, (chain_id_str r))
    (λ x0, Some {| chain_id_str := x0 |}).
#[export] Instance kind_serde : Serde EvmTransactionKind :=
  via (λ k, match k with Create b => (None, b) | Call c i => (Some c, i) end)
    (λ '(c, b), Some (match c with None => Create b | Some c => Call c b end)).

#[export] Instance evmtransaction_serde : Serde EvmTransaction :=
  via (λ r : EvmTransaction, (ev_kind r, ev_value r, ev_gas_limit r, ev_gas_price r))
    (λ '(x0, x1, x2, x3), Some {| ev_kind := x0; ev_value := x1; ev_gas_limit := x2;
      ev_gas_price := x3 |}).
#[export] Instance transactionbody_serde : Serde TransactionBody :=
  via (λ r : TransactionBody, (tb_chain_id r, tb_sender r, tb_recipient r, tb_amount r,
      tb_nonce r, tb_fee r, tb_evm r, tb_memo r, tb_valid_until r))
    (λ '(x0, x1, x2, x3, x4, x5, x6, x7, x8), Some {| tb_chain_id := x0; tb_sender := x1;
      tb_recipient := x2; tb_amount := x3; tb_nonce := x4; tb_fee := x5; tb_evm := x6;
      tb_memo := x7; tb_valid_until := x8 |}).
#[export] Instance transaction_serde : Serde Transaction :=
  via (λ r : Transaction, (tx_body r, tx_public_key r, tx_signature r))
    (λ '(x0, x1, x2), Some {| tx_body := x0; tx_public_key := x1; tx_signature := x2 |}).
#[export] Instance evmlog_serde : Serde EvmLog :=
  via (λ r : EvmLog, (el_address r, el_topics r, el_data r))
    (λ '(x0, x1, x2), Some {| el_address := x0; el_topics := x1; el_data := x2 |}).
#[export] Instance evmcallresult_serde : Serde EvmCallResult :=
  via (λ r : EvmCallResult, (ecr_contract_address r, ecr_output r, ecr_gas_used r,
      ecr_logs r))
    (λ '(x0, x1, x2, x3), Some {| ecr_contract_address := x0; ecr_output := x1;
      ecr_gas_used := x2; ecr_logs := x3 |}).
#[export] Instance outcome_serde : Serde ExecutionOutcome :=
  via (λ o, match o with Success => None | Rejected r => Some r end)
    (λ o, Some (match o with None => Success | Some r => Rejected r end)).

#[export] Instance receipt_serde : Serde Receipt :=
  via (λ r : Receipt, (rc_tx_hash r, rc_height r, rc_fee_charged r, rc_outcome r, rc_evm
      r))
    (λ '(x0, x1, x2, x3, x4), Some {| rc_tx_hash := x0; rc_height := x1; rc_fee_charged :=
      x2; rc_outcome := x3; rc_evm := x4 |}).
#[export] Instance blockheader_serde : Serde BlockHeader :=
  via (λ r : BlockHeader, (bh_height r, bh_round r, bh_chain_id r, bh_parent_hash r,
      bh_tx_root r, bh_state_root r, bh_receipt_root r, bh_proposer r, bh_timestamp_ms r))
    (λ '(x0, x1, x2, x3, x4, x5, x6, x7, x8), Some {| bh_height := x0; bh_round := x1;
      bh_chain_id := x2; bh_parent_hash := x3; bh_tx_root := x4; bh_state_root := x5;
      bh_receipt_root := x6; bh_proposer := x7; bh_timestamp_ms := x8 |}).
#[export] Instance block_serde : Serde Block :=
  via (λ r : Block, (bk_header r, bk_transactions r, bk_proposer_public_key r,
      bk_proposer_signature r))
    (λ '(x0, x1, x2, x3), Some {| bk_header := x0; bk_transactions := x1;
      bk_proposer_public_key := x2; bk_proposer_signature := x3 |}).
#[export] Instance proposal_serde : Serde Proposal :=
  via (λ r : Proposal, (pr_height r, pr_round r, pr_block r, pr_validator_address r))
    (λ '(x0, x1, x2, x3), Some {| pr_height := x0; pr_round := x1; pr_block := x2;
      pr_validator_address := x3 |}).
#[export] Instance step_serde : Serde VoteStep :=
  via (λ s, match s with Prevote => true | Precommit => false end)
    (λ b : bool, Some (if b then Prevote else Precommit)).

#[export] Instance vote_serde : Serde Vote :=
  via (λ r : Vote, (vt_height r, vt_round r, vt_step r, vt_block_hash r,
      vt_validator_address r, vt_public_key r, vt_signature r))
    (λ '(x0, x1, x2, x3, x4, x5, x6), Some {| vt_height := x0; vt_round := x1; vt_step :=
      x2; vt_block_hash := x3; vt_validator_address := x4; vt_public_key := x5;
      vt_signature := x6 |}).
#[export] Instance commitcertificate_serde : Serde CommitCertificate :=
  via (λ r : CommitCertificate, (cc_block_hash r, cc_height r, cc_round r, cc_votes r))
    (λ '(x0, x1, x2, x3), Some {| cc_block_hash := x0; cc_height := x1; cc_round := x2;
      cc_votes := x3 |}).
#[export] Instance votesignable_serde : Serde VoteSignable :=
  via (λ r : VoteSignable, (vsg_height r, vsg_round r, vsg_step r, vsg_block_hash r,
      vsg_validator_address r))
    (λ '(x0, x1, x2, x3, x4), Some {| vsg_height := x0; vsg_round := x1; vsg_step := x2;
      vsg_block_hash := x3; vsg_validator_address := x4 |}).
#[export] Instance account_serde : Serde Account :=
  via (λ r : Account, (acct_nonce r, acct_balance r))
    (λ '(x0, x1), Some {| acct_nonce := x0; acct_balance := x1 |}).
#[export] Instance codec : ChainCodec := {}.
#[export] Existing Instance ToyHash.backend.
#[export] Existing Instance ToyOqs.backend.

Definition pk : list byte := [x01; x02].
Definition addr : Address :=
  ToyHash.digest 17 (bytes_of_string "zeno.address.v1" ++ pk).
Definition bob : Address := array_repeat 32 x07.
Definition chain : ChainId := {| chain_id_str := "zeno" |}.
Definition body : TransactionBody := {|
  tb_chain_id := chain; tb_sender := addr; tb_recipient := bob; tb_amount := 5;
  tb_nonce := 0; tb_fee := 1; tb_evm := None; tb_memo := None; tb_valid_until := None |}.
Definition tx : Transaction := {|
  tx_body := body; tx_public_key := pk;
  tx_signature := pk ++ MlDsaScheme.domain_message DomTransaction (encode_to_vec body) |}.
Definition header : BlockHeader := {|
  bh_height := 1; bh_round := 0; bh_chain_id := chain; bh_parent_hash := zero;
  bh_tx_root := zero; bh_state_root := zero; bh_receipt_root := zero;
  bh_proposer := addr; bh_timestamp_ms := 0 |}.
End Toy.
