(* ===== verification/Primitives.v ===== *)
(** [crates/zeno-primitives]: canonical bytes, signing and verification of
    transactions, blocks and votes, and the Merkle roots of a block. *)

From S2P Require Import Prelude Types Codec Hash Crypto Wire Toy.

Definition MAX_MEMO_BYTES : Z := 256.
Definition MAX_TRANSACTION_SIZE : Z := 1048576.
Definition MAX_GAS_LIMIT : Z := 30000000.

Section canonical.
Context `{ChainCodec}.

Definition canonical_transaction_bytes (body : TransactionBody) : res AnyError (list byte) :=
  map_err CodecErr (Codec.encode body).
Definition canonical_block_header_bytes (header : BlockHeader) : res AnyError (list byte) :=
  map_err CodecErr (Codec.encode header).
Definition canonical_vote_bytes (height round : Z) (step : VoteStep) (block_hash : Hash32)
    (validator_address : Address) : res AnyError (list byte) :=
  map_err CodecErr (Codec.encode
    {| vsg_height := height; vsg_round := round; vsg_step := step;
       vsg_block_hash := block_hash; vsg_validator_address := validator_address |}).
End canonical.

Section primitives.
Context `{ChainCodec} (scheme : SignatureScheme).

Definition sender_from_public_key (public_key : list byte) : res TransactionError Address :=
  map_err (λ _, SenderMismatch) (derive_address public_key).

Definition verify_transaction (chain_id : ChainId) (tx : Transaction)
    (current_height : Z) : res TransactionError (list byte) :=
  let body := tx_body tx in
  let encoded_size :=
    match Codec.encode tx with Ok bytes => Z.of_nat (length bytes) | _ => 0 end in
  if MAX_TRANSACTION_SIZE <? encoded_size then Err (TransactionTooLarge encoded_size) else
  if (tb_amount body =? 0) && negb (bool_decide (is_Some (tb_evm body)))
    then Err ZeroAmount else
  if match tb_evm body with Some _ => tb_fee body <? 10 | None => false end
    then Err ZeroFee else
  if tb_fee body =? 0 then Err ZeroFee else
  if bool_decide (tb_chain_id body ≠ chain_id) then Err WrongChainId else
  if match tb_memo body with
     | Some memo => MAX_MEMO_BYTES <? Z.of_nat (String.length memo)
     | None => false
     end then Err MemoTooLarge else
  _ ← match tb_valid_until body with
      | Some valid_until =>
          if valid_until <? current_height then Err (Expired valid_until) else Ok tt
      | None => Ok tt
      end;
  _ ← match tb_evm body with
      | Some evm_tx =>
          if (ev_gas_limit evm_tx =? 0) || (MAX_GAS_LIMIT <? ev_gas_limit evm_tx)
          then Err (GasLimitExceeded MAX_GAS_LIMIT (ev_gas_limit evm_tx)) else Ok tt
      | None => Ok tt
      end;
  derived ← sender_from_public_key (tx_public_key tx);
  if bool_decide (derived ≠ tb_sender body) then Err SenderMismatch else
  body_bytes ← map_err (λ _, InvalidSignature) (canonical_transaction_bytes body);
  _ ← map_err (λ _, InvalidSignature)
        (verify DomTransaction body_bytes (tx_public_key tx) (tx_signature tx));
  Ok body_bytes.

Definition sign_transaction (body : TransactionBody) (public_key secret_key : list byte) :
    res AnyError Transaction :=
  bytes ← canonical_transaction_bytes body;
  signature ← map_err CryptoErr (sign DomTransaction bytes secret_key);
  Ok {| tx_body := body; tx_public_key := public_key; tx_signature := signature |}.

Definition sign_block (header : BlockHeader) (transactions : list Transaction)
    (proposer_public_key secret_key : list byte) : res AnyError Block :=
  bytes ← canonical_block_header_bytes header;
  signature ← map_err CryptoErr (sign DomBlockProposal bytes secret_key);
  Ok {| bk_header := header; bk_transactions := transactions;
        bk_proposer_public_key := proposer_public_key;
        bk_proposer_signature := signature |}.

Definition verify_block (block : Block) : res AnyError () :=
  derived ← map_err TxErr (sender_from_public_key (bk_proposer_public_key block));
  if bool_decide (derived ≠ bh_proposer (bk_header block))
    then Err (Anyhow "proposer address does not match public key") else
  bytes ← canonical_block_header_bytes (bk_header block);
  map_err CryptoErr
    (verify DomBlockProposal bytes (bk_proposer_public_key block)
      (bk_proposer_signature block)).

Definition with_signature (vote : Vote) (signature : list byte) : Vote :=
  {| vt_height := vt_height vote; vt_round := vt_round vote; vt_step := vt_step vote;
     vt_block_hash := vt_block_hash vote;
     vt_validator_address := vt_validator_address vote;
     vt_public_key := vt_public_key vote; vt_signature := signature |}.

Definition sign_vote (vote : Vote) (secret_key : list byte) : res AnyError Vote :=
  bytes ← canonical_vote_bytes (vt_height vote) (vt_round vote) (vt_step vote)
            (vt_block_hash vote) (vt_validator_address vote);
  signature ← map_err CryptoErr (sign DomConsensusVote bytes secret_key);
  Ok (with_signature vote signature).

Definition verify_vote (vote : Vote) : res AnyError () :=
  bytes ← canonical_vote_bytes (vt_height vote) (vt_round vote) (vt_step vote)
            (vt_block_hash vote) (vt_validator_address vote);
  address ← map_err TxErr (sender_from_public_key (vt_public_key vote));
  if bool_decide (address ≠ vt_validator_address vote)
    then Err (Anyhow "vote signer mismatch") else
  map_err CryptoErr
    (verify DomConsensusVote bytes (vt_public_key vote) (vt_signature vote)).
End primitives.

Section roots.
Context `{HashBackend, ChainCodec}.

Definition transaction_root (transactions : list Transaction) : Hash32 :=
  merkle_root (Transaction_id <$> transactions).
Definition receipt_root (receipts : list Receipt) : Hash32 :=
  merkle_root ((λ receipt, hash_bytes (encode_to_vec receipt)) <$> receipts).
Definition proposal_hash (proposal : Proposal) : Hash32 :=
  hash_bytes (encode_to_vec proposal).
Definition certificate_hash (certificate : CommitCertificate) : Hash32 :=
  hash_bytes (encode_to_vec certificate).
End roots.

(** ** What an admitted transaction satisfies *)
Section admission.
Context `{ChainCodec} (scheme : SignatureScheme).

Record admissible (chain_id : ChainId) (tx : Transaction) (height : Z) : Prop := {
  adm_size : Z.of_nat (length (encode_to_vec tx)) ≤ MAX_TRANSACTION_SIZE;
  adm_amount : tb_amount (tx_body tx) = 0 → is_Some (tb_evm (tx_body tx));
  adm_fee : tb_fee (tx_body tx) ≠ 0;
  adm_evm evm : tb_evm (tx_body tx) = Some evm →
    10 ≤ tb_fee (tx_body tx) ∧ ev_gas_limit evm ≠ 0 ∧ ev_gas_limit evm ≤ MAX_GAS_LIMIT;
  adm_chain : tb_chain_id (tx_body tx) = chain_id;
  adm_memo memo : tb_memo (tx_body tx) = Some memo →
    Z.of_nat (String.length memo) ≤ MAX_MEMO_BYTES;
  adm_valid until : tb_valid_until (tx_body tx) = Some until → height ≤ until;
  adm_sender : derive_address (tx_public_key tx) = Ok (tb_sender (tx_body tx));
  adm_signature : verify DomTransaction (encode_to_vec (tx_body tx))
    (tx_public_key tx) (tx_signature tx) = Ok ()
}.

Lemma bytes_ok body : canonical_transaction_bytes body = Ok (encode_to_vec body).
Proof. done. Qed.

Lemma verify_transaction_ok chain_id tx height bytes :
  verify_transaction scheme chain_id tx height = Ok bytes ↔
  admissible chain_id tx height ∧ bytes = encode_to_vec (tx_body tx).
Proof.
  unfold verify_transaction, sender_from_public_key.
  cbn [Codec.encode canonical_transaction_bytes map_err].
  destruct (tb_evm (tx_body tx)) as [evm|] eqn:Hevm;
  destruct (tb_memo (tx_body tx)) as [memo|] eqn:Hmemo;
  destruct (tb_valid_until (tx_body tx)) as [until|] eqn:Huntil; split.
  all: try (intros Hv; run_ok Hv; simplify_eq/=; split; [|done];
    repeat match goal with
    | H : map_err ?f ?m = Ok ?a |- _ => apply (proj1 (map_err_ok f m a)) in H
    | H : (if _ then Err _ else _) = Ok _ |- _ => apply guard_ok in H as [? _]
    | u : () |- _ => destruct u
    end; to_prop; simplify_eq/=;
    split; try done; intros; simplify_option_eq; to_prop; try lia; naive_solver).
  all: intros [Ha ->]; destruct Ha as [Hsize Hamount Hfee Hge Hchain Hm Hu Hs Hsig];
    rewrite ?Hevm, ?Hmemo, ?Huntil in *; cbn [mbind res_bind].
  all: try (specialize (Hge evm eq_refl) as (? & ? & ?)); try specialize (Hm memo eq_refl);
    try specialize (Hu until eq_refl);
    try (destruct (decide (tb_amount (tx_body tx) = 0)) as [Hz|Hz];
      [by destruct (Hamount Hz)|]);
    rewrite Hs; cbn; rewrite Hsig; cbn;
    repeat (apply guard_ok; split;
      [first [by apply Z.ltb_ge | by apply Z.eqb_neq | by apply andb_false_r
             | by apply bool_decide_eq_false; auto
             | by apply andb_false_iff; left; apply Z.eqb_neq]|]);
    rewrite ?(proj2 (Z.ltb_ge _ _)) by done; cbn;
    rewrite ?(proj2 (Z.eqb_neq _ _)), ?(proj2 (Z.ltb_ge _ _)) by done; cbn;
    rewrite ?bool_decide_eq_false_2 by auto; done.
Qed.
End admission.

(** A transaction is admitted exactly when it satisfies every admission rule:
    size, non-zero amount (EVM payloads excepted), fee, EVM gas limit and fee, chain
    id, memo length, expiry, a sender derived from the key, and a signature over the
    canonical body in the transaction domain; the canonical bytes are returned. *)
Lemma verify_transaction_exact `{ChainCodec} (scheme : SignatureScheme)
    (chain_id : ChainId) (tx : Transaction) (height : Z) (bytes : list byte) :
  verify_transaction scheme chain_id tx height = Ok bytes ↔
  admissible scheme chain_id tx height ∧ bytes = encode_to_vec (tx_body tx).
Proof. apply verify_transaction_ok. Qed.

Section signed.
Context `{ChainCodec} (scheme : SignatureScheme) keypair `{!SignatureSchemeLaws scheme keypair}.

Lemma signed_block_verifies (pk sk : list byte) (a : Address) header txs block :
  keypair pk sk → derive_address pk = Ok a → sign_block scheme header txs pk sk = Ok block →
  bh_proposer header = a → verify_block scheme block = Ok ().
Proof.
  intros Hk Ha Hs Hp. unfold sign_block in Hs. run_ok Hs. simplify_eq/=.
  apply (proj1 (map_err_ok _ _ _)) in H1. injection H0 as <-.
  unfold verify_block, sender_from_public_key. simpl. rewrite Ha. simpl.
  rewrite bool_decide_eq_false_2 by auto. by erewrite verify_sign.
Qed.
Lemma signed_vote_verifies (pk sk : list byte) (a : Address) vote vote' :
  keypair pk sk → derive_address pk = Ok a → sign_vote scheme vote sk = Ok vote' →
  vt_public_key vote = pk → vt_validator_address vote = a → verify_vote scheme vote' = Ok ().
Proof.
  intros Hk Ha Hs Hp Hv. unfold sign_vote in Hs. run_ok Hs. simplify_eq/=.
  apply (proj1 (map_err_ok _ _ _)) in H1. injection H0 as <-.
  unfold verify_vote, sender_from_public_key. simpl. rewrite Ha. simpl.
  rewrite bool_decide_eq_false_2 by auto. by erewrite verify_sign.
Qed.

(** A secret key that always signs. *)
Definition signs (sk : list byte) : Prop := ∀ domain message, is_ok (sign domain message sk) = true.
Lemma sign_vote_total sk vote : signs sk → ∃ vote', sign_vote scheme vote sk = Ok vote'.
Proof.
  intros Hs. unfold sign_vote, canonical_vote_bytes. cbn [Codec.encode map_err mbind res_bind].
  match goal with |- context [sign ?d ?m sk] => specialize (Hs d m); destruct (sign d m sk) end;
    [by eexists|done..].
Qed.
Lemma sign_block_total sk header txs pk : signs sk → ∃ block, sign_block scheme header txs pk sk = Ok block.
Proof.
  intros Hs. unfold sign_block, canonical_block_header_bytes. cbn [Codec.encode map_err mbind res_bind].
  match goal with |- context [sign ?d ?m sk] => specialize (Hs d m); destruct (sign d m sk) end;
    [by eexists|done..].
Qed.
End signed.

(** What the three signing functions produce with a generated key pair is
    accepted by the verifying ones: a block or vote that names the key's address
    verifies, and so does a transaction from that address whose body obeys the
    admission rules. *)
Lemma sign_then_verify `{ChainCodec} (scheme : SignatureScheme) keypair
    `{!SignatureSchemeLaws scheme keypair} (pk sk : list byte) (a : Address) :
  keypair pk sk → derive_address pk = Ok a →
  (∀ body tx, sign_transaction scheme body pk sk = Ok tx → tb_sender body = a →
    (Z.of_nat (length (encode_to_vec tx)) ≤ MAX_TRANSACTION_SIZE) →
    tb_evm body = None → 0 < tb_amount body → 0 < tb_fee body →
    tb_memo body = None → tb_valid_until body = None →
    ∀ height, is_ok (verify_transaction scheme (tb_chain_id body) tx height) = true) ∧
  (∀ header txs block, sign_block scheme header txs pk sk = Ok block →
    bh_proposer header = a → verify_block scheme block = Ok ()) ∧
  (∀ vote vote', sign_vote scheme vote sk = Ok vote' → vt_public_key vote = pk →
    vt_validator_address vote = a → verify_vote scheme vote' = Ok ()).
Proof.
  intros Hk Ha. split; [|split].
  - intros body tx Hs Hsender Hsize Hevm Hamount Hfee Hmemo Hu height.
    unfold sign_transaction in Hs. run_ok Hs. simplify_eq/=.
    apply (proj1 (map_err_ok _ _ _)) in H1. injection H0 as <-.
    assert (verify_transaction scheme (tb_chain_id body)
      {| tx_body := body; tx_public_key := pk; tx_signature := x0 |} height =
      Ok (encode_to_vec body)) as ->; [|done].
    apply verify_transaction_ok. split; [|done].
    split; simpl; try done; try congruence; try lia.
    by eapply verify_sign.
  - intros header txs block. by apply (signed_block_verifies scheme keypair pk sk a).
  - intros vote vote'. by apply (signed_vote_verifies scheme keypair pk sk a).
Qed.
#[local] Existing Instance Toy.codec.
Lemma sign_then_verify_witness :
  verify_block ToyOqs.scheme
    {| bk_header := Toy.header; bk_transactions := [Toy.tx];
       bk_proposer_public_key := Toy.pk;
       bk_proposer_signature :=
         Toy.pk ++ MlDsaScheme.domain_message DomBlockProposal (encode_to_vec Toy.header) |}
  = Ok ().
Proof.
  refine (proj1 (proj2 (@sign_then_verify _ ToyOqs.scheme ToyOqs.keypair
    ToyOqs.scheme_laws Toy.pk Toy.pk Toy.addr ltac:(done) ltac:(vm_compute; reflexivity)))
    Toy.header [Toy.tx] _ _ _); vm_compute; reflexivity.
Defined.
