(* ===== verification/Storage.v ===== *)
(** [crates/zeno-storage], the in-memory implementation of [ChainStore]
    ([MemoryStore]): the record behind its lock and one function per operation of
    the trait.  None of them fails; [get_evm_logs_range] can panic. *)

From S2P Require Import Prelude Types Codec Hash Crypto Wire.

Record MemoryInner := {
  ms_genesis : option Genesis;
  ms_accounts : gmap Address Account;
  ms_evm_accounts : gmap EvmAddress EvmAccountState;
  ms_blocks_by_height : gmap Z FinalizedBlock;
  ms_blocks_by_hash : gmap Hash32 FinalizedBlock;
  ms_receipts : gmap Hash32 Receipt;
  ms_snapshot : option ConsensusSnapshot;
  ms_consensus_wal : list ConsensusWalEntry;
  ms_staking_state : option StakingState;
  ms_governance_state : option GovernanceState;
  ms_epoch_transitions : gmap Z EpochTransition;
  ms_evm_logs : gmap Z (list EvmLog);
  ms_slashing_protection : gmap Address SlashingProtection;
  ms_gas_pricing : option GasPricingState
}.

Definition MemoryInner_default : MemoryInner := {|
  ms_genesis := None;
  ms_accounts := ∅;
  ms_evm_accounts := ∅;
  ms_blocks_by_height := ∅;
  ms_blocks_by_hash := ∅;
  ms_receipts := ∅;
  ms_snapshot := None;
  ms_consensus_wal := [];
  ms_staking_state := None;
  ms_governance_state := None;
  ms_epoch_transitions := ∅;
  ms_evm_logs := ∅;
  ms_slashing_protection := ∅;
  ms_gas_pricing := None
|}.

(** Field updates. *)
Definition upd_genesis (f : option Genesis → option Genesis) (s : MemoryInner) : MemoryInner := {|
  ms_genesis := f (ms_genesis s);
  ms_accounts := ms_accounts s;
  ms_evm_accounts := ms_evm_accounts s;
  ms_blocks_by_height := ms_blocks_by_height s;
  ms_blocks_by_hash := ms_blocks_by_hash s;
  ms_receipts := ms_receipts s;
  ms_snapshot := ms_snapshot s;
  ms_consensus_wal := ms_consensus_wal s;
  ms_staking_state := ms_staking_state s;
  ms_governance_state := ms_governance_state s;
  ms_epoch_transitions := ms_epoch_transitions s;
  ms_evm_logs := ms_evm_logs s;
  ms_slashing_protection := ms_slashing_protection s;
  ms_gas_pricing := ms_gas_pricing s
|}.
Definition upd_accounts (f : gmap Address Account → gmap Address Account) (s : MemoryInner) : MemoryInner := {|
  ms_genesis := ms_genesis s;
  ms_accounts := f (ms_accounts s);
  ms_evm_accounts := ms_evm_accounts s;
  ms_blocks_by_height := ms_blocks_by_height s;
  ms_blocks_by_hash := ms_blocks_by_hash s;
  ms_receipts := ms_receipts s;
  ms_snapshot := ms_snapshot s;
  ms_consensus_wal := ms_consensus_wal s;
  ms_staking_state := ms_staking_state s;
  ms_governance_state := ms_governance_state s;
  ms_epoch_transitions := ms_epoch_transitions s;
  ms_evm_logs := ms_evm_logs s;
  ms_slashing_protection := ms_slashing_protection s;
  ms_gas_pricing := ms_gas_pricing s
|}.
Definition upd_evm_accounts (f : gmap EvmAddress EvmAccountState → gmap EvmAddress EvmAccountState) (s : MemoryInner) : MemoryInner := {|
  ms_genesis := ms_genesis s;
  ms_accounts := ms_accounts s;
  ms_evm_accounts := f (ms_evm_accounts s);
  ms_blocks_by_height := ms_blocks_by_height s;
  ms_blocks_by_hash := ms_blocks_by_hash s;
  ms_receipts := ms_receipts s;
  ms_snapshot := ms_snapshot s;
  ms_consensus_wal := ms_consensus_wal s;
  ms_staking_state := ms_staking_state s;
  ms_governance_state := ms_governance_state s;
  ms_epoch_transitions := ms_epoch_transitions s;
  ms_evm_logs := ms_evm_logs s;
  ms_slashing_protection := ms_slashing_protection s;
  ms_gas_pricing := ms_gas_pricing s
|}.
Definition upd_blocks_by_height (f : gmap Z FinalizedBlock → gmap Z FinalizedBlock) (s : MemoryInner) : MemoryInner := {|
  ms_genesis := ms_genesis s;
  ms_accounts := ms_accounts s;
  ms_evm_accounts := ms_evm_accounts s;
  ms_blocks_by_height := f (ms_blocks_by_height s);
  ms_blocks_by_hash := ms_blocks_by_hash s;
  ms_receipts := ms_receipts s;
  ms_snapshot := ms_snapshot s;
  ms_consensus_wal := ms_consensus_wal s;
  ms_staking_state := ms_staking_state s;
  ms_governance_state := ms_governance_state s;
  ms_epoch_transitions := ms_epoch_transitions s;
  ms_evm_logs := ms_evm_logs s;
  ms_slashing_protection := ms_slashing_protection s;
  ms_gas_pricing := ms_gas_pricing s
|}.
Definition upd_blocks_by_hash (f : gmap Hash32 FinalizedBlock → gmap Hash32 FinalizedBlock) (s : MemoryInner) : MemoryInner := {|
  ms_genesis := ms_genesis s;
  ms_accounts := ms_accounts s;
  ms_evm_accounts := ms_evm_accounts s;
  ms_blocks_by_height := ms_blocks_by_height s;
  ms_blocks_by_hash := f (ms_blocks_by_hash s);
  ms_receipts := ms_receipts s;
  ms_snapshot := ms_snapshot s;
  ms_consensus_wal := ms_consensus_wal s;
  ms_staking_state := ms_staking_state s;
  ms_governance_state := ms_governance_state s;
  ms_epoch_transitions := ms_epoch_transitions s;
  ms_evm_logs := ms_evm_logs s;
  ms_slashing_protection := ms_slashing_protection s;
  ms_gas_pricing := ms_gas_pricing s
|}.
Definition upd_receipts (f : gmap Hash32 Receipt → gmap Hash32 Receipt) (s : MemoryInner) : MemoryInner := {|
  ms_genesis := ms_genesis s;
  ms_accounts := ms_accounts s;
  ms_evm_accounts := ms_evm_accounts s;
  ms_blocks_by_height := ms_blocks_by_height s;
  ms_blocks_by_hash := ms_blocks_by_hash s;
  ms_receipts := f (ms_receipts s);
  ms_snapshot := ms_snapshot s;
  ms_consensus_wal := ms_consensus_wal s;
  ms_staking_state := ms_staking_state s;
  ms_governance_state := ms_governance_state s;
  ms_epoch_transitions := ms_epoch_transitions s;
  ms_evm_logs := ms_evm_logs s;
  ms_slashing_protection := ms_slashing_protection s;
  ms_gas_pricing := ms_gas_pricing s
|}.
Definition upd_snapshot (f : option ConsensusSnapshot → option ConsensusSnapshot) (s : MemoryInner) : MemoryInner := {|
  ms_genesis := ms_genesis s;
  ms_accounts := ms_accounts s;
  ms_evm_accounts := ms_evm_accounts s;
  ms_blocks_by_height := ms_blocks_by_height s;
  ms_blocks_by_hash := ms_blocks_by_hash s;
  ms_receipts := ms_receipts s;
  ms_snapshot := f (ms_snapshot s);
  ms_consensus_wal := ms_consensus_wal s;
  ms_staking_state := ms_staking_state s;
  ms_governance_state := ms_governance_state s;
  ms_epoch_transitions := ms_epoch_transitions s;
  ms_evm_logs := ms_evm_logs s;
  ms_slashing_protection := ms_slashing_protection s;
  ms_gas_pricing := ms_gas_pricing s
|}.
Definition upd_consensus_wal (f : list ConsensusWalEntry → list ConsensusWalEntry) (s : MemoryInner) : MemoryInner := {|
  ms_genesis := ms_genesis s;
  ms_accounts := ms_accounts s;
  ms_evm_accounts := ms_evm_accounts s;
  ms_blocks_by_height := ms_blocks_by_height s;
  ms_blocks_by_hash := ms_blocks_by_hash s;
  ms_receipts := ms_receipts s;
  ms_snapshot := ms_snapshot s;
  ms_consensus_wal := f (ms_consensus_wal s);
  ms_staking_state := ms_staking_state s;
  ms_governance_state := ms_governance_state s;
  ms_epoch_transitions := ms_epoch_transitions s;
  ms_evm_logs := ms_evm_logs s;
  ms_slashing_protection := ms_slashing_protection s;
  ms_gas_pricing := ms_gas_pricing s
|}.
Definition upd_staking_state (f : option StakingState → option StakingState) (s : MemoryInner) : MemoryInner := {|
  ms_genesis := ms_genesis s;
  ms_accounts := ms_accounts s;
  ms_evm_accounts := ms_evm_accounts s;
  ms_blocks_by_height := ms_blocks_by_height s;
  ms_blocks_by_hash := ms_blocks_by_hash s;
  ms_receipts := ms_receipts s;
  ms_snapshot := ms_snapshot s;
  ms_consensus_wal := ms_consensus_wal s;
  ms_staking_state := f (ms_staking_state s);
  ms_governance_state := ms_governance_state s;
  ms_epoch_transitions := ms_epoch_transitions s;
  ms_evm_logs := ms_evm_logs s;
  ms_slashing_protection := ms_slashing_protection s;
  ms_gas_pricing := ms_gas_pricing s
|}.
Definition upd_governance_state (f : option GovernanceState → option GovernanceState) (s : MemoryInner) : MemoryInner := {|
  ms_genesis := ms_genesis s;
  ms_accounts := ms_accounts s;
  ms_evm_accounts := ms_evm_accounts s;
  ms_blocks_by_height := ms_blocks_by_height s;
  ms_blocks_by_hash := ms_blocks_by_hash s;
  ms_receipts := ms_receipts s;
  ms_snapshot := ms_snapshot s;
  ms_consensus_wal := ms_consensus_wal s;
  ms_staking_state := ms_staking_state s;
  ms_governance_state := f (ms_governance_state s);
  ms_epoch_transitions := ms_epoch_transitions s;
  ms_evm_logs := ms_evm_logs s;
  ms_slashing_protection := ms_slashing_protection s;
  ms_gas_pricing := ms_gas_pricing s
|}.
Definition upd_epoch_transitions (f : gmap Z EpochTransition → gmap Z EpochTransition) (s : MemoryInner) : MemoryInner := {|
  ms_genesis := ms_genesis s;
  ms_accounts := ms_accounts s;
  ms_evm_accounts := ms_evm_accounts s;
  ms_blocks_by_height := ms_blocks_by_height s;
  ms_blocks_by_hash := ms_blocks_by_hash s;
  ms_receipts := ms_receipts s;
  ms_snapshot := ms_snapshot s;
  ms_consensus_wal := ms_consensus_wal s;
  ms_staking_state := ms_staking_state s;
  ms_governance_state := ms_governance_state s;
  ms_epoch_transitions := f (ms_epoch_transitions s);
  ms_evm_logs := ms_evm_logs s;
  ms_slashing_protection := ms_slashing_protection s;
  ms_gas_pricing := ms_gas_pricing s
|}.
Definition upd_evm_logs (f : gmap Z (list EvmLog) → gmap Z (list EvmLog)) (s : MemoryInner) : MemoryInner := {|
  ms_genesis := ms_genesis s;
  ms_accounts := ms_accounts s;
  ms_evm_accounts := ms_evm_accounts s;
  ms_blocks_by_height := ms_blocks_by_height s;
  ms_blocks_by_hash := ms_blocks_by_hash s;
  ms_receipts := ms_receipts s;
  ms_snapshot := ms_snapshot s;
  ms_consensus_wal := ms_consensus_wal s;
  ms_staking_state := ms_staking_state s;
  ms_governance_state := ms_governance_state s;
  ms_epoch_transitions := ms_epoch_transitions s;
  ms_evm_logs := f (ms_evm_logs s);
  ms_slashing_protection := ms_slashing_protection s;
  ms_gas_pricing := ms_gas_pricing s
|}.
Definition upd_slashing_protection (f : gmap Address SlashingProtection → gmap Address SlashingProtection) (s : MemoryInner) : MemoryInner := {|
  ms_genesis := ms_genesis s;
  ms_accounts := ms_accounts s;
  ms_evm_accounts := ms_evm_accounts s;
  ms_blocks_by_height := ms_blocks_by_height s;
  ms_blocks_by_hash := ms_blocks_by_hash s;
  ms_receipts := ms_receipts s;
  ms_snapshot := ms_snapshot s;
  ms_consensus_wal := ms_consensus_wal s;
  ms_staking_state := ms_staking_state s;
  ms_governance_state := ms_governance_state s;
  ms_epoch_transitions := ms_epoch_transitions s;
  ms_evm_logs := ms_evm_logs s;
  ms_slashing_protection := f (ms_slashing_protection s);
  ms_gas_pricing := ms_gas_pricing s
|}.
Definition upd_gas_pricing (f : option GasPricingState → option GasPricingState) (s : MemoryInner) : MemoryInner := {|
  ms_genesis := ms_genesis s;
  ms_accounts := ms_accounts s;
  ms_evm_accounts := ms_evm_accounts s;
  ms_blocks_by_height := ms_blocks_by_height s;
  ms_blocks_by_hash := ms_blocks_by_hash s;
  ms_receipts := ms_receipts s;
  ms_snapshot := ms_snapshot s;
  ms_consensus_wal := ms_consensus_wal s;
  ms_staking_state := ms_staking_state s;
  ms_governance_state := ms_governance_state s;
  ms_epoch_transitions := ms_epoch_transitions s;
  ms_evm_logs := ms_evm_logs s;
  ms_slashing_protection := ms_slashing_protection s;
  ms_gas_pricing := f (ms_gas_pricing s)
|}.

Module Store.
(** *** Reads *)
Definition get_genesis (s : MemoryInner) : option Genesis := ms_genesis s.
Definition get_account (address : Address) (s : MemoryInner) : option Account :=
  ms_accounts s !! address.
Definition accounts (s : MemoryInner) : gmap Address Account := ms_accounts s.
Definition get_evm_account (address : EvmAddress) (s : MemoryInner) :
    option EvmAccountState := ms_evm_accounts s !! address.
Definition evm_accounts (s : MemoryInner) : gmap EvmAddress EvmAccountState :=
  ms_evm_accounts s.
Definition get_block_by_height (height : Z) (s : MemoryInner) : option FinalizedBlock :=
  ms_blocks_by_height s !! height.
Definition get_block_by_hash (hash : Hash32) (s : MemoryInner) : option FinalizedBlock :=
  ms_blocks_by_hash s !! hash.
Definition latest_block (s : MemoryInner) : option FinalizedBlock :=
  snd <$> last_key_value (ms_blocks_by_height s).
Definition get_receipt (tx_hash : Hash32) (s : MemoryInner) : option Receipt :=
  ms_receipts s !! tx_hash.
Definition get_consensus_snapshot (s : MemoryInner) : option ConsensusSnapshot :=
  ms_snapshot s.
Definition load_consensus_wal (s : MemoryInner) : list ConsensusWalEntry :=
  ms_consensus_wal s.
Definition get_staking_state (s : MemoryInner) : option StakingState := ms_staking_state s.
Definition get_governance_state (s : MemoryInner) : option GovernanceState :=
  ms_governance_state s.
Definition latest_epoch_transition (s : MemoryInner) : option EpochTransition :=
  snd <$> last_key_value (ms_epoch_transitions s).
Definition get_slashing_protection (address : Address) (s : MemoryInner) :
    option SlashingProtection := ms_slashing_protection s !! address.
Definition get_gas_pricing (s : MemoryInner) : option GasPricingState := ms_gas_pricing s.
Definition get_evm_logs_by_height (height : Z) (s : MemoryInner) : list EvmLog :=
  default [] (ms_evm_logs s !! height).
(** [BTreeMap::range] of a non-empty map panics when the range is reversed. *)
Definition get_evm_logs_range (from_height to_height : Z) (s : MemoryInner) :
    res AnyError (list (Z * EvmLog)) :=
  if (to_height <? from_height) && negb (bool_decide (ms_evm_logs s = ∅)) then Panic
  else Ok (flat_map (λ '(height, logs), (λ log, (height, log)) <$> logs)
    (filter (λ e, from_height ≤ e.1 ≤ to_height) (entries (ms_evm_logs s)))).

(** *** Writes *)
Definition put_genesis (genesis : Genesis) : MemoryInner → MemoryInner :=
  upd_genesis (λ _, Some genesis).
Definition put_account (address : Address) (account : Account) :
    MemoryInner → MemoryInner := upd_accounts (<[address := account]>).
Definition put_evm_account (address : EvmAddress) (account : EvmAccountState) :
    MemoryInner → MemoryInner := upd_evm_accounts (<[address := account]>).
Definition put_receipt (receipt : Receipt) : MemoryInner → MemoryInner :=
  upd_receipts (<[rc_tx_hash receipt := receipt]>).
Definition put_consensus_snapshot (snapshot : ConsensusSnapshot) :
    MemoryInner → MemoryInner := upd_snapshot (λ _, Some snapshot).
Definition append_consensus_wal (entry : ConsensusWalEntry) : MemoryInner → MemoryInner :=
  upd_consensus_wal (λ wal, wal ++ [entry]).
Definition put_staking_state (staking_state : StakingState) : MemoryInner → MemoryInner :=
  upd_staking_state (λ _, Some staking_state).
Definition put_governance_state (governance_state : GovernanceState) :
    MemoryInner → MemoryInner := upd_governance_state (λ _, Some governance_state).
Definition put_epoch_transition (epoch_transition : EpochTransition) :
    MemoryInner → MemoryInner :=
  upd_epoch_transitions (<[et_epoch epoch_transition := epoch_transition]>).
Definition put_slashing_protection (address : Address) (protection : SlashingProtection) :
    MemoryInner → MemoryInner := upd_slashing_protection (<[address := protection]>).
Definition put_gas_pricing (state : GasPricingState) : MemoryInner → MemoryInner :=
  upd_gas_pricing (λ _, Some state).
Definition put_evm_logs (height : Z) (logs : list EvmLog) : MemoryInner → MemoryInner :=
  upd_evm_logs (<[height := logs]>).

Section blocks.
Context `{HashBackend, ChainCodec}.

Definition put_finalized_block (block : FinalizedBlock) (s : MemoryInner) : MemoryInner :=
  upd_blocks_by_height (<[bh_height (bk_header (fb_block block)) := block]>)
    (upd_blocks_by_hash (<[Block_hash (fb_block block) := block]>) s).

Definition atomic_commit_block (block : FinalizedBlock) (accounts : gmap Address Account)
    (s : MemoryInner) : MemoryInner :=
  let s := foldl (λ s '(address, account), put_account address account s) s
             (entries accounts) in
  let s := foldl (λ s receipt, put_receipt receipt s) s (fb_receipts block) in
  put_finalized_block block s.

(** The [while]-like loop of [prune_blocks_below] over the collected keys. *)
Definition prune_key (s : MemoryInner) (key : Z) : MemoryInner :=
  match ms_blocks_by_height s !! key with
  | Some block =>
      upd_blocks_by_hash (delete (Block_hash (fb_block block)))
        (upd_blocks_by_height (delete key) s)
  | None => s
  end.
Definition prune_blocks_below (height : Z) (s : MemoryInner) : Z * MemoryInner :=
  let keys := filter (λ k, k < height) (entries (ms_blocks_by_height s)).*1 in
  (Z.of_nat (length keys), foldl prune_key s keys).
End blocks.

Definition wal_height (entry : ConsensusWalEntry) : Z :=
  match entry with
  | SnapshotPersisted height _ | ProposalAccepted height _ _
  | ProposalBroadcast height _ _ | VoteRecorded height _ _ _ _
  | VoteBroadcast height _ _ _ _ | CommitFinalized height _ _
  | EvidenceRecorded height _ _ _ | Locked height _ _ _
  | PolkaObserved height _ _ _ => height
  | HeightAdvanced next_height => next_height
  | RoundAdvanced height _ => height
  end.
Definition compact_consensus_wal (below_height : Z) (s : MemoryInner) : Z * MemoryInner :=
  let kept := filter (λ entry, below_height ≤ wal_height entry) (ms_consensus_wal s) in
  (Z.of_nat (length (ms_consensus_wal s)) - Z.of_nat (length kept),
   upd_consensus_wal (λ _, kept) s).
End Store.
