(* ===== verification/Rocks.v ===== *)
(** [crates/zeno-storage], the persistent implementation of [ChainStore]
    ([RocksStore]): every operation of the trait as reads, writes and batches on one
    ordered key space.  [rocksdb] is the class [RocksDb]. *)

From S2P Require Import Prelude Types Codec Hash Crypto Wire Storage.

Inductive StorageError :=
  | StCodec (msg : string)
  | StBackend (msg : string).

(** ** The database *)

(** One operation of a [WriteBatch]. *)
Inductive BatchOp :=
  | BPut (key value : list byte)
  | BDelete (key : list byte).

(** [DB::get], [DB::put], [DB::write] and [DB::iterator(IteratorMode::Start)]. *)
Class RocksDb := {
  DB : Type;
  db_get : DB → list byte → res string (option (list byte));
  db_put : list byte → list byte → eff DB string ();
  db_write : list BatchOp → eff DB string ();
  db_iterator : DB → list (res string (list byte * list byte))
}.

Definition apply_op (m : gmap (list byte) (list byte)) (op : BatchOp) :
    gmap (list byte) (list byte) :=
  match op with BPut k v => <[k := v]> m | BDelete k => delete k m end.
(** The operations of a batch take effect in the order they were added. *)
Definition apply_batch (ops : list BatchOp) (m : gmap (list byte) (list byte)) :
    gmap (list byte) (list byte) := foldl apply_op m ops.

(** The outcome of a write that means [m'] on a database that holds [m]: it fails as
    a whole or takes effect as a whole. *)
Definition atomic_write {DB : Type} (contents : DB → gmap (list byte) (list byte))
    (m m' : gmap (list byte) (list byte)) (run : res string () * DB) : Prop :=
  match run with
  | (Ok _, db) => contents db = m'
  | (Err _, db) => contents db = m ∨ contents db = m'
  | (Panic, _) => False
  end.

(** What the code relies on: the database is a map from byte strings to byte strings,
    its iterator goes through all of it in the order of the keys, and every call may
    fail. *)
Class RocksDbLaws `(RocksDb) := {
  contents : DB → gmap (list byte) (list byte);
  db_get_spec db k :
    (∃ e, db_get db k = Err e) ∨ db_get db k = Ok (contents db !! k);
  db_put_spec k v db :
    atomic_write contents (contents db) (<[k := v]> (contents db)) (db_put k v db);
  db_write_spec ops db :
    atomic_write contents (contents db) (apply_batch ops (contents db)) (db_write ops db);
  db_iterator_spec db :
    (∃ l e l', db_iterator db = (Ok <$> l) ++ Err e :: l' ∧
       ∀ kv, kv ∈ l → contents db !! kv.1 = Some kv.2) ∨
    db_iterator db = Ok <$> entries (contents db)
}.

(** The encodings of the stored values. *)
Class RocksCodec := {
  serde_genesis :: Serde Genesis;
  serde_account :: Serde Account;
  serde_evm_account :: Serde EvmAccountState;
  serde_finalized :: Serde FinalizedBlock;
  serde_snapshot :: Serde ConsensusSnapshot;
  serde_wal :: Serde ConsensusWalEntry;
  serde_u64 :: Serde Z;
  serde_staking :: Serde StakingState;
  serde_governance :: Serde GovernanceState;
  serde_epoch :: Serde EpochTransition;
  serde_slashing :: Serde SlashingProtection;
  serde_gas_pricing :: Serde GasPricingState;
  serde_logs :: Serde (list EvmLog)
}.
Class RocksCodecLaws `(ChainCodec, RocksCodec) : Prop := {
  laws_genesis :: SerdeLaws Genesis;
  laws_account :: SerdeLaws Account;
  laws_evm_account :: SerdeLaws EvmAccountState;
  laws_finalized :: SerdeLaws FinalizedBlock;
  laws_rc :: SerdeLaws Receipt;
  laws_snapshot :: SerdeLaws ConsensusSnapshot;
  laws_wal :: SerdeLaws ConsensusWalEntry;
  laws_u64 :: SerdeLaws Z;
  laws_staking :: SerdeLaws StakingState;
  laws_governance :: SerdeLaws GovernanceState;
  laws_epoch :: SerdeLaws EpochTransition;
  laws_slashing :: SerdeLaws SlashingProtection;
  laws_gas_pricing :: SerdeLaws GasPricingState;
  laws_logs :: SerdeLaws (list EvmLog)
}.

Module Rocks.
(** [CodecError::to_string]. *)
Definition codec_message (err : CodecError) : string :=
  match err with
  | Encode msg => "encode failed: " +:+ msg
  | Decode msg => "decode failed: " +:+ msg
  | TrailingBytes => "trailing bytes detected"
  end.
Definition encode `{Serde T} (value : T) : res StorageError (list byte) :=
  map_err (λ err, StCodec (codec_message err)) (Codec.encode value).
Definition decode `{Serde T} (bytes : list byte) : res StorageError T :=
  map_err (λ err, StCodec (codec_message err)) (Codec.decode bytes).
(** [b':'] is [0x3a]. *)
Definition key (namespace : string) (suffix : list byte) : list byte :=
  bytes_of_string namespace ++ x3a :: suffix.
Definition starts_with (prefix bytes : list byte) : bool :=
  bool_decide (prefix `prefix_of` bytes).
Definition le64 (z : Z) : list byte := le_bytes 8 z.

Section rocks.
Context `{HashBackend, ChainCodec, RocksCodec, RocksDb}.

Definition backend {A} (m : res string A) : res StorageError A := map_err StBackend m.
Definition backend_eff {A} (m : eff DB string A) : eff DB StorageError A :=
  λ db, let '(r, db) := m db in (backend r, db).

(** ** Values under one key *)
Definition get_value {T} `{Serde T} (key : list byte) (db : DB) :
    res StorageError (option T) :=
  value ← backend (db_get db key);
  match value with
  | Some value => Some <$> decode value
  | None => Ok None
  end.
Definition put_value {T} `{Serde T} (key : list byte) (value : T) :
    eff DB StorageError () :=
  bytes ← eff_lift (encode value); backend_eff (db_put key bytes).

Definition put_genesis (genesis : Genesis) : eff DB StorageError () :=
  put_value (bytes_of_string "meta:genesis") genesis.
Definition get_genesis (db : DB) : res StorageError (option Genesis) :=
  get_value (bytes_of_string "meta:genesis") db.
Definition get_account (address : Address) (db : DB) : res StorageError (option Account) :=
  get_value (key "acct" (array_bytes address)) db.
Definition put_account (address : Address) (account : Account) : eff DB StorageError () :=
  put_value (key "acct" (array_bytes address)) account.
Definition get_evm_account (address : EvmAddress) (db : DB) :
    res StorageError (option EvmAccountState) :=
  get_value (key "evm-acct" (array_bytes address)) db.
Definition put_evm_account (address : EvmAddress) (account : EvmAccountState) :
    eff DB StorageError () := put_value (key "evm-acct" (array_bytes address)) account.

(** Three writes, one after the other. *)
Definition put_finalized_block (block : FinalizedBlock) : eff DB StorageError () :=
  let hash := Block_hash (fb_block block) in
  put_value (key "block-h" (le64 (bh_height (bk_header (fb_block block))))) block ≫= λ _,
  put_value (key "block-b" (array_bytes hash)) block ≫= λ _,
  put_value (bytes_of_string "meta:latest") block.
Definition get_block_by_height (height : Z) (db : DB) :
    res StorageError (option FinalizedBlock) := get_value (key "block-h" (le64 height)) db.
Definition get_block_by_hash (hash : Hash32) (db : DB) :
    res StorageError (option FinalizedBlock) :=
  get_value (key "block-b" (array_bytes hash)) db.
Definition latest_block (db : DB) : res StorageError (option FinalizedBlock) :=
  get_value (bytes_of_string "meta:latest") db.
Definition put_receipt (receipt : Receipt) : eff DB StorageError () :=
  put_value (key "rcpt" (array_bytes (rc_tx_hash receipt))) receipt.
Definition get_receipt (tx_hash : Hash32) (db : DB) : res StorageError (option Receipt) :=
  get_value (key "rcpt" (array_bytes tx_hash)) db.
Definition put_consensus_snapshot (snapshot : ConsensusSnapshot) : eff DB StorageError () :=
  put_value (bytes_of_string "meta:consensus") snapshot.
Definition get_consensus_snapshot (db : DB) : res StorageError (option ConsensusSnapshot) :=
  get_value (bytes_of_string "meta:consensus") db.
Definition get_staking_state (db : DB) : res StorageError (option StakingState) :=
  get_value (bytes_of_string "meta:staking") db.
Definition put_staking_state (staking_state : StakingState) : eff DB StorageError () :=
  put_value (bytes_of_string "meta:staking") staking_state.
Definition get_governance_state (db : DB) : res StorageError (option GovernanceState) :=
  get_value (bytes_of_string "meta:governance") db.
Definition put_governance_state (governance_state : GovernanceState) :
    eff DB StorageError () :=
  put_value (bytes_of_string "meta:governance") governance_state.
Definition latest_epoch_transition (db : DB) : res StorageError (option EpochTransition) :=
  get_value (bytes_of_string "meta:epoch-latest") db.
Definition put_epoch_transition (epoch_transition : EpochTransition) :
    eff DB StorageError () :=
  put_value (key "epoch" (le64 (et_epoch epoch_transition))) epoch_transition ≫= λ _,
  put_value (bytes_of_string "meta:epoch-latest") epoch_transition.
Definition put_slashing_protection (address : Address) (protection : SlashingProtection) :
    eff DB StorageError () := put_value (key "slash-prot" (array_bytes address)) protection.
Definition get_slashing_protection (address : Address) (db : DB) :
    res StorageError (option SlashingProtection) :=
  get_value (key "slash-prot" (array_bytes address)) db.
Definition put_gas_pricing (state : GasPricingState) : eff DB StorageError () :=
  put_value (bytes_of_string "meta:gas-pricing") state.
Definition get_gas_pricing (db : DB) : res StorageError (option GasPricingState) :=
  get_value (bytes_of_string "meta:gas-pricing") db.
Definition put_evm_logs (height : Z) (logs : list EvmLog) : eff DB StorageError () :=
  put_value (key "evm-logs" (le64 height)) logs.
Definition get_evm_logs_by_height (height : Z) (db : DB) : res StorageError (list EvmLog) :=
  logs ← get_value (T := list EvmLog) (key "evm-logs" (le64 height)) db;
  Ok (default [] logs).
(** [for height in from_height..=to_height]. *)
Fixpoint logs_loop (heights : list Z) (result : list (Z * EvmLog)) (db : DB) :
    res StorageError (list (Z * EvmLog)) :=
  match heights with
  | [] => Ok result
  | height :: heights =>
      logs ← get_evm_logs_by_height height db;
      logs_loop heights (result ++ ((height,.) <$> logs)) db
  end.
Definition get_evm_logs_range (from_height to_height : Z) (db : DB) :
    res StorageError (list (Z * EvmLog)) :=
  logs_loop (seqZ from_height (to_height - from_height + 1)) [] db.

(** ** Walks over the whole key space *)

(** [for entry in self.db.iterator(IteratorMode::Start)]. *)
Fixpoint for_entries {A} (visit : A → list byte → list byte → res StorageError A)
    (items : list (res string (list byte * list byte))) (out : A) : res StorageError A :=
  match items with
  | [] => Ok out
  | entry :: items =>
      '(key_bytes, value) ← backend entry;
      out ← visit out key_bytes value;
      for_entries visit items out
  end.

(** The bodies of the three loops; [&key_bytes[5..37]] panics on a shorter key. *)
Definition visit_account (out : gmap Address Account) (key_bytes value : list byte) :
    res StorageError (gmap Address Account) :=
  if negb (starts_with (bytes_of_string "acct:") key_bytes) then Ok out else
  address ← expect (array_of 32 (take 32 (drop 5 key_bytes)));
  account ← decode value;
  Ok (<[address := account]> out).
Definition accounts (db : DB) : res StorageError (gmap Address Account) :=
  for_entries visit_account (db_iterator db) ∅.
Definition visit_evm_account (out : gmap EvmAddress EvmAccountState)
    (key_bytes value : list byte) : res StorageError (gmap EvmAddress EvmAccountState) :=
  if negb (starts_with (bytes_of_string "evm-acct:") key_bytes) then Ok out else
  address ← expect (array_of 20 (take 20 (drop 9 key_bytes)));
  account ← decode value;
  Ok (<[address := account]> out).
Definition evm_accounts (db : DB) : res StorageError (gmap EvmAddress EvmAccountState) :=
  for_entries visit_evm_account (db_iterator db) ∅.
Definition visit_wal (out : gmap Z ConsensusWalEntry) (key_bytes value : list byte) :
    res StorageError (gmap Z ConsensusWalEntry) :=
  if negb (starts_with (bytes_of_string "consensus-wal:") key_bytes) then Ok out else
  raw ← ok_or (StBackend "malformed consensus wal index")
    (array_of 8 (take 8 (drop 14 key_bytes)));
  entry ← decode value;
  Ok (<[le_value (array_bytes raw) := entry]> out).
Definition load_consensus_wal (db : DB) : res StorageError (list ConsensusWalEntry) :=
  out ← for_entries visit_wal (db_iterator db) ∅;
  Ok (entries out).*2.

(** ** The write-ahead log *)
Definition append_consensus_wal (entry : ConsensusWalEntry) : eff DB StorageError () :=
  db ← eff_get;
  next_index ← eff_lift (get_value (T := Z) (bytes_of_string "meta:consensus-wal-next") db);
  let next_index := default 0 next_index in
  put_value (key "consensus-wal" (le64 next_index)) entry ≫= λ _,
  put_value (bytes_of_string "meta:consensus-wal-next") (wrapping U64_MAX (next_index + 1)).

(** The deletions of [compact_consensus_wal]: [index] counts the loaded entries. *)
Fixpoint compact_batch (below_height index : Z) (entries : list ConsensusWalEntry) :
    list BatchOp :=
  match entries with
  | [] => []
  | entry :: entries =>
      (if Store.wal_height entry <? below_height
       then [BDelete (key "consensus-wal" (le64 index))] else []) ++
      compact_batch below_height (index + 1) entries
  end.
Definition write_if_any (batch : list BatchOp) (removed : Z) : eff DB StorageError Z :=
  if 0 <? removed then backend_eff (db_write batch) ≫= λ _, mret removed
  else mret removed.
Definition compact_consensus_wal (below_height : Z) : eff DB StorageError Z :=
  db ← eff_get;
  entries ← eff_lift (load_consensus_wal db);
  let batch := compact_batch below_height 0 entries in
  write_if_any batch (Z.of_nat (length batch)).

(** ** Blocks *)
Definition atomic_commit_block (block : FinalizedBlock) (accounts : gmap Address Account) :
    eff DB StorageError () :=
  accounts ← eff_lift (mapM (λ '(address, account),
    BPut (key "acct" (array_bytes address)) <$> encode (account : Account))
    (entries accounts));
  receipts ← eff_lift (mapM (λ receipt : Receipt,
    BPut (key "rcpt" (array_bytes (rc_tx_hash receipt))) <$> encode receipt)
    (fb_receipts block));
  let hash := Block_hash (fb_block block) in
  encoded_block ← eff_lift (encode block);
  backend_eff (db_write (accounts ++ receipts ++
    [BPut (key "block-h" (le64 (bh_height (bk_header (fb_block block))))) encoded_block;
     BPut (key "block-b" (array_bytes hash)) encoded_block;
     BPut (bytes_of_string "meta:latest") encoded_block])).

(** [for h in 0..height]: the batch and the count of removed blocks. *)
Fixpoint prune_loop (heights : list Z) (batch : list BatchOp) (removed : Z) (db : DB) :
    res StorageError (list BatchOp * Z) :=
  match heights with
  | [] => Ok (batch, removed)
  | h :: heights =>
      let k := key "block-h" (le64 h) in
      found ← backend (db_get db k);
      match found with
      | Some block_bytes =>
          match decode (T := FinalizedBlock) block_bytes with
          | Ok block => prune_loop heights (batch ++
              [BDelete (key "block-b" (array_bytes (Block_hash (fb_block block))));
               BDelete k]) (removed + 1) db
          | Err _ => prune_loop heights (batch ++ [BDelete k]) (removed + 1) db
          | Panic => Panic
          end
      | None => prune_loop heights batch removed db
      end
  end.
Definition prune_blocks_below (height : Z) : eff DB StorageError Z :=
  db ← eff_get;
  '(batch, removed) ← eff_lift (prune_loop (seqZ 0 height) [] 0 db);
  write_if_any batch removed.
End rocks.
End Rocks.
