(* ===== verification/RocksLayout.v ===== *)
(** [RocksStore]: the layout of its key space.  Every record of the store has its own key;
    a database is described slot by slot, and batches act on slots. *)

From S2P Require Import Prelude Types Codec Hash Crypto Wire Storage Rocks.

(** ** Iteration of ordered maps *)
Section ordered.
Context `{Countable K, Lexico K}.
Context `{!StrictOrder (@lexico K _), !TrichotomyT (@lexico K _)}.

(** The iteration of a map is its only sorted enumeration. *)
Lemma entries_unique {V} (m : gmap K V) (l : list (K * V)) :
  StronglySorted entry_le l → l ≡ₚ map_to_list m → l = entries m.
Proof.
  intros Hs Hp. rewrite <-entries_Permutation in Hp.
  apply (StronglySorted_unique_strong entry_le); [|done|apply entries_sorted|done].
  intros [k1 v1] [k2 v2] H1 H2 Hle1 Hle2.
  pose proof (key_le_antisym _ _ Hle1 Hle2) as Hk. simpl in Hk. subst.
  rewrite Hp in H1. apply elem_of_entries in H1, H2. congruence.
Qed.
Lemma entries_filter {V} (P : K * V → Prop) `{!∀ x, Decision (P x)} (m : gmap K V) :
  entries (filter P m) = filter P (entries m).
Proof.
  symmetry. apply entries_unique.
  - pose proof (entries_sorted m) as Hs. induction Hs as [|x l Hs IH Hx]; [constructor|].
    rewrite filter_cons. case_decide; [|done]. constructor; [done|].
    rewrite Forall_forall in *. intros y [_ Hy]%list_elem_of_filter. by apply Hx.
  - apply NoDup_Permutation.
    + apply NoDup_filter. rewrite entries_Permutation. apply NoDup_map_to_list.
    + apply NoDup_map_to_list.
    + intros [k v]. rewrite list_elem_of_filter, elem_of_entries, elem_of_map_to_list.
      rewrite map_lookup_filter_Some. tauto.
Qed.
(** A new greatest key comes last. *)
Lemma entries_insert_last {V} (m : gmap K V) k v :
  m !! k = None → (∀ k', is_Some (m !! k') → key_le k' k) →
  entries (<[k := v]> m) = entries m ++ [(k, v)].
Proof.
  intros Hk Hmax. symmetry. apply entries_unique.
  - apply StronglySorted_snoc; [apply entries_sorted|]. intros [k' v'] Hin.
    apply elem_of_entries in Hin. apply Hmax. eauto.
  - rewrite map_to_list_insert by done. rewrite entries_Permutation. symmetry.
    apply Permutation_cons_append.
Qed.
End ordered.

(** ** Sorted lists of numbers *)
Lemma StronglySorted_filter {A} (R : relation A) (P : A → Prop) `{!∀ x, Decision (P x)} l :
  StronglySorted R l → StronglySorted R (filter P l).
Proof.
  induction 1 as [|x l Hs IH Hx]; [constructor|]. rewrite filter_cons.
  case_decide; [|done]. constructor; [done|]. rewrite Forall_forall in *.
  intros y [_ Hy]%list_elem_of_filter. by apply Hx.
Qed.
Lemma sorted_keys_eq (l1 l2 : list Z) :
  StronglySorted key_le l1 → StronglySorted key_le l2 → NoDup l1 → NoDup l2 →
  (∀ i, i ∈ l1 ↔ i ∈ l2) → l1 = l2.
Proof.
  intros. apply (StronglySorted_unique_strong key_le); [|done..|by apply NoDup_Permutation].
  intros x1 x2 _ _. apply key_le_antisym.
Qed.
Lemma seqZ_sorted a n : StronglySorted key_le (seqZ a n).
Proof.
  unfold seqZ. generalize 0%nat. induction (Z.to_nat n) as [|k IH]; intros j; simpl;
    constructor; [apply IH|].
  rewrite Forall_fmap, Forall_forall. intros y Hy%elem_of_seq. left. unfold lexico. simpl.
  unfold lexico, Z_lexico. lia.
Qed.
Lemma entries_keys_sorted {V} (m : gmap Z V) : StronglySorted key_le (entries m).*1.
Proof. apply (StronglySorted_fmap entry_le); [done|]. apply entries_sorted. Qed.
Lemma elem_of_entries_keys {V} (m : gmap Z V) i : i ∈ (entries m).*1 ↔ is_Some (m !! i).
Proof.
  rewrite list_elem_of_fmap. split.
  - intros ([k v] & -> & Hk%elem_of_entries). eauto.
  - intros [v Hv]. exists (i, v). split; [done|]. by apply elem_of_entries.
Qed.
Lemma dense_keys {V} (m : gmap Z V) n :
  (∀ i, is_Some (m !! i) ↔ 0 ≤ i < n) → (entries m).*1 = seqZ 0 n.
Proof.
  intros Hm. apply sorted_keys_eq.
  - apply entries_keys_sorted.
  - apply seqZ_sorted.
  - apply entries_keys_NoDup.
  - apply NoDup_seqZ.
  - intros i. rewrite elem_of_entries_keys, Hm, elem_of_seqZ. lia.
Qed.

(** ** The layout of the key space *)

Inductive MetaKey :=
  | MGenesis | MLatest | MConsensus | MWalNext | MStaking | MGovernance | MEpochLatest
  | MGasPricing.
Inductive Slot :=
  | SAccount (a : Address) | SEvm (a : EvmAddress) | SBlockH (h : Z) | SBlockB (b : Hash32)
  | SReceipt (t : Hash32) | SWal (i : Z) | SEpoch (e : Z) | SSlash (a : Address)
  | SLogs (h : Z) | SMeta (m : MetaKey).
#[export] Instance meta_eq_dec : EqDecision MetaKey.
Proof. solve_decision. Defined.
#[export] Instance slot_eq_dec : EqDecision Slot.
Proof. solve_decision. Defined.

Definition meta_key (m : MetaKey) : list byte :=
  bytes_of_string
    match m with
    | MGenesis => "meta:genesis" | MLatest => "meta:latest"
    | MConsensus => "meta:consensus" | MWalNext => "meta:consensus-wal-next"
    | MStaking => "meta:staking" | MGovernance => "meta:governance"
    | MEpochLatest => "meta:epoch-latest" | MGasPricing => "meta:gas-pricing"
    end.
Definition slot_key (s : Slot) : list byte :=
  match s with
  | SAccount a => Rocks.key "acct" (array_bytes a)
  | SEvm a => Rocks.key "evm-acct" (array_bytes a)
  | SBlockH h => Rocks.key "block-h" (Rocks.le64 h)
  | SBlockB b => Rocks.key "block-b" (array_bytes b)
  | SReceipt t => Rocks.key "rcpt" (array_bytes t)
  | SWal i => Rocks.key "consensus-wal" (Rocks.le64 i)
  | SEpoch e => Rocks.key "epoch" (Rocks.le64 e)
  | SSlash a => Rocks.key "slash-prot" (array_bytes a)
  | SLogs h => Rocks.key "evm-logs" (Rocks.le64 h)
  | SMeta m => meta_key m
  end.
(** Numbers in keys are [u64]. *)
Definition slot_ok (s : Slot) : Prop :=
  match s with
  | SBlockH z | SWal z | SEpoch z | SLogs z => in_range U64_MAX z
  | _ => True
  end.

(** Computes the bytes of the string literals in a hypothesis. *)
Ltac literal_bytes H :=
  repeat match type of H with
  | context [bytes_of_string ?s] =>
      let v := eval vm_compute in (bytes_of_string s) in change (bytes_of_string s) with v in H
  end; cbn [app] in H.

Lemma le64_inj i j : in_range U64_MAX i → in_range U64_MAX j →
  Rocks.le64 i = Rocks.le64 j → i = j.
Proof.
  unfold in_range, Rocks.le64. intros Hi Hj E.
  rewrite <-(le_value_bytes 8 i), <-(le_value_bytes 8 j) by (simpl; lia). by rewrite E.
Qed.
(** Different slots have different keys: no two kinds of record overlap. *)
Lemma slot_key_inj s1 s2 :
  slot_ok s1 → slot_ok s2 → slot_key s1 = slot_key s2 → s1 = s2.
Proof.
  intros H1 H2 E.
  destruct s1 as [| | | | | | | | |[]], s2 as [| | | | | | | | |[]];
    cbn [slot_key meta_key] in E; unfold Rocks.key in E; literal_bytes E;
    first [discriminate E | done | idtac];
    repeat match type of E with _ :: _ = _ :: _ => apply (f_equal tail) in E; cbn [tail] in E end;
    f_equal; first [by apply array_eq | by apply le64_inj].
Qed.

(** What a database holds, slot by slot. *)
Definition layout := Slot → option (list byte).
Definition set_slot (s : Slot) (o : option (list byte)) (f : layout) : layout :=
  λ s', if decide (s' = s) then o else f s'.
Definition stores (m : gmap (list byte) (list byte)) (f : layout) : Prop :=
  (∀ s, slot_ok s → m !! slot_key s = f s) ∧
  (∀ k, is_Some (m !! k) → ∃ s, slot_ok s ∧ k = slot_key s).

Lemma stores_ext m f g : (∀ s, slot_ok s → f s = g s) → stores m f → stores m g.
Proof. intros Hfg [Hf Hd]. split; [|done]. intros s Hs. rewrite <-Hfg by done. eauto. Qed.
Lemma stores_empty : stores ∅ (λ _, None).
Proof. split; [done|]. intros k [v Hk]. by rewrite lookup_empty in Hk. Qed.
Lemma stores_insert m f s v :
  slot_ok s → stores m f → stores (<[slot_key s := v]> m) (set_slot s (Some v) f).
Proof.
  intros Hs [Hf Hd]. split.
  - intros s' Hs'. unfold set_slot. case_decide as E; [by rewrite E, lookup_insert_eq|].
    rewrite lookup_insert_ne; [auto|]. by intros ?%slot_key_inj.
  - intros k. destruct (decide (k = slot_key s)) as [->|]; [eauto|].
    rewrite lookup_insert_ne by done. auto.
Qed.
Lemma stores_delete m f s :
  slot_ok s → stores m f → stores (delete (slot_key s) m) (set_slot s None f).
Proof.
  intros Hs [Hf Hd]. split.
  - intros s' Hs'. unfold set_slot. case_decide as E; [by rewrite E, lookup_delete_eq|].
    rewrite lookup_delete_ne; [auto|]. by intros ?%slot_key_inj.
  - intros k [v [_ Hk]%lookup_delete_Some]. eauto.
Qed.

(** Batches on slots. *)
Definition slot_op (p : Slot * option (list byte)) : BatchOp :=
  match p with (s, Some v) => BPut (slot_key s) v | (s, None) => BDelete (slot_key s) end.
Definition set_slots (ps : list (Slot * option (list byte))) (f : layout) : layout :=
  foldl (λ f '(s, o), set_slot s o f) f ps.
Lemma stores_batch ps : ∀ m f,
  Forall (λ p, slot_ok p.1) ps → stores m f →
  stores (apply_batch (slot_op <$> ps) m) (set_slots ps f).
Proof.
  induction ps as [|[s o] ps IH]; intros m f Hps Hm; [done|]. inv Hps. simpl.
  apply IH; [done|]. destruct o; simpl; [by apply stores_insert | by apply stores_delete].
Qed.

(** ** Deletions *)
Lemma set_slots_delete ss f s :
  set_slots ((., None) <$> ss) f s = if decide (s ∈ ss) then None else f s.
Proof.
  revert f. induction ss as [|s0 ss IH]; intros f; simpl; [done|].
  unfold set_slots in *. simpl. rewrite IH. unfold set_slot.
  repeat case_decide; rewrite elem_of_cons in *; try done; naive_solver.
Qed.
