(* ===== verification/RocksRefine.v ===== *)
(** [RocksStore] implements the contract of [ChainStore] that [MemoryStore] defines: the
    methods of the trait as a type of operations with two implementations, the
    representation of a memory store by a database, and the theorem that no client tells
    the two apart. *)

From S2P Require Import Prelude Types Codec Hash Crypto Wire Storage Rocks RocksLayout.

(** ** The operations of [ChainStore], and its clients *)

(** One constructor per method of the trait, indexed by the type of its answer. *)
Inductive ChainStore : Type → Type :=
  | PutGenesis (genesis : Genesis) : ChainStore ()
  | GetGenesis : ChainStore (option Genesis)
  | GetAccount (address : Address) : ChainStore (option Account)
  | PutAccount (address : Address) (account : Account) : ChainStore ()
  | Accounts : ChainStore (gmap Address Account)
  | GetEvmAccount (address : EvmAddress) : ChainStore (option EvmAccountState)
  | PutEvmAccount (address : EvmAddress) (account : EvmAccountState) : ChainStore ()
  | EvmAccounts : ChainStore (gmap EvmAddress EvmAccountState)
  | PutFinalizedBlock (block : FinalizedBlock) : ChainStore ()
  | GetBlockByHeight (height : Z) : ChainStore (option FinalizedBlock)
  | GetBlockByHash (hash : Hash32) : ChainStore (option FinalizedBlock)
  | LatestBlock : ChainStore (option FinalizedBlock)
  | PutReceipt (receipt : Receipt) : ChainStore ()
  | GetReceipt (tx_hash : Hash32) : ChainStore (option Receipt)
  | PutConsensusSnapshot (snapshot : ConsensusSnapshot) : ChainStore ()
  | GetConsensusSnapshot : ChainStore (option ConsensusSnapshot)
  | AppendConsensusWal (entry : ConsensusWalEntry) : ChainStore ()
  | LoadConsensusWal : ChainStore (list ConsensusWalEntry)
  | GetStakingState : ChainStore (option StakingState)
  | PutStakingState (staking_state : StakingState) : ChainStore ()
  | GetGovernanceState : ChainStore (option GovernanceState)
  | PutGovernanceState (governance_state : GovernanceState) : ChainStore ()
  | LatestEpochTransition : ChainStore (option EpochTransition)
  | PutEpochTransition (epoch_transition : EpochTransition) : ChainStore ()
  | AtomicCommitBlock (block : FinalizedBlock) (accounts : gmap Address Account) :
      ChainStore ()
  | CompactConsensusWal (below_height : Z) : ChainStore Z
  | PutSlashingProtection (address : Address) (protection : SlashingProtection) :
      ChainStore ()
  | GetSlashingProtection (address : Address) : ChainStore (option SlashingProtection)
  | PutGasPricing (state : GasPricingState) : ChainStore ()
  | GetGasPricing : ChainStore (option GasPricingState)
  | PruneBlocksBelow (height : Z) : ChainStore Z
  | PutEvmLogs (height : Z) (logs : list EvmLog) : ChainStore ()
  | GetEvmLogsByHeight (height : Z) : ChainStore (list EvmLog)
  | GetEvmLogsRange (from_height to_height : Z) : ChainStore (list (Z * EvmLog)).

(** An implementation of the trait over a state [S]. *)
Definition implementation (S : Type) : Type := ∀ A, ChainStore A → eff S StorageError A.

(** A client calls the store and returns the first error ([?]). *)
Inductive client (R : Type) : Type :=
  | Return (r : R)
  | Invoke {A : Type} (op : ChainStore A) (k : A → client R).
Arguments Return {R} r.
Arguments Invoke {R A} op k.

Fixpoint run {S R} (store : implementation S) (c : client R) : eff S StorageError R :=
  match c with
  | Return r => mret r
  | Invoke op k => a ← store _ op; run store (k a)
  end.

Section implementations.
Context `{HashBackend, ChainCodec, RocksCodec, RocksDb}.

Definition reading {S A} (f : S → A) : eff S StorageError A := λ s, (Ok (f s), s).
Definition writing {S A} (f : S → A * S) : eff S StorageError A :=
  λ s, let '(a, s) := f s in (Ok a, s).

Definition memory_store : implementation MemoryInner := λ A op,
  match op with
  | PutGenesis g => eff_modify (Store.put_genesis g)
  | GetGenesis => reading Store.get_genesis
  | GetAccount a => reading (Store.get_account a)
  | PutAccount a v => eff_modify (Store.put_account a v)
  | Accounts => reading Store.accounts
  | GetEvmAccount a => reading (Store.get_evm_account a)
  | PutEvmAccount a v => eff_modify (Store.put_evm_account a v)
  | EvmAccounts => reading Store.evm_accounts
  | PutFinalizedBlock b => eff_modify (Store.put_finalized_block b)
  | GetBlockByHeight h => reading (Store.get_block_by_height h)
  | GetBlockByHash h => reading (Store.get_block_by_hash h)
  | LatestBlock => reading Store.latest_block
  | PutReceipt r => eff_modify (Store.put_receipt r)
  | GetReceipt t => reading (Store.get_receipt t)
  | PutConsensusSnapshot s => eff_modify (Store.put_consensus_snapshot s)
  | GetConsensusSnapshot => reading Store.get_consensus_snapshot
  | AppendConsensusWal e => eff_modify (Store.append_consensus_wal e)
  | LoadConsensusWal => reading Store.load_consensus_wal
  | GetStakingState => reading Store.get_staking_state
  | PutStakingState s => eff_modify (Store.put_staking_state s)
  | GetGovernanceState => reading Store.get_governance_state
  | PutGovernanceState s => eff_modify (Store.put_governance_state s)
  | LatestEpochTransition => reading Store.latest_epoch_transition
  | PutEpochTransition t => eff_modify (Store.put_epoch_transition t)
  | AtomicCommitBlock b accounts => eff_modify (Store.atomic_commit_block b accounts)
  | CompactConsensusWal h => writing (Store.compact_consensus_wal h)
  | PutSlashingProtection a p => eff_modify (Store.put_slashing_protection a p)
  | GetSlashingProtection a => reading (Store.get_slashing_protection a)
  | PutGasPricing g => eff_modify (Store.put_gas_pricing g)
  | GetGasPricing => reading Store.get_gas_pricing
  | PruneBlocksBelow h => writing (Store.prune_blocks_below h)
  | PutEvmLogs h logs => eff_modify (Store.put_evm_logs h logs)
  | GetEvmLogsByHeight h => reading (Store.get_evm_logs_by_height h)
  | GetEvmLogsRange a b => λ s,
      (map_err (λ _, StBackend "") (Store.get_evm_logs_range a b s), s)
  end.

Definition looking {A} (f : DB → res StorageError A) : eff DB StorageError A :=
  λ db, (f db, db).
Definition rocks_store : implementation DB := λ A op,
  match op with
  | PutGenesis g => Rocks.put_genesis g
  | GetGenesis => looking Rocks.get_genesis
  | GetAccount a => looking (Rocks.get_account a)
  | PutAccount a v => Rocks.put_account a v
  | Accounts => looking Rocks.accounts
  | GetEvmAccount a => looking (Rocks.get_evm_account a)
  | PutEvmAccount a v => Rocks.put_evm_account a v
  | EvmAccounts => looking Rocks.evm_accounts
  | PutFinalizedBlock b => Rocks.put_finalized_block b
  | GetBlockByHeight h => looking (Rocks.get_block_by_height h)
  | GetBlockByHash h => looking (Rocks.get_block_by_hash h)
  | LatestBlock => looking Rocks.latest_block
  | PutReceipt r => Rocks.put_receipt r
  | GetReceipt t => looking (Rocks.get_receipt t)
  | PutConsensusSnapshot s => Rocks.put_consensus_snapshot s
  | GetConsensusSnapshot => looking Rocks.get_consensus_snapshot
  | AppendConsensusWal e => Rocks.append_consensus_wal e
  | LoadConsensusWal => looking Rocks.load_consensus_wal
  | GetStakingState => looking Rocks.get_staking_state
  | PutStakingState s => Rocks.put_staking_state s
  | GetGovernanceState => looking Rocks.get_governance_state
  | PutGovernanceState s => Rocks.put_governance_state s
  | LatestEpochTransition => looking Rocks.latest_epoch_transition
  | PutEpochTransition t => Rocks.put_epoch_transition t
  | AtomicCommitBlock b accounts => Rocks.atomic_commit_block b accounts
  | CompactConsensusWal h => Rocks.compact_consensus_wal h
  | PutSlashingProtection a p => Rocks.put_slashing_protection a p
  | GetSlashingProtection a => looking (Rocks.get_slashing_protection a)
  | PutGasPricing g => Rocks.put_gas_pricing g
  | GetGasPricing => looking Rocks.get_gas_pricing
  | PruneBlocksBelow h => Rocks.prune_blocks_below h
  | PutEvmLogs h logs => Rocks.put_evm_logs h logs
  | GetEvmLogsByHeight h => looking (Rocks.get_evm_logs_by_height h)
  | GetEvmLogsRange a b => looking (Rocks.get_evm_logs_range a b)
  end.
End implementations.

(** ** The representation of a memory store *)

(** What the database remembers beyond the memory store: the number of appends to the
    write-ahead log, and whether a compaction has deleted some of it. *)
Record History := { hi_appends : Z; hi_compacted : bool }.
Definition fresh : History := {| hi_appends := 0; hi_compacted := false |}.

Definition encoded {T} `{Serde T} (o : option T) : option (list byte) :=
  encode_to_vec <$> o.

Section representation.
Context `{HashBackend, ChainCodec, RocksCodec, !RocksCodecLaws _ _}.
Context `{RocksDb, !RocksDbLaws _}.

(** The log is kept under the numbers of its entries. *)
Definition slot_value (s : MemoryInner) (wal : gmap Z ConsensusWalEntry) (appends : Z)
    (latest : option FinalizedBlock) : layout := λ slot,
  match slot with
  | SAccount a => encoded (ms_accounts s !! a)
  | SEvm a => encoded (ms_evm_accounts s !! a)
  | SBlockH h => encoded (ms_blocks_by_height s !! h)
  | SBlockB b => encoded (ms_blocks_by_hash s !! b)
  | SReceipt t => encoded (ms_receipts s !! t)
  | SWal i => encoded (wal !! i)
  | SEpoch e => encoded (ms_epoch_transitions s !! e)
  | SSlash a => encoded (ms_slashing_protection s !! a)
  | SLogs h => encoded (ms_evm_logs s !! h)
  | SMeta MGenesis => encoded (ms_genesis s)
  | SMeta MLatest => encoded latest
  | SMeta MConsensus => encoded (ms_snapshot s)
  | SMeta MWalNext => if 0 <? appends then Some (encode_to_vec appends) else None
  | SMeta MStaking => encoded (ms_staking_state s)
  | SMeta MGovernance => encoded (ms_governance_state s)
  | SMeta MEpochLatest => encoded (Store.latest_epoch_transition s)
  | SMeta MGasPricing => encoded (ms_gas_pricing s)
  end.

Record coherent (s : MemoryInner) (wal : gmap Z ConsensusWalEntry) (h : History) : Prop := {
  co_wal : ms_consensus_wal s = (entries wal).*2;
  co_index i : is_Some (wal !! i) → 0 ≤ i < hi_appends h;
  co_appends : 0 ≤ hi_appends h ≤ U64_MAX;
  co_dense : hi_compacted h = false → ∀ i, 0 ≤ i < hi_appends h → is_Some (wal !! i);
  co_heights k : is_Some (ms_blocks_by_height s !! k) → in_range U64_MAX k
}.

Definition represents (db : DB) (s : MemoryInner) (h : History) : Prop :=
  ∃ wal, stores (contents db) (slot_value s wal (hi_appends h) (Store.latest_block s)) ∧
    coherent s wal h.

(** An empty database represents the empty store. *)
Lemma represents_empty db : contents db = ∅ → represents db MemoryInner_default fresh.
Proof.
  intros E. exists ∅. rewrite E. split.
  - apply (stores_ext _ (λ _, None)); [|apply stores_empty]. by intros [| | | | | | | | |[]] _.
  - split; simpl; [done| |lia| |].
    + intros i [? Hi]. by rewrite lookup_empty in Hi.
    + lia.
    + intros k [? Hk]. by rewrite lookup_empty in Hk.
Qed.

(** ** Runs that may meet a fault of the database *)
Definition reliable : Prop :=
  (∀ db k, is_ok (db_get db k) = true) ∧ (∀ k v db, is_ok (db_put k v db).1 = true) ∧
  (∀ ops db, is_ok (db_write ops db).1 = true) ∧
  (∀ db item, item ∈ db_iterator db → is_ok item = true).
(** The only error is one the database reported. *)
Definition fault (e : StorageError) : Prop := (∃ msg, e = StBackend msg) ∧ ¬ reliable.

Definition yields {A} (m : res StorageError A) (Q : A → Prop) : Prop :=
  match m with Ok a => Q a | Err e => fault e | Panic => False end.
Definition meets {A} (run : res StorageError A * DB) (Q : A → DB → Prop) : Prop :=
  match run with (Ok a, db) => Q a db | (Err e, _) => fault e | (Panic, _) => False end.

Lemma yields_bind {A B} (m : res StorageError A) (f : A → res StorageError B) Q :
  yields m (λ a, yields (f a) Q) → yields (m ≫= f) Q.
Proof. by destruct m. Qed.
Lemma yields_mono {A} (m : res StorageError A) (Q Q' : A → Prop) :
  yields m Q → (∀ a, Q a → Q' a) → yields m Q'.
Proof. destruct m; simpl; eauto. Qed.
Lemma meets_bind {A B} (m : eff DB StorageError A) (f : A → eff DB StorageError B) db Q :
  meets (m db) (λ a db', meets (f a db') Q) → meets ((m ≫= f) db) Q.
Proof. unfold meets, mbind, eff_bind. by destruct (m db) as [[a|e|] db']. Qed.
Lemma meets_mono {A} (run : res StorageError A * DB) (Q Q' : A → DB → Prop) :
  meets run Q → (∀ a db, Q a db → Q' a db) → meets run Q'.
Proof. destruct run as [[a|e|] db]; simpl; eauto. Qed.
Lemma meets_lift {A} (m : res StorageError A) db (Q : A → DB → Prop) :
  yields m (λ a, Q a db) → meets (eff_lift m db) Q.
Proof. by destruct m. Qed.
Lemma meets_looking {A} (f : DB → res StorageError A) db (Q : A → DB → Prop) :
  yields (f db) (λ a, Q a db) → meets (looking f db) Q.
Proof. unfold looking. by destruct (f db). Qed.

Lemma meets_write (m : eff DB string ()) db m' Q :
  atomic_write contents (contents db) m' (m db) →
  (reliable → is_ok (m db).1 = true) →
  (∀ db', contents db' = m' → Q tt db') → meets (Rocks.backend_eff m db) Q.
Proof.
  intros Ha Hr HQ. unfold Rocks.backend_eff, meets.
  destruct (m db) as [[[]|e|] db'] eqn:E; simpl in *; [auto| |done].
  split; [eauto|]. intros Hrel. by specialize (Hr Hrel).
Qed.

(** ** Values under one key *)
Lemma decode_stored {T} `{SerdeLaws T} (x : T) : Rocks.decode (encode_to_vec x) = Ok x.
Proof. unfold Rocks.decode. by rewrite Codec.decode_encode. Qed.

Lemma get_value_spec {T} `{SerdeLaws T} db f sl (o : option T) :
  stores (contents db) f → slot_ok sl → f sl = encoded o →
  yields (Rocks.get_value (slot_key sl) db) (λ r, r = o).
Proof.
  intros [Hf _] Hsl Ho. unfold Rocks.get_value, Rocks.backend.
  destruct (db_get_spec db (slot_key sl)) as [[e He]|He]; rewrite He; simpl.
  - split; [eauto|]. intros [Hr _]. specialize (Hr db (slot_key sl)). by rewrite He in Hr.
  - rewrite Hf, Ho by done. destruct o; simpl; [|done]. by rewrite decode_stored.
Qed.
Lemma put_value_spec {T} `{SerdeLaws T} db f sl (x : T) :
  stores (contents db) f → slot_ok sl →
  meets (Rocks.put_value (slot_key sl) x db)
    (λ _ db', stores (contents db') (set_slot sl (Some (encode_to_vec x)) f)).
Proof.
  intros Hf Hsl. unfold Rocks.put_value. apply meets_bind. simpl.
  apply (meets_write _ _ (<[slot_key sl := encode_to_vec x]> (contents db))).
  - apply db_put_spec.
  - intros (_ & Hr & _). apply Hr.
  - intros db' ->. by apply stores_insert.
Qed.
Lemma db_write_slots db f ps :
  stores (contents db) f → Forall (λ p, slot_ok p.1) ps →
  meets (Rocks.backend_eff (db_write (slot_op <$> ps)) db)
    (λ _ db', stores (contents db') (set_slots ps f)).
Proof.
  intros Hf Hps. apply (meets_write _ _ (apply_batch (slot_op <$> ps) (contents db))).
  - apply db_write_spec.
  - intros (_ & _ & Hr & _). apply Hr.
  - intros db' ->. by apply stores_batch.
Qed.

(** ** Walks over the key space *)
Section walk.
Context {K V : Type} `{Countable K, SerdeLaws V}.
Context (prefix : list byte) (parse : list byte → res StorageError K) (slot : K → Slot).
Context (m : gmap K V) (db : DB) (f : layout).
Context `{!Inj (=) (=) slot}.
Context (Hstored : stores (contents db) f).
Context (Hprefix : ∀ s, slot_ok s →
  Rocks.starts_with prefix (slot_key s) = true → ∃ x, s = slot x).
Context (Hslot : ∀ x, Rocks.starts_with prefix (slot_key (slot x)) = true).
Context (Hparse : ∀ x, slot_ok (slot x) → parse (slot_key (slot x)) = Ok x).
Context (Hvalue : ∀ x, f (slot x) = encoded (m !! x)).
Context (Hok : ∀ x, is_Some (m !! x) → slot_ok (slot x)).

Let visit (out : gmap K V) (key_bytes value : list byte) : res StorageError (gmap K V) :=
  if negb (Rocks.starts_with prefix key_bytes) then Ok out else
  x ← parse key_bytes; y ← Rocks.decode value; Ok (<[x := y]> out).

(** [out] holds the records among the entries seen so far. *)
Let seen (out : gmap K V) (done : list (list byte * list byte)) : Prop :=
  ∀ x y, out !! x = Some y ↔ m !! x = Some y ∧ slot_key (slot x) ∈ done.*1.

Lemma keys_snoc (done : list (list byte * list byte)) k v k' :
  k' ∈ (done ++ [(k, v)]).*1 ↔ k' ∈ done.*1 ∨ k' = k.
Proof. by rewrite fmap_app, elem_of_app, <-list_elem_of_singleton. Qed.

Lemma visit_seen out done k v :
  contents db !! k = Some v → seen out done →
  ∃ out', visit out k v = Ok out' ∧ seen out' (done ++ [(k, v)]).
Proof.
  intros Hkv Hout. destruct Hstored as [Hf Hd].
  destruct (Hd k) as (s & Hs & ->); [eauto|]. unfold visit.
  destruct (Rocks.starts_with prefix (slot_key s)) eqn:Hp; simpl.
  - destruct (Hprefix s Hs Hp) as [x ->]. rewrite Hf, Hvalue in Hkv by done.
    destruct (m !! x) as [y|] eqn:Hx; [|done]. simpl in Hkv. injection Hkv as <-.
    rewrite Hparse by done. simpl. rewrite decode_stored. simpl. eexists. split; [done|].
    intros x' y'. rewrite keys_snoc.
    destruct (decide (x' = x)) as [->|Hne].
    + rewrite lookup_insert_eq, Hx. naive_solver.
    + rewrite lookup_insert_ne, (Hout x' y') by done.
      split; [tauto|]. intros [Hx' [?|E]]; [done|].
      apply slot_key_inj in E; [simplify_eq | apply Hok; eauto | done].
  - eexists. split; [done|]. intros x' y'.
    rewrite keys_snoc, (Hout x' y').
    split; [tauto|]. intros [Hx' [?|E]]; [done|]. simpl in E. by rewrite <-E, Hslot in Hp.
Qed.

Lemma walk_prefix l : ∀ out done rest,
  (∀ kv, kv ∈ l → contents db !! kv.1 = Some kv.2) → seen out done →
  ∃ out', Rocks.for_entries visit ((Ok <$> l) ++ rest) out = Rocks.for_entries visit rest out'
    ∧ seen out' (done ++ l).
Proof.
  induction l as [|[k v] l IH]; intros out done rest Hl Hout.
  { exists out. by rewrite app_nil_r. }
  destruct (visit_seen out done k v) as (out1 & Hv & Ho1); [apply (Hl (k, v)); left|done|].
  destruct (IH out1 (done ++ [(k, v)]) rest) as (out2 & Hr & Ho2); [|done|].
  { intros kv ?. apply Hl. by right. }
  exists out2. simpl. rewrite Hv. simpl. rewrite <-app_assoc in Ho2. done.
Qed.

Lemma walk_spec : yields (Rocks.for_entries visit (db_iterator db) ∅) (λ out, out = m).
Proof.
  assert (seen ∅ []) as Hinit.
  { intros x y. rewrite lookup_empty. simpl. rewrite elem_of_nil. naive_solver. }
  destruct (db_iterator_spec db) as [(l & e & l' & Hi & Hl)|Hi]; rewrite Hi.
  - destruct (walk_prefix l ∅ [] (Err e :: l') Hl Hinit) as (out & -> & _). simpl.
    split; [eauto|]. intros (_ & _ & _ & Hr). specialize (Hr db (Err e)).
    rewrite Hi in Hr. discriminate Hr. apply elem_of_app. right. left.
  - destruct (walk_prefix (entries (contents db)) ∅ [] []) as (out & Hr & Ho).
    { intros [k v] ?%elem_of_entries. done. }
    { done. }
    rewrite app_nil_r in Hr. rewrite Hr. simpl. apply map_eq. intros x.
    apply option_eq. intros y. rewrite (Ho x y). split; [tauto|]. intros Hx. split; [done|].
    simpl. destruct Hstored as [Hf _].
    assert (contents db !! slot_key (slot x) = Some (encode_to_vec y)) as Hc.
    { rewrite Hf, Hvalue, Hx by (apply Hok; eauto). done. }
    apply list_elem_of_fmap. eexists (_, _). split; [|by apply elem_of_entries]. done.
Qed.
End walk.

Lemma array_of_slice n (a : array n) p :
  array_of n (take n (drop (length p) (p ++ array_bytes a))) = Some a.
Proof.
  rewrite drop_app_length. rewrite take_ge by (by rewrite array_length).
  apply array_of_bytes.
Qed.

#[local] Instance SAccount_inj : Inj (=) (=) SAccount.
Proof. by intros ?? [=]. Qed.
#[local] Instance SEvm_inj : Inj (=) (=) SEvm.
Proof. by intros ?? [=]. Qed.
#[local] Instance SWal_inj : Inj (=) (=) SWal.
Proof. by intros ?? [=]. Qed.

Lemma for_entries_ext {A} (f g : A → list byte → list byte → res StorageError A) items out :
  (∀ out k v, f out k v = g out k v) →
  Rocks.for_entries f items out = Rocks.for_entries g items out.
Proof.
  intros Hfg. revert out. induction items as [|e items IH]; intros out; simpl; [done|].
  destruct e as [[k v]| |]; simpl; [|done..]. rewrite Hfg. by destruct (g out k v); simpl.
Qed.

(** Which slots a walked prefix selects. *)
Lemma acct_prefix s :
  Rocks.starts_with (bytes_of_string "acct:") (slot_key s) = true → ∃ x, s = SAccount x.
Proof. destruct s as [| | | | | | | | |[]]; first [by eauto | by vm_compute]. Qed.
Lemma evm_prefix s :
  Rocks.starts_with (bytes_of_string "evm-acct:") (slot_key s) = true → ∃ x, s = SEvm x.
Proof. destruct s as [| | | | | | | | |[]]; first [by eauto | by vm_compute]. Qed.
Lemma wal_prefix s :
  Rocks.starts_with (bytes_of_string "consensus-wal:") (slot_key s) = true →
  ∃ x, s = SWal x.
Proof. destruct s as [| | | | | | | | |[]]; first [by eauto | by vm_compute]. Qed.
Lemma starts_with_app p l : Rocks.starts_with p (p ++ l) = true.
Proof. apply bool_decide_eq_true. by apply prefix_app_r. Qed.

Section walks.
Context (db : DB) (s : MemoryInner) (wal : gmap Z ConsensusWalEntry) (n : Z).
Context (latest : option FinalizedBlock).
Context (Hs : stores (contents db) (slot_value s wal n latest)).

Lemma accounts_spec : yields (Rocks.accounts db) (λ out, out = ms_accounts s).
Proof.
  apply (walk_spec (bytes_of_string "acct:")
    (λ k, expect (array_of 32 (take 32 (drop 5 k)))) SAccount _ db (slot_value s wal n latest)).
  - done.
  - intros sl _. apply acct_prefix.
  - intros x. apply (starts_with_app (bytes_of_string "acct:")).
  - intros x _. cbn [slot_key].
    change (drop 5 _) with (drop (length (bytes_of_string "acct:"))
      (bytes_of_string "acct:" ++ array_bytes x)).
    by rewrite array_of_slice.
  - done.
  - done.
Qed.
Lemma evm_accounts_spec : yields (Rocks.evm_accounts db) (λ out, out = ms_evm_accounts s).
Proof.
  apply (walk_spec (bytes_of_string "evm-acct:")
    (λ k, expect (array_of 20 (take 20 (drop 9 k)))) SEvm _ db (slot_value s wal n latest)).
  - done.
  - intros sl _. apply evm_prefix.
  - intros x. apply (starts_with_app (bytes_of_string "evm-acct:")).
  - intros x _. cbn [slot_key].
    change (drop 9 _) with (drop (length (bytes_of_string "evm-acct:"))
      (bytes_of_string "evm-acct:" ++ array_bytes x)).
    by rewrite array_of_slice.
  - done.
  - done.
Qed.
Lemma load_wal_spec :
  (∀ i, is_Some (wal !! i) → in_range U64_MAX i) →
  yields (Rocks.load_consensus_wal db) (λ out, out = (entries wal).*2).
Proof.
  intros Hi. unfold Rocks.load_consensus_wal. apply yields_bind.
  rewrite (for_entries_ext _ (λ out key_bytes value,
    if negb (Rocks.starts_with (bytes_of_string "consensus-wal:") key_bytes) then Ok out else
    x ← (raw ← ok_or (StBackend "malformed consensus wal index")
      (array_of 8 (take 8 (drop 14 key_bytes))); Ok (le_value (array_bytes raw)));
    y ← Rocks.decode value; Ok (<[x := y]> out))).
  2:{ intros out k v. unfold Rocks.visit_wal. case_match; [done|]. by destruct (ok_or _ _). }
  eapply yields_mono.
  - apply (walk_spec (bytes_of_string "consensus-wal:") _ SWal wal db
      (slot_value s wal n latest)).
    + done.
    + intros sl _. apply wal_prefix.
    + intros x. apply (starts_with_app (bytes_of_string "consensus-wal:")).
    + intros x Hx. cbn [slot_key].
      change (drop 14 _) with (drop (length (bytes_of_string "consensus-wal:"))
        (bytes_of_string "consensus-wal:" ++ Rocks.le64 x)).
      rewrite drop_app_length, take_ge by (apply Nat.eq_le_incl, (length_le_bytes 8)).
      unfold array_of. destruct (decide _) as [|E]; simpl; [|by destruct E; apply (length_le_bytes 8)].
      f_equal. apply (le_value_bytes 8). unfold slot_ok, in_range in Hx. lia.
    + done.
    + done.
  - by intros out ->.
Qed.
End walks.

(** The batch of a compaction, when the position of an entry is its number. *)
Lemma compact_batch_dense below (l : list (Z * ConsensusWalEntry)) i :
  l.*1 = seqZ i (Z.of_nat (length l)) →
  Rocks.compact_batch below i l.*2 = slot_op <$> ((., None) <$>
    (SWal <$> (filter (λ p, Store.wal_height p.2 < below) l).*1)).
Proof.
  revert i. induction l as [|[j e] l IH]; intros i Hl; [done|].
  rewrite length_cons, seqZ_cons in Hl by lia. injection Hl as -> Hl.
  replace (Z.pred (Z.of_nat (S (length l)))) with (Z.of_nat (length l)) in Hl by lia.
  replace (Z.succ i) with (i + 1) in Hl by lia.
  rewrite fmap_cons, filter_cons. cbn [Rocks.compact_batch snd]. rewrite (IH (i + 1) Hl).
  destruct (Z.ltb_spec (Store.wal_height e) below); case_decide; try lia; done.
Qed.

(** ** Effects on the slots *)
Lemma set_slots_ext ps f g s : (∀ s, f s = g s) → set_slots ps f s = set_slots ps g s.
Proof.
  revert f g. induction ps as [|[s0 o] ps IH]; intros f g Hfg; simpl; [done|].
  apply IH. intros s'. unfold set_slot. by case_decide.
Qed.
Lemma set_slots_app ps qs f : set_slots (ps ++ qs) f = set_slots qs (set_slots ps f).
Proof. unfold set_slots. by rewrite foldl_app. Qed.

(** Compares two layouts slot by slot. *)
Ltac by_slot :=
  let sl := fresh "sl" in let E := fresh "E" in intros sl;
  unfold set_slots; cbn [foldl fmap list_fmap]; unfold set_slot;
  destruct sl as [| | | | | | | | |[]]; repeat case_decide; simplify_eq; cbn;
  rewrite ?lookup_insert_eq, ?lookup_delete_eq; try done;
  rewrite ?lookup_insert_ne, ?lookup_delete_ne by congruence; try done.

Section effects.
Context (wal : gmap Z ConsensusWalEntry) (n : Z) (latest : option FinalizedBlock).
Abbreviation slots s := (slot_value s wal n latest).

Lemma foldl_slots {A} (step : MemoryInner → A → MemoryInner)
    (g : A → Slot * option (list byte)) l s sl :
  (∀ s x sl, slots (step s x) sl = set_slot (g x).1 (g x).2 (slots s) sl) →
  slots (foldl step s l) sl = set_slots (g <$> l) (slots s) sl.
Proof.
  intros Hstep. revert s. induction l as [|x l IH]; intros s; [done|].
  rewrite fmap_cons. simpl. rewrite IH. destruct (g x) as [s0 o] eqn:E.
  apply set_slots_ext. intros s'. by rewrite Hstep, E.
Qed.
Lemma put_account_slots a v s sl :
  slots (Store.put_account a v s) sl =
    set_slot (SAccount a) (Some (encode_to_vec v)) (slots s) sl.
Proof. revert sl. by_slot. Qed.
Lemma put_receipt_slots r s sl :
  slots (Store.put_receipt r s) sl =
    set_slot (SReceipt (rc_tx_hash r)) (Some (encode_to_vec r)) (slots s) sl.
Proof. revert sl. by_slot. Qed.

Definition block_slots (b : FinalizedBlock) : list (Slot * option (list byte)) :=
  [(SBlockH (bh_height (bk_header (fb_block b))), Some (encode_to_vec b));
   (SBlockB (Block_hash (fb_block b)), Some (encode_to_vec b));
   (SMeta MLatest, Some (encode_to_vec b))].
Lemma put_block_slots b s sl :
  slot_value (Store.put_finalized_block b s) wal n (Some b) sl =
    set_slots (block_slots b) (slots s) sl.
Proof. revert sl. unfold block_slots. by_slot. Qed.

(** ** Pruning *)
Definition pruned (s : MemoryInner) (hs : list Z) : list Slot :=
  flat_map (λ h, match ms_blocks_by_height s !! h with
    | Some b => [SBlockB (Block_hash (fb_block b)); SBlockH h]
    | None => [] end) hs.

Lemma prune_key_slots s k sl :
  slots (Store.prune_key s k) sl = set_slots ((., None) <$> pruned s [k]) (slots s) sl.
Proof.
  revert sl. unfold Store.prune_key, pruned. cbn [flat_map].
  destruct (ms_blocks_by_height s !! k) as [b|]; [|done]. cbn [fmap list_fmap app]. by_slot.
Qed.
Lemma pruned_after s k ks : k ∉ ks → pruned (Store.prune_key s k) ks = pruned s ks.
Proof.
  intros Hk. unfold pruned, Store.prune_key.
  destruct (ms_blocks_by_height s !! k) as [b|]; [|done].
  induction ks as [|k' ks IH]; [done|]. rewrite not_elem_of_cons in Hk. simpl in *.
  rewrite IH by tauto. by rewrite lookup_delete_ne by tauto.
Qed.
Lemma prune_keys_slots ks : ∀ s sl, NoDup ks →
  slots (foldl Store.prune_key s ks) sl = set_slots ((., None) <$> pruned s ks) (slots s) sl.
Proof.
  induction ks as [|k ks IH]; intros s sl Hks; [done|]. apply NoDup_cons in Hks as [Hk Hks].
  simpl. rewrite IH, pruned_after by done.
  change (pruned s (k :: ks)) with
    ((match ms_blocks_by_height s !! k with
      | Some b => [SBlockB (Block_hash (fb_block b)); SBlockH k] | None => [] end)
     ++ pruned s ks).
  rewrite fmap_app, set_slots_app. apply set_slots_ext. intros s'.
  rewrite prune_key_slots. unfold pruned. simpl. by rewrite app_nil_r.
Qed.
Lemma pruned_present s hs :
  pruned s hs = pruned s (filter (λ h, is_Some (ms_blocks_by_height s !! h)) hs).
Proof.
  induction hs as [|h hs IH]; [done|]. rewrite filter_cons. simpl. rewrite IH.
  destruct (ms_blocks_by_height s !! h) as [b|] eqn:E; case_decide as Hd; simpl.
  - by rewrite E.
  - destruct Hd. eauto.
  - by apply is_Some_None in Hd.
  - done.
Qed.
Lemma prune_heights_lookup ks s k :
  ms_blocks_by_height (foldl Store.prune_key s ks) !! k =
    if decide (k ∈ ks) then None else ms_blocks_by_height s !! k.
Proof.
  revert s. induction ks as [|k0 ks IH]; intros s; simpl; [done|].
  rewrite IH, <-drop_keys_cons. case_decide; [done|]. unfold Store.prune_key.
  destruct (ms_blocks_by_height s !! k0) as [b|] eqn:E; simpl; case_decide; subst;
    rewrite ?lookup_delete_eq, ?lookup_delete_ne by done; done.
Qed.

Lemma prune_loop_spec db s hs : ∀ batch removed,
  stores (contents db) (slots s) → Forall (in_range U64_MAX) hs →
  yields (Rocks.prune_loop hs batch removed db) (λ r,
    r = (batch ++ (slot_op <$> ((., None) <$> pruned s hs)),
         removed + Z.of_nat (length
           (filter (λ h, is_Some (ms_blocks_by_height s !! h)) hs)))).
Proof.
  induction hs as [|h hs IH]; intros batch removed Hs Hhs.
  { simpl. by rewrite app_nil_r, Z.add_0_r. }
  inv Hhs. cbn [Rocks.prune_loop]. apply yields_bind. unfold Rocks.backend.
  change (Rocks.key "block-h" (Rocks.le64 h)) with (slot_key (SBlockH h)).
  destruct (db_get_spec db (slot_key (SBlockH h))) as [[e He]|He]; rewrite He;
    cbn [map_err yields].
  { split; [eauto|]. intros [Hr _]. specialize (Hr db (slot_key (SBlockH h))).
    by rewrite He in Hr. }
  destruct Hs as [Hf Hd]. rewrite (Hf (SBlockH h)) by done. cbn [slot_value].
  rewrite filter_cons.
  destruct (ms_blocks_by_height s !! h) as [b|] eqn:E; case_decide as Hsome; simpl.
  - rewrite decode_stored. eapply yields_mono; [by apply IH|]. intros r ->. f_equal.
    + rewrite <-app_assoc. f_equal. by rewrite E.
    + lia.
  - destruct Hsome. eauto.
  - by apply is_Some_None in Hsome.
  - eapply yields_mono; [by apply IH|]. intros r ->. by rewrite E.
Qed.
End effects.

(** ** What the two implementations agree on

    Heights, epochs and indexes are [u64].  Blocks and epochs are written in order, a
    block below the latest one is pruned only with something left above it, a range is
    not reversed, and the log is compacted once at most: the database's answers differ
    from the memory store's otherwise. *)
Definition admissible {A} (op : ChainStore A) (s : MemoryInner) (h : History) : Prop :=
  match op with
  | PutFinalizedBlock b | AtomicCommitBlock b _ =>
      in_range U64_MAX (bh_height (bk_header (fb_block b))) ∧
      ∀ k, is_Some (ms_blocks_by_height s !! k) → k ≤ bh_height (bk_header (fb_block b))
  | PutEpochTransition t =>
      in_range U64_MAX (et_epoch t) ∧
      ∀ k, is_Some (ms_epoch_transitions s !! k) → k ≤ et_epoch t
  | AppendConsensusWal _ => hi_appends h < U64_MAX
  | CompactConsensusWal _ => hi_compacted h = false
  | PruneBlocksBelow height =>
      in_range U64_MAX height ∧
      ∀ k b, last_key_value (ms_blocks_by_height s) = Some (k, b) → height ≤ k
  | GetBlockByHeight height | PutEvmLogs height _ | GetEvmLogsByHeight height =>
      in_range U64_MAX height
  | GetEvmLogsRange a b => in_range U64_MAX a ∧ in_range U64_MAX b ∧ a ≤ b
  | _ => True
  end.
Definition record {A} (op : ChainStore A) (s : MemoryInner) (h : History) : History :=
  match op with
  | AppendConsensusWal _ =>
      {| hi_appends := hi_appends h + 1; hi_compacted := hi_compacted h |}
  | CompactConsensusWal below =>
      {| hi_appends := hi_appends h;
         hi_compacted := 0 <? fst (Store.compact_consensus_wal below s) |}
  | _ => h
  end.
(** Every operation of a client is admissible, on the memory store. *)
Fixpoint admissible_run {R} (c : client R) (s : MemoryInner) (h : History) : Prop :=
  match c with
  | Return _ => True
  | Invoke op k => admissible op s h ∧ ∀ a s',
      memory_store _ op s = (Ok a, s') → admissible_run (k a) s' (record op s h)
  end.

(** The answer and the new state are those of the memory store. *)
Definition refines {A} (op : ChainStore A) (s : MemoryInner) (h : History)
    (run : res StorageError A * DB) : Prop :=
  meets run (λ a db', ∃ s', memory_store A op s = (Ok a, s') ∧
    represents db' s' (record op s h)).

Lemma write_if_any_spec db f removed ps :
  stores (contents db) f → Forall (λ p, slot_ok p.1) ps → (removed ≤ 0 → ps = []) →
  meets (Rocks.write_if_any (slot_op <$> ps) removed db)
    (λ r db', r = removed ∧ stores (contents db') (set_slots ps f)).
Proof.
  intros Hf Hps H0'. unfold Rocks.write_if_any. destruct (Z.ltb_spec 0 removed).
  - apply meets_bind. eapply meets_mono; [by apply db_write_slots|]. by intros [] db' ?.
  - rewrite (H0' ltac:(lia)). by split.
Qed.

Section steps.
Context (db : DB) (s : MemoryInner) (h : History) (wal : gmap Z ConsensusWalEntry).
Let f := slot_value s wal (hi_appends h) (Store.latest_block s).
Context (Hs : stores (contents db) f) (Hc : coherent s wal h).

Lemma reading_step {A} (m : res StorageError A) (a : A) :
  yields m (λ r, r = a) →
  meets (m, db) (λ r db', ∃ s', (@Ok StorageError A a, s) = (Ok r, s') ∧ represents db' s' h).
Proof.
  destruct m as [r|e|]; simpl; [|done..]. intros ->. exists s.
  split; [done|]. by exists wal.
Qed.

Lemma put_step {T} `{SerdeLaws T} sl (x : T) s' :
  slot_ok sl → coherent s' wal h →
  (∀ sl', set_slot sl (Some (encode_to_vec x)) f sl' =
    slot_value s' wal (hi_appends h) (Store.latest_block s') sl') →
  meets (Rocks.put_value (slot_key sl) x db)
    (λ r db', ∃ s1, (@Ok StorageError () tt, s') = (Ok r, s1) ∧ represents db' s1 h).
Proof.
  intros Hsl Hc' Hf'. eapply meets_mono; [by apply put_value_spec|].
  intros [] db' Hdb'. exists s'. split; [done|]. exists wal. split; [|done].
  by eapply stores_ext; [|done]; intros.
Qed.

Lemma append_step e : hi_appends h < U64_MAX →
  refines (AppendConsensusWal e) s h (Rocks.append_consensus_wal e db).
Proof.
  intros Hn. destruct Hc as [Hwal Hix Hap Hdense Hhs]. unfold refines, Rocks.append_consensus_wal.
  apply meets_bind. simpl. apply meets_bind, meets_lift. eapply yields_mono.
  { apply (get_value_spec (T := Z) db f (SMeta MWalNext)
      (if 0 <? hi_appends h then Some (hi_appends h) else None)); [done..|].
    unfold f. simpl. by case_match. }
  intros r ->. simpl.
  assert (default 0 (if 0 <? hi_appends h then Some (hi_appends h) else None)
    = hi_appends h) as ->.
  { destruct (Z.ltb_spec 0 (hi_appends h)); simpl; lia. }
  apply meets_bind. eapply meets_mono.
  { apply (put_value_spec db f (SWal (hi_appends h))); [done|]. simpl. ulia. }
  intros [] db1 Hdb1. eapply meets_mono.
  { apply (put_value_spec (T := Z) db1
      (set_slot (SWal (hi_appends h)) (Some (encode_to_vec e)) f) (SMeta MWalNext)); done. }
  intros [] db2 Hdb2. eexists. split; [done|]. exists (<[hi_appends h := e]> wal). split.
  - eapply stores_ext; [|exact Hdb2]. rewrite wrapping_small by ulia. unfold f.
    intros sl _. revert sl. by_slot. by rewrite (proj2 (Z.ltb_lt 0 (hi_appends h + 1))) by lia.
  - assert (wal !! hi_appends h = None) as Hnone.
    { apply eq_None_not_Some. intros Hsome%Hix. lia. }
    split; simpl.
    + rewrite entries_insert_last, fmap_app, Hwal; [done..|].
      intros k' Hk'%Hix. left. unfold lexico, Z_lexico. lia.
    + intros i. destruct (decide (i = hi_appends h)) as [->|]; [lia|].
      rewrite lookup_insert_ne by done. intros Hi%Hix. lia.
    + lia.
    + intros Hcomp i Hi. destruct (decide (i = hi_appends h)) as [->|].
      * rewrite lookup_insert_eq. eauto.
      * rewrite lookup_insert_ne by done. apply Hdense; [done | lia].
    + done.
Qed.

Lemma filter_snd {A B} (P : B → Prop) `{!∀ x, Decision (P x)} (l : list (A * B)) :
  (filter (λ p, P p.2) l).*2 = filter P l.*2.
Proof.
  induction l as [|[a b] l IH]; [done|]. rewrite fmap_cons, !filter_cons. simpl.
  case_decide; [rewrite fmap_cons|]; by rewrite IH.
Qed.
Lemma length_filter_stale (l : list (Z * ConsensusWalEntry)) below :
  Z.of_nat (length (filter (λ p, Store.wal_height p.2 < below) l)) +
  Z.of_nat (length (filter (λ e, below ≤ Store.wal_height e) l.*2)) =
  Z.of_nat (length l.*2).
Proof.
  induction l as [|[i e] l IH]; [done|]. rewrite fmap_cons, !filter_cons. simpl.
  repeat case_decide; simpl in *; try lia.
Qed.

Lemma compact_step below : hi_compacted h = false →
  refines (CompactConsensusWal below) s h (Rocks.compact_consensus_wal below db).
Proof.
  intros Hcomp. destruct Hc as [Hwal Hix Hap Hdense Hhs].
  assert (∀ i, is_Some (wal !! i) ↔ 0 ≤ i < hi_appends h) as Hkeys by naive_solver.
  pose proof (dense_keys wal _ Hkeys) as Hk.
  assert (Z.of_nat (length (entries wal)) = hi_appends h) as Hlen.
  { rewrite <-(length_fmap fst), Hk, length_seqZ. lia. }
  set (stale := filter (λ p, Store.wal_height p.2 < below) (entries wal)).
  pose proof (length_filter_stale (entries wal) below) as Hcount. fold stale in Hcount.
  assert (∀ i, SWal i ∈ SWal <$> stale.*1 ↔
    ∃ e, wal !! i = Some e ∧ Store.wal_height e < below) as Hstale.
  { intros i. rewrite list_elem_of_fmap. setoid_rewrite list_elem_of_fmap. split.
    - intros (? & [= <-] & [j e] & -> & [? ?%elem_of_entries]%list_elem_of_filter). eauto.
    - intros (e & He & Hlt). exists i. split; [done|]. exists (i, e). split; [done|].
      apply list_elem_of_filter. split; [done|]. by apply elem_of_entries. }
  unfold refines, Rocks.compact_consensus_wal. apply meets_bind. simpl.
  apply meets_bind, meets_lift. eapply yields_mono.
  { apply (load_wal_spec db s wal (hi_appends h) (Store.latest_block s)); [done|].
    intros i Hi%Hix. ulia. }
  intros l ->. rewrite compact_batch_dense by (by rewrite Hk, Hlen). fold stale.
  eapply meets_mono.
  { apply (write_if_any_spec _ f); [done| |].
    - rewrite !Forall_fmap, Forall_forall. intros [i e] Hi. simpl.
      apply list_elem_of_filter in Hi as [_ Hi%elem_of_entries].
      assert (0 ≤ i < hi_appends h) by (apply Hix; eauto). ulia.
    - rewrite !length_fmap. intros Hz. destruct stale; simpl in *; [done | lia]. }
  intros r db' [-> Hdb']. rewrite !length_fmap. simpl. unfold writing.
  eexists. split; [unfold Store.compact_consensus_wal; rewrite Hwal; repeat f_equal; lia|].
  exists (filter (λ p, below ≤ Store.wal_height p.2) wal). split.
  - eapply stores_ext; [|exact Hdb']. intros sl _. rewrite set_slots_delete.
    unfold f. destruct sl as [| | | | |i| | | |[]]; simpl;
      rewrite ?decide_False by (by intros (? & [=] & _)%list_elem_of_fmap); try done.
    rewrite map_lookup_filter. destruct (wal !! i) as [e|] eqn:Ei; simpl.
    + case_guard as Hg; case_decide as Hin; simpl in *; try done.
      * apply Hstale in Hin as (e' & ? & ?). simplify_eq. lia.
      * destruct Hin. apply Hstale. exists e. split; [done|lia].
    + by case_decide.
  - split; simpl.
    + rewrite entries_filter. symmetry.
      exact (filter_snd (A := Z) (λ e, below ≤ Store.wal_height e) (entries wal)).
    + intros i [e [Hi _]%map_lookup_filter_Some]. apply Hix. eauto.
    + done.
    + intros Hz i Hi. destruct (Hdense Hcomp i Hi) as [e He]. exists e.
      apply map_lookup_filter_Some. split; [done|]. simpl.
      destruct (Z.le_gt_cases below (Store.wal_height e)); [done|]. exfalso.
      assert ((i, e) ∈ stale) as Hin.
      { apply list_elem_of_filter. split; [done|]. by apply elem_of_entries. }
      apply Z.ltb_ge in Hz. rewrite Hwal in Hz.
      destruct stale; [by apply elem_of_nil in Hin|]. simpl in Hcount. lia.
    + done.
Qed.

(** The keys the memory store collects are the heights at which the loop of the
    database's version finds a block. *)
Lemma prune_heights height :
  filter (λ k, k < height) (entries (ms_blocks_by_height s)).*1 =
  filter (λ h, is_Some (ms_blocks_by_height s !! h)) (seqZ 0 height).
Proof.
  destruct Hc as [_ _ _ _ Hhs]. apply sorted_keys_eq.
  - apply StronglySorted_filter, entries_keys_sorted.
  - apply StronglySorted_filter, seqZ_sorted.
  - apply NoDup_filter, entries_keys_NoDup.
  - apply NoDup_filter, NoDup_seqZ.
  - intros i. rewrite !list_elem_of_filter, elem_of_entries_keys, elem_of_seqZ.
    split; [|intros [? ?]; split; [lia | done]].
    intros [? Hi]. split; [done|]. apply Hhs in Hi. ulia.
Qed.

Lemma latest_after_prune ks :
  (∀ k b, last_key_value (ms_blocks_by_height s) = Some (k, b) → k ∉ ks) →
  Store.latest_block (foldl Store.prune_key s ks) = Store.latest_block s.
Proof.
  intros Hks. unfold Store.latest_block. f_equal.
  destruct (last_key_value (ms_blocks_by_height s)) as [[k b]|] eqn:E.
  - apply last_key_value_Some in E as [Hk Hmax]. apply last_key_value_Some.
    rewrite prune_heights_lookup, decide_False by (by eapply Hks). split; [done|].
    intros k'. rewrite prune_heights_lookup. case_decide; [by intros [? [=]]|]. apply Hmax.
  - apply last_key_value_None in E. apply last_key_value_None, map_empty. intros k.
    rewrite prune_heights_lookup, E, lookup_empty. by case_decide.
Qed.
Lemma prune_keeps_wal ks t :
  ms_consensus_wal (foldl Store.prune_key t ks) = ms_consensus_wal t.
Proof.
  revert t. induction ks as [|k ks IH]; intros t; simpl; [done|]. rewrite IH.
  unfold Store.prune_key. by case_match.
Qed.

Lemma prune_step height :
  admissible (PruneBlocksBelow height) s h →
  refines (PruneBlocksBelow height) s h (Rocks.prune_blocks_below height db).
Proof.
  intros [Hr Hlast]. unfold refines, Rocks.prune_blocks_below. apply meets_bind. simpl.
  apply meets_bind, meets_lift. eapply yields_mono.
  { apply (prune_loop_spec wal (hi_appends h) (Store.latest_block s) db s); [done|].
    apply Forall_seqZ. intros. ulia. }
  intros r ->. cbn [app]. rewrite <-prune_heights, pruned_present, <-prune_heights.
  set (ks := filter (λ k, k < height) (entries (ms_blocks_by_height s)).*1).
  eapply meets_mono.
  { apply (write_if_any_spec _ f); [done| |].
    - rewrite Forall_fmap, Forall_forall. unfold pruned. intros sl Hsl.
      apply list_elem_of_In, in_flat_map in Hsl as (k & _ & Hsl).
      destruct (ms_blocks_by_height s !! k) as [b|] eqn:E; [|done].
      destruct Hsl as [<-|[<-|[]]]; [done|]. simpl. apply (co_heights _ _ _ Hc). eauto.
    - intros Hz. destruct ks; simpl in *; [done | lia]. }
  intros r db' [-> Hdb']. eexists. split; [done|]. exists wal.
  rewrite latest_after_prune.
  2:{ intros k b Hk [Hlt _]%list_elem_of_filter. specialize (Hlast k b Hk). lia. }
  split.
  - eapply stores_ext; [|exact Hdb']. intros sl _. symmetry. apply prune_keys_slots.
    apply NoDup_filter, entries_keys_NoDup.
  - destruct Hc as [Hwal Hix Hap Hdense Hhs]. split; try done.
    + by rewrite prune_keeps_wal.
    + intros k. rewrite prune_heights_lookup. case_decide; [by intros [? [=]] | apply Hhs].
Qed.

(** ** Blocks *)
Lemma put_block_latest b t :
  (∀ k, is_Some (ms_blocks_by_height t !! k) → k ≤ bh_height (bk_header (fb_block b))) →
  Store.latest_block (Store.put_finalized_block b t) = Some b.
Proof.
  intros Hb. unfold Store.latest_block. simpl. rewrite last_key_value_insert; [done|].
  intros k Hk%Hb. unfold key_le, lexico, Z_lexico. lia.
Qed.
Lemma put_block_coherent b t :
  in_range U64_MAX (bh_height (bk_header (fb_block b))) → coherent t wal h →
  coherent (Store.put_finalized_block b t) wal h.
Proof.
  intros Hr [Hwal Hix Hap Hdense Hhs]. split; try done. simpl. intros k.
  destruct (decide (k = bh_height (bk_header (fb_block b)))) as [->|]; [done|].
  rewrite lookup_insert_ne by done. apply Hhs.
Qed.
(** A block whose three records were written. *)
Lemma block_written b t db' g :
  admissible (PutFinalizedBlock b) t h → coherent t wal h →
  (∀ sl, g sl = slot_value t wal (hi_appends h) (Store.latest_block t) sl) →
  stores (contents db') (set_slots (block_slots b) g) →
  represents db' (Store.put_finalized_block b t) h.
Proof.
  intros [Hr Hb] Hct Hg Hdb'. exists wal. rewrite put_block_latest by done.
  split; [|by apply put_block_coherent]. eapply stores_ext; [|exact Hdb'].
  intros sl _. by rewrite (put_block_slots wal (hi_appends h) (Store.latest_block t)),
    (set_slots_ext _ _ _ _ Hg).
Qed.
Lemma put_block_step b :
  admissible (PutFinalizedBlock b) s h →
  refines (PutFinalizedBlock b) s h (Rocks.put_finalized_block b db).
Proof.
  intros Hb. pose proof (proj1 Hb) as Hr.
  unfold refines, Rocks.put_finalized_block. apply meets_bind. eapply meets_mono.
  { by apply (put_value_spec db f (SBlockH (bh_height (bk_header (fb_block b))))). }
  intros [] db1 Hdb1. apply meets_bind. eapply meets_mono.
  { by apply (put_value_spec db1 (set_slots (take 1 (block_slots b)) f)
      (SBlockB (Block_hash (fb_block b)))). }
  intros [] db2 Hdb2. eapply meets_mono.
  { by apply (put_value_spec db2 (set_slots (take 2 (block_slots b)) f) (SMeta MLatest)). }
  intros [] db3 Hdb3. eexists. split; [done|]. by apply (block_written b s db3 f).
Qed.

Lemma mapM_encode {A} (g : A → res StorageError BatchOp) (g' : A → BatchOp) l :
  (∀ x, g x = Ok (g' x)) → mapM g l = Ok (g' <$> l).
Proof. intros Hg. induction l as [|x l IH]; simpl; [done|]. rewrite Hg. simpl. by rewrite IH. Qed.

(** ** The commit of a block: one batch *)
Definition account_slot (p : Address * Account) : Slot * option (list byte) :=
  (SAccount p.1, Some (encode_to_vec p.2)).
Definition receipt_slot (r : Receipt) : Slot * option (list byte) :=
  (SReceipt (rc_tx_hash r), Some (encode_to_vec r)).
Definition commit_slots (b : FinalizedBlock) (accounts : gmap Address Account) :
    list (Slot * option (list byte)) :=
  (account_slot <$> entries accounts) ++ (receipt_slot <$> fb_receipts b) ++ block_slots b.
Lemma commit_batch b accounts :
  Rocks.atomic_commit_block b accounts db =
    Rocks.backend_eff (db_write (slot_op <$> commit_slots b accounts)) db.
Proof.
  unfold Rocks.atomic_commit_block.
  rewrite (mapM_encode _ (λ p, slot_op (account_slot p))) by (by intros []).
  erewrite eff_bind_ok by done.
  rewrite (mapM_encode _ (λ r, slot_op (receipt_slot r))) by done.
  do 2 erewrite eff_bind_ok by done. f_equal. f_equal. unfold commit_slots.
  by rewrite !fmap_app, <-!list_fmap_compose.
Qed.
(** The store before the block is written. *)
Let filled (b : FinalizedBlock) (accounts : gmap Address Account) : MemoryInner :=
  foldl (λ s r, Store.put_receipt r s)
    (foldl (λ s '(a, v), Store.put_account a v s) s (entries accounts)) (fb_receipts b).
Lemma filled_frame b accounts :
  ms_blocks_by_height (filled b accounts) = ms_blocks_by_height s ∧
  ms_consensus_wal (filled b accounts) = ms_consensus_wal s.
Proof.
  unfold filled. generalize (fb_receipts b), (entries accounts). intros rs l.
  assert (∀ t, ms_blocks_by_height (foldl (λ s r, Store.put_receipt r s) t rs)
      = ms_blocks_by_height t ∧
    ms_consensus_wal (foldl (λ s r, Store.put_receipt r s) t rs) = ms_consensus_wal t) as Hrs.
  { induction rs as [|r rs IH]; intros t; [done | apply (IH (Store.put_receipt r t))]. }
  destruct (Hrs (foldl (λ s '(a, v), Store.put_account a v s) s l)) as [-> ->]. clear.
  revert s. induction l as [|[a v] l IH]; intros t; [done | apply (IH (Store.put_account a v t))].
Qed.
Lemma commit_written b accounts db' :
  admissible (AtomicCommitBlock b accounts) s h →
  contents db' = apply_batch (slot_op <$> commit_slots b accounts) (contents db) →
  represents db' (Store.atomic_commit_block b accounts s) h.
Proof.
  intros Hadm Hdb'. destruct (filled_frame b accounts) as [Hh Hw]. destruct Hadm as [Hr Hb].
  change (Store.atomic_commit_block b accounts s)
    with (Store.put_finalized_block b (filled b accounts)).
  apply (block_written b (filled b accounts) db' (set_slots
    ((account_slot <$> entries accounts) ++ (receipt_slot <$> fb_receipts b)) f)).
  - split; [done|]. by rewrite Hh.
  - destruct Hc as [Hwal Hix Hap Hdense Hhs]. split; try done; [by rewrite Hw | by rewrite Hh].
  - intros sl. unfold Store.latest_block. rewrite Hh, set_slots_app.
    fold (Store.latest_block s). unfold filled.
    rewrite (foldl_slots wal (hi_appends h) (Store.latest_block s) _ receipt_slot)
      by (intros; apply put_receipt_slots).
    apply set_slots_ext. intros sl'. symmetry.
    rewrite (foldl_slots wal (hi_appends h) (Store.latest_block s) _ account_slot); [done|].
    intros t [a v] sl0. apply put_account_slots.
  - rewrite <-set_slots_app, <-app_assoc. fold (commit_slots b accounts). rewrite Hdb'.
    apply stores_batch; [|done]. unfold commit_slots. rewrite !Forall_app, !Forall_fmap.
    split_and!; [apply Forall_forall; by intros [] ? | apply Forall_forall; by intros ? ?|].
    unfold block_slots. rewrite !Forall_cons. by split_and!; [..|apply Forall_nil].
Qed.
Lemma commit_step b accounts :
  admissible (AtomicCommitBlock b accounts) s h →
  refines (AtomicCommitBlock b accounts) s h (Rocks.atomic_commit_block b accounts db).
Proof.
  intros Hadm. unfold refines. rewrite commit_batch.
  eapply meets_write; [apply db_write_spec| |].
  - intros (_ & _ & Hr & _). apply Hr.
  - intros db' Hdb'. eexists. split; [done|]. by apply commit_written.
Qed.

(** ** Epochs and logs *)
Lemma put_epoch_step t :
  admissible (PutEpochTransition t) s h →
  refines (PutEpochTransition t) s h (Rocks.put_epoch_transition t db).
Proof.
  intros [Hr Ht]. unfold refines, Rocks.put_epoch_transition. apply meets_bind.
  eapply meets_mono; [by apply (put_value_spec db f (SEpoch (et_epoch t)))|].
  intros [] db1 Hdb1. eapply meets_mono.
  { by apply (put_value_spec db1 (set_slot (SEpoch (et_epoch t)) (Some (encode_to_vec t)) f)
      (SMeta MEpochLatest)). }
  intros [] db2 Hdb2. eexists. split; [done|]. exists wal. split.
  - eapply stores_ext; [|exact Hdb2]. unfold f. intros sl _. revert sl. by_slot.
    unfold Store.latest_epoch_transition. simpl. rewrite last_key_value_insert; [done|].
    intros k Hk%Ht. unfold key_le, lexico, Z_lexico. lia.
  - destruct Hc. by split.
Qed.

Lemma get_logs_spec height : in_range U64_MAX height →
  yields (Rocks.get_evm_logs_by_height height db)
    (λ r, r = default [] (ms_evm_logs s !! height)).
Proof.
  intros Hh. unfold Rocks.get_evm_logs_by_height. apply yields_bind. eapply yields_mono.
  { by apply (get_value_spec (T := list EvmLog) db f (SLogs height) (ms_evm_logs s !! height)). }
  by intros r ->.
Qed.
Lemma logs_loop_spec hs acc : Forall (in_range U64_MAX) hs →
  yields (Rocks.logs_loop hs acc db) (λ r, r = acc ++
    flat_map (λ h, (h,.) <$> default [] (ms_evm_logs s !! h)) hs).
Proof.
  revert acc. induction hs as [|k hs IH]; intros acc Hhs; simpl; [by rewrite app_nil_r|].
  inv Hhs. apply yields_bind. eapply yields_mono; [by apply get_logs_spec|].
  intros r ->. eapply yields_mono; [by apply IH|]. intros r ->. by rewrite <-app_assoc.
Qed.
(** Only the recorded heights contribute. *)
Lemma logs_present hs :
  flat_map (λ h, (h,.) <$> default [] (ms_evm_logs s !! h)) hs =
  flat_map (λ h, (h,.) <$> default [] (ms_evm_logs s !! h))
    (filter (λ h, is_Some (ms_evm_logs s !! h)) hs).
Proof.
  induction hs as [|k hs IH]; [done|]. rewrite filter_cons. simpl. rewrite IH.
  case_decide as Hk; [done|]. apply eq_None_not_Some in Hk. by rewrite Hk.
Qed.
Lemma logs_of_entries a b (l : list (Z * list EvmLog)) :
  (∀ k logs, (k, logs) ∈ l → ms_evm_logs s !! k = Some logs) →
  flat_map (λ '(k, logs), (λ log, (k, log)) <$> logs) (filter (λ e, a ≤ e.1 ≤ b) l) =
  flat_map (λ h, (h,.) <$> default [] (ms_evm_logs s !! h)) (filter (λ k, a ≤ k ≤ b) l.*1).
Proof.
  induction l as [|[k logs] l IH]; intros Hl; [done|].
  rewrite fmap_cons, !filter_cons. simpl.
  case_decide; simpl; rewrite IH by (intros; apply Hl; by right); [|done].
  rewrite (Hl k logs); [done|left].
Qed.
Lemma logs_range_step a b :
  admissible (GetEvmLogsRange a b) s h →
  refines (GetEvmLogsRange a b) s h (looking (Rocks.get_evm_logs_range a b) db).
Proof.
  intros (Ha & Hb & Hab). unfold refines. apply meets_looking. eapply yields_mono.
  { apply logs_loop_spec. apply Forall_seqZ. intros. ulia. }
  intros r ->. exists s. split; [|by exists wal]. simpl. unfold Store.get_evm_logs_range.
  rewrite (proj2 (Z.ltb_ge b a) Hab). simpl. f_equal. f_equal.
  etrans; [apply (logs_of_entries a b (entries (ms_evm_logs s)));
    by intros ?? ?%elem_of_entries|].
  rewrite (logs_present (seqZ _ _)). f_equal. apply sorted_keys_eq.
  - apply StronglySorted_filter, entries_keys_sorted.
  - apply StronglySorted_filter, seqZ_sorted.
  - apply NoDup_filter, entries_keys_NoDup.
  - apply NoDup_filter, NoDup_seqZ.
  - intros i. rewrite !list_elem_of_filter, elem_of_entries_keys, elem_of_seqZ.
    split; intros [??]; split; done || lia.
Qed.

(** ** Every method of the trait *)

(** A read of the slot [sl]; a write of [sl] that turns the store into [s']. *)
Ltac read_slot sl := refine (reading_step _ _ _); by apply (get_value_spec db f sl).
Ltac write_slot sl :=
  refine (put_step sl _ _ _ _ _); [done | by destruct Hc; split | unfold f; by_slot].

Lemma step_refines {A} (op : ChainStore A) :
  admissible op s h → refines op s h (rocks_store A op db).
Proof.
  intros Hadm. destruct op; unfold refines; cbn [rocks_store memory_store record].
  - write_slot (SMeta MGenesis).
  - read_slot (SMeta MGenesis).
  - read_slot (SAccount address).
  - write_slot (SAccount address).
  - apply reading_step. by eapply accounts_spec.
  - read_slot (SEvm address).
  - write_slot (SEvm address).
  - apply reading_step. by eapply evm_accounts_spec.
  - by apply put_block_step.
  - read_slot (SBlockH height).
  - read_slot (SBlockB hash).
  - read_slot (SMeta MLatest).
  - write_slot (SReceipt (rc_tx_hash receipt)).
  - read_slot (SReceipt tx_hash).
  - write_slot (SMeta MConsensus).
  - read_slot (SMeta MConsensus).
  - by apply append_step.
  - apply reading_step. unfold Store.load_consensus_wal. rewrite (co_wal _ _ _ Hc).
    eapply load_wal_spec; [done|]. intros i Hi%(co_index _ _ _ Hc).
    pose proof (co_appends _ _ _ Hc). ulia.
  - read_slot (SMeta MStaking).
  - write_slot (SMeta MStaking).
  - read_slot (SMeta MGovernance).
  - write_slot (SMeta MGovernance).
  - read_slot (SMeta MEpochLatest).
  - by apply put_epoch_step.
  - by apply commit_step.
  - by apply compact_step.
  - write_slot (SSlash address).
  - read_slot (SSlash address).
  - write_slot (SMeta MGasPricing).
  - read_slot (SMeta MGasPricing).
  - by apply prune_step.
  - write_slot (SLogs height).
  - apply reading_step. by apply get_logs_spec.
  - by apply logs_range_step.
Qed.
End steps.

Lemma run_refines {R} (c : client R) : ∀ db s h,
  represents db s h → admissible_run c s h →
  meets (run rocks_store c db) (λ r db', ∃ s' h',
    run memory_store c s = (Ok r, s') ∧ represents db' s' h').
Proof.
  induction c as [r|A op k IH]; intros db s h Hrep Hadm; [by exists s, h|].
  destruct Hadm as [Hop Hk]. destruct Hrep as (wal & Hs & Hc). cbn [run].
  apply meets_bind. eapply meets_mono; [by eapply step_refines|].
  intros a db' (s' & Hm & Hrep'). eapply meets_mono; [by eapply IH, Hk|].
  intros r db2 (s2 & h2 & Hm2 & Hrep2). exists s2, h2. split; [|done].
  by rewrite (eff_bind_ok _ _ _ _ _ Hm).
Qed.
End representation.

(** C14: the persistent store implements the trait the way the in-memory store does: from a
    database that represents a memory store, a client whose calls are admissible gets
    the same answers from both and leaves a database that represents the new memory
    store; the only other outcome is an error that the database itself reported. *)
Theorem rocks_refines_memory `{HashBackend, ChainCodec, RocksCodec, !RocksCodecLaws _ _}
    `{RocksDb, !RocksDbLaws _} {R} (c : client R) (db : DB) (s : MemoryInner) (h : History) :
  represents db s h → admissible_run c s h →
  (∃ r db' s' h', run rocks_store c db = (Ok r, db') ∧
     run memory_store c s = (Ok r, s') ∧ represents db' s' h') ∨
  (∃ msg db', run rocks_store c db = (Err (StBackend msg), db') ∧ ¬ reliable).
Proof.
  intros Hrep Hadm. pose proof (run_refines c db s h Hrep Hadm) as Hrun.
  destruct (run rocks_store c db) as [[r|e|] db']; simpl in Hrun; [|right|done].
  - left. destruct Hrun as (s' & h' & Hm & Hrep'). exists r, db', s', h'. by split_and!.
  - destruct Hrun as [[msg ->] Hr]. exists msg, db'. by split.
Qed.

(** C15: a commit is all or nothing: whatever the database answers, it then represents the
    store without the block or the store with the block, its receipts and its accounts,
    and the second when the commit succeeds. *)
Theorem rocks_commit_atomic `{HashBackend, ChainCodec, RocksCodec, !RocksCodecLaws _ _}
    `{RocksDb, !RocksDbLaws _} (b : FinalizedBlock) (accounts : gmap Address Account)
    (db : DB) (s : MemoryInner) (h : History) (r : res StorageError ()) (db' : DB) :
  represents db s h → admissible (AtomicCommitBlock b accounts) s h →
  Rocks.atomic_commit_block b accounts db = (r, db') →
  represents db' (Store.atomic_commit_block b accounts s) h ∨
  (represents db' s h ∧ ∃ msg, r = Err (StBackend msg)).
Proof.
  intros (wal & Hs & Hc) Hadm. rewrite commit_batch by done. unfold Rocks.backend_eff.
  pose proof (db_write_spec (slot_op <$> commit_slots b accounts) db) as Hw.
  destruct (db_write _ db) as [[[]|e|] db1]; simpl in Hw; [| |done]; intros [= <- <-].
  - left. by eapply commit_written.
  - destruct Hw as [Hw|Hw]; [right|left].
    + split; [exists wal; by rewrite Hw | eauto].
    + by eapply commit_written.
Qed.

(** ** A second compaction *)
Section second.
Context `{HashBackend, ChainCodec, RocksCodec, !RocksCodecLaws _ _}.
Context `{RocksDb, !RocksDbLaws _}.

(** The numbers a compaction deletes are positions in the loaded log. *)
Lemma compact_batch_positions below l i : 0 ≤ i →
  ∃ js, Rocks.compact_batch below i l = slot_op <$> ((., None) <$> (SWal <$> js)) ∧
    Forall (λ j, i ≤ j < i + Z.of_nat (length l)) js ∧
    length js = length (filter (λ e, Store.wal_height e < below) l).
Proof.
  revert i. induction l as [|e l IH]; intros i Hi; [by exists []|].
  destruct (IH (i + 1)) as (js & Hb & Hjs & Hl); [lia|]. cbn [Rocks.compact_batch].
  rewrite Hb, filter_cons, length_cons.
  assert (Forall (λ j, i ≤ j < i + Z.of_nat (S (length l))) js).
  { eapply Forall_impl; [exact Hjs|]. simpl. lia. }
  destruct (Z.ltb_spec (Store.wal_height e) below); case_decide; try lia.
  - exists (i :: js). simpl. split_and!; [done| |by rewrite Hl]. constructor; [lia | done].
  - by exists js.
Qed.

(** When every number is at least the number of entries (half of the log or more has been
    compacted away), a compaction deletes nothing, and reports its stale entries as
    removed. *)
Lemma compaction_misses db s n wal latest below :
  stores (contents db) (slot_value s wal n latest) →
  (∀ i, is_Some (wal !! i) → Z.of_nat (length (entries wal)) ≤ i ≤ U64_MAX) →
  meets (Rocks.compact_consensus_wal below db) (λ removed db',
    removed = Z.of_nat (length (filter (λ e, Store.wal_height e < below) (entries wal).*2)) ∧
    stores (contents db') (slot_value s wal n latest)).
Proof.
  intros Hs Hi. unfold Rocks.compact_consensus_wal. apply meets_bind. simpl.
  apply meets_bind, meets_lift. eapply yields_mono.
  { eapply load_wal_spec; [done|]. intros i ?%Hi. ulia. }
  intros l ->. destruct (compact_batch_positions below (entries wal).*2 0) as
    (js & -> & Hjs & Hl); [lia|].
  rewrite !length_fmap in *. rewrite Hl. eapply meets_mono.
  { eapply write_if_any_spec; [exact Hs| |].
    - rewrite !Forall_fmap. eapply Forall_impl; [exact Hjs|]. simpl. intros j Hj.
      destruct (entries wal) as [|[k e] es] eqn:E; [simpl in Hj; lia|].
      assert (is_Some (wal !! k)) as Hk.
      { exists e. apply elem_of_entries. rewrite E. left. }
      specialize (Hi k Hk). ulia.
    - rewrite <-Hl. by destruct js; [|simpl; lia]. }
  intros r db' [-> Hdb']. split; [done|]. eapply stores_ext; [|exact Hdb'].
  intros sl _. rewrite set_slots_delete. case_decide as Hin; [|done].
  apply list_elem_of_fmap in Hin as (j & -> & Hj). rewrite Forall_forall in Hjs.
  specialize (Hjs j Hj). simpl. destruct (wal !! j) eqn:Ej; [|done].
  assert (is_Some (wal !! j)) as Hsj by eauto. specialize (Hi j Hsj). lia.
Qed.
End second.
