(* ===== verification/RocksExamples.v ===== *)
(** Examples of [RocksStore]: a concrete database and codec, the witnesses of its theorems,
    and runs in which its answers differ from those of the in-memory store. *)

From S2P Require Import Prelude Types Codec Hash Crypto Wire Toy Storage Rocks RocksLayout RocksRefine.
Import ToyCodec Toy.

Module RocksToy.
(** ** A codec for every stored type *)
#[export] Instance gmap_serde `{Countable K, Serde K, Serde V} : Serde (gmap K V) :=
  via map_to_list (λ l, Some (list_to_map l)).
#[export] Instance gmap_laws `{Countable K, SerdeLaws K, SerdeLaws V} : SerdeLaws (gmap K V).
Proof. apply (via_laws map_to_list _). intros m. by rewrite list_to_map_to_list. Qed.

(** Proves the law of a codec that goes through a tuple. *)
Ltac by_parts := apply (via_laws _ _); by intros [].

#[export] Instance economics_serde : Serde EconomicsParams :=
  via (λ r, (ec_minimum_self_bond r, ec_epoch_length r, ec_unbonding_epochs r,
      ec_treasury_bps r, ec_downtime_slash_bps r, ec_double_sign_slash_bps r))
    (λ '(a, b, c, d, e, f), Some {| ec_minimum_self_bond := a; ec_epoch_length := b;
      ec_unbonding_epochs := c; ec_treasury_bps := d; ec_downtime_slash_bps := e;
      ec_double_sign_slash_bps := f |}).
#[export] Instance economics_laws : SerdeLaws EconomicsParams.
Proof. by_parts. Qed.
#[export] Instance epoch_serde : Serde EpochTransition :=
  via (λ r, (et_epoch r, et_height r, et_validator_set r, et_validator_set_root r,
      et_economics r))
    (λ '(a, b, c, d, e), Some {| et_epoch := a; et_height := b; et_validator_set := c;
      et_validator_set_root := d; et_economics := e |}).
#[export] Instance epoch_laws : SerdeLaws EpochTransition.
Proof. by_parts. Qed.
#[export] Instance metadata_serde : Serde NetworkMetadata :=
  via (λ r, (nm_network_name r, nm_ticker r, nm_rpc_urls r, nm_block_explorer_url r,
      nm_metamask_compatible r, nm_metamask_snap_compatible r,
      nm_smart_contracts_supported r, nm_evm_chain_id r, nm_compatibility_notice r,
      nm_metamask_snap_id r))
    (λ '(a, b, c, d, e, f, g, h, i, j), Some {| nm_network_name := a; nm_ticker := b;
      nm_rpc_urls := c; nm_block_explorer_url := d; nm_metamask_compatible := e;
      nm_metamask_snap_compatible := f; nm_smart_contracts_supported := g;
      nm_evm_chain_id := h; nm_compatibility_notice := i; nm_metamask_snap_id := j |}).
#[export] Instance metadata_laws : SerdeLaws NetworkMetadata.
Proof. by_parts. Qed.
#[export] Instance validator_serde : Serde Validator :=
  via (λ r, (vd_validator_id r, vd_voting_power r, vd_p2p_address r, vd_rpc_address r,
      vd_public_key r, vd_address r))
    (λ '(a, b, c, d, e, f), Some {| vd_validator_id := a; vd_voting_power := b;
      vd_p2p_address := c; vd_rpc_address := d; vd_public_key := e; vd_address := f |}).
#[export] Instance validator_laws : SerdeLaws Validator.
Proof. by_parts. Qed.
#[export] Instance consensus_params_serde : Serde ConsensusParams :=
  via (λ r, (cp_proposal_timeout_ms r, cp_vote_timeout_ms r,
      cp_max_transactions_per_block r, cp_max_block_bytes r, cp_target_gas_per_block r,
      cp_max_gas_per_block r))
    (λ '(a, b, c, d, e, f), Some {| cp_proposal_timeout_ms := a; cp_vote_timeout_ms := b;
      cp_max_transactions_per_block := c; cp_max_block_bytes := d;
      cp_target_gas_per_block := e; cp_max_gas_per_block := f |}).
#[export] Instance consensus_params_laws : SerdeLaws ConsensusParams.
Proof. by_parts. Qed.
#[export] Instance crypto_params_serde : Serde CryptoParams :=
  via cr_ml_dsa_parameter (λ a, Some {| cr_ml_dsa_parameter := a |}).
#[export] Instance crypto_params_laws : SerdeLaws CryptoParams.
Proof. by_parts. Qed.
#[export] Instance chainid_laws : SerdeLaws ChainId.
Proof. by_parts. Qed.
#[export] Instance account_laws : SerdeLaws Account.
Proof. by_parts. Qed.
#[export] Instance genesis_serde : Serde Genesis :=
  via (λ r, (gn_chain_id r, gn_metadata r, gn_accounts r, gn_validators r, gn_consensus r,
      gn_crypto r, gn_economics r))
    (λ '(a, b, c, d, e, f, g), Some {| gn_chain_id := a; gn_metadata := b;
      gn_accounts := c; gn_validators := d; gn_consensus := e; gn_crypto := f;
      gn_economics := g |}).
#[export] Instance genesis_laws : SerdeLaws Genesis.
Proof. by_parts. Qed.
#[export] Instance evm_account_serde : Serde EvmAccountState :=
  via (λ r, (ea_nonce r, ea_balance r, ea_code r, ea_storage r))
    (λ '(a, b, c, d), Some {| ea_nonce := a; ea_balance := b; ea_code := c;
      ea_storage := d |}).
#[export] Instance evm_account_laws : SerdeLaws EvmAccountState.
Proof. by_parts. Qed.

(** Blocks and receipts. *)
#[export] Instance kind_laws : SerdeLaws EvmTransactionKind.
Proof. by_parts. Qed.
#[export] Instance evm_tx_laws : SerdeLaws EvmTransaction.
Proof. by_parts. Qed.
#[export] Instance tx_body_laws : SerdeLaws TransactionBody.
Proof. by_parts. Qed.
#[export] Instance tx_laws : SerdeLaws Transaction.
Proof. by_parts. Qed.
#[export] Instance log_laws : SerdeLaws EvmLog.
Proof. by_parts. Qed.
#[export] Instance call_result_laws : SerdeLaws EvmCallResult.
Proof. by_parts. Qed.
#[export] Instance outcome_laws : SerdeLaws ExecutionOutcome.
Proof. by_parts. Qed.
#[export] Instance receipt_laws : SerdeLaws Receipt.
Proof. by_parts. Qed.
#[export] Instance header_laws : SerdeLaws BlockHeader.
Proof. by_parts. Qed.
#[export] Instance block_laws : SerdeLaws Block.
Proof. by_parts. Qed.
#[export] Instance step_laws : SerdeLaws VoteStep.
Proof. by_parts. Qed.
#[export] Instance vote_laws : SerdeLaws Vote.
Proof. by_parts. Qed.
#[export] Instance certificate_laws : SerdeLaws CommitCertificate.
Proof. by_parts. Qed.
#[export] Instance finalized_serde : Serde FinalizedBlock :=
  via (λ r, (fb_block r, fb_certificate r, fb_receipts r, fb_epoch_transition r))
    (λ '(a, b, c, d), Some {| fb_block := a; fb_certificate := b; fb_receipts := c;
      fb_epoch_transition := d |}).
#[export] Instance finalized_laws : SerdeLaws FinalizedBlock.
Proof. by_parts. Qed.

(** Consensus, staking and governance. *)
#[export] Instance snapshot_serde : Serde ConsensusSnapshot :=
  via (λ r, (sn_height r, sn_round r)) (λ '(a, b), Some {| sn_height := a; sn_round := b |}).
#[export] Instance snapshot_laws : SerdeLaws ConsensusSnapshot.
Proof. by_parts. Qed.
(** A tag, the two numbers, and what else the entry has. *)
Definition wal_parts (e : ConsensusWalEntry) :
    Z * Z * Z * option VoteStep * option Hash32 * option Address * string * option Block :=
  match e with
  | SnapshotPersisted h r => (0, h, r, None, None, None, ""%string, None)
  | ProposalAccepted h r b => (1, h, r, None, Some b, None, ""%string, None)
  | ProposalBroadcast h r b => (2, h, r, None, Some b, None, ""%string, None)
  | VoteRecorded h r s b a => (3, h, r, Some s, Some b, Some a, ""%string, None)
  | VoteBroadcast h r s b a => (4, h, r, Some s, Some b, Some a, ""%string, None)
  | CommitFinalized h r b => (5, h, r, None, Some b, None, ""%string, None)
  | HeightAdvanced h => (6, h, 0, None, None, None, ""%string, None)
  | RoundAdvanced h r => (7, h, r, None, None, None, ""%string, None)
  | EvidenceRecorded h r a reason => (8, h, r, None, None, Some a, reason, None)
  | Locked h r b block => (9, h, r, None, Some b, None, ""%string, Some block)
  | PolkaObserved h r b block => (10, h, r, None, Some b, None, ""%string, Some block)
  end.
Definition wal_of_parts (p : Z * Z * Z * option VoteStep * option Hash32 * option Address *
    string * option Block) : option ConsensusWalEntry :=
  match p with
  | (0, h, r, None, None, None, _, None) => Some (SnapshotPersisted h r)
  | (1, h, r, None, Some b, None, _, None) => Some (ProposalAccepted h r b)
  | (2, h, r, None, Some b, None, _, None) => Some (ProposalBroadcast h r b)
  | (3, h, r, Some s, Some b, Some a, _, None) => Some (VoteRecorded h r s b a)
  | (4, h, r, Some s, Some b, Some a, _, None) => Some (VoteBroadcast h r s b a)
  | (5, h, r, None, Some b, None, _, None) => Some (CommitFinalized h r b)
  | (6, h, _, None, None, None, _, None) => Some (HeightAdvanced h)
  | (7, h, r, None, None, None, _, None) => Some (RoundAdvanced h r)
  | (8, h, r, None, None, Some a, reason, None) => Some (EvidenceRecorded h r a reason)
  | (9, h, r, None, Some b, None, _, Some block) => Some (Locked h r b block)
  | (10, h, r, None, Some b, None, _, Some block) => Some (PolkaObserved h r b block)
  | _ => None
  end.
#[export] Instance wal_serde : Serde ConsensusWalEntry := via wal_parts wal_of_parts.
#[export] Instance wal_laws : SerdeLaws ConsensusWalEntry.
Proof. by_parts. Qed.
#[export] Instance status_serde : Serde ValidatorStatus :=
  via (λ s, match s with Active => None | Jailed => Some true | Inactive => Some false end)
    (λ o, Some (match o with None => Active | Some true => Jailed | Some false => Inactive
      end)).
#[export] Instance status_laws : SerdeLaws ValidatorStatus.
Proof. by_parts. Qed.
#[export] Instance stake_serde : Serde ValidatorStake :=
  via (λ r, (vs_validator_address r, vs_self_bond r, vs_total_stake r, vs_commission_bps r,
      vs_status r, vs_last_liveness_epoch r))
    (λ '(a, b, c, d, e, f), Some {| vs_validator_address := a; vs_self_bond := b;
      vs_total_stake := c; vs_commission_bps := d; vs_status := e;
      vs_last_liveness_epoch := f |}).
#[export] Instance stake_laws : SerdeLaws ValidatorStake.
Proof. by_parts. Qed.
#[export] Instance delegation_serde : Serde Delegation :=
  via (λ r, (dl_delegator r, dl_validator_address r, dl_amount r))
    (λ '(a, b, c), Some {| dl_delegator := a; dl_validator_address := b; dl_amount := c |}).
#[export] Instance delegation_laws : SerdeLaws Delegation.
Proof. by_parts. Qed.
#[export] Instance unbonding_serde : Serde UnbondingDelegation :=
  via (λ r, (ub_delegator r, ub_validator_address r, ub_amount r, ub_release_epoch r))
    (λ '(a, b, c, d), Some {| ub_delegator := a; ub_validator_address := b;
      ub_amount := c; ub_release_epoch := d |}).
#[export] Instance unbonding_laws : SerdeLaws UnbondingDelegation.
Proof. by_parts. Qed.
#[export] Instance slashing_event_serde : Serde SlashingEvent :=
  via (λ r, (se_validator_address r, se_epoch r, se_slash_bps r, se_reason r))
    (λ '(a, b, c, d), Some {| se_validator_address := a; se_epoch := b;
      se_slash_bps := c; se_reason := d |}).
#[export] Instance slashing_event_laws : SerdeLaws SlashingEvent.
Proof. by_parts. Qed.
#[export] Instance staking_serde : Serde StakingState :=
  via (λ r, (ss_epoch r, ss_validators r, ss_delegations r, ss_unbonding r,
      ss_treasury_balance r, ss_slashing_events r))
    (λ '(a, b, c, d, e, f), Some {| ss_epoch := a; ss_validators := b; ss_delegations := c;
      ss_unbonding := d; ss_treasury_balance := e; ss_slashing_events := f |}).
#[export] Instance staking_laws : SerdeLaws StakingState.
Proof. by_parts. Qed.
#[export] Instance governance_proposal_serde : Serde GovernanceProposal :=
  via (λ r, (gp_proposal_id r, gp_activation_epoch r,
      (let 'Economics e := gp_update r in e), gp_description r))
    (λ '(a, b, c, d), Some {| gp_proposal_id := a; gp_activation_epoch := b;
      gp_update := Economics c; gp_description := d |}).
#[export] Instance governance_proposal_laws : SerdeLaws GovernanceProposal.
Proof. apply (via_laws _ _). by intros [?? [] ?]. Qed.
#[export] Instance governance_serde : Serde GovernanceState :=
  via (λ r, (gs_economics r, gs_pending r, gs_next_proposal_id r))
    (λ '(a, b, c), Some {| gs_economics := a; gs_pending := b; gs_next_proposal_id := c |}).
#[export] Instance governance_laws : SerdeLaws GovernanceState.
Proof. by_parts. Qed.
#[export] Instance slashing_serde : Serde SlashingProtection :=
  via (λ r, (sp_last_signed_proposal_height r, sp_last_signed_prevote_height r,
      sp_last_signed_precommit_height r))
    (λ '(a, b, c), Some {| sp_last_signed_proposal_height := a;
      sp_last_signed_prevote_height := b; sp_last_signed_precommit_height := c |}).
#[export] Instance slashing_laws : SerdeLaws SlashingProtection.
Proof. by_parts. Qed.
#[export] Instance gas_serde : Serde GasPricingState :=
  via (λ r, (gps_base_fee r, gps_last_block_gas_used r))
    (λ '(a, b), Some {| gps_base_fee := a; gps_last_block_gas_used := b |}).
#[export] Instance gas_laws : SerdeLaws GasPricingState.
Proof. by_parts. Qed.
#[export] Instance rocks_codec : RocksCodec := {}.
#[export] Instance rocks_codec_laws : RocksCodecLaws Toy.codec rocks_codec.
Proof. split; apply _. Qed.

(** ** A database that never fails *)
#[export] Instance db : RocksDb := {|
  DB := gmap (list byte) (list byte);
  db_get m k := Ok (m !! k);
  db_put k v m := (Ok tt, <[k := v]> m);
  db_write ops m := (Ok tt, apply_batch ops m);
  db_iterator m := Ok <$> entries m
|}.
#[export] Instance db_laws : RocksDbLaws db.
Proof. refine {| contents := λ m : @DB db, m |}; naive_solver. Defined.
End RocksToy.
Import RocksToy.

(** ** Runs *)
Module RocksRuns.
Definition fblock : FinalizedBlock := {|
  fb_block := {| bk_header := header; bk_transactions := [tx];
    bk_proposer_public_key := pk; bk_proposer_signature := [] |};
  fb_certificate := {| cc_block_hash := zero; cc_height := 1; cc_round := 0; cc_votes := [] |};
  fb_receipts := [{| rc_tx_hash := zero; rc_height := 1; rc_fee_charged := 1;
    rc_outcome := Success; rc_evm := None |}];
  fb_epoch_transition := None |}.
Definition acct : Account := {| acct_nonce := 0; acct_balance := 9 |}.

(** Two entries of the log, a block, a compaction, and a look at the result. *)
Definition demo : client (Z * list ConsensusWalEntry * option Account * bool) :=
  Invoke (AppendConsensusWal (HeightAdvanced 1)) (λ _,
  Invoke (AppendConsensusWal (HeightAdvanced 5)) (λ _,
  Invoke (AtomicCommitBlock fblock {[bob := acct]}) (λ _,
  Invoke (CompactConsensusWal 3) (λ removed,
  Invoke LoadConsensusWal (λ wal,
  Invoke (GetAccount bob) (λ account,
  Invoke LatestBlock (λ latest,
  Return (removed, wal, account, bool_decide (latest = Some fblock))))))))).
(** Then the chain goes on, and the log is compacted again. *)
Definition demo2 : client (Z * list ConsensusWalEntry) :=
  Invoke (AppendConsensusWal (HeightAdvanced 1)) (λ _,
  Invoke (AppendConsensusWal (HeightAdvanced 5)) (λ _,
  Invoke (CompactConsensusWal 3) (λ _,
  Invoke (AppendConsensusWal (HeightAdvanced 6)) (λ _,
  Invoke (CompactConsensusWal 6) (λ removed,
  Invoke LoadConsensusWal (λ wal, Return (removed, wal))))))).

(** The outcome of a run, from a computation. *)
Lemma ok_run_is {S E A} (m : eff S E A) s s' r (f : A → bool) :
  m s = (r, s') → match (m s).1 with Ok a => f a | _ => false end = true →
  match r with Ok a => f a = true | _ => False end.
Proof. intros ->. by destruct r. Qed.
Lemma rocks_refines_memory_witness :
  ∃ s', run memory_store demo MemoryInner_default =
    (Ok (1, [HeightAdvanced 5], Some acct, true), s').
Proof.
  destruct (rocks_refines_memory demo (∅ : DB) MemoryInner_default fresh)
    as [(r & db' & s' & h' & Hr & Hm & _)|(msg & db' & Hr & _)].
  - by apply represents_empty.
  - cbn [demo admissible_run admissible]. split_and!; [done|]. intros [] s1 [= <-].
    split_and!; [done|]. intros [] s2 [= <-]. split_and!; [done| |].
    { intros k [b Hb]. exfalso. exact (lookup_empty_Some k b Hb). }
    intros [] s3 [= <-]. split; [reflexivity|]. intros ? ? _.
    do 3 (split; [exact I|]; intros ? ? _). exact I.
  - exists s'. rewrite Hm. do 2 f_equal.
    refine (bool_decide_eq_true_1 _ (ok_run_is (run rocks_store demo) ∅ db' (Ok r)
      (λ r, bool_decide (r = _)) Hr _)). by vm_compute.
  - destruct (ok_run_is (run rocks_store demo) ∅ db' _ (λ _, true) Hr). by vm_compute.
Defined.

Lemma ok_not_err {E A} (r : res E A) e : is_ok r = true → r = Err e → False.
Proof. by intros ? ->. Qed.

(** The same commit on a database whose batches fail. *)
Definition broken : RocksDb := {|
  DB := gmap (list byte) (list byte);
  db_get m k := Ok (m !! k);
  db_put k v m := (Ok tt, <[k := v]> m);
  db_write ops m := (Err "io"%string, m);
  db_iterator m := Ok <$> entries m
|}.
Definition broken_laws : RocksDbLaws broken.
Proof. refine {| contents := λ m : @DB broken, m |}; naive_solver. Defined.
Lemma rocks_commit_atomic_witness :
  let accounts := {[bob := acct]} in
  represents (Rocks.atomic_commit_block fblock accounts (∅ : DB)).2
    (Store.atomic_commit_block fblock accounts MemoryInner_default) fresh ∧
  @represents _ _ broken broken_laws
    (@Rocks.atomic_commit_block _ _ _ broken fblock accounts ∅).2 MemoryInner_default fresh.
Proof.
  assert (∀ k, is_Some (ms_blocks_by_height MemoryInner_default !! k) →
    k ≤ bh_height (bk_header (fb_block fblock))) as Hempty.
  { intros k [b Hb]. exfalso. exact (lookup_empty_Some k b Hb). }
  assert (in_range U64_MAX (bh_height (bk_header (fb_block fblock)))) as Hheight.
  { vm_compute. by split. }
  split.
  - assert (is_ok (Rocks.atomic_commit_block fblock {[bob := acct]} (∅ : DB)).1 = true) as Hok
      by (vm_compute; reflexivity).
    destruct (rocks_commit_atomic fblock {[bob := acct]} (∅ : DB) MemoryInner_default fresh
      _ _ ltac:(by apply represents_empty) (conj Hheight Hempty) (surjective_pairing _))
      as [Hdone|(_ & msg & Hr)]; [exact Hdone|].
    destruct (ok_not_err _ _ Hok Hr).
  - destruct (@rocks_commit_atomic _ _ _ _ broken broken_laws fblock {[bob := acct]} ∅
      MemoryInner_default fresh _ _ ltac:(by apply represents_empty) (conj Hheight Hempty)
      (surjective_pairing _)) as [(wal & [Hd _] & _)|(Hkept & _)]; [|exact Hkept].
    exfalso. specialize (Hd (SAccount bob) I).
    assert (slot_value (Store.atomic_commit_block fblock {[bob := acct]} MemoryInner_default)
      wal (hi_appends fresh) None (SAccount bob) = Some (encode_to_vec acct)) as Hv
      by (vm_compute; reflexivity).
    assert ((@Rocks.atomic_commit_block _ _ _ broken fblock {[bob := acct]} ∅).2 = ∅) as Hk
      by (vm_compute; reflexivity).
    rewrite Hk in Hd. change (None = slot_value (Store.atomic_commit_block fblock
      {[bob := acct]} MemoryInner_default) wal (hi_appends fresh) None (SAccount bob)) in Hd.
    discriminate (eq_trans Hd Hv).
Defined.

(** The second compaction reports an entry as removed and leaves it in the log. *)
Lemma second_compaction_differs :
  (run rocks_store demo2 (∅ : DB)).1 = Ok (1, [HeightAdvanced 5; HeightAdvanced 6]) ∧
  (run memory_store demo2 MemoryInner_default).1 = Ok (1, [HeightAdvanced 6]).
Proof. split; vm_compute; reflexivity. Qed.
End RocksRuns.
