(* ===== verification/Smt.v ===== *)
(** [crates/zeno-state], account state: the snapshot of all accounts and its sparse
    Merkle commitment, with inclusion and non-inclusion proofs. *)

From S2P Require Import Prelude Types Codec Hash Crypto Wire Storage Toy.

Definition SPARSE_DEPTH : nat := 64.

Record AccountProof := {
  ap_address : Address;
  ap_account : option Account;
  ap_siblings : list Hash32
}.

Definition bit_at (key : array 32) (depth : nat) : bool :=
  let byte := Nat.div depth 8 in
  let bit := 7 - Z.of_nat (Nat.modulo depth 8) in
  Z.land (Z.shiftr (byte_Z (nth byte (array_bytes key) x00)) bit) 1 =? 1.

Module Smt.
Section smt.
Context `{HashBackend, ChainCodec}.

Definition path_key (address : Address) : array 32 := sha3_hash (array_bytes address).

Definition leaf_bytes (address : Address) (account : Account) : list byte :=
  encode_to_vec ("zeno.smt.leaf.v1"%string, address, account).
Definition leaf_hash (address : Address) (account : Account) : Hash32 :=
  hash_bytes (leaf_bytes address account).
Definition node_bytes (left right : Hash32) : list byte :=
  bytes_of_string "zeno.smt.node.v1" ++ array_bytes left ++ array_bytes right.
Definition node_hash (left right : Hash32) : Hash32 := hash_bytes (node_bytes left right).

(** [empty_hashes()[SPARSE_DEPTH - height]]. *)
Definition empty_leaf_bytes : list byte := bytes_of_string "zeno.smt.empty.leaf.v1".
Fixpoint empty_hashes (height : nat) : Hash32 :=
  match height with
  | O => hash_bytes empty_leaf_bytes
  | S height => let below := empty_hashes height in node_hash below below
  end.

(** The loop that splits the entries by their bit at [depth]: [(left, right)]. *)
Definition split_at (depth : nat) (entries : list (array 32 * Hash32)) :
    list (array 32 * Hash32) * list (array 32 * Hash32) :=
  (filter (λ e, bit_at e.1 depth = false) entries,
   filter (λ e, bit_at e.1 depth = true) entries).

(** [height] is [SPARSE_DEPTH - depth]: the recursion ends at the leaves. *)
Fixpoint subtree_root (height : nat) (entries : list (array 32 * Hash32)) : Hash32 :=
  match entries, height with
  | [], _ => empty_hashes height
  | e :: _, O => e.2
  | _, S height =>
      let '(lefts, rights) := split_at (SPARSE_DEPTH - S height) entries in
      node_hash (subtree_root height lefts) (subtree_root height rights)
  end.

Fixpoint collect_proof (height : nat) (entries : list (array 32 * Hash32))
    (target_key : array 32) : list Hash32 :=
  match height with
  | O => []
  | S height =>
      let depth := (SPARSE_DEPTH - S height)%nat in
      let '(lefts, rights) := split_at depth entries in
      if bit_at target_key depth
      then subtree_root height lefts :: collect_proof height rights target_key
      else subtree_root height rights :: collect_proof height lefts target_key
  end.

(** [SparseMerkleState]: the entries in address order. *)
Definition leaves (accounts : gmap Address Account) : list (array 32 * Hash32) :=
  (λ '(address, account), (path_key address, leaf_hash address account)) <$>
    entries accounts.
Definition root (accounts : gmap Address Account) : Hash32 :=
  subtree_root SPARSE_DEPTH (leaves accounts).
Definition prove (accounts : gmap Address Account) (address : Address) : AccountProof := {|
  ap_address := address;
  ap_account := accounts !! address;
  ap_siblings := collect_proof SPARSE_DEPTH (leaves accounts) (path_key address)
|}.

(** One turn of the verification loop, over [siblings.iter().rev().enumerate()]. *)
Definition verify_step (path : array 32) (current : Hash32) (step : nat * Hash32) : Hash32 :=
  let '(depth, sibling) := step in
  if bit_at path (SPARSE_DEPTH - 1 - depth)
  then node_hash sibling current else node_hash current sibling.
Definition start_hash (proof : AccountProof) : Hash32 :=
  match ap_account proof with
  | Some account => leaf_hash (ap_address proof) account
  | None => empty_hashes 0
  end.
Definition verify (proof : AccountProof) (expected_root : Hash32) : bool :=
  if negb (Nat.eqb (length (ap_siblings proof)) SPARSE_DEPTH) then false else
  let path := path_key (ap_address proof) in
  let current := foldl (verify_step path) (start_hash proof)
    (imap (λ i s, (i, s)) (rev (ap_siblings proof))) in
  bool_decide (current = expected_root).

(** ** [StateSnapshot] *)
Definition StateSnapshot : Type := gmap Address Account.
Definition load (s : MemoryInner) : StateSnapshot := Store.accounts s.
Definition account (snapshot : StateSnapshot) (address : Address) : Account :=
  default inhabitant (snapshot !! address).
Definition put_account (address : Address) (account : Account) (snapshot : StateSnapshot) :
    StateSnapshot := <[address := account]> snapshot.
Definition persist (snapshot : StateSnapshot) (s : MemoryInner) : MemoryInner :=
  foldl (λ s '(address, account), Store.put_account address account s) s
    (entries snapshot).
Definition state_root (snapshot : StateSnapshot) : Hash32 := root snapshot.
Definition account_proof (snapshot : StateSnapshot) (address : Address) : AccountProof :=
  prove snapshot address.

(** ** Climbing from a leaf *)

(** The verification loop, from the root's point of view. *)
Fixpoint climb (path : array 32) (depth : nat) (siblings : list Hash32) (leaf : Hash32) :
    Hash32 :=
  match siblings with
  | [] => leaf
  | sibling :: siblings =>
      let current := climb path (S depth) siblings leaf in
      if bit_at path depth then node_hash sibling current else node_hash current sibling
  end.

Lemma verify_fold_climb path depth siblings leaf :
  (depth + length siblings = SPARSE_DEPTH)%nat →
  foldl (verify_step path) leaf (imap (λ i s, (i, s)) (rev siblings)) =
  climb path depth siblings leaf.
Proof.
  revert depth. induction siblings as [|s siblings IH]; intros depth Hlen; [done|].
  cbn [rev climb]. rewrite imap_app, foldl_app. simpl in Hlen.
  rewrite (IH (S depth)) by lia. simpl. rewrite length_rev, Nat.add_0_r.
  by replace (63 - length siblings)%nat with depth by (unfold SPARSE_DEPTH in *; lia).
Qed.

Lemma verify_climb proof expected :
  verify proof expected = true ↔
  length (ap_siblings proof) = SPARSE_DEPTH ∧
  climb (path_key (ap_address proof)) 0 (ap_siblings proof) (start_hash proof) = expected.
Proof.
  unfold verify. case_match eqn:El.
  - apply negb_true_iff, Nat.eqb_neq in El. split; [done | by intros []].
  - apply negb_false_iff, Nat.eqb_eq in El.
    rewrite (verify_fold_climb _ 0) by done. rewrite bool_decide_eq_true.
    split; [done | by intros []].
Qed.

(** ** Completeness *)
Lemma subtree_root_S height es :
  subtree_root (S height) es =
    node_hash (subtree_root height (split_at (SPARSE_DEPTH - S height) es).1)
      (subtree_root height (split_at (SPARSE_DEPTH - S height) es).2).
Proof. destruct es; [by destruct height | done]. Qed.
Lemma length_collect_proof height es key : length (collect_proof height es key) = height.
Proof.
  revert es. induction height as [|h IH]; intros es; simpl; [done|].
  case_match; simpl; by rewrite IH.
Qed.

(** Two keys agree on the last [height] of the [SPARSE_DEPTH] bits. *)
Definition agree (height : nat) (k1 k2 : array 32) : Prop :=
  Forall (λ d, bit_at k1 d = bit_at k2 d) (seq (SPARSE_DEPTH - height) height).
#[global] Instance agree_dec height k1 k2 : Decision (agree height k1 k2).
Proof. unfold agree. apply _. Defined.

Lemma agree_S h k1 k2 : (S h ≤ SPARSE_DEPTH)%nat →
  agree (S h) k1 k2 ↔
    bit_at k1 (SPARSE_DEPTH - S h) = bit_at k2 (SPARSE_DEPTH - S h) ∧ agree h k1 k2.
Proof.
  intros Hh. unfold agree. cbn [seq]. rewrite Forall_cons.
  by replace (S (SPARSE_DEPTH - S h)) with (SPARSE_DEPTH - h)%nat by lia.
Qed.

(** The leaf the tree holds at a key: the first entry on its path. *)
Definition leaf_at (height : nat) (es : list (array 32 * Hash32)) (key : array 32) : Hash32 :=
  match filter (λ e, agree height e.1 key) es with
  | [] => empty_hashes 0
  | e :: _ => e.2
  end.

Lemma leaf_at_split h es key : (S h ≤ SPARSE_DEPTH)%nat →
  leaf_at (S h) es key =
    leaf_at h (if bit_at key (SPARSE_DEPTH - S h) then (split_at (SPARSE_DEPTH - S h) es).2
               else (split_at (SPARSE_DEPTH - S h) es).1) key.
Proof.
  intros Hh. unfold leaf_at, split_at. cbn [fst snd].
  assert (∀ b, bit_at key (SPARSE_DEPTH - S h) = b →
    filter (λ e, agree (S h) e.1 key) es =
    filter (λ e, agree h e.1 key) (filter (λ e, bit_at e.1 (SPARSE_DEPTH - S h) = b) es))
    as Hf.
  { intros b Hb. rewrite list_filter_filter. apply list_filter_iff. intros e.
    rewrite agree_S by done. rewrite Hb. tauto. }
  destruct (bit_at key (SPARSE_DEPTH - S h)) eqn:E; by rewrite (Hf _ eq_refl).
Qed.

Lemma climb_collect h es key : (h ≤ SPARSE_DEPTH)%nat →
  climb key (SPARSE_DEPTH - h) (collect_proof h es key) (leaf_at h es key) =
  subtree_root h es.
Proof.
  revert es. induction h as [|h IH]; intros es Hh.
  - assert (filter (λ e, agree 0 e.1 key) es = es) as Hall.
    { induction es as [|e es IH]; [done|].
      rewrite filter_cons_True by (by apply Forall_nil). by rewrite IH. }
    unfold leaf_at. rewrite Hall. by destruct es.
  - rewrite subtree_root_S, leaf_at_split by done. cbn [collect_proof].
    destruct (split_at (SPARSE_DEPTH - S h) es) as [l r].
    assert (S (SPARSE_DEPTH - S h) = SPARSE_DEPTH - h)%nat as Hs by lia.
    destruct (bit_at key (SPARSE_DEPTH - S h)) eqn:E; cbn [climb fst snd];
      rewrite E, Hs, IH by lia; done.
Qed.

(** ** Binding *)
Definition start_bytes (proof : AccountProof) : list byte :=
  match ap_account proof with
  | Some account => leaf_bytes (ap_address proof) account
  | None => empty_leaf_bytes
  end.
Fixpoint climb_preimages (path : array 32) (depth : nat) (siblings : list Hash32)
    (leaf : Hash32) : list (list byte) :=
  match siblings with
  | [] => []
  | sibling :: siblings =>
      let current := climb path (S depth) siblings leaf in
      (if bit_at path depth then node_bytes sibling current else node_bytes current sibling)
      :: climb_preimages path (S depth) siblings leaf
  end.
(** Every byte string hashed with the node digest while a proof is verified. *)
Definition preimages (proof : AccountProof) : list (list byte) :=
  start_bytes proof ::
  climb_preimages (path_key (ap_address proof)) 0 (ap_siblings proof) (start_hash proof).

Lemma node_bytes_inj a b c d : node_bytes a b = node_bytes c d → a = c ∧ b = d.
Proof.
  unfold node_bytes. intros E%app_inv_head. apply array_app_inj in E as [-> E].
  split; [done | by apply array_eq].
Qed.
Lemma start_hash_bytes proof : start_hash proof = hash_bytes (start_bytes proof).
Proof. unfold start_hash, start_bytes. by destruct (ap_account proof). Qed.

Lemma climb_binding path depth s1 s2 l1 l2 :
  length s1 = length s2 →
  climb path depth s1 l1 = climb path depth s2 l2 →
  l1 = l2 ∨
  collision (climb_preimages path depth s1 l1) (climb_preimages path depth s2 l2).
Proof.
  revert depth s2. induction s1 as [|a s1 IH]; intros depth [|b s2] Hl E; simpl in *;
    try lia; [by left|].
  set (c1 := climb path (S depth) s1 l1) in *.
  set (c2 := climb path (S depth) s2 l2) in *.
  assert (c1 = c2 ∨ collision
    ((if bit_at path depth then node_bytes a c1 else node_bytes c1 a)
      :: climb_preimages path (S depth) s1 l1)
    ((if bit_at path depth then node_bytes b c2 else node_bytes c2 b)
      :: climb_preimages path (S depth) s2 l2)) as [Hc|?]; [| |by right].
  { destruct (bit_at path depth).
    - destruct (decide (node_bytes a c1 = node_bytes b c2)) as [[_ ?]%node_bytes_inj|Hne];
        [by left|]. right. eexists _, _. split_and!; [left|left|exact Hne|exact E].
    - destruct (decide (node_bytes c1 a = node_bytes c2 b)) as [[? _]%node_bytes_inj|Hne];
        [by left|]. right. eexists _, _. split_and!; [left|left|exact Hne|exact E]. }
  destruct (IH (S depth) s2 ltac:(lia) Hc) as [?|Hcol]; [by left|].
  right. eapply collision_mono; [..|exact Hcol]; set_solver.
Qed.
End smt.
End Smt.

(** The paths of two addresses agree on every level of the tree. *)
Definition same_path `{HashBackend} (a b : Address) : Prop :=
  Smt.agree SPARSE_DEPTH (Smt.path_key a) (Smt.path_key b).

Lemma elem_of_leaves `{HashBackend, ChainCodec} accounts e :
  e ∈ Smt.leaves accounts ↔
  ∃ b x, accounts !! b = Some x ∧ e = (Smt.path_key b, Smt.leaf_hash b x).
Proof.
  unfold Smt.leaves. rewrite list_elem_of_fmap. split.
  - intros ([b x] & -> & Hin%elem_of_entries). eauto.
  - intros (b & x & Hb & ->). exists (b, x). split; [done | by apply elem_of_entries].
Qed.

(** The tree holds, on the path of an address, the leaf of its account. *)
Lemma leaf_at_account `{HashBackend, ChainCodec} accounts a :
  (∀ b, is_Some (accounts !! b) → same_path b a → b = a) →
  Smt.leaf_at SPARSE_DEPTH (Smt.leaves accounts) (Smt.path_key a) =
  Smt.start_hash (Smt.prove accounts a).
Proof.
  intros Huniq. unfold Smt.leaf_at, Smt.start_hash. cbn [ap_account ap_address Smt.prove].
  set (F := filter _ _).
  assert (∀ e, e ∈ F → ∃ x, accounts !! a = Some x ∧ e.2 = Smt.leaf_hash a x) as HF.
  { intros e [Hag (b & x & Hb & ->)%elem_of_leaves]%list_elem_of_filter.
    assert (b = a) as -> by (apply Huniq; [by eexists | done]). eauto. }
  destruct (accounts !! a) as [x|] eqn:Ea.
  - assert ((Smt.path_key a, Smt.leaf_hash a x) ∈ F) as Hin.
    { apply list_elem_of_filter. split; [by apply Forall_true |].
      apply elem_of_leaves. eauto. }
    destruct F as [|e F]; [by apply not_elem_of_nil in Hin|].
    destruct (HF e ltac:(left)) as (y & [= <-] & He). done.
  - destruct F as [|e F]; [done|]. destruct (HF e ltac:(left)) as (? & ? & _). done.
Qed.

(** C34: the proof built for an address verifies against the state root, for present
    and absent accounts alike, when no other account shares the 64 path bits of the
    address. *)
Theorem account_proof_complete `{HashBackend, ChainCodec}
    (accounts : gmap Address Account) (a : Address) :
  (∀ b, is_Some (accounts !! b) → same_path b a → b = a) →
  Smt.verify (Smt.account_proof accounts a) (Smt.state_root accounts) = true.
Proof.
  intros Huniq. apply Smt.verify_climb. split; [apply Smt.length_collect_proof|].
  unfold Smt.account_proof. rewrite <-(leaf_at_account accounts a Huniq).
  apply (Smt.climb_collect SPARSE_DEPTH). done.
Qed.

(** C35: two proofs for one address that verify against one root state the same
    account (or absence), unless the two verifications hash two different byte
    strings to one digest.  The leaf of an account is never the empty leaf. *)
Theorem account_proof_binding `{HashBackend, ChainCodec}
    `{!SerdeLaws (string * Address * Account)} (p q : AccountProof) (root : Hash32) :
  (∀ a x, Smt.leaf_bytes a x ≠ Smt.empty_leaf_bytes) →
  Smt.verify p root = true → Smt.verify q root = true → ap_address p = ap_address q →
  ap_account p = ap_account q ∨ collision (Smt.preimages p) (Smt.preimages q).
Proof.
  intros Hne [Hlp Hp]%Smt.verify_climb [Hlq Hq]%Smt.verify_climb Ha.
  rewrite <-Hq, Ha in Hp. apply Smt.climb_binding in Hp as [E|Hc]; [| |by rewrite Hlp, Hlq].
  - rewrite !Smt.start_hash_bytes in E.
    destruct (decide (Smt.start_bytes p = Smt.start_bytes q)) as [Eb|Hnb].
    + left. unfold Smt.start_bytes in Eb. rewrite Ha in Eb.
      destruct (ap_account p), (ap_account q); try done.
      * apply (inj encode_to_vec) in Eb. by simplify_eq.
      * by apply Hne in Eb.
      * by symmetry in Eb; apply Hne in Eb.
    + right. eexists _, _. split_and!; [left|left|exact Hnb|exact E].
  - right. eapply collision_mono; [..|exact Hc]; unfold Smt.preimages; rewrite ?Ha;
      apply list_subseteq_skip || (intros ??; by right).
Qed.

#[local] Existing Instances Toy.codec.
(** Two accounts on different paths: the proofs of one, the other and a third. *)
Lemma account_proof_complete_witness :
  let m := {[ Toy.addr := {| acct_nonce := 1; acct_balance := 5 |} ]} in
  @Smt.verify ToyHash.backend Toy.codec
    (@Smt.account_proof ToyHash.backend Toy.codec m Toy.addr)
    (@Smt.state_root ToyHash.backend Toy.codec m) = true.
Proof.
  apply (@account_proof_complete ToyHash.backend Toy.codec).
  intros b [x [-> _]%lookup_singleton_Some] _. done.
Defined.
Lemma toy_leaf_laws : @SerdeLaws (string * Address * Account) serde_smt_leaf.
Proof.
  change (@SerdeLaws (string * Address * Account)
    (@ToyCodec.prod_serde _ (@ToyCodec.prod_serde _ ToyCodec.string_serde _ ToyCodec.array_serde)
      _ Toy.account_serde)).
  apply @ToyCodec.prod_laws;
    [apply @ToyCodec.prod_laws; [apply ToyCodec.string_laws | apply ToyCodec.array_laws]|].
  apply @ToyCodec.via_laws; [|by intros []].
  apply @ToyCodec.prod_laws; apply ToyCodec.Z_laws.
Qed.
Lemma account_proof_binding_witness :
  let m := {[ Toy.addr := {| acct_nonce := 1; acct_balance := 5 |} ]} in
  let p := @Smt.account_proof ToyHash.backend Toy.codec m Toy.addr in
  ap_account p = ap_account p ∨
  @collision ToyHash.backend (@Smt.preimages ToyHash.backend Toy.codec p)
    (@Smt.preimages ToyHash.backend Toy.codec p).
Proof.
  intros m p.
  apply (@account_proof_binding ToyHash.backend Toy.codec toy_leaf_laws p p
    (@Smt.state_root ToyHash.backend Toy.codec m)).
  - intros a x E. discriminate (f_equal head E).
  - vm_cast_no_check (eq_refl true).
  - vm_cast_no_check (eq_refl true).
  - exact eq_refl.
Defined.
