(* ===== verification/Staking.v ===== *)
(** [crates/zeno-state], governance and staking: deterministic parameter updates, the
    staking ledger, slashing, epoch rewards and the effective validator set. *)

From S2P Require Import Prelude Types Codec Hash Crypto Wire Storage Toy.

Inductive StateError := StateStorage (msg : string) | State (msg : string).

(** Field updates. *)
Definition upd_ss_epoch (f : Z → Z) (s : StakingState) : StakingState := {|
  ss_epoch := f (ss_epoch s);
  ss_validators := ss_validators s;
  ss_delegations := ss_delegations s;
  ss_unbonding := ss_unbonding s;
  ss_treasury_balance := ss_treasury_balance s;
  ss_slashing_events := ss_slashing_events s
|}.
Definition upd_ss_validators (f : gmap Address ValidatorStake → gmap Address ValidatorStake) (s : StakingState) : StakingState := {|
  ss_epoch := ss_epoch s;
  ss_validators := f (ss_validators s);
  ss_delegations := ss_delegations s;
  ss_unbonding := ss_unbonding s;
  ss_treasury_balance := ss_treasury_balance s;
  ss_slashing_events := ss_slashing_events s
|}.
Definition upd_ss_delegations (f : gmap (Address * Address) Delegation → gmap (Address * Address) Delegation) (s : StakingState) : StakingState := {|
  ss_epoch := ss_epoch s;
  ss_validators := ss_validators s;
  ss_delegations := f (ss_delegations s);
  ss_unbonding := ss_unbonding s;
  ss_treasury_balance := ss_treasury_balance s;
  ss_slashing_events := ss_slashing_events s
|}.
Definition upd_ss_unbonding (f : list UnbondingDelegation → list UnbondingDelegation) (s : StakingState) : StakingState := {|
  ss_epoch := ss_epoch s;
  ss_validators := ss_validators s;
  ss_delegations := ss_delegations s;
  ss_unbonding := f (ss_unbonding s);
  ss_treasury_balance := ss_treasury_balance s;
  ss_slashing_events := ss_slashing_events s
|}.
Definition upd_ss_treasury_balance (f : Z → Z) (s : StakingState) : StakingState := {|
  ss_epoch := ss_epoch s;
  ss_validators := ss_validators s;
  ss_delegations := ss_delegations s;
  ss_unbonding := ss_unbonding s;
  ss_treasury_balance := f (ss_treasury_balance s);
  ss_slashing_events := ss_slashing_events s
|}.
Definition upd_ss_slashing_events (f : list SlashingEvent → list SlashingEvent) (s : StakingState) : StakingState := {|
  ss_epoch := ss_epoch s;
  ss_validators := ss_validators s;
  ss_delegations := ss_delegations s;
  ss_unbonding := ss_unbonding s;
  ss_treasury_balance := ss_treasury_balance s;
  ss_slashing_events := f (ss_slashing_events s)
|}.
Definition upd_vs_self_bond (f : Z → Z) (s : ValidatorStake) : ValidatorStake := {|
  vs_validator_address := vs_validator_address s;
  vs_self_bond := f (vs_self_bond s);
  vs_total_stake := vs_total_stake s;
  vs_commission_bps := vs_commission_bps s;
  vs_status := vs_status s;
  vs_last_liveness_epoch := vs_last_liveness_epoch s
|}.
Definition upd_vs_total_stake (f : Z → Z) (s : ValidatorStake) : ValidatorStake := {|
  vs_validator_address := vs_validator_address s;
  vs_self_bond := vs_self_bond s;
  vs_total_stake := f (vs_total_stake s);
  vs_commission_bps := vs_commission_bps s;
  vs_status := vs_status s;
  vs_last_liveness_epoch := vs_last_liveness_epoch s
|}.
Definition upd_vs_status (f : ValidatorStatus → ValidatorStatus) (s : ValidatorStake) : ValidatorStake := {|
  vs_validator_address := vs_validator_address s;
  vs_self_bond := vs_self_bond s;
  vs_total_stake := vs_total_stake s;
  vs_commission_bps := vs_commission_bps s;
  vs_status := f (vs_status s);
  vs_last_liveness_epoch := vs_last_liveness_epoch s
|}.
Definition upd_vs_last_liveness_epoch (f : Z → Z) (s : ValidatorStake) : ValidatorStake := {|
  vs_validator_address := vs_validator_address s;
  vs_self_bond := vs_self_bond s;
  vs_total_stake := vs_total_stake s;
  vs_commission_bps := vs_commission_bps s;
  vs_status := vs_status s;
  vs_last_liveness_epoch := f (vs_last_liveness_epoch s)
|}.
Definition upd_dl_amount (f : Z → Z) (s : Delegation) : Delegation := {|
  dl_delegator := dl_delegator s;
  dl_validator_address := dl_validator_address s;
  dl_amount := f (dl_amount s)
|}.

Definition str_contains (needle s : string) : bool :=
  bool_decide (is_Some (String.index 0 needle s)).

Module Governance.
Definition load (default_economics : EconomicsParams) (s : MemoryInner) : GovernanceState :=
  match Store.get_governance_state s with
  | Some state => state
  | None => GovernanceState_new default_economics
  end.
Definition persist (state : GovernanceState) (s : MemoryInner) : MemoryInner :=
  Store.put_governance_state state s.

Definition queue_parameter_update (activation_epoch : Z) (update : ParameterUpdate)
    (description : string) (state : GovernanceState) : Z * GovernanceState :=
  let proposal_id := gs_next_proposal_id state in
  (proposal_id, {|
    gs_economics := gs_economics state;
    gs_pending := gs_pending state ++ [{|
      gp_proposal_id := proposal_id; gp_activation_epoch := activation_epoch;
      gp_update := update; gp_description := description |}];
    gs_next_proposal_id := wrapping U64_MAX (proposal_id + 1) |}).

(** One call of the closure of [retain]: [(kept, economics, applied)]. *)
Definition retain_step (epoch : Z)
    (acc : list GovernanceProposal * EconomicsParams * list GovernanceProposal)
    (proposal : GovernanceProposal) :
    list GovernanceProposal * EconomicsParams * list GovernanceProposal :=
  let '(kept, economics, applied) := acc in
  if epoch <? gp_activation_epoch proposal then (kept ++ [proposal], economics, applied)
  else match gp_update proposal with
       | Economics e => (kept, e, applied ++ [proposal])
       end.
Definition activate_ready_updates (epoch : Z) (state : GovernanceState) :
    list GovernanceProposal * GovernanceState :=
  let '(kept, economics, applied) :=
    foldl (retain_step epoch) ([], gs_economics state, []) (gs_pending state) in
  (applied, {| gs_economics := economics; gs_pending := kept;
               gs_next_proposal_id := gs_next_proposal_id state |}).

Lemma retain_fold epoch l kept economics applied :
  foldl (retain_step epoch) (kept, economics, applied) l =
  (kept ++ filter (λ p, epoch < gp_activation_epoch p) l,
   match last (filter (λ p, gp_activation_epoch p ≤ epoch) l) with
   | Some p => match gp_update p with Economics e => e end
   | None => economics end,
   applied ++ filter (λ p, gp_activation_epoch p ≤ epoch) l).
Proof.
  revert kept economics applied. induction l as [|p l IH]; intros; simpl.
  { by rewrite !app_nil_r. }
  destruct (Z.ltb_spec epoch (gp_activation_epoch p)).
  - rewrite IH. rewrite filter_cons_True, filter_cons_False by lia.
    by rewrite <-app_assoc.
  - destruct (gp_update p) as [e] eqn:Ep. rewrite IH.
    rewrite (filter_cons_False (λ p, epoch < gp_activation_epoch p)) by lia.
    rewrite filter_cons_True by lia. rewrite last_cons, <-app_assoc. f_equal. f_equal.
    destruct (last (filter _ l)); [done | by rewrite Ep].
Qed.
End Governance.

Module Staking.
Abbreviation staking A := (eff StakingState StateError A).

Definition load (s : MemoryInner) : StakingState :=
  match Store.get_staking_state s with
  | Some state => state
  | None => StakingState_default
  end.
Definition persist (state : StakingState) (s : MemoryInner) : MemoryInner :=
  Store.put_staking_state state s.

(** [entry(..).or_insert_with(..)] for each genesis validator. *)
Definition ensure_validator (state : StakingState) (validator : Validator) : StakingState :=
  match ss_validators state !! vd_address validator with
  | Some _ => state
  | None => upd_ss_validators (<[vd_address validator := {|
      vs_validator_address := vd_address validator; vs_self_bond := 0;
      vs_total_stake := 0; vs_commission_bps := 0; vs_status := Active;
      vs_last_liveness_epoch := ss_epoch state |}]>) state
  end.
Definition ensure_validators (validators : list Validator) (state : StakingState) :
    StakingState := foldl ensure_validator state validators.

Definition delegate (delegator validator_address : Address) (amount : Z)
    (is_self_bond : bool) : staking () :=
  state ← eff_get;
  validator ← eff_lift (ok_or (State "unknown validator")
                (ss_validators state !! validator_address));
  let key := (delegator, validator_address) in
  let delegation := default {| dl_delegator := delegator;
    dl_validator_address := validator_address; dl_amount := 0 |}
    (ss_delegations state !! key) in
  let delegation := upd_dl_amount (λ a, saturating_add U128_MAX a amount) delegation in
  let validator := upd_vs_total_stake (λ t, saturating_add U128_MAX t amount) validator in
  let validator := if is_self_bond
    then upd_vs_self_bond (λ b, saturating_add U128_MAX b amount) validator
    else validator in
  eff_put (upd_ss_validators (<[validator_address := validator]>)
    (upd_ss_delegations (<[key := delegation]>) state)).

Definition begin_unbonding (delegator validator_address : Address) (amount : Z)
    (params : EconomicsParams) : staking () :=
  state ← eff_get;
  let key := (delegator, validator_address) in
  delegation ← eff_lift (ok_or (State "delegation not found")
                 (ss_delegations state !! key));
  if dl_amount delegation <? amount
    then eff_lift (Err (State "insufficient delegated amount")) else
  let delegation := upd_dl_amount (λ a, wrapping U128_MAX (a - amount)) delegation in
  _ ← eff_put (upd_ss_delegations (<[key := delegation]>) state);
  validator ← eff_lift (ok_or (State "unknown validator")
                (ss_validators state !! validator_address));
  let validator := upd_vs_total_stake (λ t, wrapping U128_MAX (t - amount)) validator in
  let validator := if bool_decide (delegator = validator_address)
    then upd_vs_self_bond (λ b, saturating_sub b amount) validator else validator in
  _ ← eff_modify (upd_ss_validators (<[validator_address := validator]>));
  eff_modify (upd_ss_unbonding (λ u, u ++ [{|
    ub_delegator := delegator; ub_validator_address := validator_address;
    ub_amount := amount;
    ub_release_epoch := saturating_add U64_MAX (ss_epoch state)
      (ec_unbonding_epochs params) |}])).

(** The [values_mut] loop of [slash]: the delegations to the jailed validator move to
    the unbonding queue. *)
Definition freeze_delegations (validator_address : Address) (state : StakingState) :
    StakingState :=
  let hit d := bool_decide (dl_validator_address d = validator_address) in
  upd_ss_delegations
    (fmap (λ d, if hit d then upd_dl_amount (λ _, 0) d else d))
    (upd_ss_unbonding (λ u, u ++
      ((λ d, {| ub_delegator := dl_delegator d; ub_validator_address := validator_address;
                ub_amount := dl_amount d;
                ub_release_epoch := saturating_add U64_MAX (ss_epoch state) 1 |}) <$>
        filter (λ d, hit d = true) (entries (ss_delegations state)).*2)) state).

Definition slashed (slash_bps : Z) (jail : bool) (validator : ValidatorStake) :
    ValidatorStake :=
  let slash_amount :=
    saturating_mul U128_MAX (vs_total_stake validator) slash_bps / 10000 in
  let validator := upd_vs_total_stake (λ t, saturating_sub t slash_amount) validator in
  let validator := upd_vs_self_bond (λ b, Z.min b (vs_total_stake validator)) validator in
  if jail then upd_vs_status (λ _, Jailed) validator else validator.

Definition slash (validator_address : Address) (slash_bps : Z) (reason : string)
    (jail : bool) : staking () :=
  state ← eff_get;
  validator ← eff_lift (ok_or (State "unknown validator")
                (ss_validators state !! validator_address));
  _ ← eff_modify
        (upd_ss_validators (<[validator_address := slashed slash_bps jail validator]>));
  _ ← (if jail then eff_modify (freeze_delegations validator_address) else mret tt);
  eff_modify (upd_ss_slashing_events (λ l, l ++ [{|
    se_validator_address := validator_address; se_epoch := ss_epoch state;
    se_slash_bps := slash_bps; se_reason := reason |}])).

Definition is_active (validator : ValidatorStake) : bool :=
  bool_decide (vs_status validator = Active).
(** [sum] of unsigned integers wraps in the release profile. *)
Definition total_active_stake (state : StakingState) : Z :=
  wrapping U128_MAX (lsum vs_total_stake
    (filter (λ v, is_active v = true) (entries (ss_validators state)).*2)).

(** One turn of the reward loop: [(rewards, treasury)]. *)
Definition gross_reward (pool total_active : Z) (validator : ValidatorStake) : Z :=
  saturating_mul U128_MAX pool (vs_total_stake validator) / total_active.
Definition commission (pool total_active : Z) (validator : ValidatorStake) : Z :=
  saturating_mul U128_MAX (gross_reward pool total_active validator)
    (vs_commission_bps validator) / 10000.
Definition earns (validator : ValidatorStake) : bool :=
  is_active validator && negb (vs_total_stake validator =? 0).
Definition reward_step (pool total_active : Z) (acc : gmap Address Z * Z)
    (e : Address * ValidatorStake) : gmap Address Z * Z :=
  let '(rewards, treasury) := acc in
  let '(address, validator) := e in
  if negb (earns validator) then acc else
  (<[address := gross_reward pool total_active validator]> rewards,
   saturating_add U128_MAX treasury (commission pool total_active validator)).

Definition settle_epoch_rewards (total_fees reward_budget : Z) (params : EconomicsParams)
    (state : StakingState) : gmap Address Z * StakingState :=
  let total_active := total_active_stake state in
  if total_active =? 0 then
    (∅, upd_ss_epoch (λ e, saturating_add U64_MAX e 1)
          (upd_ss_treasury_balance (λ t, saturating_add U128_MAX
            (saturating_add U128_MAX t total_fees) reward_budget) state))
  else
  let distributable := saturating_add U128_MAX total_fees reward_budget in
  let treasury_cut :=
    saturating_mul U128_MAX distributable (ec_treasury_bps params) / 10000 in
  let treasury := saturating_add U128_MAX (ss_treasury_balance state) treasury_cut in
  let validator_pool := saturating_sub distributable treasury_cut in
  let '(rewards, treasury) :=
    foldl (reward_step validator_pool total_active) (∅, treasury)
      (entries (ss_validators state)) in
  let epoch := saturating_add U64_MAX (ss_epoch state) 1 in
  (rewards, upd_ss_unbonding (filter (λ entry, epoch < ub_release_epoch entry))
     (upd_ss_epoch (λ _, epoch) (upd_ss_treasury_balance (λ _, treasury) state))).

Definition eligible (params : EconomicsParams) (validator : ValidatorStake) : bool :=
  is_active validator && (ec_minimum_self_bond params <=? vs_self_bond validator).
(** The comparator of [sort_by]: stake descending, then address. *)
Definition rank_le (a b : ValidatorStake) : Prop :=
  vs_total_stake b < vs_total_stake a ∨
  (vs_total_stake a = vs_total_stake b ∧
   key_le (vs_validator_address a) (vs_validator_address b)).
#[export] Instance rank_le_dec : RelDecision rank_le.
Proof. intros a b. unfold rank_le. apply _. Defined.
Definition effective_validator_set (params : EconomicsParams) (state : StakingState) :
    list Address :=
  vs_validator_address <$>
    merge_sort rank_le
      (filter (λ v, eligible params v = true) (entries (ss_validators state)).*2).

(** [apply_evidence]: the loop over the items, with the set of the addresses already
    slashed. *)
Definition is_equivocation (item : Evidence) : bool :=
  str_contains "duplicate vote" (evd_reason item) ||
  str_contains "conflicting proposal" (evd_reason item).
Fixpoint apply_evidence_loop (slashed : gset Address) (evidence : list Evidence)
    (params : EconomicsParams) : staking () :=
  match evidence with
  | [] => mret tt
  | item :: evidence =>
      if bool_decide (evd_validator_address item ∈ slashed)
      then apply_evidence_loop slashed evidence params
      else if is_equivocation item then
        _ ← slash (evd_validator_address item) (ec_double_sign_slash_bps params)
              (evd_reason item) true;
        apply_evidence_loop ({[ evd_validator_address item ]} ∪ slashed) evidence params
      else apply_evidence_loop slashed evidence params
  end.
Definition apply_evidence (evidence : list Evidence) (params : EconomicsParams) :
    staking () := apply_evidence_loop ∅ evidence params.

Definition note_liveness (validator_address : Address) : staking () :=
  state ← eff_get;
  validator ← eff_lift (ok_or (State "unknown validator")
                (ss_validators state !! validator_address));
  eff_modify (upd_ss_validators (<[validator_address :=
    upd_vs_last_liveness_epoch (λ _, ss_epoch state) validator]>)).

Definition stale (state : StakingState) : list Address :=
  let target_epoch := saturating_add U64_MAX (ss_epoch state) 1 in
  vs_validator_address <$>
    filter (λ v, is_active v && (saturating_add U64_MAX (vs_last_liveness_epoch v) 1
                                   <? target_epoch) = true)
      (entries (ss_validators state)).*2.
Fixpoint slash_all (addresses : list Address) (params : EconomicsParams) : staking () :=
  match addresses with
  | [] => mret tt
  | address :: addresses =>
      _ ← slash address (ec_downtime_slash_bps params) "downtime" true;
      slash_all addresses params
  end.
Definition apply_downtime_slashing (params : EconomicsParams) : staking () :=
  state ← eff_get; slash_all (stale state) params.

Definition is_validator_active (validator_address : Address) (params : EconomicsParams)
    (state : StakingState) : bool :=
  match ss_validators state !! validator_address with
  | Some validator => eligible params validator
  | None => false
  end.

Section commitment.
Context `{HashBackend, ChainCodec}.

Definition validator_set_root (validators : list Address) : Hash32 :=
  merkle_root ((λ address,
    hash_bytes (encode_to_vec ("zeno.validator_set.v1"%string, address))) <$> validators).
Definition build_epoch_transition (height : Z) (economics : EconomicsParams)
    (state : StakingState) : EpochTransition :=
  let validator_set := effective_validator_set economics state in
  {| et_epoch := ss_epoch state; et_height := height; et_validator_set := validator_set;
     et_validator_set_root := validator_set_root validator_set;
     et_economics := economics |}.
End commitment.
End Staking.

(** ** The staking invariant *)

(** What is delegated to a validator, in all and by others than itself. *)
Definition amount_if (P : Prop) `{Decision P} (d : Delegation) : Z :=
  if decide P then dl_amount d else 0.
Definition total_to (v : Address) (ds : gmap (Address * Address) Delegation) : Z :=
  msum (λ k d, amount_if (k.2 = v) d) ds.
Definition others_to (v : Address) (ds : gmap (Address * Address) Delegation) : Z :=
  msum (λ k d, amount_if (k.2 = v ∧ k.1 ≠ v) d) ds.

(** The record of a validator covers what is delegated to it: its stake is at least
    the sum of the delegations, and at least its self-bond and the others' amounts. *)
Definition covers (ds : gmap (Address * Address) Delegation) (v : Address)
    (r : ValidatorStake) : Prop :=
  vs_validator_address r = v ∧ 0 ≤ vs_self_bond r ∧
  vs_self_bond r + others_to v ds ≤ vs_total_stake r ∧
  total_to v ds ≤ vs_total_stake r ≤ U128_MAX.
Definition well_keyed (vs : gmap Address ValidatorStake) (k : Address * Address)
    (d : Delegation) : Prop :=
  (dl_delegator d, dl_validator_address d) = k ∧ 0 ≤ dl_amount d ∧ is_Some (vs !! k.2).
Record ledger_inv (vs : gmap Address ValidatorStake)
    (ds : gmap (Address * Address) Delegation) : Prop := {
  inv_covers : map_Forall (covers ds) vs;
  inv_keyed : map_Forall (well_keyed vs) ds
}.
Definition staking_inv (st : StakingState) : Prop :=
  ledger_inv (ss_validators st) (ss_delegations st).

Lemma amount_if_nonneg P `{Decision P} d : 0 ≤ dl_amount d → 0 ≤ amount_if P d.
Proof. unfold amount_if. case_decide; lia. Qed.

Section ledger.
Context (vs : gmap Address ValidatorStake) (ds : gmap (Address * Address) Delegation).
Hypothesis Hinv : ledger_inv vs ds.

Lemma ledger_amounts k d : ds !! k = Some d → 0 ≤ dl_amount d.
Proof. intros Hk. by destruct (inv_keyed _ _ Hinv k d Hk) as (_ & ? & _). Qed.
Lemma others_nonneg v : 0 ≤ others_to v ds.
Proof. apply msum_nonneg. intros k d Hk. by eapply amount_if_nonneg, ledger_amounts. Qed.
Lemma others_le_total v : others_to v ds ≤ total_to v ds.
Proof.
  apply msum_le. intros k d Hk. pose proof (ledger_amounts k d Hk).
  unfold amount_if. do 2 case_decide; try lia. by destruct_and!.
Qed.
Lemma delegation_le_total k d : ds !! k = Some d → dl_amount d ≤ total_to k.2 ds.
Proof.
  intros Hk. etrans; [|apply (msum_lookup_le _ _ k d); [|exact Hk]].
  - unfold amount_if. by rewrite decide_True.
  - intros k' d' Hk'. by eapply amount_if_nonneg, ledger_amounts.
Qed.
End ledger.

(** Writing the delegation at [k] moves the sums of its validator only. *)
Lemma total_to_insert ds k d v :
  total_to v (<[k := d]> ds) = total_to v ds
    + (if decide (k.2 = v) then dl_amount d - default 0 (dl_amount <$> ds !! k) else 0).
Proof.
  unfold total_to. rewrite msum_insert. unfold amount_if.
  destruct (ds !! k); simpl; case_decide; lia.
Qed.
Lemma others_to_insert ds k d v :
  others_to v (<[k := d]> ds) = others_to v ds
    + (if decide (k.2 = v ∧ k.1 ≠ v)
       then dl_amount d - default 0 (dl_amount <$> ds !! k) else 0).
Proof.
  unfold others_to. rewrite msum_insert. unfold amount_if.
  destruct (ds !! k); simpl; case_decide; lia.
Qed.

Lemma total_to_insert_own ds u v d :
  total_to v (<[(u, v) := d]> ds) =
    total_to v ds + (dl_amount d - default 0 (dl_amount <$> ds !! (u, v))).
Proof. by rewrite total_to_insert, decide_True. Qed.
Lemma others_to_insert_own ds u v d :
  others_to v (<[(u, v) := d]> ds) = others_to v ds +
    (if decide (u = v) then 0 else dl_amount d - default 0 (dl_amount <$> ds !! (u, v))).
Proof.
  rewrite others_to_insert. simpl. f_equal.
  repeat case_decide; try done; naive_solver.
Qed.

Lemma total_own_others v ds :
  total_to v ds = others_to v ds + default 0 (dl_amount <$> ds !! (v, v)).
Proof.
  assert (∀ ds', ds' !! (v, v) = None → total_to v ds' = others_to v ds') as Hnone.
  { intros ds' Hn. apply msum_ext. intros [u w] d Hk. unfold amount_if. simpl.
    destruct (decide (w = v)) as [->|Hw].
    - rewrite decide_True; [done|]. split; [done|]. intros ->. congruence.
    - by rewrite decide_False by (by intros []). }
  destruct (ds !! (v, v)) as [d|] eqn:E; simpl; [|rewrite Hnone; [lia|done]].
  rewrite <-(insert_delete_id ds (v, v) d E), total_to_insert_own, others_to_insert_own.
  rewrite decide_True, lookup_delete_eq by done. simpl.
  rewrite Hnone by apply lookup_delete_eq. lia.
Qed.

(** One validator and one of its delegations are written. *)
Lemma ledger_insert vs ds v r d u :
  ledger_inv vs ds →
  covers (<[(u, v) := d]> ds) v r → well_keyed vs (u, v) d →
  ledger_inv (<[v := r]> vs) (<[(u, v) := d]> ds).
Proof.
  intros [Hc Hk] Hr Hd. split.
  - intros w q [[<- <-]|[Hne Hq]]%lookup_insert_Some; [done|].
    destruct (Hc w q Hq) as (? & ? & ? & ?). unfold covers.
    rewrite total_to_insert, others_to_insert, !decide_False by naive_solver.
    split_and!; try done; lia.
  - intros k e [[<- <-]|[Hne He]]%lookup_insert_Some.
    + destruct Hd as (? & ? & ?). split_and!; try done. by rewrite lookup_insert_eq.
    + destruct (Hk k e He) as (? & ? & ?). split_and!; try done.
      destruct (decide (v = k.2)) as [<-|]; [by rewrite lookup_insert_eq|].
      by rewrite lookup_insert_ne.
Qed.
(** One validator is written, with at least its cover. *)
Lemma ledger_insert_validator vs ds v r :
  ledger_inv vs ds → covers ds v r → ledger_inv (<[v := r]> vs) ds.
Proof.
  intros [Hc Hk] Hr. split; [by apply map_Forall_insert_2|].
  intros k e He. destruct (Hk k e He) as (? & ? & ?). split_and!; try done.
  destruct (decide (v = k.2)) as [<-|]; [by rewrite lookup_insert_eq|].
  by rewrite lookup_insert_ne.
Qed.

(** *** Each operation keeps the invariant *)
Lemma inv_ensure_validator st val :
  staking_inv st → staking_inv (Staking.ensure_validator st val).
Proof.
  intros Hi. unfold Staking.ensure_validator, staking_inv. case_match eqn:E; [done|]. simpl.
  assert (total_to (vd_address val) (ss_delegations st) = 0) as H0.
  { unfold total_to. rewrite (msum_ext _ (λ _ _, 0)); [apply msum_const_0|].
    intros k d Hk. unfold amount_if. case_decide as Hv; [|done].
    destruct (inv_keyed _ _ Hi k d Hk) as (_ & _ & Hs). rewrite Hv, E in Hs.
    by destruct Hs. }
  apply ledger_insert_validator; [done|].
  pose proof (others_nonneg _ _ Hi (vd_address val)).
  pose proof (others_le_total _ _ Hi (vd_address val)).
  unfold covers. simpl. split_and!; try done; lia.
Qed.

Lemma inv_delegate st u v amount self st' :
  0 ≤ amount →
  (∀ r, ss_validators st !! v = Some r → vs_total_stake r + amount ≤ U128_MAX) →
  (self = true → u = v) →
  staking_inv st → Staking.delegate u v amount self st = (Ok tt, st') → staking_inv st'.
Proof.
  intros Ha Hmax Hself Hi Hd. unfold Staking.delegate in Hd.
  apply eff_bind_inv_ok in Hd as (st0 & ? & [= <- <-] & Hd).
  apply eff_bind_inv_ok in Hd as (r & st1 & Hr & Hd).
  unfold eff_lift, ok_or in Hr. destruct (ss_validators st !! v) as [r0|] eqn:Er; simplify_eq.
  specialize (Hmax _ eq_refl).
  destruct (inv_covers _ _ Hi v r Er) as (Hv & Hs & Ho & Ht).
  set (old := default _ (ss_delegations st1 !! (u, v))) in Hd.
  assert (dl_amount old ≤ total_to v (ss_delegations st1) ∧ 0 ≤ dl_amount old ∧
    (dl_delegator old, dl_validator_address old) = (u, v) ∧
    dl_amount old = default 0 (dl_amount <$> ss_delegations st1 !! (u, v)))
    as (Hold & Hold0 & Hkey & Hdef).
  { unfold old. destruct (ss_delegations st1 !! (u, v)) as [d|] eqn:Ed; simpl.
    - split_and!; try done.
      + exact (delegation_le_total _ _ Hi (u, v) d Ed).
      + exact (ledger_amounts _ _ Hi (u, v) d Ed).
      + exact (proj1 (inv_keyed _ _ Hi (u, v) d Ed)).
    - pose proof (others_nonneg _ _ Hi v). pose proof (others_le_total _ _ Hi v).
      split_and!; try done; lia. }
  injection Hd as <-. unfold staking_inv. simpl. apply ledger_insert; [done| |].
  - unfold covers. rewrite total_to_insert_own, others_to_insert_own, <-Hdef.
    simpl. unfold saturating_add. case_decide as Huv; destruct self; simpl;
      rewrite ?Z.min_r by lia; split_and!; try done; try lia.
    by destruct Huv; apply Hself.
  - unfold well_keyed. simpl. split_and!; [done| ulia | by eexists].
Qed.

Lemma inv_begin_unbonding st u v amount params r st' :
  0 ≤ amount → staking_inv st →
  Staking.begin_unbonding u v amount params st = (r, st') → staking_inv st'.
Proof.
  intros Ha Hi. unfold Staking.begin_unbonding, mbind, eff_bind, eff_get, eff_put,
    eff_modify, eff_lift, ok_or.
  destruct (ss_delegations st !! (u, v)) as [d|] eqn:Ed; [|by intros [= <- <-]].
  case_match eqn:Hlt; [by intros [= <- <-]|]. apply Z.ltb_ge in Hlt.
  destruct (inv_keyed _ _ Hi _ _ Ed) as (Hkey & Hd0 & [q Hq]). simpl in Hq.
  destruct (inv_covers _ _ Hi v q Hq) as (Hv & Hs & Ho & Ht).
  pose proof (delegation_le_total _ _ Hi (u, v) d Ed) as Hle. simpl in Hle.
  simpl. rewrite Hq. intros [= <- <-]. unfold staking_inv. simpl.
  apply ledger_insert; [done| |].
  - unfold covers. rewrite total_to_insert_own, others_to_insert_own, Ed. simpl.
    rewrite (wrapping_small _ (dl_amount d - amount)) by ulia.
    case_bool_decide as Huv; simpl;
      rewrite (wrapping_small _ (vs_total_stake q - amount)) by ulia; unfold saturating_sub;
      pose proof (total_own_others v (ss_delegations st)) as Hown; case_decide; subst; rewrite ?Ed in Hown; simpl in Hown;
      split_and!; try done; lia.
  - unfold well_keyed. simpl. rewrite wrapping_small by ulia.
    split_and!; [done | lia | by eexists].
Qed.

Lemma freeze_sums v ds vs w :
  ledger_inv vs ds →
  let ds' := (λ d, if bool_decide (dl_validator_address d = v)
                   then upd_dl_amount (λ _, 0) d else d) <$> ds in
  total_to w ds' = (if decide (w = v) then 0 else total_to w ds) ∧
  others_to w ds' = (if decide (w = v) then 0 else others_to w ds).
Proof.
  intros Hi ds'. unfold total_to, others_to, ds', msum. rewrite <-!msum_fmap.
  assert (∀ k d, ds !! k = Some d → dl_validator_address d = k.2) as Hkey.
  { intros k d Hk. destruct (inv_keyed _ _ Hi k d Hk) as (<- & _). done. }
  assert (∀ P `{Decision P} k d, ds !! k = Some d → (P → k.2 = w) →
    amount_if P (if bool_decide (dl_validator_address d = v)
                 then upd_dl_amount (λ _, 0) d else d) =
    if decide (w = v) then 0 else amount_if P d) as Hpt.
  { intros P HP k d Hk HPw. rewrite (Hkey k d Hk). unfold amount_if.
    case_decide as HPd; [|by case_decide]. rewrite HPw by done.
    case_bool_decide; [by rewrite decide_True | by rewrite decide_False]. }
  split; [rewrite (msum_ext _ (λ k d, if decide (w = v) then 0 else amount_if (k.2 = w) d))
         |rewrite (msum_ext _ (λ k d, if decide (w = v) then 0
                                      else amount_if (k.2 = w ∧ k.1 ≠ w) d))];
    try (case_decide; [apply msum_const_0 | done]);
    intros k d Hk; by apply (Hpt _ _ k d Hk); intros; destruct_and?.
Qed.

Lemma slashed_bounds bps jail r :
  0 ≤ bps → 0 ≤ vs_self_bond r → 0 ≤ vs_total_stake r →
  let r' := Staking.slashed bps jail r in
  vs_validator_address r' = vs_validator_address r ∧
  0 ≤ vs_self_bond r' ≤ vs_total_stake r' ∧ vs_total_stake r' ≤ vs_total_stake r.
Proof.
  intros Hb Hs Ht. unfold Staking.slashed.
  set (amt := saturating_mul U128_MAX (vs_total_stake r) bps / 10000).
  assert (0 ≤ amt). { apply Z.div_pos; [|lia]. unfold saturating_mul. nia. }
  destruct jail; simpl; unfold saturating_sub; split_and!; try done; lia.
Qed.

Lemma slash_run st v bps reason :
  Staking.slash v bps reason true st =
  match ss_validators st !! v with
  | None => (Err (State "unknown validator"), st)
  | Some r => (Ok tt,
      upd_ss_slashing_events (λ l, l ++ [{| se_validator_address := v;
        se_epoch := ss_epoch st; se_slash_bps := bps; se_reason := reason |}])
      (Staking.freeze_delegations v
        (upd_ss_validators (<[v := Staking.slashed bps true r]>) st)))
  end.
Proof.
  unfold Staking.slash, mbind, eff_bind, eff_get, eff_lift, ok_or, eff_modify.
  by destruct (ss_validators st !! v).
Qed.

Lemma inv_slash st v bps reason res st' :
  0 ≤ bps → staking_inv st → Staking.slash v bps reason true st = (res, st') →
  staking_inv st'.
Proof.
  intros Hb Hi. rewrite slash_run. destruct (ss_validators st !! v) as [r|] eqn:Er; [|by intros [= <- <-]].
  destruct (inv_covers _ _ Hi v r Er) as (Hv & Hs & Ho & Ht).
  pose proof (others_nonneg _ _ Hi v) as Hn. pose proof (others_le_total _ _ Hi v) as Hle.
  pose proof (slashed_bounds bps true r Hb Hs ltac:(lia)) as Hsl. cbv zeta in Hsl.
  generalize dependent (Staking.slashed bps true r). intros r' (Hv' & Hs' & Ht') [= <- <-].
  unfold staking_inv. cbn -[Staking.slashed]. split.
  - intros w q Hq. unfold covers.
    destruct (freeze_sums v _ _ w Hi) as [-> ->].
    apply lookup_insert_Some in Hq as [[<- <-]|[Hne Hq]].
    + rewrite !decide_True by done. split_and!; [by rewrite Hv'|lia..].
    + rewrite !decide_False by done. exact (inv_covers _ _ Hi w q Hq).
  - intros k d' Hd'. apply lookup_fmap_Some in Hd' as (d & <- & Hd).
    destruct (inv_keyed _ _ Hi k d Hd) as (Hk & Ha & Hsome).
    assert (is_Some (<[v:=r']> (ss_validators st) !! k.2)).
    { destruct (decide (v = k.2)) as [<-|]; [by rewrite lookup_insert_eq|].
      by rewrite lookup_insert_ne. }
    unfold well_keyed. case_bool_decide; simpl; done.
Qed.

Lemma inv_apply_evidence st seen ev params res st' :
  0 ≤ ec_double_sign_slash_bps params → staking_inv st →
  Staking.apply_evidence_loop seen ev params st = (res, st') → staking_inv st'.
Proof.
  intros Hb. revert seen st. induction ev as [|item ev IH]; intros seen st Hi Hrun; simpl in Hrun.
  { by injection Hrun as <- <-. }
  case_match; [by eapply IH|]. case_match; [|by eapply IH].
  unfold mbind, eff_bind in Hrun.
  destruct (Staking.slash _ _ _ true st) as [r1 st1] eqn:Es.
  apply (inv_slash _ _ _ _ _ _ Hb Hi) in Es.
  destruct r1 as [[]|e|]; [by eapply IH|by injection Hrun as <- <-..].
Qed.
Lemma inv_slash_all st l params res st' :
  0 ≤ ec_downtime_slash_bps params → staking_inv st →
  Staking.slash_all l params st = (res, st') → staking_inv st'.
Proof.
  intros Hb. revert st. induction l as [|a l IH]; intros st Hi Hrun; simpl in Hrun.
  { by injection Hrun as <- <-. }
  unfold mbind, eff_bind in Hrun.
  destruct (Staking.slash _ _ _ true st) as [r1 st1] eqn:Es.
  apply (inv_slash _ _ _ _ _ _ Hb Hi) in Es.
  destruct r1 as [[]|e|]; [by eapply IH|by injection Hrun as <- <-..].
Qed.
Lemma inv_note_liveness st v res st' :
  staking_inv st → Staking.note_liveness v st = (res, st') → staking_inv st'.
Proof.
  intros Hi. unfold Staking.note_liveness, mbind, eff_bind, eff_get, eff_lift, ok_or, eff_modify.
  destruct (ss_validators st !! v) as [r|] eqn:Er; intros [= <- <-]; [|done].
  unfold staking_inv. simpl. apply ledger_insert_validator; [done|].
  exact (inv_covers _ _ Hi v r Er).
Qed.
Lemma inv_settle st fees budget params :
  staking_inv st → staking_inv (Staking.settle_epoch_rewards fees budget params st).2.
Proof.
  intros Hi. unfold Staking.settle_epoch_rewards. case_match; [done|].
  by destruct (foldl _ _ _).
Qed.

(** *** The life of the staking ledger *)

(** One call of an operation.  The total supply bounds what can be delegated, and a
    self-bond is delegated by the validator itself; every caller of [slash] jails. *)
Inductive staking_step : relation StakingState :=
  | step_ensure st vals : staking_step st (Staking.ensure_validators vals st)
  | step_delegate st u v amount self st' :
      0 ≤ amount →
      (∀ r, ss_validators st !! v = Some r → vs_total_stake r + amount ≤ U128_MAX) →
      (self = true → u = v) →
      Staking.delegate u v amount self st = (Ok tt, st') → staking_step st st'
  | step_unbond st u v amount params r st' :
      0 ≤ amount → Staking.begin_unbonding u v amount params st = (r, st') →
      staking_step st st'
  | step_evidence st ev params r st' :
      0 ≤ ec_double_sign_slash_bps params →
      Staking.apply_evidence ev params st = (r, st') → staking_step st st'
  | step_downtime st params r st' :
      0 ≤ ec_downtime_slash_bps params →
      Staking.apply_downtime_slashing params st = (r, st') → staking_step st st'
  | step_liveness st v r st' :
      Staking.note_liveness v st = (r, st') → staking_step st st'
  | step_settle st fees budget params :
      staking_step st (Staking.settle_epoch_rewards fees budget params st).2.

Lemma staking_step_inv st st' : staking_step st st' → staking_inv st → staking_inv st'.
Proof.
  intros Hs Hi. destruct Hs as [st vals|st u v a self st' Ha Hm Hself Hrun
    |st u v a params r st' Ha Hrun|st ev params r st' Hb Hrun|st params r st' Hb Hrun
    |st v r st' Hrun|st fees budget params].
  - revert st Hi. induction vals as [|v vals IH]; intros st Hi; [done|].
    apply IH. by apply inv_ensure_validator.
  - exact (inv_delegate _ _ _ _ _ _ Ha Hm Hself Hi Hrun).
  - exact (inv_begin_unbonding _ _ _ _ _ _ _ Ha Hi Hrun).
  - exact (inv_apply_evidence _ _ _ _ _ _ Hb Hi Hrun).
  - unfold Staking.apply_downtime_slashing, mbind, eff_bind, eff_get in Hrun.
    exact (inv_slash_all _ _ _ _ _ Hb Hi Hrun).
  - exact (inv_note_liveness _ _ _ _ Hi Hrun).
  - by apply inv_settle.
Qed.
Lemma staking_init_inv : staking_inv StakingState_default.
Proof. split; apply map_Forall_empty. Qed.

(** ** The effective validator set *)
#[export] Instance rank_le_total : Total Staking.rank_le.
Proof.
  intros a b. unfold Staking.rank_le.
  destruct (Z.lt_trichotomy (vs_total_stake a) (vs_total_stake b)) as [|[->|]]; [tauto| |tauto].
  destruct (total key_le (vs_validator_address a) (vs_validator_address b)); tauto.
Qed.
#[export] Instance rank_le_trans : Transitive Staking.rank_le.
Proof.
  intros a b c. unfold Staking.rank_le.
  intros [?|[Hab Ka]] [?|[Hbc Kb]]; [left; lia..|].
  right. split; [congruence | by trans (vs_validator_address b)].
Qed.

Lemma elem_of_values (st : StakingState) r :
  map_Forall (λ v q, vs_validator_address q = v) (ss_validators st) →
  r ∈ (entries (ss_validators st)).*2 ↔
  ss_validators st !! vs_validator_address r = Some r.
Proof.
  intros Hk. rewrite list_elem_of_fmap. split.
  - intros ([a q] & -> & Hin%elem_of_entries). simpl. by rewrite (Hk a q Hin).
  - intros Hr. exists (vs_validator_address r, r). split; [done|]. by apply elem_of_entries.
Qed.
Lemma values_addresses (st : StakingState) :
  map_Forall (λ v q, vs_validator_address q = v) (ss_validators st) →
  vs_validator_address <$> (entries (ss_validators st)).*2 = (entries (ss_validators st)).*1.
Proof.
  intros Hk. rewrite <-list_fmap_compose. apply list_fmap_ext.
  intros i [a q] Hi. apply list_elem_of_lookup_2, elem_of_entries in Hi. by apply Hk.
Qed.

Definition ranked (params : EconomicsParams) (st : StakingState) : list ValidatorStake :=
  merge_sort Staking.rank_le
    (filter (λ v, Staking.eligible params v = true) (entries (ss_validators st)).*2).
Lemma elem_of_ranked params st r :
  map_Forall (λ v q, vs_validator_address q = v) (ss_validators st) →
  r ∈ ranked params st ↔
  ss_validators st !! vs_validator_address r = Some r ∧ Staking.eligible params r = true.
Proof.
  intros Hk. unfold ranked. rewrite merge_sort_Permutation, list_elem_of_filter.
  rewrite elem_of_values by done. tauto.
Qed.

(** ** Epoch rewards *)
Lemma reward_fold pool total l rewards treasury :
  NoDup l.*1 → (∀ a, a ∈ l.*1 → rewards !! a = None) →
  let '(rewards', _) := foldl (Staking.reward_step pool total) (rewards, treasury) l in
  msum (λ _ x, x) rewards' = msum (λ _ x, x) rewards +
    lsum (Staking.gross_reward pool total) (filter (λ v, Staking.earns v = true) l.*2).
Proof.
  revert rewards treasury. induction l as [|[a r] l IH]; intros rewards treasury Hnd Hfresh.
  { simpl. lia. }
  apply NoDup_cons in Hnd as [Ha Hnd]. cbn [foldl Staking.reward_step fmap list_fmap fst snd].
  destruct (Staking.earns r) eqn:Er; cbn [negb].
  - rewrite filter_cons_True by done. cbn [lsum foldr].
    specialize (IH (<[a := Staking.gross_reward pool total r]> rewards)
      (saturating_add U128_MAX treasury (Staking.commission pool total r)) Hnd).
    destruct (foldl _ _ l) as [rewards' t']. rewrite IH.
    + rewrite msum_insert_None by (apply Hfresh; left). unfold lsum. lia.
    + intros b Hb. rewrite lookup_insert_ne by (by intros ->; apply Ha).
      apply Hfresh. by right.
  - rewrite filter_cons_False by congruence. apply IH; [done|].
    intros b Hb. apply Hfresh. by right.
Qed.
Lemma reward_fold_lookup pool total l rewards treasury :
  NoDup l.*1 →
  let '(rewards', _) := foldl (Staking.reward_step pool total) (rewards, treasury) l in
  (∀ a r, (a, r) ∈ l → rewards' !! a =
    if Staking.earns r then Some (Staking.gross_reward pool total r) else rewards !! a) ∧
  (∀ a, a ∉ l.*1 → rewards' !! a = rewards !! a).
Proof.
  revert rewards treasury. induction l as [|[b q] l IH]; intros rewards treasury Hnd.
  { split; [by intros a r ?%elem_of_nil | done]. }
  apply NoDup_cons in Hnd as [Hb Hnd]. cbn [foldl Staking.reward_step fmap list_fmap fst] in *.
  destruct (Staking.earns q) eqn:Eq; cbn [negb].
  1: specialize (IH (<[b := Staking.gross_reward pool total q]> rewards)
       (saturating_add U128_MAX treasury (Staking.commission pool total q)) Hnd).
  2: specialize (IH rewards treasury Hnd).
  all: destruct (foldl _ _ l) as [rewards' t']; destruct IH as [Hin Hout]; split.
  - intros a r [[= -> ->]|Har]%elem_of_cons.
    + by rewrite Hout, lookup_insert_eq, Eq.
    + rewrite (Hin a r Har), lookup_insert_ne; [done|].
      intros ->. apply Hb, list_elem_of_fmap. by exists (a, r).
  - intros a [Hne Hl]%not_elem_of_cons. by rewrite Hout, lookup_insert_ne.
  - intros a r [[= -> ->]|Har]%elem_of_cons; [by rewrite Hout, Eq | by apply Hin].
  - intros a [_ Hl]%not_elem_of_cons. by apply Hout.
Qed.
Lemma reward_fold_treasury pool total l rewards treasury :
  (∀ r, r ∈ l.*2 → 0 ≤ Staking.commission pool total r) → treasury ≤ U128_MAX →
  (foldl (Staking.reward_step pool total) (rewards, treasury) l).2 =
  saturating_add U128_MAX treasury
    (lsum (Staking.commission pool total) (filter (λ v, Staking.earns v = true) l.*2)).
Proof.
  revert rewards treasury. induction l as [|[b q] l IH]; intros rewards treasury Hc Ht.
  { unfold saturating_add. simpl. lia. }
  assert (0 ≤ Staking.commission pool total q) by (apply Hc; left).
  assert (0 ≤ lsum (Staking.commission pool total) (filter (λ v, Staking.earns v = true) l.*2)).
  { apply lsum_nonneg. intros r [_ Hr]%list_elem_of_filter. apply Hc. by right. }
  assert (∀ r, r ∈ l.*2 → 0 ≤ Staking.commission pool total r) by (intros; apply Hc; by right).
  cbn [foldl Staking.reward_step fmap list_fmap snd].
  destruct (Staking.earns q) eqn:Eq; cbn [negb].
  - rewrite filter_cons_True by done. cbn [lsum foldr]. rewrite IH by (unfold saturating_add; lia || done).
    unfold saturating_add, lsum in *. lia.
  - rewrite filter_cons_False by congruence. by apply IH.
Qed.
Lemma sum_of_shares pool total l :
  0 ≤ pool → 0 < total → (∀ r, r ∈ l → 0 ≤ vs_total_stake r) →
  lsum (Staking.gross_reward pool total) l * total ≤ pool * lsum vs_total_stake l.
Proof.
  intros Hp Ht. induction l as [|r l IH]; intros Hl; [simpl; lia|]. cbn [lsum foldr].
  assert (0 ≤ vs_total_stake r) by (apply Hl; left).
  assert (lsum (Staking.gross_reward pool total) l * total ≤ pool * lsum vs_total_stake l)
    by (apply IH; intros; apply Hl; by right).
  assert (Staking.gross_reward pool total r * total ≤ pool * vs_total_stake r).
  { unfold Staking.gross_reward, saturating_mul.
    pose proof (Z.mul_div_le (Z.min U128_MAX (pool * vs_total_stake r)) total Ht). lia. }
  unfold lsum in *. lia.
Qed.
Lemma earning_paid (l : list ValidatorStake) :
  filter (λ v, Staking.earns v = true) l =
  filter (λ v, vs_total_stake v ≠ 0) (filter (λ v, Staking.is_active v = true) l).
Proof.
  rewrite list_filter_filter. apply list_filter_iff. intros r. unfold Staking.earns.
  rewrite andb_true_iff, negb_true_iff, Z.eqb_neq. tauto.
Qed.
Lemma lsum_filter_nonzero {A} (f : A → Z) (l : list A) : lsum f (filter (λ x, f x ≠ 0) l) = lsum f l.
Proof.
  induction l as [|x l IH]; [done|]. destruct (decide (f x = 0)) as [E|E].
  - rewrite filter_cons_False by tauto. rewrite lsum_cons. lia.
  - rewrite filter_cons_True by done. rewrite !lsum_cons. lia.
Qed.
Lemma shares_within_pool pool l :
  0 ≤ pool → (∀ r, r ∈ l → 0 ≤ vs_total_stake r) → 0 < lsum vs_total_stake l →
  lsum (Staking.gross_reward pool (lsum vs_total_stake l))
    (filter (λ v, vs_total_stake v ≠ 0) l) ≤ pool.
Proof.
  intros Hp Hl Ht. apply (Z.mul_le_mono_pos_r _ _ (lsum vs_total_stake l)); [done|].
  etrans; [apply sum_of_shares; [done|done|]|].
  - intros r [_ Hr]%list_elem_of_filter. by apply Hl.
  - by rewrite lsum_filter_nonzero.
Qed.
Lemma commission_nonneg pool total r :
  0 ≤ pool → 0 < total → 0 ≤ vs_total_stake r → 0 ≤ vs_commission_bps r →
  0 ≤ Staking.commission pool total r.
Proof.
  intros Hp Ht Hs Hc. unfold Staking.commission, Staking.gross_reward, saturating_mul.
  apply Z.div_pos; [|lia]. apply Z.min_glb; [ulia|]. apply Z.mul_nonneg_nonneg; [|done].
  apply Z.div_pos; [|lia]. apply Z.min_glb; [ulia|]. by apply Z.mul_nonneg_nonneg.
Qed.

(** The loop over the validators of a ledger. *)
Lemma reward_loop_exact st pool total treasury :
  map_Forall (λ _ r, 0 ≤ vs_total_stake r ∧ 0 ≤ vs_commission_bps r) (ss_validators st) →
  0 ≤ pool → 0 < total → treasury ≤ U128_MAX →
  let paid := filter (λ v, vs_total_stake v ≠ 0)
    (filter (λ v, Staking.is_active v = true) (entries (ss_validators st)).*2) in
  let '(rewards, treasury') :=
    foldl (Staking.reward_step pool total) (∅, treasury) (entries (ss_validators st)) in
  (∀ a, rewards !! a = (r ← ss_validators st !! a;
     if decide (r ∈ paid) then Some (Staking.gross_reward pool total r) else None)) ∧
  treasury' = saturating_add U128_MAX treasury (lsum (Staking.commission pool total) paid) ∧
  msum (λ _ x, x) rewards = lsum (Staking.gross_reward pool total) paid.
Proof.
  intros Hst Hp Ht Htr paid.
  pose proof (entries_keys_NoDup (ss_validators st)) as Hnd.
  pose proof (reward_fold pool total (entries (ss_validators st)) ∅ treasury Hnd ltac:(done)) as Hr.
  pose proof (reward_fold_lookup pool total (entries (ss_validators st)) ∅ treasury Hnd) as Hl.
  pose proof (reward_fold_treasury pool total (entries (ss_validators st)) ∅ treasury) as Hc.
  destruct (foldl _ _ _) as [rewards treasury']. destruct Hl as [Hin Hout]. cbn [snd] in Hc.
  rewrite earning_paid in Hr, Hc. fold paid in Hr, Hc. split_and!.
  - intros a. destruct (ss_validators st !! a) as [r|] eqn:Er; simpl.
    + apply elem_of_entries in Er as Har. rewrite (Hin a r Har), lookup_empty.
      assert (r ∈ (entries (ss_validators st)).*2) as Hval by (apply list_elem_of_fmap; by exists (a, r)).
      assert (r ∈ paid ↔ Staking.earns r = true) as Hpaid.
      { unfold paid. rewrite <-earning_paid, list_elem_of_filter. tauto. }
      case_decide as Hd; rewrite Hpaid in Hd; by destruct (Staking.earns r).
    + rewrite Hout, lookup_empty; [done|].
      intros ([b q] & -> & Hq%elem_of_entries)%list_elem_of_fmap. simpl in Er. congruence.
  - apply Hc; [|done]. intros r ([a q] & -> & Hq%elem_of_entries)%list_elem_of_fmap.
    destruct (Hst a q Hq). by apply commission_nonneg.
  - by rewrite Hr, msum_empty.
Qed.

(** ** Evidence *)
Definition jailed (v : Address) (st : StakingState) : Prop :=
  ∃ r, ss_validators st !! v = Some r ∧ vs_status r = Jailed.
Definition slash_log (st : StakingState) : list Address :=
  se_validator_address <$> ss_slashing_events st.

Lemma slash_ok st v bps reason st' :
  Staking.slash v bps reason true st = (Ok tt, st') →
  jailed v st' ∧ (∀ w, jailed w st → jailed w st') ∧ slash_log st' = slash_log st ++ [v].
Proof.
  rewrite slash_run. destruct (ss_validators st !! v) as [r|] eqn:Er; [|done].
  intros [= <-]. unfold jailed, slash_log. cbn -[Staking.slashed]. split_and!.
  - exists (Staking.slashed bps true r). by rewrite lookup_insert_eq.
  - intros w (q & Hq & Hj). destruct (decide (v = w)) as [<-|Hne].
    + exists (Staking.slashed bps true r). by rewrite lookup_insert_eq.
    + exists q. by rewrite lookup_insert_ne.
  - by rewrite fmap_app.
Qed.

Lemma apply_evidence_ok seen ev params st st' :
  Staking.apply_evidence_loop seen ev params st = (Ok tt, st') →
  (∀ v, v ∈ seen → jailed v st) →
  (∀ v, jailed v st → jailed v st') ∧
  (∀ item, item ∈ ev → Staking.is_equivocation item = true →
    jailed (evd_validator_address item) st') ∧
  ∃ new, slash_log st' = slash_log st ++ new ∧ NoDup new ∧ (∀ v, v ∈ new → v ∉ seen).
Proof.
  revert seen st. induction ev as [|item ev IH]; intros seen st Hrun Hseen; simpl in Hrun.
  { injection Hrun as <-. split_and!; [done|by intros i ?%elem_of_nil|].
    exists []. rewrite app_nil_r. split_and!; [done|constructor|by intros v ?%elem_of_nil]. }
  case_match eqn:Hin.
  { apply bool_decide_eq_true in Hin.
    destruct (IH _ _ Hrun Hseen) as (Hmono & Hev & Hlog). split_and!; [done| |done].
    intros i [->|Hi]%elem_of_cons Heq; [apply Hmono, Hseen; done | by apply Hev]. }
  case_match eqn:Heq.
  - apply eff_bind_inv_ok in Hrun as ([] & st1 & Hs & Hrun).
    apply slash_ok in Hs as (Hj & Hm & Hl).
    destruct (IH _ _ Hrun) as (Hmono & Hev & new & Hlog & Hnd & Hnew).
    { intros v [->%elem_of_singleton|Hv]%elem_of_union; [done | by apply Hm, Hseen]. }
    split_and!; [auto| |].
    + intros i [->|Hi]%elem_of_cons Hie; [by apply Hmono | by apply Hev].
    + exists (evd_validator_address item :: new). rewrite Hlog, Hl, <-app_assoc.
      apply bool_decide_eq_false in Hin. split_and!; [done| |].
      * constructor; [|done]. intros Hc%Hnew. by apply Hc, elem_of_union_l, elem_of_singleton.
      * intros v [->|Hv]%elem_of_cons; [done|].
        intros Hs. by apply (Hnew v Hv), elem_of_union_r.
  - destruct (IH _ _ Hrun Hseen) as (Hmono & Hev & Hlog). split_and!; [done| |done].
    intros i [->|Hi]%elem_of_cons Hie; [congruence | by apply Hev].
Qed.

(** ** Properties *)


(** On a ledger with the invariant, unbonding succeeds exactly when the delegation
    covers the amount; it then subtracts the amount from the delegation and from the
    validator's stake without wrapping, and queues it for release after the unbonding
    delay.  Otherwise nothing changes. *)
Lemma begin_unbonding_exact (st : StakingState) (u v : Address) (amount : Z)
    (params : EconomicsParams) :
  staking_inv st → 0 ≤ amount →
  match ss_delegations st !! (u, v) with
  | None => Staking.begin_unbonding u v amount params st =
      (Err (State "delegation not found"), st)
  | Some d =>
      if dl_amount d <? amount
      then Staking.begin_unbonding u v amount params st =
             (Err (State "insufficient delegated amount"), st)
      else ∃ r st', ss_validators st !! v = Some r ∧
        Staking.begin_unbonding u v amount params st = (Ok tt, st') ∧
        amount ≤ vs_total_stake r ∧
        ss_delegations st' =
          <[(u, v) := upd_dl_amount (λ _, dl_amount d - amount) d]> (ss_delegations st) ∧
        (∃ r', ss_validators st' = <[v := r']> (ss_validators st) ∧
          vs_total_stake r' = vs_total_stake r - amount) ∧
        ss_unbonding st' = ss_unbonding st ++ [{| ub_delegator := u;
          ub_validator_address := v; ub_amount := amount;
          ub_release_epoch := saturating_add U64_MAX (ss_epoch st)
            (ec_unbonding_epochs params) |}]
  end.
Proof.
  intros Hi Ha. unfold Staking.begin_unbonding, mbind, eff_bind, eff_get, eff_put,
    eff_modify, eff_lift, ok_or.
  destruct (ss_delegations st !! (u, v)) as [d|] eqn:Ed; [|done].
  case_match eqn:Hlt; [done|]. apply Z.ltb_ge in Hlt.
  destruct (inv_keyed _ _ Hi _ _ Ed) as (_ & Hd0 & [r Hr]). simpl in Hr.
  destruct (inv_covers _ _ Hi v r Hr) as (_ & _ & _ & Ht).
  pose proof (delegation_le_total _ _ Hi (u, v) d Ed) as Hle. simpl in Hle.
  simpl. rewrite Hr. eexists r, _. split; [done|]. split; [done|].
  split; [lia|]. split; [|split; [|done]].
  - simpl. unfold upd_dl_amount. by rewrite wrapping_small by ulia.
  - eexists. split; [done|].
    case_bool_decide; simpl; apply wrapping_small; ulia.
Qed.

(** The effective set lists exactly the validators that are active under the
    economics rules, once each, by decreasing stake and then by address. *)
Lemma effective_validator_set_exact (params : EconomicsParams) (st : StakingState) :
  map_Forall (λ v r, vs_validator_address r = v) (ss_validators st) →
  (∀ v, v ∈ Staking.effective_validator_set params st ↔
        Staking.is_validator_active v params st = true) ∧
  NoDup (Staking.effective_validator_set params st) ∧
  StronglySorted Staking.rank_le (ranked params st) ∧
  Staking.effective_validator_set params st = vs_validator_address <$> ranked params st.
Proof.
  intros Hk. split_and!; [| | |done].
  - intros v. unfold Staking.effective_validator_set, Staking.is_validator_active.
    fold (ranked params st). rewrite list_elem_of_fmap. split.
    + intros (r & -> & [Hr He]%elem_of_ranked); [|done]. by rewrite Hr.
    + destruct (ss_validators st !! v) as [r|] eqn:Er; [|done]. intros He.
      pose proof (Hk v r Er) as Hv. simpl in Hv. exists r. split; [done|].
      apply elem_of_ranked; [done|]. by rewrite Hv.
  - unfold Staking.effective_validator_set. rewrite merge_sort_Permutation.
    apply (sublist_NoDup _ (vs_validator_address <$> (entries (ss_validators st)).*2)).
    + rewrite values_addresses by done. apply entries_keys_NoDup.
    + apply fmap_sublist, sublist_filter.
  - apply StronglySorted_merge_sort; apply _.
Qed.

(** C33: the settlement of an epoch, on a ledger whose fields have their unsigned ranges
    and whose active stake fits 128 bits, with a treasury share of at most 100 %.  Without
    active stake nobody is rewarded, the treasury takes the fees and the budget, and the
    unbonding queue is left alone.  Otherwise the validators that are active and have stake,
    and no others, are rewarded by their share of the active stake in what the treasury's cut
    leaves; the treasury grows by the cut and by the commission on every reward, although the
    reward paid out is not reduced by it; the unbonding entries that are due are dropped; and
    rewards and cut together stay within the fees and the budget.  All additions saturate.
    (The execution engine passes no fees and no budget, so there only the epoch and the
    queue move.) *)
Theorem settle_epoch_rewards_exact (st : StakingState) (fees budget : Z)
    (params : EconomicsParams) :
  map_Forall (λ _ r, 0 ≤ vs_total_stake r ∧ 0 ≤ vs_commission_bps r) (ss_validators st) →
  let active := filter (λ v, Staking.is_active v = true) (entries (ss_validators st)).*2 in
  let total := lsum vs_total_stake active in
  total ≤ U128_MAX → ss_treasury_balance st ≤ U128_MAX →
  0 ≤ fees → 0 ≤ budget → 0 ≤ ec_treasury_bps params ≤ 10000 →
  let '(rewards, st') := Staking.settle_epoch_rewards fees budget params st in
  let distributable := Z.min U128_MAX (fees + budget) in
  let cut := Z.min U128_MAX (distributable * ec_treasury_bps params) / 10000 in
  let reward r := Z.min U128_MAX ((distributable - cut) * vs_total_stake r) / total in
  let commission r := Z.min U128_MAX (reward r * vs_commission_bps r) / 10000 in
  let paid := filter (λ v, vs_total_stake v ≠ 0) active in
  ss_validators st' = ss_validators st ∧ ss_delegations st' = ss_delegations st ∧
  ss_epoch st' = Z.min U64_MAX (ss_epoch st + 1) ∧
  if total =? 0 then
    rewards = ∅ ∧ ss_unbonding st' = ss_unbonding st ∧
    ss_treasury_balance st' =
      Z.min U128_MAX (Z.min U128_MAX (ss_treasury_balance st + fees) + budget)
  else
    (∀ a, rewards !! a =
      (r ← ss_validators st !! a; if decide (r ∈ paid) then Some (reward r) else None)) ∧
    ss_treasury_balance st' = Z.min U128_MAX
      (ss_treasury_balance st + cut + lsum commission paid) ∧
    ss_unbonding st' = filter (λ u, ss_epoch st' < ub_release_epoch u) (ss_unbonding st) ∧
    msum (λ _ x, x) rewards = lsum reward paid ∧
    lsum reward paid + cut ≤ fees + budget.
Proof.
  intros Hst active total Hsum Htr Hf Hb Hbps. unfold Staking.settle_epoch_rewards.
  assert (∀ r, r ∈ (entries (ss_validators st)).*2 → 0 ≤ vs_total_stake r ∧ 0 ≤ vs_commission_bps r)
    as Hall by (intros r ([a q] & -> & Hq%elem_of_entries)%list_elem_of_fmap; exact (Hst a q Hq)).
  assert (∀ r, r ∈ active → 0 ≤ vs_total_stake r) as Hact
    by (intros r [_ Hr]%list_elem_of_filter; by apply Hall).
  pose proof (lsum_nonneg vs_total_stake active Hact) as H0. fold total in H0.
  assert (Staking.total_active_stake st = total) as ->
    by (unfold Staking.total_active_stake; apply wrapping_small; done).
  destruct (Z.eqb_spec total 0) as [Hz|Hz]; [done|].
  set (dist := saturating_add U128_MAX fees budget).
  set (cut := saturating_mul U128_MAX dist (ec_treasury_bps params) / 10000).
  assert (0 ≤ dist ≤ fees + budget) as Hdist by (unfold dist; ulia).
  assert (0 ≤ cut ≤ dist) as Hcut.
  { unfold cut, saturating_mul. split; [apply Z.div_pos; nia|].
    apply Z.div_le_upper_bound; nia. }
  replace (saturating_sub dist cut) with (dist - cut) by ulia.
  set (pool := dist - cut).
  pose proof (reward_loop_exact st pool total (saturating_add U128_MAX (ss_treasury_balance st) cut)
    Hst ltac:(lia) ltac:(lia) ltac:(unfold saturating_add; lia)) as Hloop.
  pose proof (shares_within_pool pool active ltac:(lia) Hact ltac:(lia)) as Hle.
  assert (0 ≤ lsum (Staking.commission pool total) (filter (λ v, vs_total_stake v ≠ 0) active)) as Hpos.
  { apply lsum_nonneg. intros r [_ [_ Hr]%list_elem_of_filter]%list_elem_of_filter.
    destruct (Hall r Hr). apply commission_nonneg; lia. }
  destruct (foldl _ _ _) as [rewards treasury]. destruct Hloop as (Hl & Ht & Hr).
  split_and!; [done|done|done|exact Hl| |done|exact Hr|].
  - change (treasury = Z.min U128_MAX (ss_treasury_balance st + cut +
      lsum (Staking.commission pool total) (filter (λ v, vs_total_stake v ≠ 0) active))).
    rewrite Ht. unfold saturating_add. fold active. lia.
  - change (lsum (Staking.gross_reward pool total) (filter (λ v, vs_total_stake v ≠ 0) active) + cut
      ≤ fees + budget). fold total in Hle. lia.
Qed.

(** Evidence that is accepted jails every equivocator it names, which leaves the
    effective set, and slashes each address at most once per call. *)
Lemma apply_evidence_jails (st st' : StakingState) (ev : list Evidence)
    (params : EconomicsParams) :
  Staking.apply_evidence ev params st = (Ok tt, st') →
  (∀ item, item ∈ ev → Staking.is_equivocation item = true →
    Staking.is_validator_active (evd_validator_address item) params st' = false) ∧
  ∃ new, slash_log st' = slash_log st ++ new ∧ NoDup new.
Proof.
  intros Hrun. apply apply_evidence_ok in Hrun as (_ & Hev & new & Hlog & Hnd & _).
  - split; [|by exists new]. intros item Hi He. destruct (Hev item Hi He) as (r & Hr & Hj).
    unfold Staking.is_validator_active, Staking.eligible, Staking.is_active. rewrite Hr, Hj.
    done.
  - by intros v ?%not_elem_of_empty.
Qed.

(** Activation splits the queue: the proposals due are applied in order (the last
    one decides the economics), the others stay queued in order, and activating again
    at the same epoch does nothing. *)
Lemma governance_activation (epoch : Z) (st : GovernanceState) :
  let '(applied, st') := Governance.activate_ready_updates epoch st in
  applied = filter (λ p, gp_activation_epoch p ≤ epoch) (gs_pending st) ∧
  gs_pending st' = filter (λ p, epoch < gp_activation_epoch p) (gs_pending st) ∧
  gs_economics st' = match last applied with
    | Some p => match gp_update p with Economics e => e end
    | None => gs_economics st end ∧
  Governance.activate_ready_updates epoch st' = ([], st').
Proof.
  unfold Governance.activate_ready_updates. rewrite Governance.retain_fold. simpl.
  split_and!; [done..|]. rewrite Governance.retain_fold. simpl.
  assert (∀ l, filter (λ p, gp_activation_epoch p ≤ epoch)
    (filter (λ p, epoch < gp_activation_epoch p) l) = []) as ->.
  { induction l as [|p l IH]; [done|].
    destruct (decide (epoch < gp_activation_epoch p)).
    - rewrite filter_cons_True, filter_cons_False by lia. done.
    - by rewrite filter_cons_False by lia. }
  assert (∀ l, filter (λ p, epoch < gp_activation_epoch p)
    (filter (λ p, epoch < gp_activation_epoch p) l) =
    filter (λ p, epoch < gp_activation_epoch p) l) as ->; [|done].
  intros l. rewrite list_filter_filter. apply list_filter_iff. intros p. tauto.
Qed.

(** ** Examples *)
Module StakingExamples.
Definition v1 : Address := array_repeat 32 x01.
Definition genesis_validator : Validator := {|
  vd_validator_id := "v1"; vd_voting_power := 1; vd_p2p_address := ""; vd_rpc_address := "";
  vd_public_key := []; vd_address := v1 |}.
Definition params : EconomicsParams := {|
  ec_minimum_self_bond := 10; ec_epoch_length := 5; ec_unbonding_epochs := 2;
  ec_treasury_bps := 1000; ec_downtime_slash_bps := 100; ec_double_sign_slash_bps := 500 |}.
Definition bonded : StakingState :=
  (Staking.delegate v1 v1 100 true
    (Staking.ensure_validators [genesis_validator] StakingState_default)).2.
Definition evidence : Evidence := {| evd_validator_address := v1; evd_height := 1;
  evd_round := 0; evd_reason := "duplicate vote" |}.

Lemma bonded_reachable : rtc staking_step StakingState_default bonded.
Proof.
  eapply rtc_l; [apply (step_ensure _ [genesis_validator])|].
  apply rtc_once, (step_delegate _ v1 v1 100 true); [lia| |done|reflexivity].
  intros r Hr. vm_compute in Hr. injection Hr as <-. simpl. lia.
Qed.
Lemma bonded_inv : staking_inv bonded.
Proof.
  eapply staking_step_inv; [|apply staking_step_inv with StakingState_default;
    [apply (step_ensure _ [genesis_validator]) | apply staking_init_inv]].
  apply (step_delegate _ v1 v1 100 true); [lia| |done|reflexivity].
  intros r Hr. vm_compute in Hr. injection Hr as <-. simpl. lia.
Qed.
Lemma bonded_validators v r : ss_validators bonded !! v = Some r →
  v = v1 ∧ vs_validator_address r = v1 ∧ vs_total_stake r = 100.
Proof.
  change (ss_validators bonded) with (<[v1 := {| vs_validator_address := v1;
    vs_self_bond := 100; vs_total_stake := 100; vs_commission_bps := 0; vs_status := Active;
    vs_last_liveness_epoch := 0 |}]>
    (<[v1 := {| vs_validator_address := v1; vs_self_bond := 0; vs_total_stake := 0;
      vs_commission_bps := 0; vs_status := Active; vs_last_liveness_epoch := 0 |}]>
      (∅ : gmap Address ValidatorStake))).
  rewrite insert_insert_eq. by intros [<- <-]%lookup_singleton_Some.
Qed.
End StakingExamples.
Import StakingExamples.

Lemma begin_unbonding_exact_witness :
  ∃ r st', ss_validators bonded !! v1 = Some r ∧
    Staking.begin_unbonding v1 v1 30 params bonded = (Ok tt, st').
Proof.
  destruct (begin_unbonding_exact bonded v1 v1 30 params bonded_inv ltac:(lia))
    as (r & st' & Hr & Hrun & _). by exists r, st'.
Defined.
Lemma effective_validator_set_exact_witness :
  v1 ∈ Staking.effective_validator_set params bonded.
Proof.
  apply (effective_validator_set_exact params bonded); [|reflexivity].
  intros v r Hr. by destruct (bonded_validators v r Hr) as (-> & ? & _).
Defined.
(** One validator with ten per cent commission: with a treasury share of ten per cent, 1010
    units of fees and budget become a reward of 909 and 191 units for the treasury. *)
Definition earning : StakingState :=
  upd_ss_validators (λ _, {[v1 := {| vs_validator_address := v1; vs_self_bond := 100;
    vs_total_stake := 100; vs_commission_bps := 1000; vs_status := Active;
    vs_last_liveness_epoch := 0 |}]}) bonded.
Lemma settle_epoch_rewards_exact_witness :
  let '(rewards, st') := Staking.settle_epoch_rewards 10 1000 params earning in
  rewards !! v1 = Some 909 ∧ ss_treasury_balance st' = 191 ∧ ss_epoch st' = 1.
Proof.
  pose proof (settle_epoch_rewards_exact earning 10 1000 params) as H. cbv zeta in H.
  destruct (Staking.settle_epoch_rewards 10 1000 params earning) as [rewards st'].
  destruct H as (_ & _ & He & H); [|vm_compute; discriminate..|lia|lia|simpl; lia|].
  - intros v r Hr. unfold earning in Hr. cbn [ss_validators upd_ss_validators] in Hr.
    apply lookup_singleton_Some in Hr as [_ <-]. simpl. lia.
  - assert ((lsum vs_total_stake (filter (λ v, Staking.is_active v = true)
      (entries (ss_validators earning)).*2) =? 0) = false) as E by (vm_compute; reflexivity).
    rewrite E in H. clear E.
    destruct H as (Hr & Ht & _). split_and!; [|exact Ht|exact He].
    specialize (Hr v1). etrans; [exact Hr|]. vm_compute. reflexivity.
Defined.
Lemma apply_evidence_jails_witness :
  Staking.is_validator_active v1 params (Staking.apply_evidence [evidence] params bonded).2 = false.
Proof.
  refine (proj1 (apply_evidence_jails bonded _ [evidence] params _) evidence _ _);
    [vm_compute; reflexivity | left | vm_compute; reflexivity].
Defined.
