(* ===== verification/Mempool.v ===== *)
(** [crates/zeno-mempool]: the pool of pending transactions, its five indexes,
    replacement by fee, eviction, and block selection. *)

From S2P Require Import Prelude Types Codec Hash Crypto Wire Toy.

Definition MAX_MEMPOOL_SIZE : Z := 10000.
Definition MAX_PER_SENDER : Z := 64.

Inductive MempoolError :=
  | Duplicate
  | ReplacementFeeTooLow
  | Full
  | SenderLimitExceeded
  | NonceGap (expected actual : Z).

Record Inner := {
  by_hash : gmap Hash32 Transaction;
  by_sender_nonce : gmap (Address * Z) Hash32;
  order : gset (Z * Hash32);
  by_sender_count : gmap Address Z;
  highest_nonce : gmap Address Z
}.
Definition Inner_default : Inner :=
  {| by_hash := ∅; by_sender_nonce := ∅; order := ∅; by_sender_count := ∅;
     highest_nonce := ∅ |}.

Definition upd_by_hash f s : Inner :=
  {| by_hash := f (by_hash s); by_sender_nonce := by_sender_nonce s; order := order s;
     by_sender_count := by_sender_count s; highest_nonce := highest_nonce s |}.
Definition upd_by_sender_nonce f s : Inner :=
  {| by_hash := by_hash s; by_sender_nonce := f (by_sender_nonce s); order := order s;
     by_sender_count := by_sender_count s; highest_nonce := highest_nonce s |}.
Definition upd_order f s : Inner :=
  {| by_hash := by_hash s; by_sender_nonce := by_sender_nonce s; order := f (order s);
     by_sender_count := by_sender_count s; highest_nonce := highest_nonce s |}.
Definition upd_by_sender_count f s : Inner :=
  {| by_hash := by_hash s; by_sender_nonce := by_sender_nonce s; order := order s;
     by_sender_count := f (by_sender_count s); highest_nonce := highest_nonce s |}.
Definition upd_highest_nonce f s : Inner :=
  {| by_hash := by_hash s; by_sender_nonce := by_sender_nonce s; order := order s;
     by_sender_count := by_sender_count s; highest_nonce := f (highest_nonce s) |}.

Definition sender (tx : Transaction) : Address := tb_sender (tx_body tx).
Definition nonce (tx : Transaction) : Z := tb_nonce (tx_body tx).
Definition fee (tx : Transaction) : Z := tb_fee (tx_body tx).
Definition tx_key (tx : Transaction) : Address * Z := (sender tx, nonce tx).

Module Mempool.
Section mempool.
Context `{HashBackend, ChainCodec}.
Abbreviation pool A := (eff Inner MempoolError A).
Definition fail {A} (e : MempoolError) : pool A := eff_lift (Err e).

(** The replaced transaction leaves the pool. *)
Definition replace_existing (tx : Transaction) : pool () :=
  guard ← eff_get;
  match by_sender_nonce guard !! tx_key tx with
  | None => mret tt
  | Some existing_hash =>
      existing ← eff_lift (expect (by_hash guard !! existing_hash));
      if fee tx <=? fee existing then fail ReplacementFeeTooLow else
      _ ← eff_modify (upd_order (λ o, o ∖ {[ (fee existing, existing_hash) ]}));
      eff_modify (upd_by_hash (delete existing_hash))
  end.

Definition admit_new (tx : Transaction) : pool () :=
  guard ← eff_get;
  let sender_count := default 0 (by_sender_count guard !! sender tx) in
  if MAX_PER_SENDER <=? sender_count then fail SenderLimitExceeded else
  let highest := default 0 (highest_nonce guard !! sender tx) in
  if saturating_add U64_MAX highest MAX_PER_SENDER <? nonce tx
  then fail (NonceGap (saturating_add U64_MAX highest MAX_PER_SENDER) (nonce tx))
  else mret tt.

Definition make_room (tx : Transaction) : pool () :=
  guard ← eff_get;
  if negb (MAX_MEMPOOL_SIZE <=? Z.of_nat (size (by_hash guard))) then mret tt else
  match set_first (order guard) with
  | None => fail Full
  | Some (lowest_fee, lowest_hash) =>
      if fee tx <=? lowest_fee then fail Full else
      match by_hash guard !! lowest_hash with
      | None => mret tt
      | Some evicted =>
          _ ← eff_modify (upd_by_hash (delete lowest_hash));
          _ ← eff_modify (upd_by_sender_nonce (delete (tx_key evicted)));
          _ ← eff_modify (upd_order (λ o, o ∖ {[ (lowest_fee, lowest_hash) ]}));
          count ← eff_lift (expect (by_sender_count guard !! sender evicted));
          eff_modify (upd_by_sender_count
            (<[sender evicted := saturating_sub count 1]>))
      end
  end.

(** The final writes of [insert]. *)
Definition enter (tx : Transaction) (is_replacement : bool) (guard : Inner) : Inner :=
  let hash := Transaction_id tx in
  let guard := upd_order (λ o, {[ (fee tx, hash) ]} ∪ o) guard in
  let guard := upd_by_sender_nonce (<[tx_key tx := hash]>) guard in
  let guard := if is_replacement then guard else
    upd_by_sender_count (<[sender tx :=
      wrapping U64_MAX (default 0 (by_sender_count guard !! sender tx) + 1)]>) guard in
  let highest := default 0 (highest_nonce guard !! sender tx) in
  let guard := upd_highest_nonce (<[sender tx :=
    if highest <? nonce tx then nonce tx else highest]>) guard in
  upd_by_hash (<[hash := tx]>) guard.

Definition insert (tx : Transaction) : pool () :=
  guard ← eff_get;
  if bool_decide (is_Some (by_hash guard !! Transaction_id tx)) then fail Duplicate else
  let is_replacement := bool_decide (is_Some (by_sender_nonce guard !! tx_key tx)) in
  _ ← replace_existing tx;
  _ ← (if is_replacement then mret tt else admit_new tx);
  _ ← (if is_replacement then mret tt else make_room tx);
  eff_modify (enter tx is_replacement).

(** The plain selection by fee.  Nothing in the repository calls it: a proposal is built with
    [select_for_block_prioritized] below. *)
Definition select_for_block (limit : nat) (guard : Inner) : list Transaction :=
  omap (λ e, by_hash guard !! e.2) (take limit (rev (set_entries (order guard)))).

(** The body shared by the loops of [remove_committed] and [evict_expired]: [tx] gives
    the keys of the indexes, [hash] the entry. *)
Definition drop_entry (hash : Hash32) (tx : Transaction) (guard : Inner) : Inner :=
  let guard := upd_by_hash (delete hash) guard in
  let guard := upd_by_sender_nonce (delete (tx_key tx)) guard in
  let guard := upd_order (λ o, o ∖ {[ (fee tx, hash) ]}) guard in
  match by_sender_count guard !! sender tx with
  | None => guard
  | Some count =>
      let count := saturating_sub count 1 in
      if count =? 0 then upd_by_sender_count (delete (sender tx)) guard
      else upd_by_sender_count (<[sender tx := count]>) guard
  end.

Definition remove_one (guard : Inner) (tx : Transaction) : Inner :=
  let hash := Transaction_id tx in
  match by_hash guard !! hash with
  | Some _ => drop_entry hash tx guard
  | None => guard
  end.
Definition remove_committed (transactions : list Transaction) (guard : Inner) : Inner :=
  foldl remove_one guard transactions.

Definition contains (hash : Hash32) (guard : Inner) : bool :=
  bool_decide (is_Some (by_hash guard !! hash)).
Definition len (guard : Inner) : nat := size (by_hash guard).
Definition is_empty (guard : Inner) : bool := Nat.eqb (len guard) 0.

Definition is_expired (current_height : Z) (tx : Transaction) : bool :=
  match tb_valid_until (tx_body tx) with
  | Some until => until <? current_height
  | None => false
  end.
Definition evict_one (guard : Inner) (hash : Hash32) : Inner :=
  match by_hash guard !! hash with
  | Some tx => drop_entry hash tx guard
  | None => guard
  end.
Definition evict_expired (current_height : Z) (guard : Inner) : Inner :=
  foldl evict_one guard
    (filter (λ e, is_expired current_height e.2 = true) (map_to_list (by_hash guard))).*1.

(** The comparator of [sort_by]: the priority lane first, then the fee. *)
Definition priority (tx : Transaction) : bool := 1000 <=? fee tx.
Definition lane_le (a b : Transaction) : Prop :=
  (priority b = false ∧ priority a = true) ∨
  (priority a = priority b ∧ fee b ≤ fee a).
#[export] Instance lane_le_dec : RelDecision lane_le.
Proof. intros a b. unfold lane_le. apply _. Defined.
(** [values] is the iteration of the hash map, in any order. *)
Definition select_for_block_prioritized (values : list Transaction) (limit : nat)
    (current_height : Z) : list Transaction :=
  take limit (merge_sort lane_le
    (filter (λ tx, is_expired current_height tx = false) values)).
End mempool.
End Mempool.

(** ** The invariant *)
Section invariant.
Context `{HashBackend, ChainCodec}.

Definition pending_of (s : Address) (m : gmap (Address * Z) Hash32) : Z :=
  msum (λ k _, if decide (k.1 = s) then 1 else 0) m.

Record indexed (p : Inner) : Prop := {
  ix_hash h t : by_hash p !! h = Some t →
    Transaction_id t = h ∧ by_sender_nonce p !! tx_key t = Some h ∧ (fee t, h) ∈ order p;
  ix_key k h : by_sender_nonce p !! k = Some h →
    ∃ t, by_hash p !! h = Some t ∧ tx_key t = k;
  ix_order f h : (f, h) ∈ order p → ∃ t, by_hash p !! h = Some t ∧ fee t = f;
  ix_count s : default 0 (by_sender_count p !! s) = pending_of s (by_sender_nonce p)
}.
Record mempool_inv (p : Inner) : Prop := {
  mi_indexed : indexed p;
  mi_count s c : by_sender_count p !! s = Some c → 0 ≤ c ≤ MAX_PER_SENDER;
  mi_size : Z.of_nat (size (by_hash p)) ≤ MAX_MEMPOOL_SIZE
}.

Lemma pending_insert s k h m :
  m !! k = None →
  pending_of s (<[k := h]> m) = pending_of s m + (if decide (k.1 = s) then 1 else 0).
Proof. intros Hk. unfold pending_of. rewrite msum_insert_None by done. lia. Qed.
Lemma pending_update s k h h' m :
  m !! k = Some h' → pending_of s (<[k := h]> m) = pending_of s m.
Proof. intros Hk. unfold pending_of. rewrite msum_insert, Hk. simpl. lia. Qed.
Lemma pending_delete s k h m :
  m !! k = Some h →
  pending_of s (delete k m) = pending_of s m - (if decide (k.1 = s) then 1 else 0).
Proof. intros Hk. unfold pending_of. rewrite (msum_delete _ m k h Hk). lia. Qed.
Lemma pending_nonneg s m : 0 ≤ pending_of s m.
Proof. apply msum_nonneg. intros. case_decide; lia. Qed.
Lemma pending_pos k h m : m !! k = Some h → 1 ≤ pending_of k.1 m.
Proof.
  intros Hk. pose proof (pending_delete k.1 k h m Hk) as Hd.
  rewrite decide_True in Hd by done. pose proof (pending_nonneg k.1 (delete k m)). lia.
Qed.

(** An entry leaves all the indexes at once. *)
Lemma indexed_drop p h t c :
  indexed p → by_hash p !! h = Some t →
  (∀ s, default 0 (c !! s) =
    default 0 (by_sender_count p !! s) - (if decide (sender t = s) then 1 else 0)) →
  indexed {| by_hash := delete h (by_hash p);
    by_sender_nonce := delete (tx_key t) (by_sender_nonce p);
    order := order p ∖ {[ (fee t, h) ]};
    by_sender_count := c; highest_nonce := highest_nonce p |}.
Proof.
  intros [Hh Hk Ho Hc] Ht Hcount. destruct (Hh h t Ht) as (Hid & Hkey & Hord).
  split; simpl.
  - intros h' t' [Hne Ht']%lookup_delete_Some. destruct (Hh h' t' Ht') as (? & Hk' & ?).
    split_and!; [done| |].
    + rewrite lookup_delete_ne; [done|]. intros E. rewrite E in Hkey. congruence.
    + apply elem_of_difference. split; [done|]. intros [= ??]%elem_of_singleton. congruence.
  - intros k h' [Hne Hk']%lookup_delete_Some. destruct (Hk k h' Hk') as (t' & Ht' & Hkt).
    exists t'. split; [|done]. rewrite lookup_delete_ne; [done|]. intros <-. congruence.
  - intros f h' [Hin Hne]%elem_of_difference. destruct (Ho f h' Hin) as (t' & Ht' & Hf).
    exists t'. split; [|done]. rewrite lookup_delete_ne; [done|]. intros <-.
    apply Hne, elem_of_singleton. congruence.
  - intros s. rewrite (pending_delete _ _ h) by done. by rewrite Hcount, Hc.
Qed.

(** A new entry joins all the indexes at once. *)
Lemma indexed_enter p tx c hn :
  indexed p → by_hash p !! Transaction_id tx = None →
  by_sender_nonce p !! tx_key tx = None →
  (∀ s, default 0 (c !! s) =
    default 0 (by_sender_count p !! s) + (if decide (sender tx = s) then 1 else 0)) →
  indexed {| by_hash := <[Transaction_id tx := tx]> (by_hash p);
    by_sender_nonce := <[tx_key tx := Transaction_id tx]> (by_sender_nonce p);
    order := {[ (fee tx, Transaction_id tx) ]} ∪ order p;
    by_sender_count := c; highest_nonce := hn |}.
Proof.
  intros [Hh Hk Ho Hc] Hfresh Hfk Hcount. split; simpl.
  - intros h' t' [[<- <-]|[Hne Ht']]%lookup_insert_Some.
    + split_and!; [done|apply lookup_insert_eq|].
      apply elem_of_union_l. by apply elem_of_singleton.
    + destruct (Hh h' t' Ht') as (? & Hk' & ?). split_and!; [done| |by apply elem_of_union_r].
      rewrite lookup_insert_ne; [done|]. congruence.
  - intros k h' [[<- <-]|[Hne Hk']]%lookup_insert_Some.
    + exists tx. split; [apply lookup_insert_eq | done].
    + destruct (Hk k h' Hk') as (t' & Ht' & Hkt). exists t'. split; [|done].
      rewrite lookup_insert_ne; [done|]. congruence.
  - intros f h' [[= -> ->]%elem_of_singleton|Hin]%elem_of_union.
    + exists tx. split; [apply lookup_insert_eq | done].
    + destruct (Ho f h' Hin) as (t' & Ht' & Hf). exists t'. split; [|done].
      rewrite lookup_insert_ne; [done|]. congruence.
  - intros s. rewrite pending_insert by done. by rewrite Hcount, Hc.
Qed.

Ltac unfold_pool :=
  unfold Mempool.enter, upd_by_hash, upd_order, upd_by_sender_nonce, upd_by_sender_count,
    upd_highest_nonce;
  cbn [by_hash by_sender_nonce order by_sender_count highest_nonce].

Lemma inv_count p s t h :
  mempool_inv p → by_hash p !! h = Some t → sender t = s →
  ∃ c, by_sender_count p !! s = Some c ∧ 1 ≤ c ≤ MAX_PER_SENDER.
Proof.
  intros Hi Ht <-. destruct (ix_hash _ (mi_indexed _ Hi) h t Ht) as (_ & Hk & _).
  pose proof (pending_pos _ _ _ Hk) as Hp. change ((tx_key t).1) with (sender t) in Hp.
  rewrite <-(ix_count _ (mi_indexed _ Hi)) in Hp.
  destruct (by_sender_count p !! sender t) as [c|] eqn:E; simpl in Hp; [|lia].
  exists c. split; [done|]. pose proof (mi_count _ Hi _ _ E). lia.
Qed.

Lemma drop_entry_inv p h t :
  mempool_inv p → by_hash p !! h = Some t → mempool_inv (Mempool.drop_entry h t p).
Proof.
  intros Hi Ht. destruct (inv_count p _ t h Hi Ht eq_refl) as (c & Hc & Hb).
  assert (∀ m hn, (∀ s, default 0 (m !! s) =
      default 0 (by_sender_count p !! s) - (if decide (sender t = s) then 1 else 0)) →
    (∀ s c, m !! s = Some c → 0 ≤ c ≤ MAX_PER_SENDER) → hn = highest_nonce p →
    mempool_inv {| by_hash := delete h (by_hash p);
      by_sender_nonce := delete (tx_key t) (by_sender_nonce p);
      order := order p ∖ {[ (fee t, h) ]}; by_sender_count := m; highest_nonce := hn |})
    as Hgoal.
  { intros m hn Hm Hm' ->. split; [by apply indexed_drop; [apply Hi|..]|done|].
    simpl. pose proof (mi_size _ Hi). rewrite map_size_delete, Ht. lia. }
  unfold Mempool.drop_entry. cbn [by_sender_count upd_by_hash upd_by_sender_nonce upd_order].
  rewrite Hc. unfold saturating_sub. destruct (Z.eqb_spec (Z.max 0 (c - 1)) 0) as [Hz|Hz].
  - apply Hgoal; [| |done].
    + intros s. destruct (decide (sender t = s)) as [<-|Hne].
      * rewrite lookup_delete_eq, Hc. simpl. lia.
      * rewrite lookup_delete_ne by done. simpl. lia.
    + intros s c' [_ Hs]%lookup_delete_Some. by eapply mi_count.
  - apply Hgoal; [| |done].
    + intros s. destruct (decide (sender t = s)) as [<-|Hne].
      * rewrite lookup_insert_eq, Hc. simpl. lia.
      * rewrite lookup_insert_ne by done. simpl. lia.
    + intros s c' [[<- <-]|[_ Hs]]%lookup_insert_Some; [lia | by eapply mi_count].
Qed.

(** What [insert] does to the entries of the pool. *)
Definition accepts (tx : Transaction) (p p' : Inner) : Prop :=
  by_hash p' !! Transaction_id tx = Some tx ∧
  (∀ h t, by_hash p' !! h = Some t → h = Transaction_id tx ∨ by_hash p !! h = Some t) ∧
  (∀ h t, by_hash p !! h = Some t → by_hash p' !! h = None → fee t < fee tx) ∧
  (size (by_hash p') ≤ S (size (by_hash p)))%nat ∧
  (∀ t h, by_hash p !! h = Some t → by_hash p' !! h = None →
     tx_key t = tx_key tx ∨ MAX_MEMPOOL_SIZE ≤ Z.of_nat (size (by_hash p))).

(** A fresh transaction enters a pool that has a slot for it. *)
Lemma enter_new_inv p tx :
  mempool_inv p → by_hash p !! Transaction_id tx = None →
  by_sender_nonce p !! tx_key tx = None →
  default 0 (by_sender_count p !! sender tx) < MAX_PER_SENDER →
  Z.of_nat (size (by_hash p)) < MAX_MEMPOOL_SIZE →
  mempool_inv (Mempool.enter tx false p).
Proof.
  intros Hi Hfresh Hkey Hcount Hsize. set (cnt := default 0 (by_sender_count p !! sender tx)) in *.
  assert (0 ≤ cnt) as Hcnt0.
  { unfold cnt. destruct (by_sender_count p !! sender tx) eqn:E; simpl; [|done].
    by apply (mi_count _ Hi) in E as [? ?]. }
  assert (wrapping U64_MAX (cnt + 1) = cnt + 1) as Hw
    by (apply wrapping_small; unfold MAX_PER_SENDER in *; ulia).
  split.
  - unfold_pool. fold cnt. rewrite Hw.
    apply indexed_enter; [apply Hi | done | done|].
    intros s. destruct (decide (sender tx = s)) as [<-|Hne].
    + rewrite lookup_insert_eq. fold cnt. simpl. lia.
    + rewrite lookup_insert_ne by done. simpl. lia.
  - intros s c. simpl. fold cnt. rewrite Hw.
    intros [[<- <-]|[_ Hs]]%lookup_insert_Some; [unfold MAX_PER_SENDER in *; lia|].
    by eapply mi_count.
  - simpl. rewrite map_size_insert, Hfresh. lia.
Qed.

(** A replacement enters in the slot of the transaction it replaces. *)
Lemma enter_replacement_inv p tx h t :
  mempool_inv p → by_hash p !! Transaction_id tx = None →
  by_hash p !! h = Some t → tx_key t = tx_key tx →
  mempool_inv (Mempool.enter tx true
    (upd_by_hash (delete h) (upd_order (λ o, o ∖ {[ (fee t, h) ]}) p))).
Proof.
  intros Hi Hfresh Ht Hkey. destruct (inv_count p _ t h Hi Ht eq_refl) as (c & Hc & Hb).
  assert (sender t = sender tx) as Hs by (unfold tx_key in Hkey; congruence).
  assert (indexed {| by_hash := delete h (by_hash p);
    by_sender_nonce := delete (tx_key t) (by_sender_nonce p);
    order := order p ∖ {[ (fee t, h) ]};
    by_sender_count := <[sender t := c - 1]> (by_sender_count p);
    highest_nonce := highest_nonce p |}) as Hd.
  { apply indexed_drop; [apply Hi|done|]. intros s.
    destruct (decide (sender t = s)) as [<-|Hne].
    - rewrite lookup_insert_eq, Hc. simpl. lia.
    - rewrite lookup_insert_ne by done. simpl. lia. }
  apply (indexed_enter _ tx (by_sender_count p)
    (<[sender tx := if default 0 (highest_nonce p !! sender tx) <? nonce tx then nonce tx
       else default 0 (highest_nonce p !! sender tx)]> (highest_nonce p))) in Hd.
  - split; [|apply Hi|].
    + unfold_pool. cbn [by_hash by_sender_nonce order by_sender_count highest_nonce] in Hd.
      rewrite Hkey, insert_delete_eq in Hd. exact Hd.
    + simpl. pose proof (mi_size _ Hi). rewrite map_size_insert.
      rewrite (proj2 (lookup_delete_None _ _ _)) by (by right).
      rewrite map_size_delete, Ht.
      assert (size (by_hash p) ≠ 0%nat); [|lia].
      apply map_size_ne_0_lookup. by exists h; eexists.
  - simpl. apply lookup_delete_None. by right.
  - simpl. rewrite Hkey. apply lookup_delete_eq.
  - intros s. simpl. destruct (decide (sender tx = s)) as [<-|Hne].
    + rewrite Hs, lookup_insert_eq. rewrite <-Hs, Hc. simpl. lia.
    + rewrite lookup_insert_ne by congruence. simpl. lia.
Qed.

Lemma make_room_spec p tx :
  mempool_inv p →
  match Mempool.make_room tx p with
  | (Ok _, p') => mempool_inv p' ∧ Z.of_nat (size (by_hash p')) < MAX_MEMPOOL_SIZE ∧
      (p' = p ∨ MAX_MEMPOOL_SIZE ≤ Z.of_nat (size (by_hash p))) ∧
      (∀ k, by_sender_nonce p !! k = None → by_sender_nonce p' !! k = None) ∧
      (∀ s, default 0 (by_sender_count p' !! s) ≤ default 0 (by_sender_count p !! s)) ∧
      (∀ h t, by_hash p' !! h = Some t → by_hash p !! h = Some t) ∧
      (∀ h t, by_hash p !! h = Some t → by_hash p' !! h = None → fee t < fee tx)
  | (Err _, p') => p' = p
  | (Panic, _) => False
  end.
Proof.
  intros Hi. unfold Mempool.make_room, mbind, eff_bind, eff_get, eff_modify, eff_lift.
  destruct (Z.leb_spec MAX_MEMPOOL_SIZE (Z.of_nat (size (by_hash p)))) as [Hfull|Hroom].
  2:{ split_and!; try done; [by left|]. intros h t Hp Hn. congruence. }
  cbn [negb]. destruct (set_first (order p)) as [[lf lh]|] eqn:Ef; [|done].
  apply set_first_Some in Ef as [Hin _].
  destruct (Z.leb_spec (fee tx) lf) as [?|Hfee]; [done|].
  destruct (ix_order _ (mi_indexed _ Hi) lf lh Hin) as (t & Ht & Hlf). rewrite Ht.
  unfold_pool. destruct (inv_count p _ t lh Hi Ht eq_refl) as (c & Hc & Hb). rewrite Hc.
  cbn [expect]. unfold saturating_sub. replace (Z.max 0 (c - 1)) with (c - 1) by lia.
  split_and!.
  - split.
    + subst lf. apply indexed_drop; [apply Hi|done|]. intros s.
      destruct (decide (sender t = s)) as [<-|Hne].
      * rewrite lookup_insert_eq, Hc. simpl. lia.
      * rewrite lookup_insert_ne by done. simpl. lia.
    + cbn [by_sender_count].
      intros s c' [[<- <-]|[_ Hs]]%lookup_insert_Some; [lia | by eapply mi_count].
    + simpl. pose proof (mi_size _ Hi). rewrite map_size_delete, Ht. lia.
  - simpl. pose proof (mi_size _ Hi). rewrite map_size_delete, Ht.
    assert (size (by_hash p) ≠ 0%nat); [|lia].
    apply map_size_ne_0_lookup. by exists lh; eexists.
  - by right.
  - intros k Hk. apply lookup_delete_None. by right.
  - intros s. simpl. destruct (decide (sender t = s)) as [<-|Hne].
    + rewrite lookup_insert_eq, Hc. simpl. lia.
    + by rewrite lookup_insert_ne.
  - intros h t'. simpl. by intros [_ ?]%lookup_delete_Some.
  - intros h t' Ht' Hn. simpl in Hn. apply lookup_delete_None in Hn as [<-|Hn]; [|congruence].
    rewrite Ht in Ht'. simplify_eq. lia.
Qed.

Lemma insert_spec p tx :
  mempool_inv p →
  match Mempool.insert tx p with
  | (Ok _, p') => mempool_inv p' ∧ accepts tx p p'
  | (Err _, p') => p' = p
  | (Panic, _) => False
  end.
Proof.
  intros Hi. unfold Mempool.insert. unfold mbind at 1, eff_bind at 1, eff_get at 1.
  case_bool_decide as Hdup; [done|]. apply eq_None_not_Some in Hdup as Hfresh.
  unfold mbind at 1, eff_bind at 1, Mempool.replace_existing. unfold mbind at 1, eff_bind at 1,
    eff_get at 1.
  destruct (by_sender_nonce p !! tx_key tx) as [eh|] eqn:Ekey.
  - rewrite bool_decide_true by by eexists.
    destruct (ix_key _ (mi_indexed _ Hi) _ _ Ekey) as (t & Ht & Hkt). rewrite Ht.
    unfold mbind, eff_bind, eff_lift, eff_modify, expect, mret, eff_ret.
    destruct (Z.leb_spec (fee tx) (fee t)) as [?|Hfee]; [done|].
    split; [by apply enter_replacement_inv|].
    assert (eh ≠ Transaction_id tx) as Hne by congruence.
    unfold accepts. unfold_pool. split_and!.
    + apply lookup_insert_eq.
    + intros h t' [[<- <-]|[_ [_ ?]%lookup_delete_Some]]%lookup_insert_Some; [by left|by right].
    + intros h t' Ht' [Hn Hne']%lookup_insert_None.
      apply lookup_delete_None in Hn as [<-|Hn]; [|congruence].
      rewrite Ht in Ht'. by simplify_eq.
    + rewrite map_size_insert, map_size_delete, Ht.
      rewrite (proj2 (lookup_delete_None _ _ _)) by (by right). lia.
    + intros t' h Ht' [Hn Hne']%lookup_insert_None.
      apply lookup_delete_None in Hn as [<-|Hn]; [|congruence].
      assert (t' = t) as -> by congruence. left. exact Hkt.
  - rewrite (bool_decide_false (is_Some None)) by apply is_Some_None.
    unfold mbind, eff_bind, mret, eff_ret, Mempool.admit_new.
    unfold mbind, eff_bind, eff_get, mret, eff_ret.
    destruct (Z.leb_spec MAX_PER_SENDER (default 0 (by_sender_count p !! sender tx)))
      as [?|Hcount]; [done|].
    destruct (saturating_add U64_MAX _ _ <? nonce tx); [done|].
    pose proof (make_room_spec p tx Hi) as Hroom.
    destruct (Mempool.make_room tx p) as [[u|e|] p1]; [|exact Hroom..].
    destruct Hroom as (Hi1 & Hsize & Hsame & Hkeys & Hcounts & Hsub & Hevict).
    assert (by_hash p1 !! Transaction_id tx = None) as Hfresh1.
    { destruct (by_hash p1 !! Transaction_id tx) eqn:E; [|done]. apply Hsub in E. congruence. }
    unfold eff_modify. split.
    + apply enter_new_inv; try done; [by apply Hkeys|].
      pose proof (Hcounts (sender tx)). lia.
    + unfold accepts. unfold_pool. split_and!.
      * apply lookup_insert_eq.
      * intros h t [[<- <-]|[_ ?]]%lookup_insert_Some; [by left|right; by apply Hsub].
      * intros h t Ht [Hn _]%lookup_insert_None. by eapply Hevict.
      * rewrite map_size_insert, Hfresh1. apply le_n_S.
        destruct Hsame as [->|Hfull]; [done | lia].
      * intros t h Ht [Hn _]%lookup_insert_None.
        destruct Hsame as [->|Hfull]; [congruence | by right].
Qed.

(** *** Removal *)

(** Of the transactions in play, no two different ones share an identifier. *)
Definition no_clash (p : Inner) (txs : list Transaction) : Prop :=
  ∀ tx t, tx ∈ txs → by_hash p !! Transaction_id tx = Some t → t = tx.

Lemma drop_entry_by_hash h t p : by_hash (Mempool.drop_entry h t p) = delete h (by_hash p).
Proof. unfold Mempool.drop_entry. unfold_pool. repeat case_match; done. Qed.

Lemma remove_committed_spec txs p :
  mempool_inv p → no_clash p txs →
  mempool_inv (Mempool.remove_committed txs p) ∧
  ∀ h, by_hash (Mempool.remove_committed txs p) !! h =
    if decide (h ∈ Transaction_id <$> txs) then None else by_hash p !! h.
Proof.
  revert p. induction txs as [|tx txs IH]; intros p Hi Hc.
  { split; [done|]. intros h. rewrite decide_False; [done|]. by apply not_elem_of_nil. }
  assert (mempool_inv (Mempool.remove_one p tx) ∧
    ∀ h, by_hash (Mempool.remove_one p tx) !! h =
      if decide (h = Transaction_id tx) then None else by_hash p !! h) as [Hi1 Hl].
  { unfold Mempool.remove_one. destruct (by_hash p !! Transaction_id tx) as [t|] eqn:Et.
    - assert (t = tx) as -> by (apply (Hc tx t); [left | done]).
      split; [by apply drop_entry_inv|]. intros h. rewrite drop_entry_by_hash.
      case_decide as Hh; [by rewrite Hh, lookup_delete_eq | by rewrite lookup_delete_ne].
    - split; [done|]. intros h. by case_decide as Hh; [rewrite Hh|]. }
  destruct (IH _ Hi1) as [Hi2 Hl2].
  { intros tx' t Hin Ht. rewrite Hl in Ht. case_decide; [done|].
    apply (Hc tx' t); [by right | done]. }
  split; [exact Hi2|]. intros h. etrans; [apply Hl2|]. rewrite Hl. apply drop_keys_cons.
Qed.

Lemma evict_spec hs p :
  mempool_inv p →
  let p' := foldl Mempool.evict_one p hs in
  mempool_inv p' ∧
  ∀ h, by_hash p' !! h = if decide (h ∈ hs) then None else by_hash p !! h.
Proof.
  cbv zeta. revert p. induction hs as [|h0 hs IH]; intros p Hi.
  { split; [done|]. intros h. rewrite decide_False; [done|]. by apply not_elem_of_nil. }
  assert (mempool_inv (Mempool.evict_one p h0) ∧
    ∀ h, by_hash (Mempool.evict_one p h0) !! h =
      if decide (h = h0) then None else by_hash p !! h) as [Hi1 Hl].
  { unfold Mempool.evict_one. destruct (by_hash p !! h0) as [t|] eqn:Et.
    - split; [by apply drop_entry_inv|]. intros h. rewrite drop_entry_by_hash.
      case_decide as Hh; [by rewrite Hh, lookup_delete_eq | by rewrite lookup_delete_ne].
    - split; [done|]. intros h. by case_decide as Hh; [rewrite Hh|]. }
  destruct (IH _ Hi1) as [Hi2 Hl2]. split; [exact Hi2|]. intros h. cbn [foldl].
  rewrite Hl2, Hl. apply drop_keys_cons.
Qed.
End invariant.

(** ** Runs of the pool *)
Inductive pool_step `{HashBackend, ChainCodec} : relation Inner :=
  | step_insert p tx r p' : Mempool.insert tx p = (r, p') → pool_step p p'
  | step_remove p txs : no_clash p txs → pool_step p (Mempool.remove_committed txs p)
  | step_evict p height : pool_step p (Mempool.evict_expired height p).

Lemma pool_step_inv `{HashBackend, ChainCodec} p p' :
  pool_step p p' → mempool_inv p → mempool_inv p'.
Proof.
  intros Hs Hi. destruct Hs as [p tx r p' Hr|p txs Hc|p height].
  - pose proof (insert_spec p tx Hi) as Hins. rewrite Hr in Hins.
    destruct r; [apply Hins | by subst | done].
  - by apply remove_committed_spec.
  - by apply evict_spec.
Qed.
Lemma pool_init_inv `{HashBackend, ChainCodec} : mempool_inv Inner_default.
Proof.
  split; [split; simpl| |]; simpl; done.
Qed.

(** ** Selection *)
Section selection.
Context `{HashBackend, ChainCodec}.

Lemma set_entries_sorted (o : gset (Z * Hash32)) : StronglySorted key_le (set_entries o).
Proof. apply StronglySorted_merge_sort; apply _. Qed.
Lemma key_le_fee (a b : Z * Hash32) : key_le a b → a.1 ≤ b.1.
Proof. intros [[Hlt|[Heq _]]|Heq]; [|by rewrite Heq|by rewrite Heq].
  unfold lexico, Z_lexico in Hlt. lia. Qed.

(** The fees of the selected transactions are those of the entries of [order]. *)
Lemma omap_order p l :
  mempool_inv p → (∀ e, e ∈ l → e ∈ order p) →
  fee <$> omap (λ e, by_hash p !! e.2) l = l.*1 ∧
  (Transaction_id <$> omap (λ e, by_hash p !! e.2) l) = l.*2.
Proof.
  intros Hi. induction l as [|[f h] l IH]; intros Hl; [done|].
  destruct (ix_order _ (mi_indexed _ Hi) f h ltac:(apply Hl; left)) as (t & Ht & Hf).
  destruct (ix_hash _ (mi_indexed _ Hi) h t Ht) as (Hid & _).
  destruct IH as [IH1 IH2]; [intros; apply Hl; by right|].
  set (F := λ e : Z * Hash32, by_hash p !! e.2) in *.
  change (omap F ((f, h) :: l)) with
    (match by_hash p !! h with Some t => t :: omap F l | None => omap F l end).
  by rewrite Ht, !fmap_cons, IH1, IH2, Hf, Hid.
Qed.
Lemma elem_of_rev_entries p e : e ∈ rev (set_entries (order p)) ↔ e ∈ order p.
Proof.
  rewrite <-elem_of_set_entries, list_elem_of_In, <-in_rev, <-list_elem_of_In. done.
Qed.
Lemma rev_entries_NoDup p : NoDup (rev (set_entries (order p))).
Proof.
  apply NoDup_ListNoDup, NoDup_rev, NoDup_ListNoDup.
  unfold set_entries. rewrite merge_sort_Permutation. apply NoDup_elements.
Qed.

Lemma select_spec p limit :
  mempool_inv p →
  let sel := Mempool.select_for_block limit p in
  let es := take limit (rev (set_entries (order p))) in
  fee <$> sel = es.*1 ∧ Transaction_id <$> sel = es.*2.
Proof.
  intros Hi. apply omap_order; [done|]. intros e He.
  apply elem_of_rev_entries. by eapply elem_of_take in He as (i & Hi' & _);
    apply list_elem_of_lookup_2 in Hi'.
Qed.
End selection.

(** C36: whatever the pool goes through (insertions, removal of committed transactions
    with distinct identifiers, expiry), its indexes agree: every pending transaction is
    found under its identifier, its sender and nonce, and its fee; a sender has at most
    64 pending transactions, counted exactly; and the pool holds at most 10000. *)
Theorem mempool_invariant `{HashBackend, ChainCodec} (p : Inner) :
  rtc pool_step Inner_default p → mempool_inv p.
Proof.
  generalize pool_init_inv. generalize Inner_default.
  intros p0 Hi. induction 1 as [|p0 p1 p2 Hs _ IH]; [done|].
  apply IH. by eapply pool_step_inv.
Qed.

(** C37: inserting never panics.  An error leaves the pool as it was.  Otherwise the
    transaction is pending, nothing else is new, the pool grows by at most one, and a
    transaction that left either had the same sender and nonce or made room in a full
    pool, and paid a strictly lower fee. *)
Theorem mempool_insert_exact `{HashBackend, ChainCodec} (p : Inner) (tx : Transaction) :
  mempool_inv p →
  match Mempool.insert tx p with
  | (Ok _, p') => mempool_inv p' ∧ accepts tx p p'
  | (Err _, p') => p' = p
  | (Panic, _) => False
  end.
Proof. apply insert_spec. Qed.

(** Block selection returns pending transactions, without repetition, by
    decreasing fee; one that is left out pays no more than any that is selected, and is
    left out only when the limit is reached. *)
Lemma select_for_block_best `{HashBackend, ChainCodec} (p : Inner) (limit : nat) :
  mempool_inv p →
  let sel := Mempool.select_for_block limit p in
  (∀ t, t ∈ sel → by_hash p !! Transaction_id t = Some t) ∧
  NoDup (Transaction_id <$> sel) ∧ StronglySorted Z.ge (fee <$> sel) ∧
  (∀ h t, by_hash p !! h = Some t → t ∉ sel →
    length sel = limit ∧ ∀ s, s ∈ sel → fee t ≤ fee s).
Proof.
  intros Hi sel. destruct (select_spec p limit Hi) as [Hfee Hid]. fold sel in Hfee, Hid.
  set (es := rev (set_entries (order p))) in *.
  assert (StronglySorted (λ a b : Z * Hash32, b.1 ≤ a.1) es) as Hsorted.
  { pose proof (StronglySorted_rev _ _ (set_entries_sorted (order p))) as Hs.
    rewrite <-(list_fmap_id es). eapply StronglySorted_fmap; [|exact Hs].
    intros a b Hab. by apply key_le_fee. }
  split_and!.
  - intros t Ht. apply list_elem_of_omap in Ht as ([f h] & _ & Hh). simpl in Hh.
    by destruct (ix_hash _ (mi_indexed _ Hi) h t Hh) as (-> & _).
  - rewrite Hid. apply (NoDup_fmap_2_strong snd).
    + intros [f h] [f' h'] Hin Hin' E. simpl in E. subst h'. f_equal.
      apply elem_of_take in Hin as (i & Hin & _), Hin' as (j & Hin' & _).
      apply list_elem_of_lookup_2, elem_of_rev_entries in Hin, Hin'.
      destruct (ix_order _ (mi_indexed _ Hi) _ _ Hin) as (t & Ht & <-).
      destruct (ix_order _ (mi_indexed _ Hi) _ _ Hin') as (t' & Ht' & <-). congruence.
    + eapply sublist_NoDup; [apply (rev_entries_NoDup p)|]. apply sublist_take.
  - rewrite Hfee. apply (StronglySorted_fmap (λ a b : Z * Hash32, b.1 ≤ a.1)); [intros; lia|].
    rewrite <-(take_drop limit es) in Hsorted. by apply StronglySorted_app_l in Hsorted.
  - intros h t Ht Hn. destruct (ix_hash _ (mi_indexed _ Hi) h t Ht) as (Hih & _ & Ho).
    apply elem_of_rev_entries in Ho. fold es in Ho.
    rewrite <-(take_drop limit es), elem_of_app in Ho. destruct Ho as [Ho|Ho].
    + destruct Hn. apply list_elem_of_omap. by exists (fee t, h).
    + split.
      * rewrite <-(length_fmap fee), Hfee, length_fmap, length_take.
        apply list_elem_of_lookup_1 in Ho as [i Hl]. apply lookup_lt_Some in Hl.
        rewrite length_drop in Hl. lia.
      * intros s Hs. apply (list_elem_of_fmap_2 fee) in Hs. rewrite Hfee in Hs.
        apply list_elem_of_fmap in Hs as (e & -> & He).
        rewrite <-(take_drop limit es) in Hsorted.
        exact (StronglySorted_app_cons _ _ _ e (fee t, h) Hsorted He Ho).
Qed.

Lemma admit_new_gap `{HashBackend, ChainCodec} (p : Inner) (tx : Transaction) :
  by_sender_count p !! sender tx = None → highest_nonce p !! sender tx = None →
  64 < nonce tx → Mempool.admit_new tx p = (Err (NonceGap 64 (nonce tx)), p).
Proof.
  intros Hc Hh Hn. unfold Mempool.admit_new, mbind, eff_bind, eff_get. rewrite Hc, Hh.
  cbn [default from_option]. change (MAX_PER_SENDER <=? 0) with false.
  assert ((saturating_add U64_MAX 0 MAX_PER_SENDER <? nonce tx) = true) as ->
    by (by apply Z.ltb_lt). done.
Qed.

(** A pool that has seen nothing of a sender accepts only nonces up to 64: an
    account whose next nonce is larger (every busy account, after a restart) cannot
    submit at all. *)
Lemma empty_pool_rejects_large_nonce `{HashBackend, ChainCodec} (tx : Transaction) :
  64 < nonce tx →
  Mempool.insert tx Inner_default = (Err (NonceGap 64 (nonce tx)), Inner_default).
Proof.
  intros Hn. unfold Mempool.insert, Mempool.replace_existing.
  unfold mbind, eff_bind, eff_get, mret, eff_ret.
  rewrite !bool_decide_false by apply is_Some_None. cbv beta iota zeta.
  change (by_sender_nonce Inner_default !! tx_key tx) with (@None Hash32).
  cbv beta iota zeta. by rewrite admit_new_gap.
Qed.

(** ** Examples *)
Module MempoolExamples.
#[export] Existing Instances ToyHash.backend Toy.codec.
Definition with_nonce_fee (n f : Z) : Transaction := {|
  tx_body := {| tb_chain_id := Toy.chain; tb_sender := Toy.addr; tb_recipient := Toy.bob;
    tb_amount := 5; tb_nonce := n; tb_fee := f; tb_evm := None; tb_memo := None;
    tb_valid_until := None |}; tx_public_key := []; tx_signature := [] |}.
Definition t1 := with_nonce_fee 0 1.
Definition t2 := with_nonce_fee 0 9.
Definition p1 : Inner := (Mempool.insert t1 Inner_default).2.
Lemma p1_reachable : rtc pool_step Inner_default p1.
Proof.
  apply rtc_once, (step_insert _ t1 (Mempool.insert t1 Inner_default).1). reflexivity.
Qed.
Lemma p1_inv : mempool_inv p1.
Proof.
  eapply pool_step_inv; [|apply pool_init_inv].
  apply (step_insert _ t1 (Mempool.insert t1 Inner_default).1). reflexivity.
Qed.
End MempoolExamples.
Import MempoolExamples.
Lemma mempool_invariant_witness :
  mempool_inv p1 ∧ by_hash p1 !! Transaction_id t1 = Some t1.
Proof. split; [apply mempool_invariant, p1_reachable | vm_compute; reflexivity]. Defined.
(** A replacement: the same sender and nonce with a higher fee. *)
Lemma mempool_insert_exact_witness :
  is_ok (Mempool.insert t2 p1).1 = true ∧ accepts t2 p1 (Mempool.insert t2 p1).2.
Proof.
  pose proof (mempool_insert_exact p1 t2 p1_inv) as Hs.
  assert (is_ok (Mempool.insert t2 p1).1 = true) as Hok by (vm_compute; reflexivity).
  split; [exact Hok|]. destruct (Mempool.insert t2 p1) as [[u|e|] p']; [|discriminate..].
  exact (proj2 Hs).
Defined.
Lemma select_for_block_best_witness :
  NoDup (Transaction_id <$> Mempool.select_for_block 5 p1).
Proof. apply (select_for_block_best p1 5 p1_inv). Defined.
Lemma empty_pool_rejects_large_nonce_witness :
  Mempool.insert (with_nonce_fee 70 1) Inner_default =
    (Err (NonceGap 64 70), Inner_default).
Proof. apply (empty_pool_rejects_large_nonce (with_nonce_fee 70 1)). reflexivity. Defined.
