(* ===== verification/Zk.v ===== *)
(** [crates/zeno-zk]: hash commitments and nullifiers, the incremental commitment
    tree, the shielded pool, and the verification precompile. *)

From S2P Require Import Prelude Types Hash Toy.

Definition COMMITMENT_TREE_DEPTH : nat := 32.
Definition COMMITMENT_DOMAIN : list byte := bytes_of_string "zeno.zk.commitment.v1".
Definition NULLIFIER_DOMAIN : list byte := bytes_of_string "zeno.zk.nullifier.v1".
Definition TREE_NODE_DOMAIN : list byte := bytes_of_string "zeno.zk.tree_node.v1".
Definition TREE_EMPTY_DOMAIN : list byte := bytes_of_string "zeno.zk.empty_leaf.v1".

Inductive ZkError :=
  | DuplicateCommitment
  | NullifierAlreadySpent
  | InvalidMerkleProof
  | CommitmentNotFound
  | VerificationFailed (msg : string)
  | InsufficientShieldedBalance.

Abbreviation BlindingFactor := (array 32).
Abbreviation SpendingKey := (array 32).

Record ShieldedNote := {
  nt_value : Z;
  nt_blinding : BlindingFactor;
  nt_spending_key : SpendingKey;
  nt_commitment : Hash32;
  nt_nullifier : Hash32;
  nt_tree_index : option Z
}.
Record CommitmentMerkleProof := {
  mp_commitment : Hash32;
  mp_index : Z;
  mp_siblings : list Hash32
}.
Record ShieldedTransferProof := {
  tp_nullifier : Hash32;
  tp_merkle_root : Hash32;
  tp_merkle_proof : CommitmentMerkleProof;
  tp_output_commitment : Hash32;
  tp_value : Z
}.
Record ShieldRequest := { sr_value : Z; sr_commitment : Hash32 }.
Record UnshieldRequest := {
  ur_nullifier : Hash32;
  ur_merkle_proof : CommitmentMerkleProof;
  ur_merkle_root : Hash32;
  ur_value : Z;
  ur_recipient : Address
}.

(** [nodes] is keyed by depth and index. *)
Record CommitmentTree := {
  ct_leaf_count : Z;
  ct_nodes : gmap (nat * Z) Hash32;
  ct_empty_hashes : list Hash32
}.
Record ShieldedPool := {
  sp_tree : CommitmentTree;
  sp_nullifiers : gset Hash32;
  sp_total_shielded_value : Z
}.

Module Zk.
Section zk.
Context `{HashBackend}.

Definition compute_commitment (value : Z) (blinding : BlindingFactor) : Hash32 :=
  hash_bytes (COMMITMENT_DOMAIN ++ le_bytes 16 value ++ array_bytes blinding).
Definition compute_nullifier (commitment : Hash32) (spending_key : SpendingKey) : Hash32 :=
  hash_bytes (NULLIFIER_DOMAIN ++ array_bytes commitment ++ array_bytes spending_key).

(** The random blinding factor and key are arguments. *)
Definition create_note_with_key (value : Z) (blinding : BlindingFactor)
    (spending_key : SpendingKey) : ShieldedNote :=
  let commitment := compute_commitment value blinding in
  {| nt_value := value; nt_blinding := blinding; nt_spending_key := spending_key;
     nt_commitment := commitment;
     nt_nullifier := compute_nullifier commitment spending_key; nt_tree_index := None |}.
Definition create_note (value : Z) (blinding : BlindingFactor)
    (spending_key : SpendingKey) : ShieldedNote :=
  create_note_with_key value blinding spending_key.

Definition tree_node_bytes (left right : Hash32) : list byte :=
  TREE_NODE_DOMAIN ++ array_bytes left ++ array_bytes right.
Definition tree_node_hash (left right : Hash32) : Hash32 :=
  hash_bytes (tree_node_bytes left right).

(** [compute_empty_hashes]: the hash of an empty subtree of each height; the vector
    holds them by depth, the root's first. *)
Fixpoint empty_hash (height : nat) : Hash32 :=
  match height with
  | O => hash_bytes TREE_EMPTY_DOMAIN
  | S height => let below := empty_hash height in tree_node_hash below below
  end.
Definition compute_empty_hashes : list Hash32 :=
  (λ depth, empty_hash (COMMITMENT_TREE_DEPTH - depth)) <$> seq 0 (S COMMITMENT_TREE_DEPTH).

Definition new_tree : CommitmentTree :=
  {| ct_leaf_count := 0; ct_nodes := ∅; ct_empty_hashes := compute_empty_hashes |}.
Definition ensure_empty_hashes (t : CommitmentTree) : CommitmentTree :=
  match ct_empty_hashes t with
  | [] => {| ct_leaf_count := ct_leaf_count t; ct_nodes := ct_nodes t;
             ct_empty_hashes := compute_empty_hashes |}
  | _ => t
  end.
Definition node_hash (t : CommitmentTree) (depth : nat) (index : Z) : Hash32 :=
  match ct_nodes t !! (depth, index) with
  | Some h => h
  | None => default zero (ct_empty_hashes t !! depth)
  end.
Definition set_node (depth : nat) (index : Z) (h : Hash32) (t : CommitmentTree) :
    CommitmentTree :=
  {| ct_leaf_count := ct_leaf_count t; ct_nodes := <[(depth, index) := h]> (ct_nodes t);
     ct_empty_hashes := ct_empty_hashes t |}.
Definition set_leaf_count (n : Z) (t : CommitmentTree) : CommitmentTree :=
  {| ct_leaf_count := n; ct_nodes := ct_nodes t; ct_empty_hashes := ct_empty_hashes t |}.

Definition root (t : CommitmentTree) : Hash32 * CommitmentTree :=
  let t := ensure_empty_hashes t in (node_hash t 0 0, t).

(** The loop over the depths [d-1, ..., 0]. *)
Fixpoint update_path (d : nat) (current_index : Z) (t : CommitmentTree) : CommitmentTree :=
  match d with
  | O => t
  | S depth =>
      let parent_index := current_index / 2 in
      let left := node_hash t (S depth) (parent_index * 2) in
      let right := node_hash t (S depth) (parent_index * 2 + 1) in
      update_path depth parent_index
        (set_node depth parent_index (tree_node_hash left right) t)
  end.
Definition insert (commitment : Hash32) : eff CommitmentTree ZkError Z :=
  _ ← eff_modify ensure_empty_hashes;
  t ← eff_get;
  let index := ct_leaf_count t in
  if 2 ^ Z.of_nat COMMITMENT_TREE_DEPTH <=? index
  then eff_lift (Err (VerificationFailed "tree is full")) else
  _ ← eff_modify (set_node COMMITMENT_TREE_DEPTH index commitment);
  _ ← eff_modify (λ t, set_leaf_count (wrapping U64_MAX (ct_leaf_count t + 1)) t);
  _ ← eff_modify (update_path COMMITMENT_TREE_DEPTH index);
  mret index.

Fixpoint collect_siblings (d : nat) (current : Z) (t : CommitmentTree) : list Hash32 :=
  match d with
  | O => []
  | S depth =>
      (if current mod 2 =? 0 then node_hash t (S depth) (current + 1)
       else node_hash t (S depth) (current - 1))
      :: collect_siblings depth (current / 2) t
  end.
Definition prove (index : Z) : eff CommitmentTree ZkError CommitmentMerkleProof :=
  _ ← eff_modify ensure_empty_hashes;
  t ← eff_get;
  if ct_leaf_count t <=? index then eff_lift (Err CommitmentNotFound) else
  mret {| mp_commitment := node_hash t COMMITMENT_TREE_DEPTH index; mp_index := index;
          mp_siblings := collect_siblings COMMITMENT_TREE_DEPTH index t |}.

(** The verification loop over the siblings, from the leaf up. *)
Fixpoint climb (current : Hash32) (index : Z) (siblings : list Hash32) : Hash32 :=
  match siblings with
  | [] => current
  | sibling :: siblings =>
      climb (if index mod 2 =? 0 then tree_node_hash current sibling
             else tree_node_hash sibling current) (index / 2) siblings
  end.
Definition verify_commitment_proof (proof : CommitmentMerkleProof) (expected_root : Hash32) :
    bool :=
  if negb (Nat.eqb (length (mp_siblings proof)) COMMITMENT_TREE_DEPTH) then false
  else bool_decide
    (climb (mp_commitment proof) (mp_index proof) (mp_siblings proof) = expected_root).

(** ** The shielded pool *)
Definition new_pool : ShieldedPool :=
  {| sp_tree := new_tree; sp_nullifiers := ∅; sp_total_shielded_value := 0 |}.
Abbreviation shielded A := (eff ShieldedPool ZkError A).

(** An operation of the pool's tree. *)
Definition on_tree {A} (m : eff CommitmentTree ZkError A) : shielded A := λ p,
  let '(r, t) := m (sp_tree p) in
  (r, {| sp_tree := t; sp_nullifiers := sp_nullifiers p;
         sp_total_shielded_value := sp_total_shielded_value p |}).
Definition set_total (f : Z → Z) (p : ShieldedPool) : ShieldedPool :=
  {| sp_tree := sp_tree p; sp_nullifiers := sp_nullifiers p;
     sp_total_shielded_value := f (sp_total_shielded_value p) |}.
Definition spend_nullifier (n : Hash32) (p : ShieldedPool) : ShieldedPool :=
  {| sp_tree := sp_tree p; sp_nullifiers := {[ n ]} ∪ sp_nullifiers p;
     sp_total_shielded_value := sp_total_shielded_value p |}.

Definition shield (request : ShieldRequest) : shielded Z :=
  index ← on_tree (insert (sr_commitment request));
  _ ← eff_modify (set_total (λ v, saturating_add U128_MAX v (sr_value request)));
  mret index.

(** The checks shared by [transfer] and [unshield], on the current root. *)
Definition check_spend (nullifier merkle_root : Hash32) (proof : CommitmentMerkleProof) :
    shielded () :=
  p ← eff_get;
  if bool_decide (nullifier ∈ sp_nullifiers p) then eff_lift (Err NullifierAlreadySpent) else
  let current := (root (sp_tree p)).1 in
  if bool_decide (merkle_root ≠ current)
  then eff_lift (Err (VerificationFailed "merkle root mismatch")) else
  if negb (verify_commitment_proof proof current)
  then eff_lift (Err InvalidMerkleProof) else mret tt.

Definition transfer (proof : ShieldedTransferProof) : shielded Z :=
  _ ← check_spend (tp_nullifier proof) (tp_merkle_root proof) (tp_merkle_proof proof);
  _ ← eff_modify (spend_nullifier (tp_nullifier proof));
  on_tree (insert (tp_output_commitment proof)).

Definition unshield (request : UnshieldRequest) : shielded () :=
  _ ← check_spend (ur_nullifier request) (ur_merkle_root request) (ur_merkle_proof request);
  _ ← eff_modify (spend_nullifier (ur_nullifier request));
  eff_modify (set_total (λ v, saturating_sub v (ur_value request))).

Definition pool_root (p : ShieldedPool) : Hash32 := (root (sp_tree p)).1.
Definition commitment_count (p : ShieldedPool) : Z := ct_leaf_count (sp_tree p).
Definition nullifier_count (p : ShieldedPool) : nat := size (sp_nullifiers p).

(** ** The precompile *)

(** [&data[a..b]], for ranges inside the input. *)
Definition slice (data : list byte) (a b : nat) : list byte := take (b - a) (drop a data).
Definition read_hash32 (data : list byte) (offset : nat) : Hash32 :=
  if Nat.leb (offset + 32) (length data)
  then default zero (array_of 32 (slice data offset (offset + 32))) else zero.

Definition precompile_proof (input : list byte) : CommitmentMerkleProof := {|
  mp_commitment := read_hash32 input 120;
  mp_index := le_value (slice input 112 120);
  mp_siblings :=
    (λ i, read_hash32 input (152 + i * 32)) <$> seq 0 COMMITMENT_TREE_DEPTH |}.
Definition verify_precompile_inner (input : list byte) : bool :=
  let expected_len := (152 + 32 * COMMITMENT_TREE_DEPTH)%nat in
  if Nat.ltb (length input) expected_len then false else
  let nullifier := read_hash32 input 0 in
  let merkle_root := read_hash32 input 32 in
  let output_commitment := read_hash32 input 64 in
  if negb (verify_commitment_proof (precompile_proof input) merkle_root) then false else
  if bool_decide (output_commitment = zero) then false else
  bool_decide (nullifier ≠ zero).
Definition zk_verify_precompile (input : list byte) : list byte :=
  replicate 31 x00 ++ [if verify_precompile_inner input then x01 else x00].
End zk.
End Zk.

(** ** The reference tree *)
Section reference.
Context `{HashBackend}.

(** The hash of the subtree of a height at an index, over the whole list of leaves. *)
Fixpoint ideal (leaves : list Hash32) (height : nat) (index : Z) : Hash32 :=
  match height with
  | O => match leaves !! Z.to_nat index with
         | Some leaf => leaf
         | None => Zk.empty_hash 0
         end
  | S height => Zk.tree_node_hash (ideal leaves height (index * 2))
                                  (ideal leaves height (index * 2 + 1))
  end.

Definition tree_holds (leaves : list Hash32) (t : CommitmentTree) : Prop :=
  ct_leaf_count t = Z.of_nat (length leaves) ∧
  ct_empty_hashes t = Zk.compute_empty_hashes ∧
  ∀ depth index, (depth ≤ COMMITMENT_TREE_DEPTH)%nat → 0 ≤ index →
    Zk.node_hash t depth index = ideal leaves (COMMITMENT_TREE_DEPTH - depth) index.

Lemma ideal_nil height index : 0 ≤ index → ideal [] height index = Zk.empty_hash height.
Proof. revert index. induction height as [|h IH]; intros; simpl; [done|]. by rewrite !IH by lia. Qed.

(** A new leaf changes only the nodes above it. *)
Lemma ideal_snoc_other leaves c height index :
  0 ≤ index → index ≠ Z.of_nat (length leaves) / 2 ^ Z.of_nat height →
  ideal (leaves ++ [c]) height index = ideal leaves height index.
Proof.
  revert index. induction height as [|h IH]; intros index Hi Hne; cbn [ideal].
  - simpl in Hne. rewrite Z.div_1_r in Hne.
    destruct (decide (Z.to_nat index < length leaves)%nat) as [Hlt|Hge].
    + by rewrite lookup_app_l.
    + rewrite (lookup_ge_None_2 leaves) by lia. rewrite lookup_ge_None_2; [done|].
      rewrite length_app. simpl. lia.
  - rewrite Nat2Z.inj_succ, Z.pow_succ_r in Hne by lia.
    rewrite Z.mul_comm, <-Z.div_div in Hne by lia.
    rewrite !IH; [done|lia| |lia|]; intros E; apply Hne; rewrite <-E;
      clear; Z.to_euclidean_division_equations; lia.
Qed.

Lemma compute_empty_lookup depth :
  (depth ≤ COMMITMENT_TREE_DEPTH)%nat →
  Zk.compute_empty_hashes !! depth = Some (Zk.empty_hash (COMMITMENT_TREE_DEPTH - depth)).
Proof.
  intros Hd. unfold Zk.compute_empty_hashes. rewrite list_lookup_fmap.
  rewrite lookup_seq_lt by lia. done.
Qed.

Lemma new_tree_holds : tree_holds [] Zk.new_tree.
Proof.
  split; [done|]. split; [done|]. intros depth index Hd Hi. unfold Zk.node_hash.
  cbn [ct_nodes Zk.new_tree ct_empty_hashes]. rewrite lookup_empty, compute_empty_lookup by done.
  simpl. by rewrite ideal_nil.
Qed.

Lemma node_hash_set t d i h d' i' :
  Zk.node_hash (Zk.set_node d i h t) d' i' =
    if decide ((d, i) = (d', i')) then h else Zk.node_hash t d' i'.
Proof.
  unfold Zk.node_hash, Zk.set_node. simpl. case_decide as E.
  - rewrite <-E. by rewrite lookup_insert_eq.
  - by rewrite lookup_insert_ne.
Qed.

(** The path update, from a tree whose nodes are right at depth [d] and below, and
    right off the path above. *)
Lemma update_path_holds leaves c d t :
  let n := Z.of_nat (length leaves) in
  let at_depth k := n / 2 ^ Z.of_nat (COMMITMENT_TREE_DEPTH - k) in
  (d ≤ COMMITMENT_TREE_DEPTH)%nat →
  (∀ k i, (k ≤ COMMITMENT_TREE_DEPTH)%nat → 0 ≤ i → ((d ≤ k)%nat ∨ i ≠ at_depth k) →
    Zk.node_hash t k i = ideal (leaves ++ [c]) (COMMITMENT_TREE_DEPTH - k) i) →
  let t' := Zk.update_path d (at_depth d) t in
  ct_leaf_count t' = ct_leaf_count t ∧ ct_empty_hashes t' = ct_empty_hashes t ∧
  ∀ k i, (k ≤ COMMITMENT_TREE_DEPTH)%nat → 0 ≤ i →
    Zk.node_hash t' k i = ideal (leaves ++ [c]) (COMMITMENT_TREE_DEPTH - k) i.
Proof.
  cbv zeta. revert t. induction d as [|d IH]; intros t Hd Ht.
  { split_and!; [done..|]. intros k i Hk Hi. apply Ht; [done..|]. left. lia. }
  cbn [Zk.update_path].
  set (n := Z.of_nat (length leaves)) in *.
  assert (n / 2 ^ Z.of_nat (COMMITMENT_TREE_DEPTH - S d) / 2 =
    n / 2 ^ Z.of_nat (COMMITMENT_TREE_DEPTH - d)) as Hhalf.
  { rewrite Z.div_div by lia. rewrite Z.mul_comm, <-Z.pow_succ_r by lia.
    rewrite <-Nat2Z.inj_succ. do 3 f_equal. lia. }
  rewrite Hhalf. set (p := n / 2 ^ Z.of_nat (COMMITMENT_TREE_DEPTH - d)) in *.
  assert (0 ≤ p) as Hp by (apply Z.div_pos; lia).
  match goal with |- context [Zk.update_path d p ?t1] => destruct (IH t1) as (H1 & H2 & H3) end.
  - lia.
  - intros k i Hk Hi Hcase. rewrite node_hash_set. case_decide as E.
    + injection E as <- <-.
      replace (COMMITMENT_TREE_DEPTH - d)%nat with (S (COMMITMENT_TREE_DEPTH - S d)) by lia.
      cbn [ideal]. by rewrite !Ht by (first [lia | left; lia]).
    + apply Ht; [done..|]. destruct Hcase as [Hdk|?]; [|by right].
      destruct (decide (d = k)) as [->|]; [|left; lia]. right. fold p. congruence.
  - split_and!; [exact H1 | exact H2 | exact H3].
Qed.

(** Insertion appends a leaf. *)
Lemma insert_holds leaves t c :
  tree_holds leaves t → Z.of_nat (length leaves) < 2 ^ Z.of_nat COMMITMENT_TREE_DEPTH →
  ∃ t', Zk.insert c t = (Ok (Z.of_nat (length leaves)), t') ∧ tree_holds (leaves ++ [c]) t'.
Proof.
  intros (Hn & He & Ht) Hlt. unfold Zk.insert, mbind, eff_bind, eff_modify, eff_get.
  assert (Zk.ensure_empty_hashes t = t) as -> by (unfold Zk.ensure_empty_hashes; by rewrite He).
  rewrite Hn, (proj2 (Z.leb_gt _ _)) by done. eexists. split; [done|].
  set (t1 := Zk.set_leaf_count _ _).
  destruct (update_path_holds leaves c COMMITMENT_TREE_DEPTH t1) as (H1 & H2 & H3).
  - done.
  - intros k i Hk Hi Hcase.
    transitivity (Zk.node_hash (Zk.set_node COMMITMENT_TREE_DEPTH
      (Z.of_nat (length leaves)) c t) k i); [done|].
    rewrite node_hash_set. case_decide as E.
    + injection E as <- <-. rewrite Nat.sub_diag. cbn [ideal].
      by rewrite Nat2Z.id, lookup_app_r, Nat.sub_diag by done.
    + rewrite Ht by done. symmetry. apply ideal_snoc_other; [done|].
      destruct Hcase as [Hk'|?]; [|done].
      assert (k = COMMITMENT_TREE_DEPTH) as -> by lia. rewrite Nat.sub_diag.
      rewrite Z.pow_0_r, Z.div_1_r. congruence.
  - rewrite Nat.sub_diag, Z.pow_0_r, Z.div_1_r in H1, H2, H3. split; [|split].
    + rewrite H1. unfold t1. simpl. rewrite Hn, length_app. simpl.
      rewrite wrapping_small; [lia|]. unfold in_range, COMMITMENT_TREE_DEPTH in *. lia.
    + rewrite H2. done.
    + exact H3.
Qed.
End reference.

(** ** Proofs *)
Section proofs.
Context `{HashBackend}.

Lemma half_index index : 0 ≤ index →
  (if index mod 2 =? 0 then index = index / 2 * 2 else index = index / 2 * 2 + 1).
Proof. intros. case_match eqn:E; to_prop; Z.to_euclidean_division_equations; lia. Qed.

Lemma tree_climb_collect leaves t d index :
  tree_holds leaves t → (d ≤ COMMITMENT_TREE_DEPTH)%nat → 0 ≤ index →
  Zk.climb (ideal leaves (COMMITMENT_TREE_DEPTH - d) index) index
    (Zk.collect_siblings d index t) =
  ideal leaves COMMITMENT_TREE_DEPTH (index / 2 ^ Z.of_nat d).
Proof.
  intros Ht. revert index. induction d as [|d IH]; intros index Hd Hi.
  { cbn [Zk.collect_siblings Zk.climb]. by rewrite Z.div_1_r, Nat.sub_0_r. }
  rewrite Nat2Z.inj_succ, Z.pow_succ_r, <-Z.div_div by lia.
  rewrite <-(IH (index / 2)) by (try lia; apply Z.div_pos; lia).
  cbn [Zk.collect_siblings Zk.climb].
  replace (COMMITMENT_TREE_DEPTH - d)%nat with (S (COMMITMENT_TREE_DEPTH - S d)) by lia.
  cbn [ideal]. f_equal. pose proof (half_index index Hi) as Hh.
  destruct Ht as (_ & _ & Ht). case_match; rewrite Ht by lia; f_equal; f_equal; lia.
Qed.

Lemma length_collect_siblings d index t : length (Zk.collect_siblings d index t) = d.
Proof. revert index. induction d; intros; simpl; auto. Qed.

(** Every byte string hashed while a proof is verified. *)
Definition step_bytes (current : Hash32) (index : Z) (sibling : Hash32) : list byte :=
  if index mod 2 =? 0 then Zk.tree_node_bytes current sibling
  else Zk.tree_node_bytes sibling current.
Fixpoint climb_preimages (current : Hash32) (index : Z) (siblings : list Hash32) :
    list (list byte) :=
  match siblings with
  | [] => []
  | sibling :: siblings =>
      step_bytes current index sibling ::
      climb_preimages (hash_bytes (step_bytes current index sibling)) (index / 2) siblings
  end.

Lemma climb_cons current index sibling siblings :
  Zk.climb current index (sibling :: siblings) =
  Zk.climb (hash_bytes (step_bytes current index sibling)) (index / 2) siblings.
Proof. unfold step_bytes. cbn [Zk.climb]. by destruct (index mod 2 =? 0). Qed.
Lemma step_bytes_inj c1 c2 i1 i2 s1 s2 :
  i1 mod 2 = i2 mod 2 → step_bytes c1 i1 s1 = step_bytes c2 i2 s2 → c1 = c2.
Proof.
  unfold step_bytes, Zk.tree_node_bytes. intros ->. case_match; intros E%app_inv_head;
    apply array_app_inj in E as [E1 E2]; [done | by apply array_eq].
Qed.

Lemma tree_climb_binding c1 c2 i1 i2 s1 s2 :
  length s1 = length s2 →
  i1 mod 2 ^ Z.of_nat (length s1) = i2 mod 2 ^ Z.of_nat (length s1) →
  Zk.climb c1 i1 s1 = Zk.climb c2 i2 s2 →
  c1 = c2 ∨ collision (climb_preimages c1 i1 s1) (climb_preimages c2 i2 s2).
Proof.
  revert c1 c2 i1 i2 s2. induction s1 as [|a s1 IH]; intros c1 c2 i1 i2 [|b s2] Hl Hm E;
    try discriminate; [by left|].
  rewrite !climb_cons in E. cbn [length climb_preimages] in *.
  rewrite Nat2Z.inj_succ, Z.pow_succ_r in Hm by lia.
  assert (0 < 2 ^ Z.of_nat (length s1)) as Hp by lia.
  set (m := 2 ^ Z.of_nat (length s1)) in *.
  assert (i1 mod 2 = i2 mod 2 ∧ i1 / 2 mod m = i2 / 2 mod m) as [Hbit Hhalf].
  { rewrite !(Z.rem_mul_r _ 2 m) in Hm by lia.
    pose proof (Z.mod_pos_bound i1 2). pose proof (Z.mod_pos_bound i2 2). lia. }
  destruct (IH _ _ _ _ s2 ltac:(lia) Hhalf E) as [Heq|Hc].
  - destruct (decide (step_bytes c1 i1 a = step_bytes c2 i2 b)) as [Hb|Hne].
    + left. by eapply step_bytes_inj.
    + right. eexists _, _. split_and!; [left|left|exact Hne|exact Heq].
  - right. eapply collision_mono; [..|exact Hc]; intros ??; by right.
Qed.

(** Insertion of a list of commitments, in order. *)
Fixpoint insert_all (cs : list Hash32) : eff CommitmentTree ZkError () :=
  match cs with
  | [] => mret tt
  | c :: cs => _ ← Zk.insert c; insert_all cs
  end.
Lemma insert_all_holds leaves cs t :
  tree_holds leaves t →
  Z.of_nat (length leaves + length cs) ≤ 2 ^ Z.of_nat COMMITMENT_TREE_DEPTH →
  ∃ t', insert_all cs t = (Ok tt, t') ∧ tree_holds (leaves ++ cs) t'.
Proof.
  revert leaves t. induction cs as [|c cs IH]; intros leaves t Ht Hlen.
  { exists t. by rewrite app_nil_r. }
  cbn [length] in Hlen. destruct (insert_holds leaves t c Ht ltac:(lia)) as (t1 & Hins & Ht1).
  destruct (IH (leaves ++ [c]) t1 Ht1) as (t2 & Hrun & Ht2).
  { rewrite length_app. simpl. lia. }
  exists t2. cbn [insert_all]. rewrite (eff_bind_ok _ _ _ _ _ Hins).
  split; [done|]. by rewrite <-app_assoc in Ht2.
Qed.
End proofs.

(** *** The pool *)
Section pool.
Context `{HashBackend}.

Inductive pool_op :=
  | OpShield (r : ShieldRequest)
  | OpTransfer (p : ShieldedTransferProof)
  | OpUnshield (r : UnshieldRequest).
Definition run_op (op : pool_op) (p : ShieldedPool) : ShieldedPool :=
  match op with
  | OpShield r => (Zk.shield r p).2
  | OpTransfer t => (Zk.transfer t p).2
  | OpUnshield r => (Zk.unshield r p).2
  end.

Lemma on_tree_nullifiers {A} (m : eff CommitmentTree ZkError A) p :
  sp_nullifiers (Zk.on_tree m p).2 = sp_nullifiers p.
Proof. unfold Zk.on_tree. by destruct (m (sp_tree p)). Qed.
Lemma check_spend_state n root proof p : (Zk.check_spend n root proof p).2 = p.
Proof.
  unfold Zk.check_spend, mbind, eff_bind, eff_get, eff_lift. by repeat case_match.
Qed.

Lemma run_op_nullifiers op p : sp_nullifiers p ⊆ sp_nullifiers (run_op op p).
Proof.
  destruct op as [r|t|r]; simpl.
  - unfold Zk.shield, mbind, eff_bind. pose proof (on_tree_nullifiers
      (Zk.insert (sr_commitment r)) p) as Hn.
    destruct (Zk.on_tree _ p) as [[i|e|] p1]; simpl in *; by rewrite Hn.
  - unfold Zk.transfer, mbind, eff_bind.
    pose proof (check_spend_state (tp_nullifier t) (tp_merkle_root t) (tp_merkle_proof t) p) as Hc.
    destruct (Zk.check_spend _ _ _ p) as [[u|e|] p1]; simpl in *; subst; try done.
    rewrite on_tree_nullifiers. simpl. apply union_subseteq_r.
  - unfold Zk.unshield, mbind, eff_bind.
    pose proof (check_spend_state (ur_nullifier r) (ur_merkle_root r) (ur_merkle_proof r) p) as Hc.
    destruct (Zk.check_spend _ _ _ p) as [[u|e|] p1]; simpl in *; subst; try done.
    apply union_subseteq_r.
Qed.
Lemma run_ops_nullifiers ops p :
  sp_nullifiers p ⊆ sp_nullifiers (foldl (λ p op, run_op op p) p ops).
Proof.
  revert p. induction ops as [|op ops IH]; intros p; simpl; [done|].
  etrans; [apply (run_op_nullifiers op)|apply IH].
Qed.
Lemma check_spent n root proof p :
  n ∈ sp_nullifiers p → Zk.check_spend n root proof p = (Err NullifierAlreadySpent, p).
Proof.
  intros Hn. unfold Zk.check_spend, mbind, eff_bind, eff_get.
  by rewrite bool_decide_true.
Qed.
Lemma check_spend_ok n root proof p :
  Zk.check_spend n root proof p = (Ok tt, p) ↔
  (n ∉ sp_nullifiers p) ∧ root = Zk.pool_root p ∧
  Zk.verify_commitment_proof proof (Zk.pool_root p) = true.
Proof.
  unfold Zk.check_spend, mbind, eff_bind, eff_get, eff_lift, Zk.pool_root.
  case_bool_decide as E1; [split; [done | by intros [? _]]|].
  case_bool_decide as E2; [split; [done | by intros (_ & ? & _)]|].
  destruct (Zk.verify_commitment_proof _ _); simpl; [done|].
  split; [done | by intros (_ & _ & ?)].
Qed.
(** A successful spend with a nullifier. *)
Definition spends (op : pool_op) (n : Hash32) (p : ShieldedPool) : Prop :=
  match op with
  | OpShield _ => False
  | OpTransfer t => tp_nullifier t = n ∧ is_ok (Zk.transfer t p).1 = true
  | OpUnshield r => ur_nullifier r = n ∧ is_ok (Zk.unshield r p).1 = true
  end.
Lemma spends_nullifier op n p : spends op n p → n ∈ sp_nullifiers (run_op op p).
Proof.
  destruct op as [r|t|r]; simpl; [done| |]; intros [<- Hok].
  - unfold Zk.transfer, mbind, eff_bind in *.
    pose proof (check_spend_state (tp_nullifier t) (tp_merkle_root t) (tp_merkle_proof t) p) as Hc.
    destruct (Zk.check_spend _ _ _ p) as [[u|e|] p1]; simpl in *; try done.
    rewrite on_tree_nullifiers. simpl. apply elem_of_union_l. by apply elem_of_singleton.
  - unfold Zk.unshield, mbind, eff_bind in *.
    pose proof (check_spend_state (ur_nullifier r) (ur_merkle_root r) (ur_merkle_proof r) p) as Hc.
    destruct (Zk.check_spend _ _ _ p) as [[u|e|] p1]; simpl in *; try done.
    apply elem_of_union_l. by apply elem_of_singleton.
Qed.
End pool.

(** ** Properties *)

(** C38: after any sequence of insertions (up to the tree's capacity) the incremental
    tree holds the reference Merkle tree over the inserted leaves: its root is the
    reference root, and the proof of every leaf is for that leaf and verifies. *)
Theorem commitment_tree_correct `{HashBackend} (leaves : list Hash32) :
  Z.of_nat (length leaves) ≤ 2 ^ Z.of_nat COMMITMENT_TREE_DEPTH →
  ∃ t, insert_all leaves Zk.new_tree = (Ok tt, t) ∧
    (Zk.root t).1 = ideal leaves COMMITMENT_TREE_DEPTH 0 ∧
    ∀ i leaf, leaves !! i = Some leaf →
      ∃ p, Zk.prove (Z.of_nat i) t = (Ok p, t) ∧ mp_commitment p = leaf ∧
        Zk.verify_commitment_proof p (Zk.root t).1 = true.
Proof.
  intros Hlen. destruct (insert_all_holds [] leaves Zk.new_tree new_tree_holds Hlen)
    as (t & Hrun & Ht). simpl in Ht. exists t. split; [done|].
  pose proof Ht as (Hn & He & Hnodes).
  assert (Zk.ensure_empty_hashes t = t) as Hens by (unfold Zk.ensure_empty_hashes; by rewrite He).
  assert ((Zk.root t).1 = ideal leaves COMMITMENT_TREE_DEPTH 0) as Hroot.
  { unfold Zk.root. cbv zeta. cbn [fst]. rewrite Hens. by rewrite Hnodes by lia. }
  split; [done|]. intros i leaf Hi. pose proof (lookup_lt_Some _ _ _ Hi) as Hlt.
  unfold Zk.prove, mbind, eff_bind, eff_modify, eff_get. rewrite Hens, Hn.
  rewrite (proj2 (Z.leb_gt _ _)) by lia. eexists. split; [done|].
  assert (Zk.node_hash t COMMITMENT_TREE_DEPTH (Z.of_nat i) = leaf) as Hleaf.
  { rewrite Hnodes by lia. rewrite Nat.sub_diag. cbn [ideal]. by rewrite Nat2Z.id, Hi. }
  split; [done|]. unfold Zk.verify_commitment_proof. cbn [mp_siblings mp_commitment mp_index].
  rewrite length_collect_siblings, Nat.eqb_refl. apply bool_decide_eq_true_2.
  pose proof (tree_climb_collect leaves t COMMITMENT_TREE_DEPTH (Z.of_nat i) Ht ltac:(lia) ltac:(lia))
    as Hc.
  rewrite <-Hnodes in Hc by lia. etrans; [exact Hc|]. rewrite Hroot. f_equal.
  apply Z.div_small. lia.
Qed.

(** Two proofs at the same leaf (indexes equal modulo 2^32) that verify against
    one root are for the same commitment, unless their verifications hash two different
    byte strings to one digest. *)
Lemma commitment_proof_binding `{HashBackend} (p q : CommitmentMerkleProof) (root : Hash32) :
  Zk.verify_commitment_proof p root = true → Zk.verify_commitment_proof q root = true →
  mp_index p mod 2 ^ 32 = mp_index q mod 2 ^ 32 →
  mp_commitment p = mp_commitment q ∨
  collision (climb_preimages (mp_commitment p) (mp_index p) (mp_siblings p))
            (climb_preimages (mp_commitment q) (mp_index q) (mp_siblings q)).
Proof.
  unfold Zk.verify_commitment_proof. intros Hp Hq Hi.
  destruct (Nat.eqb_spec (length (mp_siblings p)) COMMITMENT_TREE_DEPTH) as [Lp|]; [|done].
  destruct (Nat.eqb_spec (length (mp_siblings q)) COMMITMENT_TREE_DEPTH) as [Lq|]; [|done].
  cbn [negb] in *. to_prop. apply tree_climb_binding; [congruence| |congruence].
  by rewrite Lp.
Qed.

(** A nullifier is spent at most once: after a transfer or an unshielding that used
    it, and whatever happens to the pool afterwards, every spend with it fails with
    [NullifierAlreadySpent] and changes nothing. *)
Lemma nullifier_single_use `{HashBackend} (p : ShieldedPool) (op : pool_op)
    (ops : list pool_op) (n : Hash32) :
  spends op n p →
  let p' := foldl (λ p op, run_op op p) (run_op op p) ops in
  (∀ t, tp_nullifier t = n → Zk.transfer t p' = (Err NullifierAlreadySpent, p')) ∧
  (∀ r, ur_nullifier r = n → Zk.unshield r p' = (Err NullifierAlreadySpent, p')).
Proof.
  intros Hs%spends_nullifier p'.
  assert (n ∈ sp_nullifiers p') as Hin by (by apply run_ops_nullifiers).
  split; [intros t Hn|intros r Hn]; subst n; unfold Zk.transfer, Zk.unshield, mbind, eff_bind;
    by rewrite check_spent.
Qed.

(** Nothing ties the nullifier or the value of a withdrawal to the commitment it
    proves: one verifying proof lets anyone withdraw any value under any nullifier not
    seen before, again and again. *)
Lemma unshield_not_bound `{HashBackend} (p : ShieldedPool) (proof : CommitmentMerkleProof)
    (n1 n2 : Hash32) (v1 v2 : Z) (who : Address) :
  Zk.verify_commitment_proof proof (Zk.pool_root p) = true →
  n1 ∉ sp_nullifiers p → n2 ∉ sp_nullifiers p → n1 ≠ n2 →
  let request n v := {| ur_nullifier := n; ur_merkle_proof := proof;
    ur_merkle_root := Zk.pool_root p; ur_value := v; ur_recipient := who |} in
  ∃ p1 p2, Zk.unshield (request n1 v1) p = (Ok tt, p1) ∧
           Zk.unshield (request n2 v2) p1 = (Ok tt, p2).
Proof.
  intros Hv H1 H2 Hne request. unfold Zk.unshield.
  assert (∀ q n v, n ∉ sp_nullifiers q → sp_tree q = sp_tree p →
    Zk.check_spend (ur_nullifier (request n v)) (ur_merkle_root (request n v))
      (ur_merkle_proof (request n v)) q = (Ok tt, q)) as Hcheck.
  { intros q n v Hn Ht. apply check_spend_ok. unfold Zk.pool_root in *. by rewrite Ht. }
  unfold mbind, eff_bind, eff_modify. rewrite Hcheck by done. eexists _, _. split; [done|].
  rewrite Hcheck; [done| |done].
  simpl. intros [?%elem_of_singleton|?]%elem_of_union; congruence.
Qed.

(** ** Calldata *)
Lemma slice_middle (pre mid post : list byte) a b :
  length pre = a → length mid = (b - a)%nat → Zk.slice (pre ++ mid ++ post) a b = mid.
Proof. intros <- Hm. unfold Zk.slice. by rewrite <-Hm, drop_app_length, take_app_length. Qed.
Lemma read_hash32_middle (pre post : list byte) (h : Hash32) offset :
  length pre = offset → Zk.read_hash32 (pre ++ array_bytes h ++ post) offset = h.
Proof.
  intros Hl. unfold Zk.read_hash32. rewrite !length_app, array_length.
  rewrite (proj2 (Nat.leb_le _ _)) by lia.
  rewrite slice_middle by (try rewrite array_length; lia). by rewrite array_of_bytes.
Qed.
Lemma length_mjoin_arrays (l : list Hash32) :
  length (mjoin (array_bytes <$> l)) = (length l * 32)%nat.
Proof.
  induction l as [|h l IH]; [done|].
  change (mjoin (array_bytes <$> h :: l)) with (array_bytes h ++ mjoin (array_bytes <$> l)).
  rewrite length_app, array_length, IH. simpl. lia.
Qed.
Lemma read_siblings (pre post : list byte) (l : list Hash32) offset :
  length pre = offset →
  (λ i, Zk.read_hash32 (pre ++ mjoin (array_bytes <$> l) ++ post) (offset + i * 32))
    <$> seq 0 (length l) = l.
Proof.
  revert pre offset. induction l as [|h l IH]; intros pre offset Hl; [done|].
  change (mjoin (array_bytes <$> h :: l)) with (array_bytes h ++ mjoin (array_bytes <$> l)).
  cbn [length seq]. rewrite fmap_cons, <-app_assoc. f_equal.
  - by rewrite Nat.mul_0_l, Nat.add_0_r, read_hash32_middle.
  - rewrite <-fmap_S_seq, <-list_fmap_compose.
    rewrite <-(IH (pre ++ array_bytes h) (offset + 32)%nat) at 2
      by (rewrite length_app, array_length; lia).
    apply list_fmap_ext. intros _ i _. cbn. rewrite <-app_assoc. f_equal. lia.
Qed.

(** The precompile answers one exactly when the Merkle proof in the calldata (the
    leaf's index and commitment first, then the siblings) verifies against the given
    root and neither the output commitment nor the nullifier is zero. *)
Lemma zk_precompile_exact `{HashBackend} (nullifier root output commitment : Hash32)
    (value index : list byte) (siblings : list Hash32) (rest : list byte) :
  length value = 16%nat → length index = 8%nat →
  length siblings = COMMITMENT_TREE_DEPTH →
  let input := array_bytes nullifier ++ array_bytes root ++ array_bytes output ++ value
    ++ index ++ array_bytes commitment ++ mjoin (array_bytes <$> siblings) ++ rest in
  Zk.zk_verify_precompile input = replicate 31 x00 ++
    [if Zk.verify_commitment_proof {| mp_commitment := commitment;
          mp_index := le_value index; mp_siblings := siblings |} root
        && bool_decide (output ≠ zero) && bool_decide (nullifier ≠ zero)
     then x01 else x00].
Proof.
  intros Hv Hi Hs input. unfold Zk.zk_verify_precompile. do 3 f_equal.
  assert (Zk.read_hash32 input 0 = nullifier) as Rn
    by (by apply (read_hash32_middle [])).
  assert (Zk.read_hash32 input 32 = root) as Rr
    by (by apply (read_hash32_middle (array_bytes nullifier)); rewrite array_length).
  assert (Zk.read_hash32 input 64 = output) as Ro.
  { unfold input. rewrite (app_assoc (array_bytes nullifier)).
    apply read_hash32_middle. by rewrite length_app, !array_length. }
  set (pre := array_bytes nullifier ++ array_bytes root ++ array_bytes output ++ value).
  assert (input = (pre ++ index) ++ array_bytes commitment ++
    mjoin (array_bytes <$> siblings) ++ rest) as Ei
    by (unfold input, pre; by rewrite <-!app_assoc).
  assert (length pre = 112%nat) as Lp
    by (unfold pre; rewrite !length_app, !array_length; lia).
  unfold Zk.verify_precompile_inner.
  assert (Zk.precompile_proof input = {| mp_commitment := commitment;
    mp_index := le_value index; mp_siblings := siblings |}) as ->.
  { unfold Zk.precompile_proof. f_equal.
    - rewrite Ei. apply read_hash32_middle. rewrite length_app. lia.
    - f_equal. rewrite Ei, <-app_assoc. apply slice_middle; lia.
    - rewrite Ei, app_assoc, <-Hs. apply read_siblings.
      rewrite !length_app, array_length. lia. }
  rewrite Rn, Rr, Ro.
  assert (length input = (152 + 32 * COMMITMENT_TREE_DEPTH + length rest)%nat) as Ll.
  { rewrite Ei, !length_app, array_length, length_mjoin_arrays. lia. }
  rewrite (proj2 (Nat.ltb_ge _ _)) by lia.
  destruct (Zk.verify_commitment_proof _ root); cbn [negb andb]; [|done].
  rewrite !bool_decide_not. by destruct (bool_decide (output = zero)).
Qed.

(** ** Examples *)
Module ZkExamples.
#[export] Existing Instance ToyHash.backend.
Definition c1 : Hash32 := array_repeat 32 x01.
Definition c2 : Hash32 := array_repeat 32 x02.
Definition tree : CommitmentTree := (insert_all [c1; c2] Zk.new_tree).2.
Definition pool : ShieldedPool :=
  {| sp_tree := tree; sp_nullifiers := ∅; sp_total_shielded_value := 10 |}.
Definition proof1 : CommitmentMerkleProof :=
  match (Zk.prove 1 tree).1 with
  | Ok p => p
  | _ => {| mp_commitment := zero; mp_index := 0; mp_siblings := [] |}
  end.
Definition spend : ShieldedTransferProof := {| tp_nullifier := c1;
  tp_merkle_root := Zk.pool_root pool; tp_merkle_proof := proof1;
  tp_output_commitment := c1; tp_value := 1 |}.
End ZkExamples.
Import ZkExamples.

Lemma commitment_tree_correct_witness :
  ∃ t, insert_all [c1; c2] Zk.new_tree = (Ok tt, t) ∧
    (Zk.root t).1 = ideal [c1; c2] COMMITMENT_TREE_DEPTH 0.
Proof.
  destruct (commitment_tree_correct [c1; c2]) as (t & Hrun & Hroot & _);
    [vm_compute; discriminate|].
  exists t. exact (conj Hrun Hroot).
Defined.
Lemma commitment_proof_binding_witness :
  mp_commitment proof1 = mp_commitment proof1 ∨
  collision (climb_preimages (mp_commitment proof1) (mp_index proof1) (mp_siblings proof1))
    (climb_preimages (mp_commitment proof1) (mp_index proof1) (mp_siblings proof1)).
Proof.
  apply (commitment_proof_binding proof1 proof1 (Zk.root tree).1);
    [vm_compute; reflexivity..|reflexivity].
Defined.
Lemma nullifier_single_use_witness :
  let p' := foldl (λ p op, run_op op p) (run_op (OpTransfer spend) pool)
              [OpShield {| sr_value := 3; sr_commitment := c2 |}] in
  Zk.transfer spend p' = (Err NullifierAlreadySpent, p').
Proof.
  assert (spends (OpTransfer spend) c1 pool) as Hs
    by (split; [exact eq_refl | vm_compute; reflexivity]).
  exact (proj1 (nullifier_single_use pool (OpTransfer spend)
    [OpShield {| sr_value := 3; sr_commitment := c2 |}] c1 Hs) spend eq_refl).
Defined.
Lemma unshield_not_bound_witness :
  Zk.verify_commitment_proof proof1 (Zk.pool_root pool) = true ∧
  ∃ p1, Zk.unshield {| ur_nullifier := c1; ur_merkle_proof := proof1;
    ur_merkle_root := Zk.pool_root pool; ur_value := 1000000; ur_recipient := Toy.bob |} pool
    = (Ok tt, p1).
Proof.
  assert (Zk.verify_commitment_proof proof1 (Zk.pool_root pool) = true) as Hv
    by (vm_compute; reflexivity).
  split; [exact Hv|].
  destruct (unshield_not_bound pool proof1 c1 c2 1000000 1000000 Toy.bob Hv)
    as (p1 & p2 & H1 & _);
    [apply not_elem_of_empty | apply not_elem_of_empty | done | by exists p1].
Defined.
Lemma zk_precompile_exact_witness :
  Zk.zk_verify_precompile (array_bytes c1 ++ array_bytes (Zk.pool_root pool) ++ array_bytes c2
    ++ le_bytes 16 5 ++ le_bytes 8 1 ++ array_bytes c2
    ++ mjoin (array_bytes <$> mp_siblings proof1) ++ []) = replicate 31 x00 ++ [x01].
Proof.
  rewrite (zk_precompile_exact c1 (Zk.pool_root pool) c2 c2 (le_bytes 16 5) (le_bytes 8 1)
    (mp_siblings proof1) []); vm_compute; reflexivity.
Defined.
