(* ===== verification/Evm.v ===== *)
(** [crates/zeno-evm/src/lib.rs]: the executor around the [revm] interpreter, the
    chain's own precompiles, and the ABI decoding of the signature precompile.  The
    interpreter and its in-memory database are the class [RevmBackend]. *)

From S2P Require Import Prelude Types Codec Hash Crypto Wire Storage Zk Toy.

(** Twenty bytes that end in the given two. *)
Definition reserved (hi lo : byte) : EvmAddress :=
  array_pad 20 (replicate 18 x00 ++ [hi; lo]).
Definition ML_DSA_VERIFY_PRECOMPILE : EvmAddress := reserved x10 x01.
Definition SHA256_PRECOMPILE : EvmAddress := reserved x00 x02.
Definition RIPEMD160_PRECOMPILE : EvmAddress := reserved x00 x03.
Definition IDENTITY_PRECOMPILE : EvmAddress := reserved x00 x04.
Definition BLAKE3_PRECOMPILE : EvmAddress := reserved x10 x02.
Definition ZK_VERIFY_PRECOMPILE : EvmAddress := reserved x10 x03.

Inductive EvmError := ContractNotFound | EvmExecution (msg : string).

(** ** The interpreter *)

(** [AccountInfo]; [U256] values are integers. *)
Record AccountInfo := {
  ai_balance : Z;
  ai_nonce : Z;
  ai_code_hash : Hash32;
  ai_code : list byte
}.
(** The transaction environment the code fills in. *)
Inductive TxKind := TxCreate | TxCall (to : EvmAddress).
Record TxEnv := {
  te_caller : EvmAddress;
  te_gas_limit : Z;
  te_gas_price : Z;
  te_value : Z;
  te_transact_to : TxKind;
  te_data : list byte
}.
Inductive Output := OutputCall (bytes : list byte)
  | OutputCreate (bytes : list byte) (address : option EvmAddress).
(** A log: its address, topics and data. *)
Record RevmLog := { lg_address : EvmAddress; lg_topics : list Hash32; lg_data : list byte }.
(** [Success], or another result, of which only the [Debug] text is used. *)
Inductive ExecutionResult :=
  | ResultSuccess (gas_used : Z) (output : Output) (logs : list RevmLog)
  | ResultOther (debug : string).
(** One account of the database after a run: its info and the storage it touched. *)
Record DbAccount := { da_info : AccountInfo; da_storage : list (Z * Z) }.

Class RevmBackend := {
  InMemoryDB : Type;
  db_default : InMemoryDB;
  hash_slow : list byte → Hash32;
  insert_account_info : EvmAddress → AccountInfo → InMemoryDB → InMemoryDB;
  insert_account_storage : EvmAddress → Z → Z → InMemoryDB → res string InMemoryDB;
  basic : EvmAddress → InMemoryDB → res string (option AccountInfo * InMemoryDB);
  transact_commit (chain_id : Z) : TxEnv → InMemoryDB → res string (ExecutionResult * InMemoryDB);
  transact (chain_id : Z) : TxEnv → InMemoryDB → res string ExecutionResult;
  db_accounts : InMemoryDB → list (EvmAddress * DbAccount);
  db_contract : InMemoryDB → Hash32 → option (list byte)
}.

Record EvmExecutor := { ex_evm_chain_id : Z }.

(** ** ABI decoding *)
Module Abi.
(** [slice.get(a..b)]. *)
Definition get (data : list byte) (a b : Z) : option (list byte) :=
  if (a <=? b) && (b <=? Z.of_nat (length data))
  then Some (Zk.slice data (Z.to_nat a) (Z.to_nat b)) else None.

Definition padded_bool (value : bool) : list byte :=
  replicate 31 x00 ++ [if value then x01 else x00].

Definition read_u256_word (word : list byte) : res AnyError Z :=
  bytes ← ok_or (Anyhow "short abi word") (get word 24 32);
  Ok (be_value bytes).

(** [usize] additions wrap in the release profile. *)
Definition read_dynamic_bytes (input : list byte) (offset : Z) : res AnyError (list byte) :=
  len_word ← ok_or (Anyhow "missing length word")
    (get input offset (wrapping U64_MAX (offset + 32)));
  len ← read_u256_word len_word;
  let start := wrapping U64_MAX (offset + 32) in
  let stop := wrapping U64_MAX (start + len) in
  ok_or (Anyhow "missing bytes") (get input start stop).

Definition decode_abi_bytes3 (input : list byte) :
    res AnyError (list byte * list byte * list byte) :=
  if Nat.ltb (length input) 96 then Err (Anyhow "short abi input") else
  first ← read_u256_word (Zk.slice input 0 32);
  second ← read_u256_word (Zk.slice input 32 64);
  third ← read_u256_word (Zk.slice input 64 96);
  a ← read_dynamic_bytes input first;
  b ← read_dynamic_bytes input second;
  c ← read_dynamic_bytes input third;
  Ok (a, b, c).
End Abi.

Module Evm.
Section evm.
Context `{HashBackend, HexEncode, ChainCodec, RevmBackend} (default_scheme : SignatureScheme).

Definition pq_verify_precompile (input : list byte) : list byte :=
  match ('(public_key, message, signature) ← Abi.decode_abi_bytes3 input;
         map_err CryptoErr (verify DomTransaction message public_key signature)) with
  | Ok _ => Abi.padded_bool true
  | _ => Abi.padded_bool false
  end.
(** The address says SHA-256; the digest is SHA3-256. *)
Definition sha2_hash (data : list byte) : Hash32 := sha3_256 data.

Definition precompile_result (output : list byte) (gas_used : Z) : EvmCallResult :=
  {| ecr_contract_address := None; ecr_output := output; ecr_gas_used := gas_used;
     ecr_logs := [] |}.
(** The chain's own precompiles, checked before the interpreter runs. *)
Definition precompile (contract : EvmAddress) (input : list byte) : option EvmCallResult :=
  let words := Z.of_nat (length input) / 32 in
  if bool_decide (contract = ML_DSA_VERIFY_PRECOMPILE)
    then Some (precompile_result (pq_verify_precompile input) 5000) else
  if bool_decide (contract = SHA256_PRECOMPILE)
    then Some (precompile_result (array_bytes (sha2_hash input))
      (wrapping U64_MAX (60 + words * 12))) else
  if bool_decide (contract = IDENTITY_PRECOMPILE)
    then Some (precompile_result input (wrapping U64_MAX (15 + words * 3))) else
  if bool_decide (contract = BLAKE3_PRECOMPILE)
    then Some (precompile_result (array_bytes (hash_bytes input))
      (wrapping U64_MAX (50 + words * 6))) else
  if bool_decide (contract = ZK_VERIFY_PRECOMPILE)
    then Some (precompile_result (Zk.zk_verify_precompile input) 100000) else
  None.

(** [load_db]: the accounts in address order, each with its storage in slot order. *)
Definition load_account (db : res EvmError InMemoryDB)
    (e : EvmAddress * EvmAccountState) : res EvmError InMemoryDB :=
  let '(address, account) := e in
  db ← db;
  let bytecode := ea_code account in
  let db := insert_account_info address {|
    ai_balance := ea_balance account; ai_nonce := ea_nonce account;
    ai_code_hash := hash_slow bytecode; ai_code := bytecode |} db in
  foldl (λ db '(slot, value),
      db ← db;
      map_err EvmExecution (insert_account_storage address
        (be_value (array_bytes slot)) (be_value (array_bytes value)) db))
    (Ok db) (entries (ea_storage account)).
Definition load_db (s : MemoryInner) : res EvmError InMemoryDB :=
  foldl load_account (Ok db_default) (entries (Store.evm_accounts s)).

Definition word32 (z : Z) : Hash32 := array_pad 32 (be_bytes 32 z).
Definition account_state (db : InMemoryDB) (account : DbAccount) : EvmAccountState := {|
  ea_nonce := ai_nonce (da_info account);
  ea_balance := ai_balance (da_info account);
  ea_code := default [] (db_contract db (ai_code_hash (da_info account)));
  ea_storage := foldl (λ m '(slot, value), <[word32 slot := word32 value]> m) ∅
                  (da_storage account) |}.
(** [persist_db] writes the accounts one by one and stops at a balance over [u128]. *)
Fixpoint persist_accounts (db : InMemoryDB) (accounts : list (EvmAddress * DbAccount)) :
    eff MemoryInner EvmError () :=
  match accounts with
  | [] => mret tt
  | (address, account) :: accounts =>
      if U128_MAX <? ai_balance (da_info account)
      then eff_lift (Err (EvmExecution ("EVM account 0x" +:+ hex_encode (array_bytes address) +:+
        " balance exceeds u128::MAX — refusing to persist"))) else
      _ ← eff_modify (Store.put_evm_account address (account_state db account));
      persist_accounts db accounts
  end.
Definition persist_db (db : InMemoryDB) : eff MemoryInner EvmError () :=
  persist_accounts db (db_accounts db).

Definition decode_result (result : ExecutionResult) : EvmCallResult :=
  match result with
  | ResultSuccess gas_used output logs =>
      let '(bytes, address) := match output with
        | OutputCall bytes => (bytes, None)
        | OutputCreate bytes address => (bytes, address)
        end in
      {| ecr_contract_address := address; ecr_output := bytes; ecr_gas_used := gas_used;
         ecr_logs := (λ log, {| el_address := lg_address log;
           el_topics := lg_topics log; el_data := lg_data log |}) <$> logs |}
  | ResultOther debug =>
      {| ecr_contract_address := None; ecr_output := bytes_of_string debug;
         ecr_gas_used := 0; ecr_logs := [] |}
  end.

Definition tx_env (caller : EvmAddress) (tx : EvmTransaction) : TxEnv := {|
  te_caller := caller; te_gas_limit := ev_gas_limit tx; te_gas_price := ev_gas_price tx;
  te_value := ev_value tx;
  te_transact_to := match ev_kind tx with Create _ => TxCreate | Call c _ => TxCall c end;
  te_data := match ev_kind tx with Create bytecode => bytecode | Call _ input => input end
|}.
(** The state-changing part of [execute]: an unknown caller is given a balance. *)
Definition interpret (self : EvmExecutor) (caller : EvmAddress) (tx : EvmTransaction) :
    eff MemoryInner EvmError EvmCallResult :=
  s ← eff_get;
  db ← eff_lift (load_db s);
  '(caller_state, db) ← eff_lift (map_err EvmExecution (basic caller db));
  let db := match caller_state with
    | Some _ => db
    | None => insert_account_info caller {| ai_balance := 1000000000; ai_nonce := 0;
        ai_code_hash := zero; ai_code := [] |} db
    end in
  '(result, db) ← eff_lift (map_err EvmExecution
    (transact_commit (ex_evm_chain_id self) (tx_env caller tx) db));
  let output := decode_result result in
  _ ← persist_db db;
  mret output.
Definition execute (self : EvmExecutor) (caller : EvmAddress) (tx : EvmTransaction) :
    eff MemoryInner EvmError EvmCallResult :=
  match ev_kind tx with
  | Call contract input =>
      match precompile contract input with
      | Some result => mret result
      | None => interpret self caller tx
      end
  | Create _ => interpret self caller tx
  end.

Definition eth_call (self : EvmExecutor) (request : EvmCallRequest) (s : MemoryInner) :
    res EvmError (list byte) :=
  if bool_decide (ecq_to request = ML_DSA_VERIFY_PRECOMPILE)
  then Ok (pq_verify_precompile (ecq_data request)) else
  db ← load_db s;
  result ← map_err EvmExecution (transact (ex_evm_chain_id self) {|
    te_caller := default (array_repeat 20 x00) (ecq_from request);
    te_gas_limit := default 5000000 (ecq_gas_limit request); te_gas_price := 0;
    te_value := default 0 (ecq_value request);
    te_transact_to := TxCall (ecq_to request); te_data := ecq_data request |} db);
  match result with
  | ResultSuccess _ (OutputCall bytes) _ | ResultSuccess _ (OutputCreate bytes _) _ => Ok bytes
  | ResultOther debug => Err (EvmExecution debug)
  end.

Definition get_code (address : EvmAddress) (s : MemoryInner) : list byte :=
  match Store.get_evm_account address s with
  | Some account => ea_code account
  | None => []
  end.
End evm.
End Evm.

(** ** The reference ABI encoding of three byte strings *)
Definition abi_word (n : Z) : list byte := replicate 24 x00 ++ be_bytes 8 n.
Definition abi_tail (bs : list byte) : list byte := abi_word (Z.of_nat (length bs)) ++ bs.
Definition abi_encode3 (a b c : list byte) : list byte :=
  let o1 := 96 in
  let o2 := o1 + 32 + Z.of_nat (length a) in
  let o3 := o2 + 32 + Z.of_nat (length b) in
  abi_word o1 ++ abi_word o2 ++ abi_word o3 ++ abi_tail a ++ abi_tail b ++ abi_tail c.

Lemma length_abi_word n : length (abi_word n) = 32%nat.
Proof. unfold abi_word, be_bytes. by rewrite length_app, length_rev, length_le_bytes. Qed.
Lemma read_abi_word n : in_range U64_MAX n → Abi.read_u256_word (abi_word n) = Ok n.
Proof.
  intros Hn. unfold Abi.read_u256_word, Abi.get. rewrite length_abi_word.
  change ((24 <=? 32) && (32 <=? Z.of_nat 32)) with true. cbv iota.
  assert (Zk.slice (abi_word n) (Z.to_nat 24) (Z.to_nat 32) = be_bytes 8 n) as ->.
  { pose proof (slice_middle (replicate 24 x00) (be_bytes 8 n) [] 24 32 eq_refl) as Hs.
    rewrite app_nil_r in Hs. apply Hs. unfold be_bytes.
    by rewrite length_rev, length_le_bytes. }
  cbn [ok_or mbind res_bind]. unfold be_value, be_bytes. rewrite rev_involutive. f_equal.
  apply le_value_bytes. unfold in_range in Hn.
  change (256 ^ Z.of_nat 8) with 18446744073709551616. lia.
Qed.
Lemma abi_get_middle (pre mid post : list byte) a b :
  Z.of_nat (length pre) = a → Z.of_nat (length pre + length mid) = b →
  Abi.get (pre ++ mid ++ post) a b = Some mid.
Proof.
  intros <- <-. unfold Abi.get. rewrite !length_app.
  rewrite (proj2 (Z.leb_le _ _)), (proj2 (Z.leb_le _ _)) by lia. cbn [andb]. f_equal.
  rewrite !Nat2Z.id. apply Zk.slice_middle || apply slice_middle; lia.
Qed.
Lemma read_dynamic_middle (pre post bs : list byte) offset :
  Z.of_nat (length pre) = offset →
  Z.of_nat (length (pre ++ abi_tail bs ++ post)) ≤ U64_MAX →
  Abi.read_dynamic_bytes (pre ++ abi_tail bs ++ post) offset = Ok bs.
Proof.
  intros <- Hlen. unfold abi_tail in *. rewrite !length_app, length_abi_word in Hlen.
  unfold Abi.read_dynamic_bytes.
  rewrite (wrapping_small _ (Z.of_nat (length pre) + 32)) by ulia.
  rewrite <-app_assoc, (abi_get_middle pre (abi_word _)) by
    (rewrite ?length_abi_word; lia).
  cbn [ok_or mbind res_bind]. rewrite read_abi_word by ulia. cbn [mbind res_bind].
  rewrite wrapping_small by ulia.
  rewrite app_assoc, (abi_get_middle (pre ++ abi_word _)) by
    (rewrite length_app, length_abi_word; lia). done.
Qed.
Lemma slice_at (input pre mid post : list byte) a b :
  input = pre ++ mid ++ post → length pre = a → length mid = (b - a)%nat →
  Zk.slice input a b = mid.
Proof. intros ->. apply slice_middle. Qed.
Lemma read_dynamic_at (input pre bs post : list byte) offset :
  input = pre ++ abi_tail bs ++ post → Z.of_nat (length pre) = offset →
  Z.of_nat (length input) ≤ U64_MAX → Abi.read_dynamic_bytes input offset = Ok bs.
Proof. intros ->. apply read_dynamic_middle. Qed.

(** Closes the side conditions of the two lemmas above from the layout [E]. *)
Ltac abi_side E :=
  rewrite ?app_nil_r, <-?app_assoc;
  first [exact E | rewrite ?length_app; cbn [length]; ulia].

Lemma decode_abi_encode3 a b c :
  Z.of_nat (length (abi_encode3 a b c)) ≤ U64_MAX →
  Abi.decode_abi_bytes3 (abi_encode3 a b c) = Ok (a, b, c).
Proof.
  intros Hlen. unfold Abi.decode_abi_bytes3.
  set (o2 := 96 + 32 + Z.of_nat (length a)). set (o3 := o2 + 32 + Z.of_nat (length b)).
  set (w1 := abi_word 96). set (w2 := abi_word o2). set (w3 := abi_word o3).
  set (ta := abi_tail a). set (tb := abi_tail b). set (tc := abi_tail c).
  assert (abi_encode3 a b c = w1 ++ w2 ++ w3 ++ ta ++ tb ++ tc) as E by done.
  assert (length w1 = 32 ∧ length w2 = 32 ∧ length w3 = 32)%nat as (L1 & L2 & L3)
    by (split_and!; apply length_abi_word).
  assert (length ta = 32 + length a ∧ length tb = 32 + length b ∧ length tc = 32 + length c)%nat
    as (La & Lb & Lc)
    by (split_and!; unfold ta, tb, tc, abi_tail; by rewrite length_app, length_abi_word).
  set (input := abi_encode3 a b c) in *.
  assert (length input = 192 + length a + length b + length c)%nat as Hl
    by (rewrite E, !length_app; lia).
  rewrite (proj2 (Nat.ltb_ge _ _)) by lia.
  rewrite (slice_at input [] w1 (w2 ++ w3 ++ ta ++ tb ++ tc) 0 32) by abi_side E.
  rewrite (slice_at input w1 w2 (w3 ++ ta ++ tb ++ tc) 32 64) by abi_side E.
  rewrite (slice_at input (w1 ++ w2) w3 (ta ++ tb ++ tc) 64 96) by abi_side E.
  unfold w1, w2, w3. rewrite !read_abi_word by (unfold o3, o2 in *; ulia).
  cbn [mbind res_bind]. fold w1 w2 w3.
  rewrite (read_dynamic_at input (w1 ++ w2 ++ w3) a (tb ++ tc) 96) by abi_side E.
  rewrite (read_dynamic_at input (w1 ++ w2 ++ w3 ++ ta) b tc o2)
    by (unfold o2; abi_side E).
  rewrite (read_dynamic_at input (w1 ++ w2 ++ w3 ++ ta ++ tb) c [] o3)
    by (unfold o3, o2; abi_side E).
  done.
Qed.

(** ** What a run writes *)
Section effects.
Context `{HashBackend, HexEncode, ChainCodec, RevmBackend} (default_scheme : SignatureScheme).

(** The accounts map after the given accounts were written in order. *)
Definition written (db : InMemoryDB) (accounts : list (EvmAddress * DbAccount))
    (m : gmap EvmAddress EvmAccountState) : gmap EvmAddress EvmAccountState :=
  foldl (λ m '(address, account), <[address := Evm.account_state db account]> m) m accounts.
(** The balance fits the stored [u128]. *)
Definition storable (account : EvmAddress * DbAccount) : Prop :=
  ai_balance (da_info account.2) ≤ U128_MAX.

Lemma upd_evm_accounts_id s : s = upd_evm_accounts (λ m, m) s.
Proof. by destruct s. Qed.
Lemma persist_accounts_writes db accounts s r s' :
  Evm.persist_accounts db accounts s = (r, s') →
  ∃ ws rest, accounts = ws ++ rest ∧ Forall storable ws ∧
    s' = upd_evm_accounts (written db ws) s ∧ (is_ok r = true ↔ rest = []) ∧
    (∀ a, rest !! 0%nat = Some a → ¬ storable a).
Proof.
  revert s. induction accounts as [|[address account] accounts IH]; intros s Hp; simpl in Hp.
  - injection Hp as <- <-. exists [], []. split_and!; [done | done | apply upd_evm_accounts_id | done | done].
  - destruct (_ <? _) eqn:Hb.
    + injection Hp as <- <-. exists [], ((address, account) :: accounts).
      split_and!; [done | done | apply upd_evm_accounts_id | done |].
      intros a [= <-]. unfold storable. simpl. to_prop. lia.
    + rewrite (eff_bind_ok _ _ _ tt (Store.put_evm_account address
        (Evm.account_state db account) s)) in Hp by done.
      apply IH in Hp as (ws & rest & -> & Hws & -> & Hr & Hbad).
      exists ((address, account) :: ws), rest.
      split_and!; [done | | by destruct s | done | done].
      constructor; [|done]. unfold storable. simpl. to_prop. lia.
Qed.

Lemma interpret_writes self caller tx s r s' :
  Evm.interpret self caller tx s = (r, s') →
  (s' = s ∧ is_ok r = false) ∨
  ∃ db ws rest, db_accounts db = ws ++ rest ∧ Forall storable ws ∧
    s' = upd_evm_accounts (written db ws) s ∧ (is_ok r = true ↔ rest = []) ∧
    (∀ a, rest !! 0%nat = Some a → ¬ storable a).
Proof.
  unfold Evm.interpret, mbind at 1, eff_bind at 1, eff_get.
  unfold mbind at 1, eff_bind at 1, eff_lift at 1.
  destruct (Evm.load_db s) as [db|e|]; [|intros [= <- <-]; by left ..].
  unfold mbind at 1, eff_bind at 1, eff_lift at 1.
  destruct (map_err _ (basic caller db)) as [[st db1]|e|]; [|intros [= <- <-]; by left ..].
  unfold mbind at 1, eff_bind at 1, eff_lift at 1.
  destruct (map_err _ _) as [[result db2]|e|]; [|intros [= <- <-]; by left ..].
  unfold mbind at 1, eff_bind at 1, Evm.persist_db.
  destruct (Evm.persist_accounts db2 (db_accounts db2) s) as [r' s''] eqn:Hp. intros Hrun.
  apply persist_accounts_writes in Hp as (ws & rest & E & Hws & Hs & Hr & Hbad).
  right. exists db2, ws, rest. destruct r'; injection Hrun as <- <-; split_and!; done.
Qed.
End effects.

(** What [execute] writes.  A call of one of the chain's own precompiles succeeds
    and writes nothing.  Any other run writes nothing and fails, or writes EVM accounts
    of the interpreter's final database in its order, and nothing else of the store:
    all of them when it succeeds, and a proper prefix, ended by a balance over [u128],
    when it fails. *)
Lemma execute_writes `{HashBackend, HexEncode, ChainCodec, RevmBackend}
    (scheme : SignatureScheme) (self : EvmExecutor) (caller : EvmAddress)
    (tx : EvmTransaction) (s : MemoryInner) r s' :
  Evm.execute scheme self caller tx s = (r, s') →
  (s' = s ∧ ∃ c i out, ev_kind tx = Call c i ∧ Evm.precompile scheme c i = Some out ∧ r = Ok out) ∨
  (s' = s ∧ is_ok r = false) ∨
  ∃ db ws rest, db_accounts db = ws ++ rest ∧ Forall storable ws ∧
    s' = upd_evm_accounts (written db ws) s ∧ (is_ok r = true ↔ rest = []) ∧
    (∀ a, rest !! 0%nat = Some a → ¬ storable a).
Proof.
  unfold Evm.execute. destruct (ev_kind tx) as [code|c i] eqn:Hk.
  - intros Hrun. right. eapply interpret_writes, Hrun.
  - destruct (Evm.precompile scheme c i) as [out|] eqn:Hpre; intros Hrun.
    + injection Hrun as <- <-. left. eauto 10.
    + right. eapply interpret_writes, Hrun.
Qed.

(** The signature precompile answers every input with a 32-byte boolean word; on
    the ABI encoding of a key, a message and a signature the word is one exactly when
    the signature verifies in the transaction domain. *)
Lemma pq_verify_precompile_exact (scheme : SignatureScheme) (input : list byte) :
  (∃ b, Evm.pq_verify_precompile scheme input = Abi.padded_bool b ∧
    length (Abi.padded_bool b) = 32%nat) ∧
  ∀ public_key message signature,
    input = abi_encode3 public_key message signature →
    Z.of_nat (length input) ≤ U64_MAX →
    (Evm.pq_verify_precompile scheme input = Abi.padded_bool true ↔
     verify DomTransaction message public_key signature = Ok tt).
Proof.
  split.
  - unfold Evm.pq_verify_precompile. destruct (_ ≫= _); [exists true | exists false ..]; done.
  - intros pk msg sg -> Hlen. unfold Evm.pq_verify_precompile.
    rewrite decode_abi_encode3 by done. cbn [mbind res_bind].
    destruct (verify _ _ _ _) as [[]|e|]; simpl; [done | by split ..].
Qed.

(** ** Examples *)
Module ToyRevm.
(** Accounts without code execution: a call moves its value, or reverts. *)
Definition move (caller to : EvmAddress) (value : Z) (db : gmap EvmAddress AccountInfo) :
    gmap EvmAddress AccountInfo :=
  let credit := default {| ai_balance := 0; ai_nonce := 0; ai_code_hash := zero; ai_code := [] |}
    (db !! to) in
  <[to := {| ai_balance := ai_balance credit + value; ai_nonce := ai_nonce credit;
             ai_code_hash := ai_code_hash credit; ai_code := ai_code credit |}]> db.
Definition run (tx : TxEnv) (db : gmap EvmAddress AccountInfo) :
    ExecutionResult * gmap EvmAddress AccountInfo :=
  match te_transact_to tx with
  | TxCall to => if te_value tx <? 0 then (ResultOther "Revert", db)
      else (ResultSuccess 21000 (OutputCall []) [], move (te_caller tx) to (te_value tx) db)
  | TxCreate => (ResultSuccess 53000 (OutputCreate [] None) [], db)
  end.
#[export] Instance backend : RevmBackend := {|
  InMemoryDB := gmap EvmAddress AccountInfo;
  db_default := ∅;
  hash_slow := λ _, zero;
  insert_account_info := λ a i db, <[a := i]> db;
  insert_account_storage := λ _ _ _ db, Ok db;
  basic := λ a db, Ok (db !! a, db);
  transact_commit := λ _ tx db, Ok (run tx db);
  transact := λ _ tx db, Ok (run tx db).1;
  db_accounts := λ db, (λ '(a, i), (a, {| da_info := i; da_storage := [] |})) <$> entries db;
  db_contract := λ _ _, None
|}.
#[export] Instance hex : HexEncode := λ _, "".
End ToyRevm.

Module EvmExamples.
Import Toy ToyRevm.
Definition alice : EvmAddress := reserved xaa x01.
Definition carol : EvmAddress := reserved xaa x02.
Definition pay (to : EvmAddress) : EvmTransaction :=
  {| ev_kind := Call to []; ev_value := 7; ev_gas_limit := 21000; ev_gas_price := 0 |}.
Definition machine : EvmExecutor := {| ex_evm_chain_id := 1 |}.
Definition after_pay : res EvmError EvmCallResult * MemoryInner :=
  Evm.execute ToyOqs.scheme machine alice (pay carol) MemoryInner_default.
(** The toy interpreter credits the callee; both accounts are stored. *)
Example execute_pays :
  is_ok after_pay.1 = true ∧
  ea_balance <$> Store.get_evm_account carol after_pay.2 = Some 7 ∧
  ea_balance <$> Store.get_evm_account alice after_pay.2 = Some 1000000000.
Proof. vm_compute. done. Qed.

Lemma execute_writes_witness :
  (after_pay.2 = MemoryInner_default ∧ ∃ c i out, ev_kind (pay carol) = Call c i ∧
    Evm.precompile ToyOqs.scheme c i = Some out ∧ after_pay.1 = Ok out) ∨
  (after_pay.2 = MemoryInner_default ∧ is_ok after_pay.1 = false) ∨
  ∃ db ws rest, db_accounts db = ws ++ rest ∧ Forall storable ws ∧
    after_pay.2 = upd_evm_accounts (written db ws) MemoryInner_default ∧
    (is_ok after_pay.1 = true ↔ rest = []) ∧ (∀ a, rest !! 0%nat = Some a → ¬ storable a).
Proof.
  apply (execute_writes ToyOqs.scheme machine alice (pay carol) MemoryInner_default).
  reflexivity.
Defined.
Lemma pq_verify_precompile_witness :
  Evm.pq_verify_precompile ToyOqs.scheme (abi_encode3 Toy.pk [x07]
    (Toy.pk ++ MlDsaScheme.domain_message DomTransaction [x07])) = Abi.padded_bool true.
Proof.
  refine (proj2 (proj2 (pq_verify_precompile_exact ToyOqs.scheme _) _ _ _ eq_refl _) _);
    vm_compute; [discriminate | reflexivity].
Defined.
End EvmExamples.
