(* ===== verification/EthTx.v ===== *)
(** [crates/zeno-evm/src/eth_tx.rs] and [EvmExecutor::execute_raw_ethereum_tx]: the RLP
    codec, the decoding of raw Ethereum transactions and the recovery of their senders.
    Keccak-256, [hex] and the [k256] curve operations are parameters. *)

From S2P Require Import Prelude Types Codec Hash Crypto Wire Storage Zk Evm Toy.
From stdpp Require Import pretty.
Open Scope Z_scope.

(** [Keccak256::digest]. *)
Class KeccakBackend := keccak256 : list byte → Hash32.
(** The part of [k256::ecdsa] used for recovery; an encoded point is never empty. *)
Class EcdsaBackend := {
  Signature : Type;
  RecoveryId : Type;
  VerifyingKey : Type;
  signature_from_bytes : list byte → res string Signature;
  recovery_id_from_byte : Z → option RecoveryId;
  recover_from_prehash : Hash32 → Signature → RecoveryId → res string VerifyingKey;
  to_encoded_point : VerifyingKey → list byte
}.

Record DecodedEthTx := {
  de_sender : EvmAddress;
  de_nonce : Z;
  de_gas_price : Z;
  de_gas_limit : Z;
  de_to : option EvmAddress;
  de_value : Z;
  de_data : list byte;
  de_chain_id : Z;
  de_tx_hash : Hash32
}.

Abbreviation len_of data := (Z.of_nat (length data)).

(** ** The RLP codec *)
Module Rlp.
(** [&data[a..b]] panics out of range. *)
Definition index_range {E} (data : list byte) (a b : Z) : res E (list byte) :=
  expect (Abi.get data a b).

(** [value << 8 | b]; the shift drops the bits over [usize]. *)
Definition be_step (max : Z) (value : Z) (b : byte) : Z :=
  Z.lor (wrapping max (Z.shiftl value 8)) (byte_Z b).
Definition be_to_usize (bytes : list byte) : Z := foldl (be_step U64_MAX) 0 bytes.
Definition rlp_to_u64 (bytes : list byte) : Z := foldl (be_step U64_MAX) 0 bytes.
Definition rlp_to_u128 (bytes : list byte) : Z := foldl (be_step U128_MAX) 0 bytes.

(** The [while value > 0] loop, which ends within the eight bytes of a [usize]; the
    bytes come out in order because each step puts its byte in front. *)
Fixpoint usize_to_be_loop (fuel : nat) (value : Z) (bytes : list byte) : list byte :=
  match fuel with
  | O => bytes
  | S fuel =>
      if 0 <? value
      then usize_to_be_loop fuel (Z.shiftr value 8) (Z_byte (Z.land value 255) :: bytes)
      else bytes
  end.
Definition usize_to_be (value : Z) : list byte :=
  if value =? 0 then [x00] else usize_to_be_loop 8 value [].
Definition rlp_from_u64 (value : Z) : list byte :=
  if value =? 0 then [] else
  let bytes := be_bytes 8 value in
  let start := match list_find (λ b, b ≠ x00) bytes with Some (i, _) => i | None => 7%nat end in
  drop start bytes.

Definition rlp_to_address (bytes : list byte) : option EvmAddress := array_of 20 bytes.

(** The long forms: [len_len] bytes of length after the prefix; returns where the
    payload starts and ends.  The addition wraps in the release profile. *)
Definition long_header (data : list byte) (len_len : Z) (short long : string) :
    res AnyError (Z * Z) :=
  if len_of data <? 1 + len_len then Err (Anyhow short) else
  bytes ← index_range data 1 (1 + len_len);
  let len := be_to_usize bytes in
  let start := 1 + len_len in
  let stop := wrapping U64_MAX (start + len) in
  if len_of data <? stop then Err (Anyhow long) else
  Ok (start, stop).

(** [{prefix:02x}]. *)
Definition hex_digit (n : Z) : string :=
  default "" ((λ c, String c "") <$> String.get (Z.to_nat n) "0123456789abcdef").
Definition hex2 (b : byte) : string :=
  hex_digit (byte_Z b / 16) +:+ hex_digit (byte_Z b mod 16).

Definition rlp_list_payload (data : list byte) : res AnyError (list byte * Z) :=
  prefix ← expect (head data);
  let p := byte_Z prefix in
  if 248 <=? p then
    '(start, stop) ← long_header data (p - 247)
      "rlp: truncated long list length" "rlp: truncated long list payload";
    payload ← index_range data start stop;
    Ok (payload, stop)
  else if 192 <=? p then
    let len := p - 192 in
    if len_of data <? 1 + len then Err (Anyhow "rlp: truncated short list payload") else
    payload ← index_range data 1 (1 + len);
    Ok (payload, 1 + len)
  else Err (Anyhow ("rlp: expected list, got prefix 0x" +:+ hex2 prefix)).

(** A nested list is returned with its header, a string without. *)
Definition rlp_next_item (data : list byte) : res AnyError (list byte * Z) :=
  match data with
  | [] => Err (Anyhow "rlp: unexpected end")
  | prefix :: _ =>
      let p := byte_Z prefix in
      if p <? 128 then Ok ([prefix], 1) else
      if p <=? 183 then
        let len := p - 128 in
        if len_of data <? 1 + len then Err (Anyhow "rlp: truncated short string") else
        item ← index_range data 1 (1 + len);
        Ok (item, 1 + len)
      else if p <=? 191 then
        '(start, stop) ← long_header data (p - 183)
          "rlp: truncated long string length" "rlp: truncated long string payload";
        item ← index_range data start stop;
        Ok (item, stop)
      else if p <=? 247 then
        let len := p - 192 in
        if len_of data <? 1 + len then Err (Anyhow "rlp: truncated short list") else
        item ← index_range data 0 (1 + len);
        Ok (item, 1 + len)
      else
        '(start, stop) ← long_header data (p - 247)
          "rlp: truncated long list length" "rlp: truncated long list";
        item ← index_range data 0 stop;
        Ok (item, stop)
  end.

(** The [while pos < payload.len()] loop; [None] when the fuel runs out, which the code
    shows as a loop that is still running.  [pos] never wraps: each item lies within the
    payload. *)
Fixpoint rlp_items (fuel : nat) (payload : list byte) (pos : Z) (items : list (list byte)) :
    option (res AnyError (list (list byte))) :=
  match fuel with
  | O => None
  | S fuel =>
      if pos <? len_of payload then
        match rlp_next_item (drop (Z.to_nat pos) payload) with
        | Ok (item, consumed) => rlp_items fuel payload (pos + consumed) (items ++ [item])
        | Err e => Some (Err e)
        | Panic => Some Panic
        end
      else Some (Ok items)
  end.
Definition rlp_decode_list (fuel : nat) (data : list byte) :
    option (res AnyError (list (list byte))) :=
  match data with
  | [] => Some (Err (Anyhow "empty RLP"))
  | _ =>
      match rlp_list_payload data with
      | Ok (payload, _) => rlp_items fuel payload 0 []
      | Err e => Some (Err e)
      | Panic => Some Panic
      end
  end.

(** Both encoders append to [out]; the prefix byte is [u8] arithmetic. *)
Definition rlp_encode_bytes (bytes : list byte) (out : list byte) : list byte :=
  if match bytes with [b] => byte_Z b <? 128 | _ => false end then out ++ bytes
  else if len_of bytes <=? 55 then out ++ [Z_byte (128 + len_of bytes)] ++ bytes
  else
    let len_bytes := usize_to_be (len_of bytes) in
    out ++ [Z_byte (183 + len_of len_bytes)] ++ len_bytes ++ bytes.
Definition rlp_encode_list_header (payload_len : Z) (out : list byte) : list byte :=
  if payload_len <=? 55 then out ++ [Z_byte (192 + payload_len)]
  else
    let len_bytes := usize_to_be payload_len in
    out ++ [Z_byte (247 + len_of len_bytes)] ++ len_bytes.
Definition rlp_encode_list (items : list (list byte)) : list byte :=
  let payload := foldl (λ payload item, rlp_encode_bytes item payload) [] items in
  rlp_encode_list_header (len_of payload) [] ++ payload.
End Rlp.

Module EthTx.
Section ethtx.
Context `{KeccakBackend, EcdsaBackend}.

Definition left_pad_32 (bytes : list byte) : list byte :=
  let start := (32 - length bytes)%nat in
  replicate start x00 ++ take (Nat.min (length bytes) 32) bytes.

Definition recover_sender (signing_hash : Hash32) (r_bytes s_bytes : list byte) (v : Z) :
    res AnyError EvmAddress :=
  let sig_bytes := left_pad_32 r_bytes ++ left_pad_32 s_bytes in
  signature ← map_err (λ e, Anyhow ("invalid ECDSA signature: " +:+ e))
    (signature_from_bytes sig_bytes);
  recovery_id ← ok_or (Anyhow ("invalid recovery id: " +:+ pretty v)) (recovery_id_from_byte v);
  verifying_key ← map_err (λ e, Anyhow ("ECDSA recovery failed: " +:+ e))
    (recover_from_prehash signing_hash signature recovery_id);
  let pubkey_bytes := to_encoded_point verifying_key in
  key ← Rlp.index_range pubkey_bytes 1 (len_of pubkey_bytes);
  let hash := keccak256 key in
  Ok (array_pad 20 (drop 12 (array_bytes hash))).

(** [items[i]]. *)
Definition item {E} (items : list (list byte)) (i : nat) : res E (list byte) :=
  expect (items !! i).

Definition signing_payload_legacy (items : list (list byte)) (chain_id : Z) : list byte :=
  Rlp.rlp_encode_list (take 6 items ++ [Rlp.rlp_from_u64 chain_id; []; []]).
Definition legacy_chain_id (v : Z) : Z := if 35 <=? v then (v - 35) / 2 else 0.
Definition legacy_recovery_v (v : Z) : Z :=
  if 35 <=? v then wrapping U8_MAX (v - 35 - 2 * legacy_chain_id v)
  else wrapping U8_MAX (saturating_sub v 27).
Definition decode_legacy_items (items : list (list byte)) (tx_hash : Hash32) :
    res AnyError DecodedEthTx :=
  if negb (Nat.eqb (length items) 9)
  then Err (Anyhow ("legacy tx must have 9 RLP fields, got " +:+ pretty (length items))) else
  nonce ← item items 0; gas_price ← item items 1; gas_limit ← item items 2;
  to ← item items 3; value ← item items 4; data ← item items 5;
  v ← item items 6; r ← item items 7; s ← item items 8;
  let v := Rlp.rlp_to_u64 v in
  let chain_id := legacy_chain_id v in
  let signing_hash := keccak256 (signing_payload_legacy items chain_id) in
  sender ← recover_sender signing_hash r s (legacy_recovery_v v);
  Ok {| de_sender := sender; de_nonce := Rlp.rlp_to_u64 nonce;
        de_gas_price := Rlp.rlp_to_u128 gas_price; de_gas_limit := Rlp.rlp_to_u64 gas_limit;
        de_to := Rlp.rlp_to_address to; de_value := Rlp.rlp_to_u128 value; de_data := data;
        de_chain_id := chain_id; de_tx_hash := tx_hash |}.
(** The decoders inherit the fuel of the RLP loop. *)
Definition decode_legacy (fuel : nat) (raw : list byte) (tx_hash : Hash32) :
    option (res AnyError DecodedEthTx) :=
  items ← Rlp.rlp_decode_list fuel raw;
  Some (items ← items; decode_legacy_items items tx_hash).

(** The access list [items[8]], kept with its header, is encoded as a string. *)
Definition signing_input_eip1559 (items : list (list byte)) : list byte :=
  x02 :: Rlp.rlp_encode_list (take 9 items).
Definition decode_eip1559_items (items : list (list byte)) (tx_hash : Hash32) :
    res AnyError DecodedEthTx :=
  if negb (Nat.eqb (length items) 12)
  then Err (Anyhow ("EIP-1559 tx must have 12 RLP fields, got " +:+ pretty (length items))) else
  chain_id ← item items 0; nonce ← item items 1; max_fee_per_gas ← item items 3;
  gas_limit ← item items 4; to ← item items 5; value ← item items 6; data ← item items 7;
  v ← item items 9; r ← item items 10; s ← item items 11;
  let signing_hash := keccak256 (signing_input_eip1559 items) in
  sender ← recover_sender signing_hash r s (wrapping U8_MAX (Rlp.rlp_to_u64 v));
  Ok {| de_sender := sender; de_nonce := Rlp.rlp_to_u64 nonce;
        de_gas_price := Rlp.rlp_to_u128 max_fee_per_gas;
        de_gas_limit := Rlp.rlp_to_u64 gas_limit; de_to := Rlp.rlp_to_address to;
        de_value := Rlp.rlp_to_u128 value; de_data := data;
        de_chain_id := Rlp.rlp_to_u64 chain_id; de_tx_hash := tx_hash |}.
Definition decode_eip1559 (fuel : nat) (raw : list byte) (tx_hash : Hash32) :
    option (res AnyError DecodedEthTx) :=
  items ← Rlp.rlp_decode_list fuel (drop 1 raw);
  Some (items ← items; decode_eip1559_items items tx_hash).

Definition strip_0x (s : string) : string :=
  if String.prefix "0x" s then String.substring 2 (String.length s - 2) s else s.
Definition decode_raw_bytes (fuel : nat) (raw : list byte) : option (res AnyError DecodedEthTx) :=
  match raw with
  | [] => Some (Err (Anyhow "empty transaction"))
  | first :: _ =>
      let tx_hash := keccak256 raw in
      if bool_decide (first = x02) then decode_eip1559 fuel raw tx_hash
      else decode_legacy fuel raw tx_hash
  end.
Definition decode_raw_tx `{HexBackend} (fuel : nat) (raw_hex : string) :
    option (res AnyError DecodedEthTx) :=
  match hex_decode (strip_0x raw_hex) with
  | Ok raw => decode_raw_bytes fuel raw
  | Err e => Some (Err (Anyhow ("invalid hex: " +:+ e)))
  | Panic => Some Panic
  end.
End ethtx.

(** [EvmExecutor::execute_raw_ethereum_tx]. *)
Section execute.
Context `{HashBackend, HexBackend, HexEncode, ChainCodec, RevmBackend, KeccakBackend, EcdsaBackend}
  (default_scheme : SignatureScheme) (display : AnyError → string).

Definition evm_transaction (decoded : DecodedEthTx) : EvmTransaction := {|
  ev_kind := match de_to decoded with
    | Some to_addr => Call to_addr (de_data decoded)
    | None => Create (de_data decoded)
    end;
  ev_value := de_value decoded; ev_gas_limit := de_gas_limit decoded;
  ev_gas_price := de_gas_price decoded |}.
Definition execute_raw_ethereum_tx (fuel : nat) (self : EvmExecutor) (raw_hex : string)
    (s : MemoryInner) : option (res EvmError (Hash32 * EvmCallResult) * MemoryInner) :=
  match decode_raw_tx fuel raw_hex with
  | None => None
  | Some decoded => Some (
      (decoded ← eff_lift (map_err (λ e, EvmExecution ("tx decode failed: " +:+ display e)) decoded);
       if negb (de_chain_id decoded =? ex_evm_chain_id self)
       then eff_lift (Err (EvmExecution ("chain id mismatch: expected " +:+
         pretty (ex_evm_chain_id self) +:+ ", got " +:+ pretty (de_chain_id decoded)))) else
       result ← Evm.execute default_scheme self (de_sender decoded) (evm_transaction decoded);
       mret (de_tx_hash decoded, result) : eff MemoryInner EvmError _) s)
  end.
End execute.
End EthTx.

(** ** Integers of the codec *)
Lemma le_value_app xs ys :
  le_value (xs ++ ys) = le_value xs + 256 ^ len_of xs * le_value ys.
Proof.
  induction xs as [|x xs IH]; [simpl; lia|].
  cbn [le_value app length]. rewrite IH, !Z.shiftl_mul_pow2, Nat2Z.inj_succ, Z.pow_succ_r by lia.
  change (2 ^ 8) with 256. lia.
Qed.
Lemma be_value_cons b bs : be_value (b :: bs) = byte_Z b * 256 ^ len_of bs + be_value bs.
Proof.
  unfold be_value. cbn [rev]. rewrite le_value_app, length_rev. cbn [le_value].
  rewrite Z.shiftl_0_l. lia.
Qed.
Lemma be_value_snoc bs b : be_value (bs ++ [b]) = be_value bs * 256 + byte_Z b.
Proof.
  unfold be_value. rewrite rev_app_distr. cbn [rev app le_value].
  rewrite Z.shiftl_mul_pow2 by lia. change (2 ^ 8) with 256. lia.
Qed.
Lemma be_value_bounds bs : 0 ≤ be_value bs < 256 ^ len_of bs.
Proof. unfold be_value. rewrite <-length_rev. apply le_value_bounds. Qed.
Lemma be_value_bytes n z : 0 ≤ z < 256 ^ Z.of_nat n → be_value (be_bytes n z) = z.
Proof. intros. unfold be_value, be_bytes. rewrite rev_involutive. by apply le_value_bytes. Qed.

Lemma lor_byte x b : Z.lor (x * 256) (byte_Z b) = x * 256 + byte_Z b.
Proof.
  rewrite <-Z.add_lor_land. enough (Z.land (x * 256) (byte_Z b) = 0) by lia.
  apply Z.bits_inj'. intros i Hi. rewrite Z.land_spec, Z.bits_0.
  change 256 with (2 ^ 8). destruct (decide (i < 8)).
  - by rewrite Z.mul_pow2_bits_low by lia.
  - rewrite <-(Z.mod_small (byte_Z b) (2 ^ 8)) by (pose proof (byte_Z_range b); ulia).
    rewrite Z.mod_pow2_bits_high by lia. apply andb_false_r.
Qed.
(** While the bytes fit the width, the shifting loop computes the big-endian value. *)
Lemma be_fold_value n max bs :
  max + 1 = 256 ^ Z.of_nat n → (length bs ≤ n)%nat → foldl (Rlp.be_step max) 0 bs = be_value bs.
Proof.
  intros Hmax. induction bs as [|b bs IH] using rev_ind; [done|].
  rewrite length_app. cbn [length]. intros Hl.
  rewrite foldl_app, IH by lia. cbn [foldl]. unfold Rlp.be_step.
  pose proof (be_value_bounds bs) as Hb.
  rewrite be_value_snoc, Z.shiftl_mul_pow2 by lia. change (2 ^ 8) with 256.
  rewrite <-lor_byte. f_equal. unfold wrapping. rewrite Hmax. apply Z.mod_small.
  assert (256 ^ len_of bs * 256 ≤ 256 ^ Z.of_nat n); [|lia].
  rewrite Z.mul_comm, <-Z.pow_succ_r by lia. apply Z.pow_le_mono_r; lia.
Qed.
Lemma be_to_usize_value bs : (length bs ≤ 8)%nat → Rlp.be_to_usize bs = be_value bs.
Proof. by apply be_fold_value. Qed.

Lemma usize_to_be_loop_app fuel v bytes :
  Rlp.usize_to_be_loop fuel v bytes = Rlp.usize_to_be_loop fuel v [] ++ bytes.
Proof.
  revert v bytes. induction fuel as [|fuel IH]; intros; [done|]. cbn [Rlp.usize_to_be_loop].
  destruct (0 <? v); [|done].
  rewrite (IH _ (_ :: bytes)), (IH _ [_]), <-app_assoc. done.
Qed.
Lemma usize_to_be_loop_value fuel v :
  0 ≤ v < 256 ^ Z.of_nat fuel →
  be_value (Rlp.usize_to_be_loop fuel v []) = v ∧
  (length (Rlp.usize_to_be_loop fuel v []) ≤ fuel)%nat ∧
  (0 < v → Rlp.usize_to_be_loop fuel v [] ≠ []).
Proof.
  revert v. induction fuel as [|fuel IH]; intros v Hv.
  { change (256 ^ Z.of_nat 0) with 1 in Hv. split_and!; simpl; [unfold be_value; simpl; lia | done | lia]. }
  rewrite Nat2Z.inj_succ, Z.pow_succ_r in Hv by lia. cbn [Rlp.usize_to_be_loop].
  destruct (Z.ltb_spec 0 v); [|split_and!; [unfold be_value; simpl; lia | simpl; lia | lia]].
  rewrite usize_to_be_loop_app, be_value_snoc, length_app, byte_Z_byte_mod.
  change 255 with (Z.ones 8). rewrite Z.land_ones, Z.shiftr_div_pow2 by lia.
  change (2 ^ 8) with 256.
  destruct (IH (v / 256)) as (Hb & Hl & _).
  { Z.to_euclidean_division_equations. lia. }
  rewrite Hb. split_and!.
  - Z.to_euclidean_division_equations. lia.
  - cbn [length]. lia.
  - intros _ E. by apply app_eq_nil in E as [_ E].
Qed.
(** The length bytes of a [usize]: one to eight of them, with its value. *)
Lemma usize_to_be_spec v :
  in_range U64_MAX v →
  Rlp.be_to_usize (Rlp.usize_to_be v) = v ∧ 1 ≤ len_of (Rlp.usize_to_be v) ≤ 8.
Proof.
  intros Hv. unfold Rlp.usize_to_be. destruct (Z.eqb_spec v 0) as [->|]; [done|].
  destruct (usize_to_be_loop_value 8 v) as (Hb & Hl & Hne).
  { change (256 ^ Z.of_nat 8) with 18446744073709551616. ulia. }
  rewrite be_to_usize_value, Hb by lia. split; [done|].
  destruct (Rlp.usize_to_be_loop 8 v []); [by destruct Hne; [ulia|]|]. cbn [length] in *. lia.
Qed.

(** ** The codec round trip *)
(** The encoding of one string, without the output in front of it. *)
Abbreviation enc bs := (Rlp.rlp_encode_bytes bs []).
Lemma rlp_encode_bytes_app bs out : Rlp.rlp_encode_bytes bs out = out ++ enc bs.
Proof. unfold Rlp.rlp_encode_bytes. by repeat case_match. Qed.
Definition payload (items : list (list byte)) : list byte := mjoin ((λ bs, enc bs) <$> items).
Lemma payload_cons bs items : payload (bs :: items) = enc bs ++ payload items.
Proof. done. Qed.
Lemma payload_snoc items bs : payload (items ++ [bs]) = payload items ++ enc bs.
Proof. unfold payload. by rewrite fmap_app, join_app; cbn; rewrite app_nil_r. Qed.
Lemma rlp_payload_concat items out :
  foldl (λ payload item, Rlp.rlp_encode_bytes item payload) out items =
  out ++ payload items.
Proof.
  revert out. induction items as [|bs items IH]; intros out; cbn [foldl]; [by rewrite app_nil_r|].
  by rewrite payload_cons, IH, rlp_encode_bytes_app, <-app_assoc.
Qed.
Lemma index_range_middle {E} (pre mid post : list byte) a b :
  len_of pre = a → Z.of_nat (length pre + length mid) = b →
  Rlp.index_range (E:=E) (pre ++ mid ++ post) a b = Ok mid.
Proof. intros. unfold Rlp.index_range. by rewrite abi_get_middle. Qed.
Lemma index_range_cons {E} p (mid post : list byte) b :
  1 + len_of mid = b → Rlp.index_range (E:=E) (p :: mid ++ post) 1 b = Ok mid.
Proof. intros. apply (index_range_middle [p]); cbn [length]; lia. Qed.

Lemma long_header_encoded p len_bytes body rest short long :
  1 ≤ len_of len_bytes ≤ 8 → Rlp.be_to_usize len_bytes = len_of body →
  len_of (p :: len_bytes ++ body) ≤ U64_MAX →
  Rlp.long_header (p :: len_bytes ++ body ++ rest) (len_of len_bytes) short long =
  Ok (1 + len_of len_bytes, 1 + len_of len_bytes + len_of body).
Proof.
  intros Hl Hv Hn. unfold Rlp.long_header.
  cbn [length] in *. rewrite !length_app in *.
  rewrite (proj2 (Z.ltb_ge _ _)) by lia.
  rewrite (index_range_middle [p] len_bytes (body ++ rest)) by (cbn [length]; lia).
  cbn [mbind res_bind]. rewrite Hv, wrapping_small by ulia.
  by rewrite (proj2 (Z.ltb_ge _ _)) by lia.
Qed.

(** A string that was encoded is read back, whatever follows it. *)
Lemma next_item_encoded bs rest :
  len_of (enc bs) ≤ U64_MAX →
  Rlp.rlp_next_item (enc bs ++ rest) = Ok (bs, len_of (enc bs)).
Proof.
  unfold Rlp.rlp_encode_bytes.
  destruct (match bs with [b] => byte_Z b <? 128 | _ => false end) eqn:Hsingle.
  { intros _. destruct bs as [|b [|]]; try done. simpl. by rewrite Hsingle. }
  destruct (Z.leb_spec (len_of bs) 55) as [Hs|Hs]; intros Hn.
  - simpl app. unfold Rlp.rlp_next_item. rewrite byte_Z_byte by ulia.
    rewrite (proj2 (Z.ltb_ge _ 128)), (proj2 (Z.leb_le _ 183)) by lia.
    cbn [length]. rewrite !length_app, (proj2 (Z.ltb_ge _ _)) by lia.
    rewrite index_range_cons by lia.
    cbn [mbind res_bind]. f_equal. f_equal. lia.
  - simpl app in *. destruct (usize_to_be_spec (len_of bs)) as [Hv Hl].
    { cbn [length] in Hn. rewrite !length_app in Hn. ulia. }
    set (lb := Rlp.usize_to_be (len_of bs)) in *.
    unfold Rlp.rlp_next_item. rewrite byte_Z_byte by ulia.
    rewrite (proj2 (Z.ltb_ge _ 128)), (proj2 (Z.leb_gt _ 183)), (proj2 (Z.leb_le _ 191)) by lia.
    replace (183 + len_of lb - 183) with (len_of lb) by lia.
    rewrite <-app_assoc, long_header_encoded by done. cbn [mbind res_bind].
    rewrite (app_comm_cons lb), (index_range_middle _ bs rest)
      by (cbn [length]; rewrite ?length_app; lia).
    cbn [mbind res_bind length]. rewrite !length_app. f_equal. f_equal. lia.
Qed.
Lemma enc_length bs : (0 < length (enc bs))%nat.
Proof.
  unfold Rlp.rlp_encode_bytes. destruct bs as [|b [|c bs]]; simpl; [lia| |].
  - destruct (_ <? _); simpl; lia.
  - destruct (_ <=? _); simpl; lia.
Qed.

Lemma items_encoded fuel pre items acc :
  (length items < fuel)%nat →
  len_of (pre ++ payload items) ≤ U64_MAX →
  Rlp.rlp_items fuel (pre ++ payload items) (len_of pre) acc =
  Some (Ok (acc ++ items)).
Proof.
  revert fuel pre acc. induction items as [|bs items IH]; intros [|fuel] pre acc Hf Hn;
    cbn [length] in Hf; try lia; cbn [Rlp.rlp_items].
  - cbn [payload fmap list_fmap mjoin list_join]. rewrite !app_nil_r, Z.ltb_irrefl. done.
  - rewrite payload_cons in *. rewrite !length_app in Hn. pose proof (enc_length bs).
    rewrite (proj2 (Z.ltb_lt _ _)) by (rewrite !length_app; lia).
    rewrite Nat2Z.id, drop_app_length, next_item_encoded by lia.
    rewrite app_assoc. replace (len_of pre + len_of (enc bs)) with (len_of (pre ++ enc bs))
      by (rewrite length_app; lia).
    rewrite IH by (rewrite ?length_app; lia). by rewrite <-app_assoc.
Qed.
Lemma list_payload_encoded body :
  len_of body + 9 ≤ U64_MAX →
  (Rlp.rlp_list_payload (Rlp.rlp_encode_list_header (len_of body) [] ++ body)) =
  Ok (body, len_of (Rlp.rlp_encode_list_header (len_of body) [] ++ body)).
Proof.
  intros Hn. unfold Rlp.rlp_encode_list_header.
  destruct (Z.leb_spec (len_of body) 55) as [Hs|Hs]; simpl app.
  - unfold Rlp.rlp_list_payload. cbn [head expect mbind res_bind]. rewrite byte_Z_byte by ulia.
    rewrite (proj2 (Z.leb_gt 248 _)), (proj2 (Z.leb_le 192 _)) by lia.
    cbn [length]. rewrite (proj2 (Z.ltb_ge _ _)) by lia.
    rewrite <-(app_nil_r body) at 2.
    rewrite index_range_cons by lia.
    cbn [mbind res_bind]. f_equal. f_equal. lia.
  - destruct (usize_to_be_spec (len_of body)) as [Hv Hl]; [ulia|].
    set (lb := Rlp.usize_to_be (len_of body)) in *.
    unfold Rlp.rlp_list_payload. cbn [head expect mbind res_bind]. rewrite byte_Z_byte by ulia.
    rewrite (proj2 (Z.leb_le 248 _)) by lia.
    replace (247 + len_of lb - 247) with (len_of lb) by lia.
    pose proof (long_header_encoded (Z_byte (247 + len_of lb)) lb body []
      "rlp: truncated long list length" "rlp: truncated long list payload" Hl Hv) as Hh.
    pose proof (index_range_middle (E:=AnyError) (Z_byte (247 + len_of lb) :: lb) body []
      (1 + len_of lb) (1 + len_of lb + len_of body)) as Hi.
    cbn [app length] in Hh, Hi. rewrite app_nil_r in Hh, Hi. rewrite !length_app in Hh.
    rewrite Hh by lia. cbn [mbind res_bind]. rewrite Hi by lia.
    cbn [mbind res_bind length]. rewrite !length_app. f_equal. f_equal. lia.
Qed.
(** Decoding inverts encoding, with fuel one over the number of items. *)
Lemma decode_encode_list fuel items :
  (length items < fuel)%nat → len_of (Rlp.rlp_encode_list items) + 9 ≤ U64_MAX →
  Rlp.rlp_decode_list fuel (Rlp.rlp_encode_list items) = Some (Ok items).
Proof.
  unfold Rlp.rlp_encode_list. rewrite rlp_payload_concat. cbn [app].
  rewrite length_app. intros Hf Hn.
  assert (∃ x l, Rlp.rlp_encode_list_header (len_of (payload items)) [] ++ payload items = x :: l) as (x & l & E).
  { unfold Rlp.rlp_encode_list_header. destruct (_ <=? _); simpl; eauto. }
  unfold Rlp.rlp_decode_list. rewrite E, <-E, list_payload_encoded by lia.
  apply (items_encoded fuel [] items []); [done|]. cbn [app]. lia.
Qed.

(** ** Termination of the item loop *)
Lemma wrapping_nonneg max x : 0 ≤ max → 0 ≤ wrapping max x.
Proof. intros. unfold wrapping. apply Z.mod_pos_bound. lia. Qed.
Lemma long_header_stop data ll short long start stop :
  Rlp.long_header data ll short long = Ok (start, stop) → 0 ≤ stop.
Proof.
  unfold Rlp.long_header. intros Hrun. run_ok Hrun. injection Hrun as _ <-.
  by apply wrapping_nonneg.
Qed.
Lemma next_item_consumed data item consumed :
  Rlp.rlp_next_item data = Ok (item, consumed) → 0 ≤ consumed.
Proof.
  destruct data as [|prefix data]; [done|]. unfold Rlp.rlp_next_item.
  repeat case_match; intros Hrun; run_ok Hrun; simplify_eq/=; to_prop; try lia.
  all: repeat match goal with x : (Z * Z)%type |- _ => destruct x end.
  all: run_ok Hrun; simplify_eq/=; by eapply long_header_stop.
Qed.
Lemma rlp_items_fuel_mono f f' payload pos acc r :
  Rlp.rlp_items f payload pos acc = Some r → (f ≤ f')%nat →
  Rlp.rlp_items f' payload pos acc = Some r.
Proof.
  revert f' pos acc. induction f as [|f IH]; intros [|f'] pos acc; cbn; intros Hr Hf;
    [done..|lia|]. repeat case_match; try done. eapply IH; [done|lia].
Qed.
Lemma rlp_items_stuck f payload pos acc item :
  pos < len_of payload →
  Rlp.rlp_next_item (drop (Z.to_nat pos) payload) = Ok (item, 0) →
  Rlp.rlp_items f payload pos acc = None.
Proof.
  intros Hp Hi. revert acc. induction f as [|f IH]; intros; cbn; [done|].
  rewrite (proj2 (Z.ltb_lt _ _) Hp), Hi, Z.add_0_r. apply IH.
Qed.
Lemma rlp_items_decided f f' payload pos acc :
  0 ≤ pos → Z.max 0 (len_of payload - pos) < Z.of_nat f →
  Rlp.rlp_items f payload pos acc = None → Rlp.rlp_items f' payload pos acc = None.
Proof.
  revert f' pos acc. induction f as [|f IH]; intros [|f'] pos acc Hpos Hf; try done.
  - lia.
  - cbn. destruct (Z.ltb_spec pos (len_of payload)); [|done].
    destruct (Rlp.rlp_next_item _) as [[item c]|e|] eqn:Hi; [|done..].
    pose proof (next_item_consumed _ _ _ Hi).
    destruct (decide (c = 0)) as [->|Hc].
    + intros _. by eapply rlp_items_stuck; rewrite Z.add_0_r.
    + apply IH; lia.
Qed.

Lemma index_range_length {E} (data out : list byte) a b :
  Rlp.index_range (E:=E) data a b = Ok out → (length out ≤ length data)%nat.
Proof.
  unfold Rlp.index_range, Abi.get. destruct (_ && _); [|done]. intros [= <-].
  unfold Zk.slice. rewrite length_take, length_drop. lia.
Qed.
Lemma list_payload_length data p c :
  Rlp.rlp_list_payload data = Ok (p, c) → (length p ≤ length data)%nat.
Proof.
  unfold Rlp.rlp_list_payload. intros Hrun. run_ok Hrun.
  destruct (248 <=? _); [|destruct (192 <=? _); [|done]]; run_ok Hrun;
    repeat match goal with x : (Z * Z)%type |- _ => destruct x end; run_ok Hrun;
    simplify_eq; by eapply index_range_length.
Qed.
Lemma encode_list_head items :
  len_of (Rlp.rlp_encode_list items) ≤ U64_MAX →
  ∃ b l, Rlp.rlp_encode_list items = b :: l ∧ 192 ≤ byte_Z b.
Proof.
  unfold Rlp.rlp_encode_list. rewrite rlp_payload_concat. cbn [app].
  rewrite length_app. intros Hn. unfold Rlp.rlp_encode_list_header.
  destruct (Z.leb_spec (len_of (payload items)) 55); eexists _, _; (split; [reflexivity|]).
  - rewrite byte_Z_byte by ulia. lia.
  - destruct (usize_to_be_spec (len_of (payload items))) as [_ ?]; [ulia|].
    rewrite byte_Z_byte by ulia. lia.
Qed.

Lemma drop_zeros_value bs i b :
  list_find (λ b, b ≠ x00) bs = Some (i, b) → be_value (drop i bs) = be_value bs.
Proof.
  revert i. induction bs as [|c bs IH]; intros i; [done|]. cbn [list_find].
  destruct (decide (c ≠ x00)) as [|Hc]; [by intros [= <- <-]|].
  apply dec_stable in Hc as ->. intros Hf.
  apply fmap_Some in Hf as ([j x] & Hj & [= -> ->]). cbn [drop].
  rewrite be_value_cons. change (byte_Z x00) with 0. rewrite (IH _ Hj). lia.
Qed.
Lemma no_nonzero_value bs : list_find (λ b, b ≠ x00) bs = None → be_value bs = 0.
Proof.
  induction bs as [|c bs IH]; [done|]. cbn [list_find]. destruct (decide (c ≠ x00)) as [|Hc]; [done|].
  apply dec_stable in Hc as ->. intros Hf. rewrite be_value_cons.
  change (byte_Z x00) with 0. rewrite IH; [lia|]. by destruct (list_find _ bs) as [[]|].
Qed.
(** The minimal big-endian form of a [u64]. *)
Lemma rlp_from_u64_spec v :
  in_range U64_MAX v →
  Rlp.rlp_to_u64 (Rlp.rlp_from_u64 v) = v ∧ (length (Rlp.rlp_from_u64 v) ≤ 8)%nat.
Proof.
  intros Hv. unfold Rlp.rlp_from_u64. destruct (Z.eqb_spec v 0) as [->|Hv0]; [split; [done|simpl; lia]|].
  assert (be_value (be_bytes 8 v) = v) as Hb.
  { apply be_value_bytes. change (256 ^ Z.of_nat 8) with 18446744073709551616. ulia. }
  assert (length (be_bytes 8 v) = 8%nat) as Hl by (unfold be_bytes; by rewrite length_rev, length_le_bytes).
  destruct (list_find _ _) as [[i b]|] eqn:Hf.
  - assert (length (drop i (be_bytes 8 v)) ≤ 8)%nat by (rewrite length_drop; lia).
    split; [|done]. unfold Rlp.rlp_to_u64. rewrite (be_fold_value 8) by done.
    by rewrite (drop_zeros_value _ _ _ Hf).
  - apply no_nonzero_value in Hf. lia.
Qed.

(** ** Properties *)

(** RLP round trips.  Decoding the encoding of a list of byte strings returns the
    list, for every fuel above the number of items; the minimal form of a [u64] reads
    back as the number. *)
Lemma rlp_roundtrip (items : list (list byte)) (fuel : nat) (v : Z) :
  (length items < fuel)%nat → len_of (Rlp.rlp_encode_list items) + 9 ≤ U64_MAX →
  in_range U64_MAX v →
  Rlp.rlp_decode_list fuel (Rlp.rlp_encode_list items) = Some (Ok items) ∧
  Rlp.rlp_to_u64 (Rlp.rlp_from_u64 v) = v.
Proof. intros Hf Hn Hv. split; [by apply decode_encode_list | by apply rlp_from_u64_spec]. Qed.

(** A list of one long list whose length field makes [start + len] wrap to zero. *)
Definition hanging_list : list byte :=
  [xc9; xff; xff; xff; xff; xff; xff; xff; xff; xf7].

(** C40: one more iteration than the payload has bytes decides the item loop: it has
    ended by then, or it never ends.  It does run for ever on a ten-byte input, whose
    length field makes [start + len] wrap around to zero consumed bytes. *)
Theorem rlp_decode_list_termination (data : list byte) :
  (∀ fuel r, Rlp.rlp_decode_list fuel data = Some r →
    Rlp.rlp_decode_list (S (length data)) data = Some r) ∧
  (∀ fuel, Rlp.rlp_decode_list fuel hanging_list = None).
Proof.
  split.
  - intros fuel r. unfold Rlp.rlp_decode_list. destruct data as [|x data]; [done|].
    destruct (Rlp.rlp_list_payload (x :: data)) as [[p c]|e|] eqn:Hp; [|done..].
    assert (length p ≤ length (x :: data))%nat as Hl by (by eapply list_payload_length).
    destruct (Rlp.rlp_items (S (length (x :: data))) p 0 []) as [r'|] eqn:Hr; intros Hf.
    + destruct (Nat.le_gt_cases fuel (S (length (x :: data)))).
      * by rewrite <-Hr; symmetry; erewrite <-rlp_items_fuel_mono.
      * eapply rlp_items_fuel_mono in Hr; [|by apply Nat.lt_le_incl]. congruence.
    + eapply rlp_items_decided in Hr; [|lia..]. by rewrite Hr in Hf.
  - intros fuel.
    assert (Rlp.rlp_decode_list fuel hanging_list = Rlp.rlp_items fuel (drop 1 hanging_list) 0 []) as ->
      by reflexivity.
    by apply (rlp_items_stuck fuel (drop 1 hanging_list) 0 [] []).
Qed.

Section legacy.
Context `{KeccakBackend, EcdsaBackend}.

(** C39: a transaction encoded by EIP-155 (six fields, [v = 35 + 2 * chain + parity] and
    the signature) decodes to its own fields and chain identifier, and its sender is
    the one recovered from the EIP-155 signing hash with that parity. *)
Theorem decode_legacy_eip155 (fuel : nat) (n p g t va d r s : list byte) (chain parity : Z) :
  (9 < fuel)%nat → (length n ≤ 8 ∧ length p ≤ 16 ∧ length g ≤ 8 ∧ length va ≤ 16)%nat →
  0 ≤ chain → 0 ≤ parity ≤ 1 → 35 + 2 * chain + parity ≤ U64_MAX →
  let raw := Rlp.rlp_encode_list
    [n; p; g; t; va; d; Rlp.rlp_from_u64 (35 + 2 * chain + parity); r; s] in
  len_of raw + 9 ≤ U64_MAX →
  EthTx.decode_raw_bytes fuel raw = Some (
    sender ← EthTx.recover_sender (keccak256 (Rlp.rlp_encode_list
        [n; p; g; t; va; d; Rlp.rlp_from_u64 chain; []; []])) r s parity;
    Ok {| de_sender := sender; de_nonce := be_value n; de_gas_price := be_value p;
          de_gas_limit := be_value g; de_to := array_of 20 t; de_value := be_value va;
          de_data := d; de_chain_id := chain; de_tx_hash := keccak256 raw |}).
Proof.
  intros Hf (Hn & Hp & Hg & Hva) Hc Hpar Hv raw Hraw.
  destruct (encode_list_head [n; p; g; t; va; d; Rlp.rlp_from_u64 (35 + 2 * chain + parity); r; s])
    as (b & l & E & Hb); [unfold raw in Hraw; lia|].
  unfold EthTx.decode_raw_bytes. fold raw in E. rewrite E.
  rewrite bool_decide_eq_false_2 by (intros ->; by apply Hb). rewrite <-E.
  unfold EthTx.decode_legacy, raw. rewrite decode_encode_list by (done || (simpl; lia)).
  fold raw. cbn [mbind option_bind res_bind]. f_equal.
  unfold EthTx.decode_legacy_items, EthTx.item. cbn [length Nat.eqb negb lookup list_lookup expect mbind res_bind].
  destruct (rlp_from_u64_spec (35 + 2 * chain + parity)) as [-> _]; [ulia|].
  assert (EthTx.legacy_chain_id (35 + 2 * chain + parity) = chain) as Hch.
  { unfold EthTx.legacy_chain_id. rewrite (proj2 (Z.leb_le _ _)) by lia.
    Z.to_euclidean_division_equations. lia. }
  assert (EthTx.legacy_recovery_v (35 + 2 * chain + parity) = parity) as ->.
  { unfold EthTx.legacy_recovery_v. rewrite Hch, (proj2 (Z.leb_le _ _)) by lia.
    rewrite wrapping_small by ulia. lia. }
  rewrite Hch. unfold EthTx.signing_payload_legacy. cbn [take app].
  destruct (EthTx.recover_sender _ r s parity); [|done..]. cbn [mbind res_bind].
  unfold Rlp.rlp_to_u64, Rlp.rlp_to_u128, Rlp.rlp_to_address.
  by rewrite !(be_fold_value 8 U64_MAX), !(be_fold_value 16 U128_MAX) by done.
Qed.
End legacy.

Lemma enc_list_longer h al : 192 ≤ byte_Z h → (length (h :: al) < length (enc (h :: al)))%nat.
Proof.
  intros Hh. unfold Rlp.rlp_encode_bytes.
  assert (match h :: al with [b] => byte_Z b <? 128 | _ => false end = false) as ->.
  { destruct al; [apply Z.ltb_ge; lia | done]. }
  destruct (_ <=? 55); simpl; rewrite ?length_app; simpl; lia.
Qed.

(** The sender of an EIP-1559 transaction is never recovered from the hash that the
    standard defines.  The standard signs the eight fields followed by the access list;
    the code signs them followed by the access list encoded as a string. *)
Lemma eip1559_signing_input_differs (fields rest : list (list byte)) (h : byte) (al : list byte) :
  length fields = 8%nat → 192 ≤ byte_Z h →
  len_of (payload fields ++ enc (h :: al)) + 9 ≤ U64_MAX →
  let standard_list := payload fields ++ h :: al in
  EthTx.signing_input_eip1559 (fields ++ (h :: al) :: rest) ≠
  x02 :: Rlp.rlp_encode_list_header (len_of standard_list) [] ++ standard_list.
Proof.
  intros Hl Hh Hn standard_list E. unfold EthTx.signing_input_eip1559 in E.
  injection E as E.
  assert (take 9 (fields ++ (h :: al) :: rest) = fields ++ [h :: al]) as Ht.
  { rewrite take_app, take_ge, Hl by lia. done. }
  rewrite Ht in E. unfold Rlp.rlp_encode_list in E. rewrite rlp_payload_concat in E.
  cbn [app] in E. rewrite payload_snoc in E.
  pose proof (enc_list_longer h al Hh) as Hlong.
  pose proof (list_payload_encoded (payload fields ++ enc (h :: al)) Hn) as H1.
  pose proof (list_payload_encoded standard_list) as H2.
  rewrite E, H2 in H1; [injection H1 as H1|].
  - apply app_inv_head in H1. by rewrite <-H1 in Hlong; apply Nat.lt_irrefl in Hlong.
  - unfold standard_list. rewrite length_app in *. lia.
Qed.

(** [execute_raw_ethereum_tx] writes to the store only through [execute] of the
    decoded transaction on the executor's own chain, for the recovered sender; a
    transaction that does not decode, or that names another chain, is rejected with the
    store unchanged. *)
Lemma execute_raw_exact `{HashBackend, HexBackend, HexEncode, ChainCodec, RevmBackend,
    KeccakBackend, EcdsaBackend} (scheme : SignatureScheme) (display : AnyError → string)
    (fuel : nat) (self : EvmExecutor) (raw_hex : string) (s : MemoryInner) r s' :
  EthTx.execute_raw_ethereum_tx scheme display fuel self raw_hex s = Some (r, s') →
  (s' = s ∧ is_ok r = false) ∨
  ∃ decoded r', EthTx.decode_raw_tx fuel raw_hex = Some (Ok decoded) ∧
    de_chain_id decoded = ex_evm_chain_id self ∧
    Evm.execute scheme self (de_sender decoded) (EthTx.evm_transaction decoded) s = (r', s') ∧
    r = (λ out, (de_tx_hash decoded, out)) <$> r'.
Proof.
  unfold EthTx.execute_raw_ethereum_tx.
  destruct (EthTx.decode_raw_tx fuel raw_hex) as [[decoded|e|]|] eqn:Hd; [|intros [= <- <-]; by left ..|done].
  unfold mbind at 1, eff_bind at 1, eff_lift at 1. cbn [map_err].
  destruct (Z.eqb_spec (de_chain_id decoded) (ex_evm_chain_id self)) as [Hc|Hc]; cbn [negb].
  - unfold mbind at 1, eff_bind at 1.
    destruct (Evm.execute _ _ _ _ s) as [r' s''] eqn:He. intros Hr. right.
    exists decoded, r'. destruct r'; injection Hr as <- <-; done.
  - intros [= <- <-]. by left.
Qed.

(** ** Examples *)
Module EthTxExamples.
Import Toy ToyRevm EvmExamples.
#[local] Instance keccak : KeccakBackend := ToyHash.digest 5.
(** Recovery that names the key by the signature bytes. *)
#[local] Instance ecdsa : EcdsaBackend := {|
  Signature := list byte; RecoveryId := Z; VerifyingKey := list byte;
  signature_from_bytes bs := Ok bs;
  recovery_id_from_byte v := if v <? 4 then Some v else None;
  recover_from_prehash h sig _ := Ok (array_bytes h ++ sig);
  to_encoded_point key := x04 :: key
|}.
#[local] Instance hex_in : HexBackend := λ s, Ok (bytes_of_string s).

Lemma rlp_roundtrip_witness :
  Rlp.rlp_decode_list 4 (Rlp.rlp_encode_list [[x01]; [xfe; x02]; []]) =
    Some (Ok [[x01]; [xfe; x02]; []]) ∧
  Rlp.rlp_to_u64 (Rlp.rlp_from_u64 256) = 256.
Proof. apply (rlp_roundtrip [[x01]; [xfe; x02]; []] 4 256); vm_compute; [lia | done..]. Defined.

Lemma rlp_decode_list_termination_witness :
  Rlp.rlp_decode_list 4 [xc2; x01; x02] = Some (Ok [[x01]; [x02]]).
Proof.
  refine (proj1 (rlp_decode_list_termination [xc2; x01; x02]) 9%nat _ _). reflexivity.
Defined.

Definition raw_legacy : list byte := Rlp.rlp_encode_list
  [[]; [x05]; [x52; x08]; array_bytes carol; [x07]; [];
   Rlp.rlp_from_u64 (35 + 2 * 1 + 1); [x11]; [x12]].
Lemma decode_legacy_eip155_witness :
  EthTx.decode_raw_bytes 10 raw_legacy = Some (
    sender ← EthTx.recover_sender (keccak256 (Rlp.rlp_encode_list
        [[]; [x05]; [x52; x08]; array_bytes carol; [x07]; []; Rlp.rlp_from_u64 1; []; []]))
        [x11] [x12] 1;
    Ok {| de_sender := sender; de_nonce := be_value []; de_gas_price := be_value [x05];
          de_gas_limit := be_value [x52; x08]; de_to := array_of 20 (array_bytes carol);
          de_value := be_value [x07]; de_data := []; de_chain_id := 1;
          de_tx_hash := keccak256 raw_legacy |}).
Proof.
  apply (decode_legacy_eip155 10 [] [x05] [x52; x08] (array_bytes carol) [x07] [] [x11] [x12] 1 1);
    [lia | vm_compute; lia | lia | lia | lia | vm_compute; discriminate].
Defined.

Lemma eip1559_signing_input_differs_witness :
  EthTx.signing_input_eip1559 (replicate 8 [x01] ++ [xc0] :: [[]; [x11]; [x12]]) ≠
  x02 :: Rlp.rlp_encode_list_header (len_of (payload (replicate 8 [x01]) ++ [xc0])) [] ++
    payload (replicate 8 [x01]) ++ [xc0].
Proof.
  apply (eip1559_signing_input_differs (replicate 8 [x01]) [[]; [x11]; [x12]] xc0 []);
    vm_compute; [reflexivity | discriminate | discriminate].
Defined.

Definition raw_string : string := String.string_of_list_byte raw_legacy.
Definition sent : res EvmError (Hash32 * EvmCallResult) * MemoryInner :=
  default (Panic, MemoryInner_default)
    (EthTx.execute_raw_ethereum_tx ToyOqs.scheme (λ _, "") 10 machine raw_string MemoryInner_default).
Example raw_transaction_pays :
  is_ok sent.1 = true ∧ ea_balance <$> Store.get_evm_account carol sent.2 = Some 7.
Proof. vm_compute. done. Qed.
Lemma execute_raw_exact_witness :
  (sent.2 = MemoryInner_default ∧ is_ok sent.1 = false) ∨
  ∃ decoded r', EthTx.decode_raw_tx 10 raw_string = Some (Ok decoded) ∧
    de_chain_id decoded = ex_evm_chain_id machine ∧
    Evm.execute ToyOqs.scheme machine (de_sender decoded) (EthTx.evm_transaction decoded)
      MemoryInner_default = (r', sent.2) ∧
    sent.1 = (λ out, (de_tx_hash decoded, out)) <$> r'.
Proof.
  apply (execute_raw_exact ToyOqs.scheme (λ _, "") 10 machine raw_string MemoryInner_default).
  vm_compute. reflexivity.
Defined.
End EthTxExamples.
