(* ===== verification/Execution.v ===== *)
(** [crates/zeno-execution]: the execution engine.  It applies transactions to a state
    snapshot, adds the block accounting, and builds, checks and commits blocks. *)

From S2P Require Import Prelude Types Codec Hash Crypto Wire Toy Primitives Storage Smt Staking.
From S2P Require Import Zk Evm.
From stdpp Require Import pretty.
Open Scope Z_scope.

(** ** Error texts ([Display]) *)
Module Display.
Definition transaction_error (e : TransactionError) : string :=
  match e with
  | ZeroAmount => "amount must be non-zero"
  | ZeroFee => "fee must be non-zero"
  | MemoTooLarge => "memo too large"
  | Expired height => "transaction expired at height " +:+ pretty height
  | WrongChainId => "wrong chain id"
  | InsufficientBalance => "insufficient balance"
  | InvalidNonce expected actual =>
      "invalid nonce expected " +:+ pretty expected +:+ " got " +:+ pretty actual
  | SenderMismatch => "sender does not match public key"
  | InvalidSignature => "signature invalid"
  | TransactionTooLarge size => "transaction too large (" +:+ pretty size +:+ " bytes)"
  | GasLimitExceeded max actual =>
      "gas limit exceeded (max " +:+ pretty max +:+ ", got " +:+ pretty actual +:+ ")"
  end.
Definition crypto_error (e : CryptoError) : string :=
  match e with
  | MalformedKey => "unsupported or malformed key material"
  | MalformedSignature => "malformed signature"
  | CryptoInvalidSignature => "signature verification failed"
  | Backend msg => "backend error: " +:+ msg
  end.
Definition codec_error (e : CodecError) : string :=
  match e with
  | Encode msg => "encode failed: " +:+ msg
  | Decode msg => "decode failed: " +:+ msg
  | TrailingBytes => "trailing bytes detected"
  end.
Definition any_error (e : AnyError) : string :=
  match e with
  | Anyhow msg => msg
  | TxErr e => transaction_error e
  | CryptoErr e => crypto_error e
  | CodecErr e => codec_error e
  end.
Definition evm_error (e : EvmError) : string :=
  match e with
  | ContractNotFound => "contract not found"
  | EvmExecution msg => "evm execution failed: " +:+ msg
  end.
Definition state_error (e : StateError) : string :=
  match e with
  | StateStorage msg => "storage error: " +:+ msg
  | State msg => "state error: " +:+ msg
  end.
End Display.

Inductive ExecutionError :=
  | ExTransaction (msg : string)
  | ExBlock (msg : string)
  | ExState (msg : string).
Definition execution_error (e : ExecutionError) : string :=
  match e with
  | ExTransaction msg => "transaction invalid: " +:+ msg
  | ExBlock msg => "block invalid: " +:+ msg
  | ExState msg => "state error: " +:+ msg
  end.

Record BlockExecutionResult := {
  ber_block : Block;
  ber_receipts : list Receipt;
  ber_epoch_transition : option EpochTransition;
  ber_proposer_fees : Z;
  ber_state : Smt.StateSnapshot
}.
Record AccountingArtifacts := {
  aa_staking : option StakingState;
  aa_governance : option GovernanceState;
  aa_epoch_transition : option EpochTransition
}.
Record PreparedBlock := {
  pb_state : Smt.StateSnapshot;
  pb_receipts : list Receipt;
  pb_proposer_fees : Z;
  pb_accounting : AccountingArtifacts
}.

Definition NATIVE_TRANSFER_GAS : Z := 21000.
Definition GAS_PER_BYTE : Z := 16.
Definition BASE_FEE_CHANGE_DENOMINATOR : Z := 8.
Definition MIN_BASE_FEE : Z := 1.

Record ExecutionEngine := {
  en_chain_id : ChainId;
  en_evm_chain_id : option Z;
  en_economics : option EconomicsParams;
  en_validators : list Validator;
  en_target_gas_per_block : Z
}.

Definition last20 (bytes : array 32) : EvmAddress := array_pad 20 (drop 12 (array_bytes bytes)).
Definition treasury_address : Address := array_repeat 32 x00.

Module Execution.

(** ** Gas *)
Definition compute_native_gas (tx : Transaction) : Z :=
  let memo_gas := match tb_memo (tx_body tx) with
    | Some m => wrapping U64_MAX (Z.of_nat (String.length m) * GAS_PER_BYTE)
    | None => 0
    end in
  let sig_gas := Z.of_nat (length (tx_signature tx)) / 32 * 10 in
  wrapping U64_MAX (NATIVE_TRANSFER_GAS + memo_gas + sig_gas).

(** A division by a zero target panics. *)
Definition base_fee_delta (base gas target_gas : Z) : res AnyError Z :=
  if target_gas =? 0 then Panic
  else Ok (saturating_mul U128_MAX base gas / target_gas / BASE_FEE_CHANGE_DENOMINATOR).
Definition update_base_fee (current : GasPricingState) (target_gas : Z) :
    res AnyError GasPricingState :=
  let base := if gps_base_fee current =? 0 then MIN_BASE_FEE else gps_base_fee current in
  new_base ← (if target_gas <? gps_last_block_gas_used current then
      delta ← base_fee_delta base
        (saturating_sub (gps_last_block_gas_used current) target_gas) target_gas;
      Ok (saturating_add U128_MAX base (Z.max delta 1))
    else
      delta ← base_fee_delta base
        (saturating_sub target_gas (gps_last_block_gas_used current)) target_gas;
      Ok (Z.max (saturating_sub base delta) MIN_BASE_FEE));
  Ok {| gps_base_fee := new_base; gps_last_block_gas_used := 0 |}.

(** ** Construction *)
Definition new (chain_id : ChainId) : ExecutionEngine :=
  {| en_chain_id := chain_id; en_evm_chain_id := None; en_economics := None;
     en_validators := []; en_target_gas_per_block := 15000000 |}.
Definition with_evm (chain_id : ChainId) (evm_chain_id : option Z) : ExecutionEngine :=
  {| en_chain_id := chain_id; en_evm_chain_id := evm_chain_id; en_economics := None;
     en_validators := []; en_target_gas_per_block := 15000000 |}.
Definition with_protocol (chain_id : ChainId) (evm_chain_id : option Z)
    (economics : EconomicsParams) (validators : list Validator) : ExecutionEngine :=
  {| en_chain_id := chain_id; en_evm_chain_id := evm_chain_id;
     en_economics := Some economics; en_validators := validators;
     en_target_gas_per_block := 15000000 |}.

Section execution.
Context `{HashBackend, HexEncode, ChainCodec, RevmBackend} (default_scheme : SignatureScheme)
  (self : ExecutionEngine) (scheme : SignatureScheme).

(** The store is shared; the snapshot is the caller's local copy of the accounts. *)
Abbreviation exec := (eff (MemoryInner * Smt.StateSnapshot) ExecutionError).

(** ** Transactions *)
Definition validate_transaction (state : Smt.StateSnapshot) (current_height : Z)
    (tx : Transaction) : res TransactionError () :=
  _ ← verify_transaction scheme (en_chain_id self) tx current_height;
  let sender := Smt.account state (tb_sender (tx_body tx)) in
  if negb (acct_nonce sender =? tb_nonce (tx_body tx))
  then Err (InvalidNonce (acct_nonce sender) (tb_nonce (tx_body tx))) else
  let total := saturating_add U128_MAX (tb_amount (tx_body tx)) (tb_fee (tx_body tx)) in
  if acct_balance sender <? total then Err InsufficientBalance else Ok tt.

Definition modify_state (f : Smt.StateSnapshot → Smt.StateSnapshot) : exec () :=
  eff_modify (λ '(store, state), (store, f state)).
(** A computation over the store inside one over the store and the snapshot. *)
Definition on_store {A} (m : eff MemoryInner ExecutionError A) : exec A :=
  λ '(store, state), let '(r, store) := m store in (r, (store, state)).

Definition execute_payload (evm_tx : EvmTransaction) (sender : Address) :
    exec (option EvmCallResult) :=
  evm_chain_id ← eff_lift (ok_or (ExTransaction "evm execution not enabled")
    (en_evm_chain_id self));
  on_store (λ store,
    let '(r, store) := Evm.execute default_scheme {| ex_evm_chain_id := evm_chain_id |}
                         (last20 sender) evm_tx store in
    (Some <$> map_err (λ e, ExTransaction (Display.evm_error e)) r, store)).
Definition credit (address : Address) (amount : Z) (state : Smt.StateSnapshot) :
    Smt.StateSnapshot :=
  let account := Smt.account state address in
  Smt.put_account address {| acct_nonce := acct_nonce account;
    acct_balance := saturating_add U128_MAX (acct_balance account) amount |} state.

(** The sender is charged before the payload runs; an EVM payload credits nobody. *)
Definition apply_transaction (height : Z) (tx : Transaction) : exec Receipt :=
  '(_, state) ← eff_get;
  _ ← eff_lift (map_err (λ e, ExTransaction (Display.transaction_error e))
        (validate_transaction state height tx));
  let body := tx_body tx in
  let sender := Smt.account state (tb_sender body) in
  total_cost ← eff_lift (ok_or (ExTransaction "amount + fee overflow")
    (checked_add U128_MAX (tb_amount body) (tb_fee body)));
  balance ← eff_lift (ok_or (ExTransaction "insufficient balance (checked)")
    (checked_sub (acct_balance sender) total_cost));
  nonce ← eff_lift (ok_or (ExTransaction "nonce overflow")
    (checked_add U64_MAX (acct_nonce sender) 1));
  _ ← modify_state (Smt.put_account (tb_sender body)
        {| acct_nonce := nonce; acct_balance := balance |});
  evm_result ← match tb_evm body with
    | Some evm_tx => execute_payload evm_tx (tb_sender body)
    | None =>
        _ ← modify_state (credit (tb_recipient body) (tb_amount body));
        mret None
    end;
  mret {| rc_tx_hash := Transaction_id tx; rc_height := height;
          rc_fee_charged := tb_fee body; rc_outcome := Success; rc_evm := evm_result |}.

(** The loop over the transactions of a block: the fees wrap around. *)
Fixpoint apply_transactions (height : Z) (txs : list Transaction) (fees : Z)
    (receipts : list Receipt) : exec (Z * list Receipt) :=
  match txs with
  | [] => mret (fees, receipts)
  | tx :: txs =>
      receipt ← apply_transaction height tx;
      apply_transactions height txs (wrapping U128_MAX (fees + rc_fee_charged receipt))
        (receipts ++ [receipt])
  end.

(** ** Block accounting *)
Definition epoch_step (height : Z) (economics : EconomicsParams) (staking : StakingState)
    (governance : GovernanceState) :
    res AnyError (StakingState * GovernanceState * option EpochTransition) :=
  if negb (ec_epoch_length economics =? 0) && (height mod ec_epoch_length economics =? 0) then
    let '(r, staking) := Staking.apply_downtime_slashing (gs_economics governance) staking in
    _ ← map_err (λ e, Anyhow (Display.state_error e)) r;
    let '(_, staking) := Staking.settle_epoch_rewards 0 0 (gs_economics governance) staking in
    let '(_, governance) := Governance.activate_ready_updates (ss_epoch staking) governance in
    Ok (staking, governance,
        Some (Staking.build_epoch_transition height (gs_economics governance) staking))
  else Ok (staking, governance, None).
Definition apply_block_accounting (proposer : Address) (total_fees height : Z) :
    eff (MemoryInner * Smt.StateSnapshot) AnyError AccountingArtifacts :=
  '(store, _) ← eff_get;
  match en_economics self with
  | Some economics =>
      let staking := Staking.ensure_validators (en_validators self) (Staking.load store) in
      let governance := Governance.load economics store in
      let treasury_cut :=
        saturating_mul U128_MAX total_fees (ec_treasury_bps economics) / 10000 in
      let proposer_reward := saturating_sub total_fees treasury_cut in
      _ ← eff_modify (λ '(store, state), (store, credit proposer proposer_reward state));
      _ ← eff_modify (λ '(store, state), (store, credit treasury_address treasury_cut state));
      let staking :=
        upd_ss_treasury_balance (λ t, saturating_add U128_MAX t treasury_cut) staking in
      '(staking, governance, epoch_transition) ←
        eff_lift (epoch_step height economics staking governance);
      mret {| aa_staking := Some staking; aa_governance := Some governance;
              aa_epoch_transition := epoch_transition |}
  | None =>
      _ ← eff_modify (λ '(store, state),
        let account := Smt.account state proposer in
        (store, Smt.put_account proposer {| acct_nonce := acct_nonce account;
          acct_balance := wrapping U128_MAX (acct_balance account + total_fees) |} state));
      mret {| aa_staking := None; aa_governance := None; aa_epoch_transition := None |}
  end.

(** ** Blocks *)

(** [let mut state = StateSnapshot::load(store)?]: runs a computation on a local copy. *)
Definition on_snapshot {E A} (m : eff (MemoryInner * Smt.StateSnapshot) E A) :
    eff MemoryInner E (A * Smt.StateSnapshot) :=
  λ store, let '(r, (store, state)) := m (store, Smt.load store) in
           ((λ a, (a, state)) <$> r, store).
Definition err_into {S E F A} (f : E → F) (m : eff S E A) : eff S F A :=
  λ s, let '(r, s) := m s in (map_err f r, s).

Definition run_block (height : Z) (proposer : Address) (txs : list Transaction) :
    exec (list Receipt * Z * AccountingArtifacts) :=
  '(fees, receipts) ← apply_transactions height txs 0 [];
  accounting ← err_into (λ e, ExState (Display.any_error e))
    (apply_block_accounting proposer fees height);
  mret (receipts, fees, accounting).

Definition parent_hash (store : MemoryInner) : Hash32 :=
  match Store.latest_block store with
  | Some entry => Block_hash (fb_block entry)
  | None => zero
  end.
Definition prepare_block (block : Block) : eff MemoryInner ExecutionError PreparedBlock :=
  let header := bk_header block in
  _ ← eff_lift (map_err (λ e, ExBlock (Display.any_error e)) (verify_block scheme block));
  store ← eff_get;
  if bool_decide (bh_parent_hash header ≠ parent_hash store)
  then eff_lift (Err (ExBlock "parent hash mismatch")) else
  '(receipts, proposer_fees, accounting, state) ←
    on_snapshot (run_block (bh_height header) (bh_proposer header) (bk_transactions block));
  if bool_decide (bh_tx_root header ≠ transaction_root (bk_transactions block))
  then eff_lift (Err (ExBlock "tx root mismatch")) else
  if bool_decide (bh_receipt_root header ≠ receipt_root receipts)
  then eff_lift (Err (ExBlock "receipt root mismatch")) else
  if bool_decide (bh_state_root header ≠ Smt.state_root state)
  then eff_lift (Err (ExBlock "state root mismatch")) else
  mret {| pb_state := state; pb_receipts := receipts; pb_proposer_fees := proposer_fees;
          pb_accounting := accounting |}.

Definition persist_accounting (prepared : PreparedBlock) (store : MemoryInner) : MemoryInner :=
  let store := Smt.persist (pb_state prepared) store in
  let store := match aa_staking (pb_accounting prepared) with
    | Some staking => Staking.persist staking store | None => store end in
  let store := match aa_governance (pb_accounting prepared) with
    | Some governance => Governance.persist governance store | None => store end in
  match aa_epoch_transition (pb_accounting prepared) with
  | Some transition => Store.put_epoch_transition transition store | None => store end.
Definition commit_finalized_block (finalized : FinalizedBlock) (state : Smt.StateSnapshot)
    (store : MemoryInner) : MemoryInner := Store.atomic_commit_block finalized state store.

Definition execute_block (block : Block) : eff MemoryInner ExecutionError BlockExecutionResult :=
  prepared ← prepare_block block;
  _ ← eff_modify (persist_accounting prepared);
  mret {| ber_block := block; ber_receipts := pb_receipts prepared;
          ber_epoch_transition := aa_epoch_transition (pb_accounting prepared);
          ber_proposer_fees := pb_proposer_fees prepared; ber_state := pb_state prepared |}.
Definition validate_and_commit_finalized_block (finalized : FinalizedBlock) :
    eff MemoryInner ExecutionError () :=
  prepared ← prepare_block (fb_block finalized);
  if bool_decide (pb_receipts prepared ≠ fb_receipts finalized)
  then eff_lift (Err (ExBlock "receipt bundle mismatch")) else
  if bool_decide (aa_epoch_transition (pb_accounting prepared) ≠ fb_epoch_transition finalized)
  then eff_lift (Err (ExBlock "epoch transition mismatch")) else
  _ ← eff_modify (commit_finalized_block finalized (pb_state prepared));
  eff_modify (persist_accounting prepared).

Definition build_header (proposer : Address) (height round timestamp_ms : Z)
    (transactions : list Transaction) (state_after : Smt.StateSnapshot)
    (receipts : list Receipt) (store : MemoryInner) : BlockHeader := {|
  bh_height := height; bh_round := round; bh_chain_id := en_chain_id self;
  bh_parent_hash := parent_hash store; bh_tx_root := transaction_root transactions;
  bh_state_root := Smt.state_root state_after; bh_receipt_root := receipt_root receipts;
  bh_proposer := proposer; bh_timestamp_ms := timestamp_ms |}.

(** The EVM payloads of a dry run do write to the store. *)
Definition dry_run_transactions (height : Z) (transactions : list Transaction)
    (proposer : Address) : eff MemoryInner AnyError (Smt.StateSnapshot * list Receipt) :=
  '(receipts, _, state) ← on_snapshot (
    '(fees, receipts) ← err_into (λ e, Anyhow (execution_error e))
      (apply_transactions height transactions 0 []);
    accounting ← err_into (λ e, Anyhow (Display.any_error e))
      (apply_block_accounting proposer fees height);
    mret (receipts, accounting));
  mret (state, receipts).
End execution.
End Execution.

(** ** One transaction *)
Section transactions.
Context `{HashBackend, HexEncode, ChainCodec, RevmBackend} (default_scheme : SignatureScheme)
  (self : ExecutionEngine) (scheme : SignatureScheme).

Abbreviation apply_tx := (Execution.apply_transaction default_scheme self scheme).
Abbreviation apply_txs := (Execution.apply_transactions default_scheme self scheme).

(** What the engine requires of a transaction on a snapshot. *)
Record payable (state : Smt.StateSnapshot) (height : Z) (tx : Transaction) : Prop := {
  pay_admissible : admissible scheme (en_chain_id self) tx height;
  pay_nonce : tb_nonce (tx_body tx) = acct_nonce (Smt.account state (tb_sender (tx_body tx)));
  pay_balance : tb_amount (tx_body tx) + tb_fee (tx_body tx) ≤
    acct_balance (Smt.account state (tb_sender (tx_body tx)));
  pay_no_overflow : tb_amount (tx_body tx) + tb_fee (tx_body tx) ≤ U128_MAX;
  pay_nonce_room : tb_nonce (tx_body tx) + 1 ≤ U64_MAX
}.
Definition charge (tx : Transaction) (state : Smt.StateSnapshot) : Smt.StateSnapshot :=
  Smt.put_account (tb_sender (tx_body tx))
    {| acct_nonce := tb_nonce (tx_body tx) + 1;
       acct_balance := acct_balance (Smt.account state (tb_sender (tx_body tx))) -
         (tb_amount (tx_body tx) + tb_fee (tx_body tx)) |} state.
Definition receipt_of (height : Z) (tx : Transaction) (evm : option EvmCallResult) : Receipt :=
  {| rc_tx_hash := Transaction_id tx; rc_height := height;
     rc_fee_charged := tb_fee (tx_body tx); rc_outcome := Success; rc_evm := evm |}.

Lemma validate_ok state height tx :
  Execution.validate_transaction self scheme state height tx = Ok tt ↔
  admissible scheme (en_chain_id self) tx height ∧
  tb_nonce (tx_body tx) = acct_nonce (Smt.account state (tb_sender (tx_body tx))) ∧
  saturating_add U128_MAX (tb_amount (tx_body tx)) (tb_fee (tx_body tx)) ≤
    acct_balance (Smt.account state (tb_sender (tx_body tx))).
Proof.
  unfold Execution.validate_transaction. rewrite res_bind_ok. setoid_rewrite verify_transaction_ok.
  setoid_rewrite guard_ok. setoid_rewrite guard_ok. setoid_rewrite negb_false_iff.
  setoid_rewrite Z.eqb_eq. setoid_rewrite Z.ltb_ge. naive_solver.
Qed.

(** The run up to the payload, on every branch. *)
Lemma apply_transaction_eq height tx store state :
  (payable state height tx ∧
   apply_tx height tx (store, state) =
   match tb_evm (tx_body tx) with
   | None => (Ok (receipt_of height tx None),
       (store, Execution.credit (tb_recipient (tx_body tx)) (tb_amount (tx_body tx))
         (charge tx state)))
   | Some evm_tx =>
       let '(r, s) := Execution.execute_payload default_scheme self evm_tx (tb_sender (tx_body tx))
         (store, charge tx state) in
       (receipt_of height tx <$> r, s)
   end) ∨
  (¬ payable state height tx ∧ (apply_tx height tx (store, state)).2 = (store, state) ∧
   is_ok (apply_tx height tx (store, state)).1 = false).
Proof.
  unfold Execution.apply_transaction, mbind, eff_bind, eff_get, eff_lift, mret, eff_ret.
  destruct (Execution.validate_transaction self scheme state height tx) as [[]|e|] eqn:Hv;
    cbn [map_err].
  2,3: right; split_and!; [|done..]; intros Hp;
    assert (Execution.validate_transaction self scheme state height tx = Ok tt) as Hv';
      [|by rewrite Hv in Hv']; apply validate_ok; destruct Hp;
      split_and!; [done..|ulia].
  apply validate_ok in Hv as (Ha & Hn & Hb).
  unfold checked_add, checked_sub. rewrite <-Hn.
  destruct (decide (tb_amount _ + _ ≤ U128_MAX)) as [Ht|Ht]; cbn [ok_or].
  2:{ right. split_and!; [|done..]. by intros []. }
  destruct (decide (_ ≤ acct_balance _)) as [Hs|Hs]; cbn [ok_or]; [|ulia].
  destruct (decide (tb_nonce (tx_body tx) + 1 ≤ U64_MAX)) as [Hr|Hr]; cbn [ok_or].
  2:{ right. split_and!; [|done..]. by intros []. }
  left. split.
  { split; [done..|ulia|done|done]. }
  unfold Execution.modify_state, eff_modify. fold (charge tx state).
  destruct (tb_evm (tx_body tx)) as [evm_tx|]; [|done].
  destruct (Execution.execute_payload _ _ _ _ _) as [[r|e|] s]; done.
Qed.

(** The snapshot after an applied transaction. *)
Definition settle (tx : Transaction) (state : Smt.StateSnapshot) : Smt.StateSnapshot :=
  match tb_evm (tx_body tx) with
  | None => Execution.credit (tb_recipient (tx_body tx)) (tb_amount (tx_body tx)) (charge tx state)
  | Some _ => charge tx state
  end.
Lemma execute_payload_snapshot evm_tx a store state :
  (Execution.execute_payload default_scheme self evm_tx a (store, state)).2.2 = state.
Proof.
  unfold Execution.execute_payload, mbind, eff_bind, eff_lift.
  destruct (ok_or _ _); [|done..]. simpl.
  by destruct (Evm.execute _ _ _ _ _).
Qed.
(** Whatever the payload, a transaction applies only when it is payable; it then moves
    the snapshot by [settle] and charges its fee.  Otherwise the snapshot is at most
    charged, and a native transaction leaves everything as it was. *)
Lemma apply_transaction_ok height tx store state rc s' :
  apply_tx height tx (store, state) = (Ok rc, s') →
  payable state height tx ∧ s'.2 = settle tx state ∧ rc_fee_charged rc = tb_fee (tx_body tx).
Proof.
  intros Hrun. destruct (apply_transaction_eq height tx store state) as [[Hp E]|(_ & _ & Hn)];
    [|by rewrite Hrun in Hn]. rewrite Hrun in E. split; [done|]. unfold settle.
  destruct (tb_evm (tx_body tx)) as [evm_tx|]; [|by simplify_eq].
  pose proof (execute_payload_snapshot evm_tx (tb_sender (tx_body tx)) store (charge tx state)) as Hs.
  destruct (Execution.execute_payload _ _ _ _ _) as [[r|e|] s]; by simplify_eq/=.
Qed.
Lemma apply_ok_payable height tx store state :
  is_ok (apply_tx height tx (store, state)).1 = true → payable state height tx.
Proof.
  destruct (apply_tx height tx (store, state)) as [[rc|e|] s'] eqn:E; [intros _|done..].
  by eapply apply_transaction_ok.
Qed.
Lemma apply_transaction_native height tx store state r s' :
  tb_evm (tx_body tx) = None → apply_tx height tx (store, state) = (r, s') →
  s'.1 = store ∧ (is_ok r = false → s' = (store, state)) ∧
  (payable state height tx → r = Ok (receipt_of height tx None) ∧ s'.2 = settle tx state).
Proof.
  intros Hevm Hrun. destruct (apply_transaction_eq height tx store state) as [[Hp E]|(Hn & E2 & E1)].
  - rewrite Hevm, Hrun in E. simplify_eq. split_and!; [done..|]. intros _.
    unfold settle. by rewrite Hevm.
  - rewrite Hrun in *. simpl in *. by subst.
Qed.

(** *** Nonces *)
Definition nonce_of (state : Smt.StateSnapshot) (a : Address) : Z := acct_nonce (Smt.account state a).
Lemma account_put state a acc b :
  Smt.account (Smt.put_account a acc state) b = if decide (a = b) then acc else Smt.account state b.
Proof.
  unfold Smt.account, Smt.put_account, Smt.StateSnapshot in *. case_decide as E.
  - subst. by rewrite (lookup_insert_eq (M:=gmap Address)).
  - by rewrite (lookup_insert_ne (M:=gmap Address)).
Qed.
Lemma nonce_credit state a n b : nonce_of (Execution.credit a n state) b = nonce_of state b.
Proof. unfold nonce_of, Execution.credit. rewrite account_put. by case_decide; subst. Qed.
Lemma nonce_settle tx state a :
  tb_nonce (tx_body tx) = nonce_of state (tb_sender (tx_body tx)) →
  nonce_of (settle tx state) a =
  nonce_of state a + if decide (a = tb_sender (tx_body tx)) then 1 else 0.
Proof.
  intros Hn. assert (nonce_of (settle tx state) a = nonce_of (charge tx state) a) as ->.
  { unfold settle. destruct (tb_evm _); [done|]. apply nonce_credit. }
  unfold charge, nonce_of. rewrite account_put.
  repeat case_decide; try congruence; subst; cbn [acct_nonce]; unfold nonce_of in *; lia.
Qed.

(** *** Supply *)
Definition supply (state : Smt.StateSnapshot) : Z := msum (λ _, acct_balance) state.
(** Balances are unsigned and their sum fits [u128]. *)
Definition solvent (state : Smt.StateSnapshot) : Prop :=
  (∀ a, 0 ≤ acct_balance (Smt.account state a)) ∧ supply state ≤ U128_MAX.
(** The value that an EVM payload takes out of the native accounts. *)
Definition burned (tx : Transaction) : Z :=
  match tb_evm (tx_body tx) with Some _ => tb_amount (tx_body tx) | None => 0 end.
Definition unsigned (tx : Transaction) : Prop :=
  0 ≤ tb_amount (tx_body tx) ∧ 0 ≤ tb_fee (tx_body tx).

Lemma supply_put a acc state :
  supply (Smt.put_account a acc state) =
  supply state - acct_balance (Smt.account state a) + acct_balance acc.
Proof.
  unfold supply, Smt.put_account, Smt.account, Smt.StateSnapshot in *. rewrite msum_insert.
  by destruct (state !! a).
Qed.
Lemma snapshot_nonneg state :
  (∀ a, 0 ≤ acct_balance (Smt.account state a)) →
  ∀ k v, (state : gmap Address Account) !! k = Some v → 0 ≤ acct_balance v.
Proof.
  intros Hp k v Hk. specialize (Hp k).
  unfold Smt.account, Smt.StateSnapshot in *. by rewrite Hk in Hp.
Qed.
Lemma balance_le_supply state a :
  (∀ a, 0 ≤ acct_balance (Smt.account state a)) → acct_balance (Smt.account state a) ≤ supply state.
Proof.
  intros Hp. pose proof (snapshot_nonneg state Hp). unfold Smt.account, supply, Smt.StateSnapshot in *.
  destruct (state !! a) as [acc|] eqn:E; simpl.
  - by apply (msum_lookup_le (λ _, acct_balance) state a acc).
  - by apply msum_nonneg.
Qed.
(** A credit that stays within [u128] raises the supply by its amount. *)
Lemma supply_credit a n state :
  solvent state → 0 ≤ n → supply state + n ≤ U128_MAX →
  supply (Execution.credit a n state) = supply state + n ∧ solvent (Execution.credit a n state).
Proof.
  intros [Hpos Hmax] Hn Hle. pose proof (balance_le_supply state a Hpos).
  assert (supply (Execution.credit a n state) = supply state + n) as E.
  { unfold Execution.credit. rewrite supply_put. cbn [acct_balance]. ulia. }
  split; [done|]. split; [|lia]. intros b. unfold Execution.credit. rewrite account_put.
  case_decide; [|done]. cbn [acct_balance]. specialize (Hpos a). ulia.
Qed.
Lemma supply_charge tx state height :
  payable state height tx → unsigned tx → solvent state →
  supply (charge tx state) = supply state - (tb_amount (tx_body tx) + tb_fee (tx_body tx)) ∧
  solvent (charge tx state).
Proof.
  intros [_ _ Hb _ _] [Ha Hf] [Hpos Hmax].
  assert (supply (charge tx state) =
    supply state - (tb_amount (tx_body tx) + tb_fee (tx_body tx))) as E.
  { unfold charge. rewrite supply_put. cbn [acct_balance]. lia. }
  split; [done|]. split; [|lia]. intros b. unfold charge. rewrite account_put.
  case_decide; [|done]. cbn [acct_balance]. lia.
Qed.
Lemma supply_settle tx state height :
  payable state height tx → unsigned tx → solvent state →
  supply (settle tx state) = supply state - tb_fee (tx_body tx) - burned tx ∧
  solvent (settle tx state).
Proof.
  intros Hp Hu Hs. destruct (supply_charge tx state height Hp Hu Hs) as [E Hc].
  destruct Hu as [Ha Hf], Hs as [Hpos Hmax]. unfold settle, burned.
  destruct (tb_evm (tx_body tx)); [split; [lia|done]|].
  destruct (supply_credit (tb_recipient (tx_body tx)) (tb_amount (tx_body tx)) (charge tx state))
    as [-> ?]; [done|done|lia|split; [lia|done]].
Qed.

(** ** The transactions of a block *)
Inductive settled (height : Z) : list Transaction → Smt.StateSnapshot → Smt.StateSnapshot → Prop :=
  | settled_nil state : settled height [] state state
  | settled_cons tx txs state state' :
      payable state height tx → settled height txs (settle tx state) state' →
      settled height (tx :: txs) state state'.

Lemma wrapping_add_l max a b : wrapping max (wrapping max a + b) = wrapping max (a + b).
Proof. unfold wrapping. apply Zplus_mod_idemp_l. Qed.
Abbreviation fees_of txs := (lsum (λ tx, tb_fee (tx_body tx)) txs).

Lemma apply_transactions_ok height txs fees rcs store state fees' rcs' s' :
  apply_txs height txs fees rcs (store, state) = (Ok (fees', rcs'), s') →
  in_range U128_MAX fees →
  settled height txs state s'.2 ∧ fees' = wrapping U128_MAX (fees + fees_of txs).
Proof.
  revert fees rcs store state. induction txs as [|tx txs IH]; intros fees rcs store state Hrun Hf.
  - unfold Execution.apply_transactions, mret, eff_ret in Hrun. simplify_eq.
    split; [constructor|]. cbn. by rewrite Z.add_0_r, wrapping_small.
  - cbn [Execution.apply_transactions] in Hrun.
    apply eff_bind_inv_ok in Hrun as (rc & [store1 state1] & Htx & Hrun).
    apply apply_transaction_ok in Htx as (Hp & Hs & Hfee). simpl in Hs. subst state1.
    apply IH in Hrun as [Hset ->]; [|by apply wrapping_range].
    split; [by econstructor|]. rewrite wrapping_add_l, Hfee, lsum_cons. f_equal. lia.
Qed.
(** Native transactions never touch the store. *)
Abbreviation native txs := (Forall (λ tx, tb_evm (tx_body tx) = None) txs).
Lemma apply_transactions_native height txs fees rcs store state :
  native txs → (apply_txs height txs fees rcs (store, state)).2.1 = store.
Proof.
  intros Hall. revert fees rcs state. induction Hall as [|tx txs Hn Hall IH]; intros fees rcs state;
    [done|].
  cbn [Execution.apply_transactions]. unfold mbind, eff_bind.
  destruct (apply_tx height tx (store, state)) as [r [store' state']] eqn:E.
  pose proof (apply_transaction_native height tx store state r _ Hn E) as (Hst & _).
  simpl in Hst. subst. destruct r; [apply IH | done..].
Qed.

(** *** Consequences for a block *)
Lemma settled_nonce_le height txs state state' a :
  settled height txs state state' → nonce_of state a ≤ nonce_of state' a.
Proof.
  induction 1 as [|tx txs state state' Hp _ IH]; [done|].
  rewrite nonce_settle in IH by apply (pay_nonce _ _ _ Hp). case_decide; lia.
Qed.
Lemma settled_nonces height txs state state' tx :
  settled height txs state state' → tx ∈ txs →
  nonce_of state (tb_sender (tx_body tx)) ≤ tb_nonce (tx_body tx) <
  nonce_of state' (tb_sender (tx_body tx)).
Proof.
  induction 1 as [|tx' txs state state' Hp Hs IH]; [by intros ?%not_elem_of_nil|].
  pose proof (pay_nonce _ _ _ Hp) as Hn. fold (nonce_of state (tb_sender (tx_body tx'))) in Hn.
  intros [->|Hin]%elem_of_cons.
  - apply (settled_nonce_le _ _ _ _ (tb_sender (tx_body tx'))) in Hs.
    rewrite nonce_settle, decide_True in Hs by done. lia.
  - specialize (IH Hin). rewrite nonce_settle in IH by done. case_decide; lia.
Qed.
Lemma settled_NoDup height txs state state' :
  settled height txs state state' →
  NoDup ((λ tx, (tb_sender (tx_body tx), tb_nonce (tx_body tx))) <$> txs).
Proof.
  induction 1 as [|tx txs state state' Hp Hs IH]; [constructor|].
  cbn [fmap list_fmap]. constructor; [|done]. intros (tx' & [= E1 E2] & Hin)%list_elem_of_fmap.
  pose proof (settled_nonces _ _ _ _ _ Hs Hin) as [Hle _].
  rewrite <-E1, <-E2 in Hle.
  rewrite nonce_settle, decide_True in Hle by (done || apply (pay_nonce _ _ _ Hp)).
  pose proof (pay_nonce _ _ _ Hp). unfold nonce_of in Hle. lia.
Qed.
Lemma settled_supply height txs state state' :
  settled height txs state state' → Forall unsigned txs → solvent state →
  supply state' = supply state - fees_of txs - lsum burned txs ∧ solvent state'.
Proof.
  induction 1 as [|tx txs state state' Hp Hs IH]; intros Hu Hsol; [cbn; split; [lia|done]|].
  apply Forall_cons in Hu as [Hu Hus].
  destruct (supply_settle tx state height Hp Hu Hsol) as [E Hsol'].
  destruct (IH Hus Hsol') as [-> ?]. split; [|done]. rewrite !lsum_cons. lia.
Qed.
End transactions.

(** ** Blocks *)
Section blocks.
Context `{HashBackend, HexEncode, ChainCodec, RevmBackend} (default_scheme : SignatureScheme)
  (self : ExecutionEngine) (scheme : SignatureScheme).

Abbreviation native txs := (Forall (λ tx, tb_evm (tx_body tx) = None) txs).
Abbreviation accounting := (Execution.apply_block_accounting self).
Abbreviation run_block := (Execution.run_block default_scheme self scheme).
Abbreviation prepare_block := (Execution.prepare_block default_scheme self scheme).

(** The treasury takes a share of the fees. *)
Definition fair_treasury : Prop :=
  match en_economics self with Some e => 0 ≤ ec_treasury_bps e ≤ 10000 | None => True end.

(** *** Accounting *)
Definition paid (proposer : Address) (fees : Z) (state : Smt.StateSnapshot) : Smt.StateSnapshot :=
  match en_economics self with
  | Some e =>
      let cut := saturating_mul U128_MAX fees (ec_treasury_bps e) / 10000 in
      Execution.credit treasury_address cut
        (Execution.credit proposer (saturating_sub fees cut) state)
  | None => Smt.put_account proposer {|
      acct_nonce := acct_nonce (Smt.account state proposer);
      acct_balance := wrapping U128_MAX (acct_balance (Smt.account state proposer) + fees) |} state
  end.
Lemma accounting_writes proposer fees height store state :
  (accounting proposer fees height (store, state)).2 = (store, paid proposer fees state).
Proof.
  unfold Execution.apply_block_accounting, paid, mbind, eff_bind, eff_get, eff_modify, eff_lift.
  destruct (en_economics self) as [e|]; [|done].
  destruct (Execution.epoch_step _ _ _ _) as [[[st gov] tr]|err|]; done.
Qed.
Lemma nonce_paid proposer fees state a :
  nonce_of (paid proposer fees state) a = nonce_of state a.
Proof.
  unfold paid. destruct (en_economics self); [by rewrite !nonce_credit|].
  unfold nonce_of. rewrite account_put. by case_decide; subst.
Qed.
Lemma supply_paid proposer fees state :
  fair_treasury → 0 ≤ fees → solvent state → supply state + fees ≤ U128_MAX →
  supply (paid proposer fees state) = supply state + fees ∧ solvent (paid proposer fees state).
Proof.
  intros Hfair Hf Hs Hle. unfold paid, fair_treasury in *. destruct (en_economics self) as [e|].
  - set (cut := _ / 10000).
    assert (0 ≤ cut ≤ fees) as Hcut.
    { unfold cut, saturating_mul. Z.to_euclidean_division_equations. nia. }
    destruct (supply_credit proposer (saturating_sub fees cut) state) as [E1 S1]; [done|ulia|ulia|].
    destruct (supply_credit treasury_address cut (Execution.credit proposer (saturating_sub fees cut) state))
      as [E2 S2]; [done|lia|ulia|]. split; [ulia|done].
  - pose proof Hs as [Hpos Hmax]. pose proof (balance_le_supply state proposer Hpos).
    specialize (Hpos proposer) as Hp. rewrite supply_put. cbn [acct_balance].
    rewrite wrapping_small by ulia. split; [lia|]. split.
    + intros b. rewrite account_put. case_decide; [cbn [acct_balance]; lia|done].
    + rewrite supply_put. cbn [acct_balance]. lia.
Qed.

(** *** The run of a block *)
Lemma run_block_ok height proposer txs store state rcs fees acc s' :
  run_block height proposer txs (store, state) = (Ok (rcs, fees, acc), s') →
  ∃ state1, settled self scheme height txs state state1 ∧
    fees = wrapping U128_MAX (lsum (λ tx, tb_fee (tx_body tx)) txs) ∧
    s'.2 = paid proposer fees state1.
Proof.
  unfold Execution.run_block. intros Hrun.
  apply eff_bind_inv_ok in Hrun as ([fees' rcs'] & [store1 state1] & Htx & Hrun).
  apply eff_bind_inv_ok in Hrun as (acc' & s2 & Hacc & Hrun).
  apply apply_transactions_ok in Htx as [Hset ->]; [|ulia]. exists state1.
  unfold Execution.err_into in Hacc. unfold mret, eff_ret in Hrun. simplify_eq.
  pose proof (accounting_writes proposer (wrapping U128_MAX (0 + lsum (λ tx, tb_fee (tx_body tx)) txs))
    height store1 state1) as Hw.
  destruct (accounting _ _ _ _) as [r s2]. simpl in Hw. subst. simplify_eq.
  split_and!; [done| |done]. by rewrite Z.add_0_l.
Qed.
Lemma run_block_native height proposer txs store state :
  native txs → (run_block height proposer txs (store, state)).2.1 = store.
Proof.
  intros Hn. unfold Execution.run_block, mbind, eff_bind.
  pose proof (apply_transactions_native default_scheme self scheme height txs 0 [] store state Hn) as Hs.
  destruct (Execution.apply_transactions _ _ _ _ _ _ _ _) as [[[fees rcs]|e|] [store' state']];
    simpl in Hs; subst; [|done..].
  unfold Execution.err_into. pose proof (accounting_writes proposer fees height store state') as Hw.
  destruct (accounting _ _ _ _) as [[a|e|] s2]; simpl in Hw; by subst.
Qed.

(** What a prepared block satisfies. *)
Definition header_matches (block : Block) (state : Smt.StateSnapshot) (receipts : list Receipt)
    (store : MemoryInner) : Prop :=
  verify_block scheme block = Ok tt ∧
  bh_parent_hash (bk_header block) = Execution.parent_hash store ∧
  bh_tx_root (bk_header block) = transaction_root (bk_transactions block) ∧
  bh_receipt_root (bk_header block) = receipt_root receipts ∧
  bh_state_root (bk_header block) = Smt.state_root state.
Lemma prepare_block_ok block store pb store' :
  prepare_block block store = (Ok pb, store') ↔
  header_matches block (pb_state pb) (pb_receipts pb) store ∧
  run_block (bh_height (bk_header block)) (bh_proposer (bk_header block)) (bk_transactions block)
    (store, Smt.load store) =
    (Ok (pb_receipts pb, pb_proposer_fees pb, pb_accounting pb), (store', pb_state pb)).
Proof.
  unfold Execution.prepare_block, mbind, eff_bind, eff_lift, eff_get, header_matches.
  destruct (verify_block scheme block) as [[]|e|]; cbn [map_err];
    [|split; [done | by intros [[? _] _]]..].
  case_bool_decide as Hp; [split; [done | by intros [(_ & ? & _) _]]|].
  unfold Execution.on_snapshot.
  destruct (run_block _ _ _ _) as [[[[rcs fees] acc]|e|] [st1 state1]]; cbn [fmap res_fmap];
    [|split; [discriminate | by intros [_ ?]]..].
  repeat case_bool_decide.
  1,2,3: split; [discriminate|]; intros [(_ & _ & Ht & Hr & Hs) [= -> -> -> -> ->]]; contradiction.
  repeat match goal with Hd : ¬ (_ ≠ _) |- _ => apply dec_stable in Hd end. unfold mret, eff_ret.
  split; [intros [= <- <-]; by split|].
  intros [_ [= -> -> -> -> ->]]. by destruct pb.
Qed.
(** A failed preparation of native transactions writes nothing; nor does any other. *)
Lemma prepare_block_native block store :
  native (bk_transactions block) → (prepare_block block store).2 = store.
Proof.
  intros Hn. unfold Execution.prepare_block, mbind, eff_bind, eff_lift, eff_get.
  destruct (verify_block scheme block) as [[]|e|]; cbn [map_err]; [|done..].
  case_bool_decide; [done|]. unfold Execution.on_snapshot.
  pose proof (run_block_native (bh_height (bk_header block)) (bh_proposer (bk_header block))
    _ store (Smt.load store) Hn) as Hs.
  destruct (run_block _ _ _ _) as [[[[rcs fees] acc]|e|] [st1 state1]]; simpl in Hs; subst; [|done..].
  simpl. by repeat case_bool_decide.
Qed.

(** *** Persisting a snapshot *)
Lemma foldl_put_lookup (l : list (Address * Account)) s a :
  NoDup l.*1 →
  ms_accounts (foldl (λ s '(address, account), Store.put_account address account s) s l) !! a =
  match list_to_map (M:=gmap Address Account) l !! a with
  | Some acc => Some acc | None => ms_accounts s !! a end.
Proof.
  revert s. induction l as [|[k v] l IH]; intros s Hnd; [by cbn; rewrite lookup_empty|].
  cbn [fmap list_fmap fst] in Hnd. apply NoDup_cons in Hnd as [Hk Hnd].
  cbn [foldl]. rewrite IH by done. cbn [list_to_map foldr curry]. 
  destruct (decide (k = a)) as [->|Hne].
  - rewrite lookup_insert_eq. apply not_elem_of_list_to_map_1 in Hk. rewrite Hk.
    destruct s. simpl. by rewrite lookup_insert_eq.
  - rewrite lookup_insert_ne by done. destruct s. simpl. by rewrite lookup_insert_ne.
Qed.
Lemma foldl_put_entries (state : gmap Address Account) s :
  dom (ms_accounts s) ⊆ dom state →
  ms_accounts (foldl (λ s '(address, account), Store.put_account address account s) s
    (entries state)) = state.
Proof.
  intros Hsub. apply map_eq. intros a. rewrite foldl_put_lookup by apply entries_keys_NoDup.
  assert (list_to_map (entries state) = state) as ->.
  { rewrite (list_to_map_proper (entries state) (map_to_list state));
      [apply list_to_map_to_list | apply entries_keys_NoDup | apply entries_Permutation]. }
  destruct (state !! a) eqn:E; [done|]. apply not_elem_of_dom. intros Ha.
  by apply Hsub, elem_of_dom in Ha as [? ?]; simplify_eq.
Qed.
Lemma dom_put (m : Smt.StateSnapshot) a acc :
  dom (m : gmap Address Account) ⊆ dom (Smt.put_account a acc m : gmap Address Account).
Proof. unfold Smt.put_account. rewrite dom_insert. set_solver. Qed.
Lemma settled_dom height txs state state' :
  settled self scheme height txs state state' →
  dom (state : gmap Address Account) ⊆ dom (state' : gmap Address Account).
Proof.
  induction 1 as [|tx txs state state' _ _ IH]; [done|]. etrans; [|exact IH].
  unfold settle, Execution.credit, charge.
  destruct (tb_evm _); repeat first [apply dom_put | etrans; [apply dom_put|]].
Qed.
Lemma paid_dom proposer fees state :
  dom (state : gmap Address Account) ⊆ dom (paid proposer fees state : gmap Address Account).
Proof.
  unfold paid, Execution.credit.
  destruct (en_economics self); repeat first [apply dom_put | etrans; [apply dom_put|]].
Qed.

Lemma foldl_put_accounts_eq (l : list (Address * Account)) s :
  foldl (λ s '(address, account), Store.put_account address account s) s l =
  upd_accounts (λ m, foldl (λ m '(address, account), <[address := account]> m) m l) s.
Proof.
  revert s. induction l as [|[a acc] l IH]; intros s; [by destruct s|].
  cbn [foldl]. rewrite IH. by destruct s.
Qed.
Lemma foldl_put_receipts_eq (l : list Receipt) s :
  foldl (λ s receipt, Store.put_receipt receipt s) s l =
  upd_receipts (λ m, foldl (λ m receipt, <[rc_tx_hash receipt := receipt]> m) m l) s.
Proof.
  revert s. induction l as [|rc l IH]; intros s; [by destruct s|].
  cbn [foldl]. rewrite IH. by destruct s.
Qed.
Lemma foldl_receipts_lookup (l : list Receipt) (m : gmap Hash32 Receipt) rc :
  rc ∈ l → is_Some (foldl (λ m receipt, <[rc_tx_hash receipt := receipt]> m) m l !! rc_tx_hash rc).
Proof.
  assert (∀ (l : list Receipt) (m : gmap Hash32 Receipt) k, is_Some (m !! k) →
    is_Some (foldl (λ m receipt, <[rc_tx_hash receipt := receipt]> m) m l !! k)) as Hmono.
  { clear. induction l as [|x l IH]; intros m k Hk; [done|]. apply IH.
    destruct (decide (rc_tx_hash x = k)) as [->|]; [by rewrite lookup_insert_eq|].
    by rewrite lookup_insert_ne. }
  revert m. induction l as [|x l IH]; intros m; [by intros ?%not_elem_of_nil|].
  intros [->|Hin]%elem_of_cons; [|by apply IH]. cbn [foldl]. apply Hmono. by rewrite lookup_insert_eq.
Qed.

(** The store after a commit: the block under both keys, its accounts and receipts, and
    the accounting. *)
Record committed (finalized : FinalizedBlock) (pb : PreparedBlock) (store store' : MemoryInner) : Prop := {
  cm_accounts : Store.accounts store' = pb_state pb;
  cm_height : Store.get_block_by_height (bh_height (bk_header (fb_block finalized))) store' =
    Some finalized;
  cm_hash : Store.get_block_by_hash (Block_hash (fb_block finalized)) store' = Some finalized;
  cm_receipts rc : rc ∈ fb_receipts finalized → is_Some (Store.get_receipt (rc_tx_hash rc) store');
  cm_staking : Store.get_staking_state store' =
    match aa_staking (pb_accounting pb) with
    | Some staking => Some staking | None => Store.get_staking_state store end;
  cm_evm : Store.evm_accounts store' = Store.evm_accounts store
}.
Lemma commit_committed finalized pb store :
  dom (ms_accounts store) ⊆ dom (pb_state pb : gmap Address Account) →
  committed finalized pb store (Execution.persist_accounting pb
    (Execution.commit_finalized_block finalized (pb_state pb) store)).
Proof.
  intros Hsub.
  unfold Execution.persist_accounting, Execution.commit_finalized_block, Store.atomic_commit_block,
    Smt.persist.
  set (s1 := foldl _ store _).
  assert (ms_accounts s1 = pb_state pb) as H1' by (by apply foldl_put_entries).
  rewrite foldl_put_receipts_eq. set (s3 := Store.put_finalized_block _ _).
  assert (ms_accounts s3 = pb_state pb) as H3' by done.
  assert (ms_accounts (foldl (λ s '(address, account), Store.put_account address account s) s3
    (entries (pb_state pb : gmap Address Account))) = pb_state pb) as H4'.
  { apply foldl_put_entries. by rewrite H3'. }
  revert H4'. rewrite foldl_put_accounts_eq. intros H4'.
  set (s4 := upd_accounts _ s3) in *.
  assert (ms_staking_state s4 = ms_staking_state store ∧ ms_evm_accounts s4 = ms_evm_accounts store ∧
    ms_receipts s4 = foldl (λ m receipt, <[rc_tx_hash receipt := receipt]> m) (ms_receipts store)
      (fb_receipts finalized)) as (Hs & He & Hr).
  { unfold s4, s3, s1. rewrite foldl_put_accounts_eq. by destruct store. }
  assert (ms_blocks_by_height s4 !! bh_height (bk_header (fb_block finalized)) = Some finalized) as Hh.
  { unfold s4, s3, s1. rewrite foldl_put_accounts_eq. destruct store.
    cbn. by rewrite lookup_insert_eq. }
  assert (ms_blocks_by_hash s4 !! Block_hash (fb_block finalized) = Some finalized) as Hx.
  { unfold s4, s3, s1. rewrite foldl_put_accounts_eq. destruct store.
    cbn. by rewrite lookup_insert_eq. }
  clearbody s4. clear s1 s3 H1' H3'.
  split.
  all: destruct (aa_staking (pb_accounting pb)), (aa_governance (pb_accounting pb)),
    (aa_epoch_transition (pb_accounting pb)); try done.
  all: intros rc Hin; unfold Store.get_receipt; cbn; rewrite Hr; by apply foldl_receipts_lookup.
Qed.
Lemma prepare_block_dom block store pb store' :
  prepare_block block store = (Ok pb, store') →
  dom (ms_accounts store) ⊆ dom (pb_state pb : gmap Address Account).
Proof.
  intros [_ Hrun]%prepare_block_ok. apply run_block_ok in Hrun as (state1 & Hset & _ & Hs).
  simpl in Hs. rewrite Hs. etrans; [exact (settled_dom _ _ _ _ Hset) | apply paid_dom].
Qed.
(** A dry run is the run of the block that it proposes. *)
Lemma dry_run_run_block height txs proposer store state rcs store' :
  Execution.dry_run_transactions default_scheme self scheme height txs proposer store =
    (Ok (state, rcs), store') →
  ∃ fees acc, run_block height proposer txs (store, Smt.load store) =
    (Ok (rcs, fees, acc), (store', state)).
Proof.
  unfold Execution.dry_run_transactions, Execution.run_block, Execution.on_snapshot,
    Execution.err_into, mbind, eff_bind.
  destruct (Execution.apply_transactions _ _ _ _ _ _ _ _) as [[[fees rcs']|e|] s1];
    cbn [map_err]; [|by destruct s1..].
  destruct (accounting _ _ _ _) as [[acc|e|] [s2 st2]]; cbn [map_err fmap res_fmap];
    unfold mret, eff_ret; intros Hrun; cbn [fmap res_fmap] in Hrun; simplify_eq; eauto.
Qed.

(** *** What a preparation may write: the EVM accounts *)
Definition evm_frame (s s' : MemoryInner) : Prop := ∃ m, s' = upd_evm_accounts (λ _, m) s.
#[local] Instance evm_frame_refl : Reflexive evm_frame.
Proof. intros s. exists (ms_evm_accounts s). by destruct s. Qed.
#[local] Instance evm_frame_trans : Transitive evm_frame.
Proof. intros s s1 s2 [m ->] [m' ->]. by exists m'. Qed.
Lemma execute_frame machine caller tx s : evm_frame s (Evm.execute default_scheme machine caller tx s).2.
Proof.
  unfold Evm.execute.
  assert (evm_frame s (Evm.interpret machine caller tx s).2) as Hi.
  { destruct (Evm.interpret machine caller tx s) as [r s'] eqn:E.
    apply interpret_writes in E as [[-> _]|(db & ws & rest & _ & _ & -> & _)]; [done|].
    by exists (written db ws (ms_evm_accounts s)). }
  destruct (ev_kind tx); [done|]. by destruct (Evm.precompile _ _ _).
Qed.
Lemma apply_transaction_frame height tx store state :
  evm_frame store (Execution.apply_transaction default_scheme self scheme height tx (store, state)).2.1.
Proof.
  destruct (apply_transaction_eq default_scheme self scheme height tx store state)
    as [[_ ->]|(_ & -> & _)]; [|done].
  destruct (tb_evm (tx_body tx)) as [evm_tx|]; [|done].
  unfold Execution.execute_payload, mbind, eff_bind, eff_lift.
  destruct (ok_or _ _) as [id|e|]; [|done..]. simpl.
  pose proof (execute_frame {| ex_evm_chain_id := id |} (last20 (tb_sender (tx_body tx))) evm_tx store).
  by destruct (Evm.execute _ _ _ _ _).
Qed.
Lemma apply_transactions_frame height txs fees rcs store state :
  evm_frame store
    (Execution.apply_transactions default_scheme self scheme height txs fees rcs (store, state)).2.1.
Proof.
  revert fees rcs store state. induction txs as [|tx txs IH]; intros; [done|].
  cbn [Execution.apply_transactions]. unfold mbind, eff_bind.
  pose proof (apply_transaction_frame height tx store state) as Hf.
  destruct (Execution.apply_transaction _ _ _ _ _ _) as [[rc|e|] [store' state']]; [|done..].
  etrans; [exact Hf | apply IH].
Qed.
Lemma run_block_frame height proposer txs store state :
  evm_frame store (run_block height proposer txs (store, state)).2.1.
Proof.
  unfold Execution.run_block, mbind, eff_bind.
  pose proof (apply_transactions_frame height txs 0 [] store state) as Hf.
  destruct (Execution.apply_transactions _ _ _ _ _ _ _ _) as [[[fees rcs]|e|] [store' state']]; [|done..].
  unfold Execution.err_into. pose proof (accounting_writes proposer fees height store' state') as Hw.
  destruct (accounting _ _ _ _) as [[a|e|] s2]; simpl in Hw; by subst.
Qed.
Lemma prepare_block_frame block store : evm_frame store (prepare_block block store).2.
Proof.
  unfold Execution.prepare_block, mbind, eff_bind, eff_lift, eff_get.
  destruct (verify_block scheme block) as [[]|e|]; cbn [map_err]; [|done..].
  case_bool_decide; [done|]. unfold Execution.on_snapshot.
  pose proof (run_block_frame (bh_height (bk_header block)) (bh_proposer (bk_header block))
    (bk_transactions block) store (Smt.load store)) as Hs.
  destruct (run_block _ _ _ _) as [[[[rcs fees] acc]|e|] [st1 state1]]; [|done..].
  simpl. by repeat case_bool_decide.
Qed.
Lemma dry_run_frame height txs proposer store :
  evm_frame store
    (Execution.dry_run_transactions default_scheme self scheme height txs proposer store).2.
Proof.
  unfold Execution.dry_run_transactions, Execution.on_snapshot, Execution.err_into, mbind, eff_bind.
  pose proof (apply_transactions_frame height txs 0 [] store (Smt.load store)) as Hf.
  destruct (Execution.apply_transactions _ _ _ _ _ _ _ _) as [[[fees rcs]|e|] [st s1]]; [|done..].
  cbn [map_err]. pose proof (accounting_writes proposer fees height st s1) as Hw.
  destruct (accounting _ _ _ _) as [[a|e|] s2]; simpl in Hw; by subst.
Qed.

(** No call of the engine writes the consensus log, its snapshot, the slashing protection
    or the genesis. *)
Definition same_journal (s s' : MemoryInner) : Prop :=
  ms_consensus_wal s' = ms_consensus_wal s ∧ ms_snapshot s' = ms_snapshot s ∧
  ms_slashing_protection s' = ms_slashing_protection s.
Lemma evm_frame_journal s s' : evm_frame s s' → same_journal s s'.
Proof. by intros [m ->]. Qed.
Lemma persist_accounting_journal pb s : same_journal s (Execution.persist_accounting pb s).
Proof.
  unfold Execution.persist_accounting, Smt.persist. rewrite foldl_put_accounts_eq.
  by destruct (aa_staking _), (aa_governance _), (aa_epoch_transition _).
Qed.
Lemma commit_journal finalized state s :
  same_journal s (Execution.commit_finalized_block finalized state s).
Proof.
  unfold Execution.commit_finalized_block, Store.atomic_commit_block.
  by rewrite foldl_put_accounts_eq, foldl_put_receipts_eq.
Qed.
Lemma same_journal_trans s s1 s2 : same_journal s s1 → same_journal s1 s2 → same_journal s s2.
Proof. unfold same_journal. intros (-> & -> & ->). done. Qed.
Lemma execute_block_journal block s :
  same_journal s (Execution.execute_block default_scheme self scheme block s).2.
Proof.
  unfold Execution.execute_block, mbind, eff_bind.
  pose proof (evm_frame_journal _ _ (prepare_block_frame block s)) as Hj.
  destruct (prepare_block block s) as [[pb|e|] s1]; [|done..]. simpl in *.
  eapply same_journal_trans; [exact Hj | apply persist_accounting_journal].
Qed.
Lemma validate_and_commit_journal finalized s :
  same_journal s
    (Execution.validate_and_commit_finalized_block default_scheme self scheme finalized s).2.
Proof.
  unfold Execution.validate_and_commit_finalized_block, mbind, eff_bind.
  pose proof (evm_frame_journal _ _ (prepare_block_frame (fb_block finalized) s)) as Hj.
  destruct (prepare_block (fb_block finalized) s) as [[pb|e|] s1]; [|done..]. simpl in Hj.
  repeat case_bool_decide; try done.
  eapply same_journal_trans; [exact Hj|]. simpl.
  eapply same_journal_trans; [apply commit_journal | apply persist_accounting_journal].
Qed.
End blocks.

(** ** Properties *)

(** C26: a native transaction applies exactly when it is payable (admitted, with the
    account's next nonce, a balance that covers amount and fee, and no overflow), and
    then only moves its amount to the recipient, takes the fee and the nonce; a rejected
    one changes nothing. *)
Theorem apply_native_exact `{HashBackend, HexEncode, ChainCodec, RevmBackend}
    (default_scheme scheme : SignatureScheme) (self : ExecutionEngine) (height : Z)
    (tx : Transaction) (store : MemoryInner) (state : Smt.StateSnapshot) r s' :
  tb_evm (tx_body tx) = None →
  Execution.apply_transaction default_scheme self scheme height tx (store, state) = (r, s') →
  (is_ok r = true ↔ payable self scheme state height tx) ∧
  (payable self scheme state height tx → r = Ok (receipt_of height tx None) ∧
    s' = (store, Execution.credit (tb_recipient (tx_body tx)) (tb_amount (tx_body tx))
                   (charge tx state))) ∧
  (is_ok r = false → s' = (store, state)).
Proof.
  intros Hn Hrun.
  pose proof (apply_transaction_native _ _ _ _ _ _ _ _ _ Hn Hrun) as (Hs & Herr & Hok).
  destruct s' as [store' state']. simpl in Hs. subst. split_and!; [split| |done].
  - intros Hr. destruct r; [|done..]. by apply apply_transaction_ok in Hrun as [? _].
  - by intros [-> _]%Hok.
  - intros [-> Hst]%Hok. split; [done|]. unfold settle in Hst. rewrite Hn in Hst.
    simpl in Hst. by rewrite Hst.
Qed.

(** C23: no transaction is executed twice.  In a prepared block no two transactions share
    sender and nonce, and none of them applies to the resulting accounts again. *)
Theorem no_replay `{HashBackend, HexEncode, ChainCodec, RevmBackend}
    (default_scheme scheme : SignatureScheme) (self : ExecutionEngine) (block : Block)
    (store : MemoryInner) (pb : PreparedBlock) store' :
  Execution.prepare_block default_scheme self scheme block store = (Ok pb, store') →
  NoDup ((λ tx, (tb_sender (tx_body tx), tb_nonce (tx_body tx))) <$> bk_transactions block) ∧
  ∀ tx, tx ∈ bk_transactions block → ∀ height store2,
    is_ok (Execution.apply_transaction default_scheme self scheme height tx
      (store2, pb_state pb)).1 = false.
Proof.
  intros [_ Hrun]%prepare_block_ok. apply run_block_ok in Hrun as (state1 & Hset & _ & Hs).
  cbn [snd] in Hs. split; [by eapply settled_NoDup|]. intros tx Hin height store2.
  destruct (Execution.apply_transaction _ _ _ height tx _) as [[rc|e|] s2] eqn:E; [|done..].
  apply apply_transaction_ok in E as [Hp _]. pose proof (pay_nonce _ _ _ _ _ Hp) as Hn.
  pose proof (settled_nonces _ _ _ _ _ _ _ Hset Hin) as [_ Hlt].
  rewrite <-(nonce_paid self (bh_proposer (bk_header block)) (pb_proposer_fees pb)), <-Hs in Hlt.
  unfold nonce_of in Hlt. lia.
Qed.

(** C22: value is conserved.  A prepared block leaves the sum of all native balances as it
    was, fees included, except for the amounts of its EVM transactions, which are taken
    from their senders and credited to no native account; no balance overflows. *)
Theorem supply_conserved `{HashBackend, HexEncode, ChainCodec, RevmBackend}
    (default_scheme scheme : SignatureScheme) (self : ExecutionEngine) (block : Block)
    (store : MemoryInner) (pb : PreparedBlock) store' :
  Execution.prepare_block default_scheme self scheme block store = (Ok pb, store') →
  fair_treasury self → Forall unsigned (bk_transactions block) → solvent (Smt.load store) →
  supply (pb_state pb) = supply (Smt.load store) - lsum burned (bk_transactions block) ∧
  solvent (pb_state pb).
Proof.
  intros [_ Hrun]%prepare_block_ok Hfair Hu Hsol.
  apply run_block_ok in Hrun as (state1 & Hset & Hfees & Hs). simpl in Hs. rewrite Hs.
  destruct (settled_supply _ _ _ _ _ _ Hset Hu Hsol) as [E1 Hsol1].
  assert (0 ≤ lsum (λ tx, tb_fee (tx_body tx)) (bk_transactions block) ∧
          0 ≤ lsum burned (bk_transactions block)) as [Hf0 Hb0].
  { rewrite Forall_forall in Hu. split; apply lsum_nonneg; intros tx Htx; destruct (Hu tx Htx);
      [done|]. unfold burned. destruct (tb_evm _); [done|lia]. }
  assert (0 ≤ supply state1) as Hs1.
  { etrans; [apply (proj1 Hsol1 treasury_address) | apply balance_le_supply, Hsol1]. }
  destruct Hsol as [_ Hmax].
  assert (pb_proposer_fees pb = lsum (λ tx, tb_fee (tx_body tx)) (bk_transactions block)) as Hfe
    by (rewrite Hfees; apply wrapping_small; ulia).
  destruct (supply_paid self (bh_proposer (bk_header block)) (pb_proposer_fees pb)
    state1) as [-> ?]; [done|lia|done|lia|]. split; [lia|done].
Qed.

(** C24: an honest proposal is accepted.  The header that the proposer builds after its dry
    run, signed by it, is prepared without error by any engine whose store is the one the
    proposer had before that dry run, with the same accounts, the same receipts and the
    same store afterwards.  The dry run itself writes nothing but EVM accounts, and nothing
    at all when every transaction is native. *)
Theorem honest_proposal_accepted `{HashBackend, HexEncode, ChainCodec, RevmBackend}
    (default_scheme scheme : SignatureScheme) keypair `{!SignatureSchemeLaws scheme keypair}
    (self : ExecutionEngine) (pk sk : list byte) (proposer : Address) (height round time : Z)
    (txs : list Transaction) (store store' : MemoryInner) state receipts block :
  keypair pk sk → derive_address pk = Ok proposer →
  Execution.dry_run_transactions default_scheme self scheme height txs proposer store =
    (Ok (state, receipts), store') →
  sign_block scheme (Execution.build_header self proposer height round time txs state receipts store')
    txs pk sk = Ok block →
  (∃ pb, Execution.prepare_block default_scheme self scheme block store = (Ok pb, store') ∧
     pb_state pb = state ∧ pb_receipts pb = receipts) ∧
  evm_frame store store' ∧
  (Forall (λ tx, tb_evm (tx_body tx) = None) txs → store' = store).
Proof.
  intros Hk Ha Hdry Hsign.
  pose proof (dry_run_frame default_scheme self scheme height txs proposer store) as Hframe.
  rewrite Hdry in Hframe. cbn [snd] in Hframe. apply dry_run_run_block in Hdry as (fees & acc & Hrun).
  split_and!; [|exact Hframe|].
  - exists {| pb_state := state; pb_receipts := receipts; pb_proposer_fees := fees;
              pb_accounting := acc |}.
    split; [|done]. pose proof (signed_block_verifies scheme keypair pk sk proposer
      _ _ _ Hk Ha Hsign eq_refl) as Hv.
    unfold sign_block in Hsign. apply res_bind_ok in Hsign as (bs & _ & Hsign).
    apply res_bind_ok in Hsign as (sg & _ & [= <-]).
    apply prepare_block_ok. split; [|exact Hrun]. destruct Hframe as [m ->].
    split_and!; [exact Hv|done..].
  - intros Hn. pose proof (run_block_native default_scheme self scheme height proposer txs store
      (Smt.load store) Hn) as Hst. by rewrite Hrun in Hst.
Qed.

(** C25: committing an external block is all or nothing but for the EVM accounts.  An error
    leaves every field of the store as it was except possibly the EVM accounts, which the
    EVM transactions of the block write before the block is judged, and leaves the whole
    store when the block has none.  A success stores exactly the prepared accounts, the
    block under its height and its hash, its receipts and the staking state on top of the
    store that the preparation left. *)
Theorem validate_and_commit_atomic `{HashBackend, HexEncode, ChainCodec, RevmBackend}
    (default_scheme scheme : SignatureScheme) (self : ExecutionEngine)
    (finalized : FinalizedBlock) (store store' : MemoryInner) r :
  Execution.validate_and_commit_finalized_block default_scheme self scheme finalized store =
    (r, store') →
  let native := Forall (λ tx, tb_evm (tx_body tx) = None) (bk_transactions (fb_block finalized)) in
  (is_ok r = false → evm_frame store store' ∧ (native → store' = store)) ∧
  (r = Ok tt → ∃ pb s1,
    Execution.prepare_block default_scheme self scheme (fb_block finalized) store = (Ok pb, s1) ∧
    evm_frame store s1 ∧ (native → s1 = store) ∧
    pb_receipts pb = fb_receipts finalized ∧
    aa_epoch_transition (pb_accounting pb) = fb_epoch_transition finalized ∧
    committed finalized pb s1 store').
Proof.
  intros Hrun native. revert Hrun.
  unfold Execution.validate_and_commit_finalized_block, mbind, eff_bind.
  pose proof (prepare_block_frame default_scheme self scheme (fb_block finalized) store) as Hf.
  pose proof (prepare_block_native default_scheme self scheme (fb_block finalized) store) as Hst.
  fold native in Hst.
  destruct (Execution.prepare_block _ _ _ _ _) as [[pb|e|] s1] eqn:Hp; simpl in Hf, Hst;
    [|intros [= <- <-]; done..].
  unfold eff_lift, eff_modify.
  case_bool_decide as Hr; [intros [= <- <-]; done|].
  case_bool_decide as Ht; [intros [= <- <-]; done|].
  intros [= <- <-]. split; [done|]. intros _. exists pb, s1.
  split_and!; [done..|]. apply commit_committed.
  destruct Hf as [m ->]. exact (prepare_block_dom _ _ _ _ _ _ _ Hp).
Qed.

(** The base fee after a block is at least one and fits [u128]; it keeps its value
    at the target, moves up above it and not up below it, and moves by at most an eighth
    (or one, upwards) unless the gas used is over twice the target. *)
Lemma base_fee_bounds (current : GasPricingState) (target_gas : Z) :
  in_range U128_MAX (gps_base_fee current) → 0 ≤ gps_last_block_gas_used current →
  0 < target_gas →
  let base := if gps_base_fee current =? 0 then MIN_BASE_FEE else gps_base_fee current in
  let used := gps_last_block_gas_used current in
  ∃ fee, Execution.update_base_fee current target_gas =
      Ok {| gps_base_fee := fee; gps_last_block_gas_used := 0 |} ∧
    1 ≤ fee ≤ U128_MAX ∧ (used = target_gas → fee = base) ∧
    (target_gas < used → base < fee ∨ fee = U128_MAX) ∧
    (used ≤ target_gas → base - base / 8 ≤ fee ≤ base) ∧
    (used ≤ 2 * target_gas → fee ≤ base + Z.max 1 (base / 8)).
Proof.
  intros Hb Hu Ht base used.
  assert (1 ≤ base ≤ U128_MAX) as Hbase.
  { unfold base, MIN_BASE_FEE. destruct (Z.eqb_spec (gps_base_fee current) 0); ulia. }
  assert (∀ gas, 0 ≤ gas → 0 ≤ saturating_mul U128_MAX base gas / target_gas / 8 ∧
    (gas ≤ target_gas → saturating_mul U128_MAX base gas / target_gas / 8 ≤ base / 8) ∧
    (gas = 0 → saturating_mul U128_MAX base gas / target_gas / 8 = 0)) as Hd.
  { intros gas Hg. unfold saturating_mul. split_and!.
    - apply Z.div_pos; [apply Z.div_pos|]; nia.
    - intros Hle. apply Z.div_le_mono; [lia|]. apply Z.div_le_upper_bound; nia.
    - intros ->. rewrite Z.mul_0_r, Z.min_r by lia. by rewrite Z.div_0_l by lia. }
  unfold Execution.update_base_fee, Execution.base_fee_delta.
  fold base used. rewrite (proj2 (Z.eqb_neq target_gas 0)) by lia.
  unfold BASE_FEE_CHANGE_DENOMINATOR, MIN_BASE_FEE.
  destruct (Z.ltb_spec target_gas used); cbn [mbind res_bind].
  - destruct (Hd (saturating_sub used target_gas)) as (D0 & D1 & _); [ulia|].
    set (delta := saturating_mul _ _ _ / _ / _) in *. clearbody delta. clear Hd. eexists. split; [reflexivity|].
    assert (used ≤ 2 * target_gas → delta ≤ base / 8) by (intros; apply D1; ulia).
    split_and!; try ulia.
  - destruct (Hd (saturating_sub target_gas used)) as (D0 & D1 & D2); [ulia|].
    set (delta := saturating_mul _ _ _ / _ / _) in *. clearbody delta. clear Hd. eexists. split; [reflexivity|].
    assert (delta ≤ base / 8) by (apply D1; ulia).
    assert (0 ≤ base / 8 < base) by (Z.to_euclidean_division_equations; lia).
    assert (used = target_gas → delta = 0) by (intros; apply D2; ulia).
    split_and!; ulia.
Qed.
