(* ===== verification/ExecutionExamples.v ===== *)
(** Examples of the execution engine: one transfer, proposed, prepared and committed with
    the toy signatures, digest and interpreter; and the witnesses of its properties. *)

From S2P Require Import Prelude Types Codec Hash Crypto Wire Toy Primitives Storage Smt Staking.
From S2P Require Import Zk Evm Execution.
Import Toy ToyRevm.
#[local] Existing Instance ToyOqs.scheme_laws.
Definition engine : ExecutionEngine := Execution.new chain.
Definition store0 : MemoryInner :=
  Store.put_account addr {| acct_nonce := 0; acct_balance := 100 |} MemoryInner_default.
Definition state0 : Smt.StateSnapshot := Smt.load store0.
Definition dry : res AnyError (Smt.StateSnapshot * list Receipt) * MemoryInner :=
  Execution.dry_run_transactions ToyOqs.scheme engine ToyOqs.scheme 1 [tx] addr store0.
Definition dry_state : Smt.StateSnapshot :=
  match dry.1 with Ok (state, _) => state | _ => state0 end.
Definition dry_receipts : list Receipt := match dry.1 with Ok (_, rcs) => rcs | _ => [] end.
Definition header0 : BlockHeader :=
  Execution.build_header engine addr 1 0 0 [tx] dry_state dry_receipts store0.
Definition block0 : Block := {|
  bk_header := header0; bk_transactions := [tx]; bk_proposer_public_key := pk;
  bk_proposer_signature :=
    pk ++ MlDsaScheme.domain_message DomBlockProposal (encode_to_vec header0) |}.
Definition prepared : res ExecutionError PreparedBlock * MemoryInner :=
  Execution.prepare_block ToyOqs.scheme engine ToyOqs.scheme block0 store0.
Definition ok_value {E A} (d : A) (m : res E A) : A := match m with Ok a => a | _ => d end.
Definition pb_none : PreparedBlock :=
  {| pb_state := state0; pb_receipts := []; pb_proposer_fees := 0;
     pb_accounting := {| aa_staking := None; aa_governance := None;
                         aa_epoch_transition := None |} |}.
Definition pb0 : PreparedBlock := ok_value pb_none prepared.1.

Lemma ok_pair {E A S} (d : A) (run : res E A * S) :
  is_ok run.1 = true → run = (Ok (ok_value d run.1), run.2).
Proof. by destruct run as [[a|e|] s]. Qed.
Lemma prepared_ok :
  Execution.prepare_block ToyOqs.scheme engine ToyOqs.scheme block0 store0 = (Ok pb0, prepared.2).
Proof. apply (ok_pair pb_none prepared). vm_compute. reflexivity. Qed.

Lemma toy_payable : payable engine ToyOqs.scheme state0 1 tx.
Proof. apply (apply_ok_payable ToyOqs.scheme _ _ _ _ store0). vm_compute. reflexivity. Qed.
Lemma apply_native_exact_witness :
  Execution.apply_transaction ToyOqs.scheme engine ToyOqs.scheme 1 tx (store0, state0) =
  (Ok (receipt_of 1 tx None),
   (store0, Execution.credit (tb_recipient (tx_body tx)) (tb_amount (tx_body tx)) (charge tx state0))).
Proof.
  destruct (Execution.apply_transaction ToyOqs.scheme engine ToyOqs.scheme 1 tx (store0, state0))
    as [r s'] eqn:E.
  destruct (proj1 (proj2 (apply_native_exact ToyOqs.scheme ToyOqs.scheme engine 1 tx store0 state0
    r s' eq_refl E)) toy_payable) as [-> ->]. reflexivity.
Defined.

Lemma no_replay_witness :
  NoDup ((λ tx, (tb_sender (tx_body tx), tb_nonce (tx_body tx))) <$> bk_transactions block0) ∧
  ∀ tx, tx ∈ bk_transactions block0 → ∀ height store2,
    is_ok (Execution.apply_transaction ToyOqs.scheme engine ToyOqs.scheme height tx
      (store2, pb_state pb0)).1 = false.
Proof.
  exact (no_replay ToyOqs.scheme ToyOqs.scheme engine block0 store0 pb0 prepared.2 prepared_ok).
Defined.
Lemma supply_conserved_witness :
  supply (pb_state pb0) = supply (Smt.load store0) - lsum burned (bk_transactions block0) ∧
  solvent (pb_state pb0).
Proof.
  apply (supply_conserved ToyOqs.scheme ToyOqs.scheme engine block0 store0 pb0 prepared.2).
  - exact prepared_ok.
  - exact I.
  - repeat constructor; vm_compute; discriminate.
  - split; [|vm_compute; discriminate]. intros a. unfold Smt.load, Smt.account, Smt.StateSnapshot.
    change (Store.accounts store0) with
      (<[addr := {| acct_nonce := 0; acct_balance := 100 |}]> (∅ : gmap Address Account)).
    destruct (decide (addr = a)) as [<-|Hne].
    + rewrite (lookup_insert_eq (M:=gmap Address)). vm_compute. discriminate.
    + rewrite (lookup_insert_ne (M:=gmap Address)) by exact Hne. vm_compute. discriminate.
Defined.
Definition finalized0 : FinalizedBlock := {|
  fb_block := block0;
  fb_certificate := {| cc_block_hash := zero; cc_height := 1; cc_round := 0; cc_votes := [] |};
  fb_receipts := dry_receipts; fb_epoch_transition := None |}.
Definition commit0 : res ExecutionError () * MemoryInner :=
  Execution.validate_and_commit_finalized_block ToyOqs.scheme engine ToyOqs.scheme finalized0 store0.
Lemma validate_and_commit_atomic_witness :
  ∃ pb s1,
    Execution.prepare_block ToyOqs.scheme engine ToyOqs.scheme block0 store0 = (Ok pb, s1) ∧
    evm_frame store0 s1 ∧
    (Forall (λ tx, tb_evm (tx_body tx) = None) (bk_transactions block0) → s1 = store0) ∧
    pb_receipts pb = fb_receipts finalized0 ∧
    aa_epoch_transition (pb_accounting pb) = fb_epoch_transition finalized0 ∧
    committed finalized0 pb s1 commit0.2.
Proof.
  refine (proj2 (validate_and_commit_atomic ToyOqs.scheme ToyOqs.scheme engine finalized0 store0
    commit0.2 commit0.1 _) _).
  - unfold commit0. by destruct (Execution.validate_and_commit_finalized_block _ _ _ _ _).
  - vm_compute. reflexivity.
Defined.
Lemma base_fee_bounds_witness :
  ∃ fee, Execution.update_base_fee {| gps_base_fee := 80; gps_last_block_gas_used := 30 |} 20 =
      Ok {| gps_base_fee := fee; gps_last_block_gas_used := 0 |} ∧
    1 ≤ fee ≤ U128_MAX ∧ (30 = 20 → fee = 80) ∧ (20 < 30 → 80 < fee ∨ fee = U128_MAX) ∧
    (30 ≤ 20 → 80 - 80 / 8 ≤ fee ≤ 80) ∧ (30 ≤ 2 * 20 → fee ≤ 80 + Z.max 1 (80 / 8)).
Proof.
  apply (base_fee_bounds {| gps_base_fee := 80; gps_last_block_gas_used := 30 |} 20); simpl; ulia.
Defined.

(** A dry run of an EVM call leaves its effects in the store. *)
Definition evm_body : TransactionBody := {|
  tb_chain_id := chain; tb_sender := addr; tb_recipient := bob; tb_amount := 5; tb_nonce := 0;
  tb_fee := 10; tb_evm := Some (EvmExamples.pay EvmExamples.carol); tb_memo := None;
  tb_valid_until := None |}.
Definition evm_tx : Transaction := {|
  tx_body := evm_body; tx_public_key := pk;
  tx_signature := pk ++ MlDsaScheme.domain_message DomTransaction (encode_to_vec evm_body) |}.
Definition evm_engine : ExecutionEngine := Execution.with_evm chain (Some 1).
Definition evm_dry : res AnyError (Smt.StateSnapshot * list Receipt) * MemoryInner :=
  Execution.dry_run_transactions ToyOqs.scheme evm_engine ToyOqs.scheme 1 [evm_tx] addr store0.
Lemma dry_run_writes_evm_accounts :
  is_ok evm_dry.1 = true ∧ Store.get_evm_account EvmExamples.carol store0 = None ∧
  ea_balance <$> Store.get_evm_account EvmExamples.carol evm_dry.2 = Some 7.
Proof. vm_compute. done. Qed.
(** The proposal of that dry run, prepared by a replica that has not made the dry run. *)
Definition evm_dry_state : Smt.StateSnapshot :=
  match evm_dry.1 with Ok (state, _) => state | _ => state0 end.
Definition evm_dry_receipts : list Receipt := match evm_dry.1 with Ok (_, rcs) => rcs | _ => [] end.
Definition evm_header : BlockHeader :=
  Execution.build_header evm_engine addr 1 0 0 [evm_tx] evm_dry_state evm_dry_receipts evm_dry.2.
Definition evm_block : Block := {|
  bk_header := evm_header; bk_transactions := [evm_tx]; bk_proposer_public_key := pk;
  bk_proposer_signature :=
    pk ++ MlDsaScheme.domain_message DomBlockProposal (encode_to_vec evm_header) |}.
Lemma honest_proposal_accepted_witness :
  ∃ pb, Execution.prepare_block ToyOqs.scheme evm_engine ToyOqs.scheme evm_block store0 =
      (Ok pb, evm_dry.2) ∧
    pb_state pb = evm_dry_state ∧ pb_receipts pb = evm_dry_receipts.
Proof.
  apply (honest_proposal_accepted ToyOqs.scheme ToyOqs.scheme ToyOqs.keypair evm_engine pk pk addr
    1 0 0 [evm_tx] store0 evm_dry.2 evm_dry_state evm_dry_receipts evm_block).
  - done.
  - vm_compute. reflexivity.
  - change (evm_dry = (Ok (evm_dry_state, evm_dry_receipts), evm_dry.2)).
    assert (is_ok evm_dry.1 = true) as Hok by (vm_compute; reflexivity).
    unfold evm_dry_state, evm_dry_receipts. revert Hok. by destruct evm_dry as [[[st rcs]|e|] s].
  - vm_compute. reflexivity.
Defined.
