(* ===== verification/Network.v ===== *)
(** [crates/zeno-network]: the table of peers with its reputation scores and bans, the
    handshake, the window of recent messages, the loop of a connection, and the fan-out of
    outbound messages.  Sockets and clocks are the inputs of these steps. *)

From S2P Require Import Prelude Types Codec Hash.

Record NetworkEvent := { ne_peer : string; ne_message : NetworkMessage }.
Definition SCORE_INITIAL : Z := 10.
Definition SCORE_VALID_MESSAGE : Z := 1.
Definition SCORE_DUPLICATE_MESSAGE : Z := -2.
Definition SCORE_USEFUL_BLOCK : Z := 5.
Definition SCORE_BAN_THRESHOLD : Z := -50.
Definition SCORE_MAX : Z := 100.
Definition MAX_INBOUND_CONNECTIONS : nat := 50.
Definition BAN_DURATION_MS : Z := 300000.
Definition MAX_RECENT : nat := 2048.

Record PeerState := {
  ps_score : Z;
  ps_best_height : Z;
  ps_connected_at : Z;
  ps_last_message_at : Z;
  ps_messages_received : Z;
  ps_is_outbound : bool;
  ps_banned_until : option Z;
  ps_node_id : string
}.
Record RecentMessages := { rm_seen : gset Hash32; rm_order : list Hash32 }.
Definition RecentMessages_default : RecentMessages := {| rm_seen := ∅; rm_order := [] |}.
Abbreviation Peers := (gmap string PeerState).

Definition set_score (score : Z) (s : PeerState) : PeerState :=
  {| ps_score := score; ps_best_height := ps_best_height s; ps_connected_at := ps_connected_at s;
     ps_last_message_at := ps_last_message_at s; ps_messages_received := ps_messages_received s;
     ps_is_outbound := ps_is_outbound s; ps_banned_until := ps_banned_until s;
     ps_node_id := ps_node_id s |}.
Definition set_best_height (height : Z) (s : PeerState) : PeerState :=
  {| ps_score := ps_score s; ps_best_height := height; ps_connected_at := ps_connected_at s;
     ps_last_message_at := ps_last_message_at s; ps_messages_received := ps_messages_received s;
     ps_is_outbound := ps_is_outbound s; ps_banned_until := ps_banned_until s;
     ps_node_id := ps_node_id s |}.
Definition set_banned_until (until : option Z) (s : PeerState) : PeerState :=
  {| ps_score := ps_score s; ps_best_height := ps_best_height s; ps_connected_at := ps_connected_at s;
     ps_last_message_at := ps_last_message_at s; ps_messages_received := ps_messages_received s;
     ps_is_outbound := ps_is_outbound s; ps_banned_until := until; ps_node_id := ps_node_id s |}.
Definition set_received (now : Z) (s : PeerState) : PeerState :=
  {| ps_score := ps_score s; ps_best_height := ps_best_height s; ps_connected_at := ps_connected_at s;
     ps_last_message_at := now;
     ps_messages_received := wrapping U64_MAX (ps_messages_received s + 1);
     ps_is_outbound := ps_is_outbound s; ps_banned_until := ps_banned_until s;
     ps_node_id := ps_node_id s |}.

(** What the task of one connection can meet in its loop: a frame, with the times at which
    it was counted and at which a ban would be dated; a broken frame; a message to send
    down, which may fail; or the end of both the stream and its queue. *)
Inductive LoopEvent :=
  | Frame (bytes : list byte) (now ban_now : Z)
  | BrokenFrame
  | Outgoing (message : NetworkMessage) (sent : bool)
  | BothClosed.
(** How the loop stands: it goes on, it has ended, or its task has failed. *)
Inductive LoopStatus := Running | Ended | Failed.

(** The table shared by all connections, the events sent to the subscribers, and what
    belongs to the connection alone. *)
Record Connection := {
  cn_peers : Peers;
  cn_events : list NetworkEvent;
  cn_recent : RecentMessages;
  cn_sent : list NetworkMessage
}.

Module Network.

(** ** The recent messages *)
Definition evict (recent : RecentMessages) : RecentMessages :=
  match rm_order recent with
  | oldest :: order => {| rm_seen := rm_seen recent ∖ {[ oldest ]}; rm_order := order |}
  | [] => recent
  end.
(** The [while] loop; its fuel is the length of the queue. *)
Fixpoint evict_loop (fuel : nat) (recent : RecentMessages) : RecentMessages :=
  match fuel with
  | O => recent
  | S fuel =>
      if Nat.ltb MAX_RECENT (length (rm_order recent)) then evict_loop fuel (evict recent)
      else recent
  end.
Definition remember (id : Hash32) (recent : RecentMessages) : bool * RecentMessages :=
  if bool_decide (id ∈ rm_seen recent) then (false, recent) else
  let recent := {| rm_seen := {[ id ]} ∪ rm_seen recent; rm_order := rm_order recent ++ [id] |} in
  (true, evict_loop (length (rm_order recent)) recent).

(** ** The table of peers *)
Definition ban_peer (peer : string) (duration_ms now : Z) (peers : Peers) : Peers :=
  alter (λ s, set_score SCORE_BAN_THRESHOLD
    (set_banned_until (Some (saturating_add U64_MAX now duration_ms)) s)) peer peers.
Definition banned (now : Z) (s : PeerState) : bool :=
  match ps_banned_until s with Some until => now <? until | None => false end.
Definition is_banned (peer : string) (now : Z) (peers : Peers) : bool :=
  match peers !! peer with Some s => banned now s | None => false end.
Definition peer_count (peers : Peers) : nat := size peers.
Definition peer_scores (peers : Peers) : gmap string Z := ps_score <$> peers.

(** ** The handshake *)
Definition inbound_count (peers : Peers) : nat :=
  length (filter (λ s, ps_is_outbound s = false) (map_to_list peers).*2).
(** Its three looks at the table, each under its own lock. *)
Definition admits (inbound_only : bool) (peers : Peers) : bool :=
  negb (inbound_only && Nat.leb MAX_INBOUND_CONNECTIONS (inbound_count peers)).
Definition node_banned (node_id : string) (now : Z) (peers : Peers) : bool :=
  existsb (λ s, bool_decide (ps_node_id s = node_id) && banned now s) (map_to_list peers).*2.
Definition new_peer (inbound_only : bool) (now : Z) (payload : Handshake) : PeerState :=
  {| ps_score := SCORE_INITIAL; ps_best_height := hs_best_height payload; ps_connected_at := now;
     ps_last_message_at := now; ps_messages_received := 0; ps_is_outbound := negb inbound_only;
     ps_banned_until := None; ps_node_id := hs_node_id payload |}.
Definition register (peer : string) (inbound_only : bool) (now : Z) (payload : Handshake)
    (peers : Peers) : Peers := <[peer := new_peer inbound_only now payload]> peers.
Definition handshake (chain_id : ChainId) (peer : string) (inbound_only : bool) (now : Z)
    (remote : NetworkMessage) (peers : Peers) : res string Peers :=
  if negb (admits inbound_only peers) then Err "inbound connection limit reached" else
  match remote with
  | MsgHandshake payload =>
      if bool_decide (hs_chain_id payload = chain_id) then
        if node_banned (hs_node_id payload) now peers
        then Err ("node " +:+ hs_node_id payload +:+ " is banned") else
        Ok (register peer inbound_only now payload peers)
      else Err ("chain id mismatch local=" +:+ chain_id_str chain_id +:+ " remote=" +:+
                chain_id_str (hs_chain_id payload))
  | _ => Err "expected handshake"
  end.

(** ** The loop of a connection *)
Section connection.
Context `{HashBackend, Serde NetworkMessage} (peer : string).

Definition message_id (message : NetworkMessage) : Hash32 := hash_bytes (encode_to_vec message).
(** The peer's record after a decoded message. *)
Definition count_message (now : Z) (message : NetworkMessage) (s : PeerState) : PeerState :=
  let s := set_received now s in
  match message with
  | MsgStatus status => set_best_height (Z.max (ps_best_height s) (cs_latest_height status)) s
  | MsgCommit finalized =>
      let new_height := bh_height (bk_header (fb_block finalized)) in
      if ps_best_height s <? new_height
      then set_score (Z.min (ps_score s + SCORE_USEFUL_BLOCK) SCORE_MAX) (set_best_height new_height s)
      else s
  | _ => s
  end.
Definition reward (s : PeerState) : PeerState :=
  set_score (Z.min (ps_score s + SCORE_VALID_MESSAGE) SCORE_MAX) s.
Definition penalize (s : PeerState) : PeerState :=
  set_score (ps_score s + SCORE_DUPLICATE_MESSAGE) s.
Definition should_ban (peers : Peers) : bool :=
  match peers !! peer with Some s => ps_score s <=? SCORE_BAN_THRESHOLD | None => false end.
Definition on_message (message : NetworkMessage) (now ban_now : Z) (c : Connection) :
    LoopStatus * Connection :=
  let peers := alter (count_message now message) peer (cn_peers c) in
  let '(fresh, recent) := remember (message_id message) (cn_recent c) in
  let peers := alter (if fresh then reward else penalize) peer peers in
  let events := if fresh then cn_events c ++ [{| ne_peer := peer; ne_message := message |}]
                else cn_events c in
  let ban := should_ban peers in
  let peers := if ban then alter (set_banned_until
      (Some (saturating_add U64_MAX ban_now BAN_DURATION_MS))) peer peers else peers in
  (if ban then Ended else Running,
   {| cn_peers := peers; cn_events := events; cn_recent := recent; cn_sent := cn_sent c |}).
(** One turn of the [select!]; a decoding error or a failed send ends the task with [?]. *)
Definition turn (event : LoopEvent) (c : Connection) : LoopStatus * Connection :=
  match event with
  | Frame bytes now ban_now =>
      match Codec.decode (T:=NetworkMessage) bytes with
      | Ok message => on_message message now ban_now c
      | _ => (Failed, c)
      end
  | BrokenFrame => (Failed, c)
  | Outgoing message true =>
      (Running, {| cn_peers := cn_peers c; cn_events := cn_events c; cn_recent := cn_recent c;
                   cn_sent := cn_sent c ++ [message] |})
  | Outgoing message false => (Failed, c)
  | BothClosed => (Ended, c)
  end.
Definition forget_peer (c : Connection) : Connection :=
  {| cn_peers := delete peer (cn_peers c); cn_events := cn_events c; cn_recent := cn_recent c;
     cn_sent := cn_sent c |}.
(** The loop, and what follows it when it ends by [break]. *)
Fixpoint connection_loop (events : list LoopEvent) (c : Connection) : LoopStatus * Connection :=
  match events with
  | [] => (Running, c)
  | event :: events =>
      match turn event c with
      | (Running, c) => connection_loop events c
      | (Ended, c) => (Ended, forget_peer c)
      | (Failed, c) => (Failed, c)
      end
  end.
End connection.

(** [handle_connection] after the handshake message was read. *)
Definition handle_connection `{HashBackend, Serde NetworkMessage} (chain_id : ChainId)
    (peer : string) (inbound_only : bool) (now : Z) (remote : NetworkMessage)
    (events : list LoopEvent) (shared : Peers * list NetworkEvent) :
    LoopStatus * (Peers * list NetworkEvent) :=
  match handshake chain_id peer inbound_only now remote shared.1 with
  | Ok peers =>
      let '(status, c) := connection_loop peer events
        {| cn_peers := peers; cn_events := shared.2; cn_recent := RecentMessages_default;
           cn_sent := [] |} in
      (status, (cn_peers c, cn_events c))
  | _ => (Failed, shared)
  end.

(** ** The fan-out *)
Record Sink := { sk_closed : bool; sk_queue : list NetworkMessage }.
Definition push (message : NetworkMessage) (sink : Sink) : Sink :=
  {| sk_closed := sk_closed sink; sk_queue := sk_queue sink ++ [message] |}.
Definition fan_out (target_peer : option string) (message : NetworkMessage)
    (sinks : gmap string Sink) : gmap string Sink :=
  let sinks := filter (λ '(_, sink), sk_closed sink = false) sinks in
  match target_peer with
  | Some target => alter (push message) target sinks
  | None => push message <$> sinks
  end.
End Network.

(** ** The window of recent messages *)

(** The specification: the ids accepted so far, of which the last [MAX_RECENT] count. *)
Definition window (accepted : list Hash32) : list Hash32 :=
  drop (length accepted - MAX_RECENT) accepted.
Record represents (accepted : list Hash32) (recent : RecentMessages) : Prop := {
  rp_order : rm_order recent = window accepted;
  rp_seen : rm_seen recent = list_to_set (rm_order recent);
  rp_NoDup : NoDup (rm_order recent)
}.
Lemma MAX_RECENT_pos : (0 < MAX_RECENT)%nat.
Proof. unfold MAX_RECENT. lia. Qed.
#[local] Opaque MAX_RECENT.
Lemma length_window accepted : length (window accepted) = Nat.min (length accepted) MAX_RECENT.
Proof. unfold window. rewrite length_drop. lia. Qed.
Lemma window_snoc accepted id :
  window (accepted ++ [id]) =
  if decide (MAX_RECENT < length (window accepted ++ [id]))%nat
  then drop 1 (window accepted ++ [id]) else window accepted ++ [id].
Proof.
  rewrite length_app, length_window. unfold window. rewrite length_app. cbn [length].
  case_decide as Hl.
  - replace (length accepted + 1 - MAX_RECENT)%nat with (S (length accepted - MAX_RECENT)) by lia.
    rewrite <-(drop_app_le _ [id]) by lia. rewrite drop_drop. f_equal. lia.
  - replace (length accepted + 1 - MAX_RECENT)%nat with 0%nat by lia.
    replace (length accepted - MAX_RECENT)%nat with 0%nat by lia. done.
Qed.
Lemma evict_loop_short fuel recent :
  (length (rm_order recent) ≤ MAX_RECENT)%nat → Network.evict_loop fuel recent = recent.
Proof.
  intros Hl. destruct fuel; [done|]. cbn [Network.evict_loop].
  by rewrite (proj2 (Nat.ltb_ge _ _)).
Qed.
Lemma evict_loop_once fuel recent :
  (length (rm_order recent) = MAX_RECENT + 1)%nat → (0 < fuel)%nat →
  Network.evict_loop fuel recent = Network.evict recent.
Proof.
  intros Hl Hf. destruct fuel; [lia|]. cbn [Network.evict_loop].
  rewrite (proj2 (Nat.ltb_lt _ _)) by lia. apply evict_loop_short.
  unfold Network.evict. destruct (rm_order recent) as [|x l] eqn:E; [cbn in *; lia|].
  cbn [length rm_order] in *. lia.
Qed.
Lemma seen_snoc (order : list Hash32) id :
  {[ id ]} ∪ list_to_set order = (list_to_set (order ++ [id]) : gset Hash32).
Proof.
  rewrite list_to_set_app_L. cbn [list_to_set foldr]. rewrite union_comm_L. f_equal.
  symmetry. apply union_empty_r_L.
Qed.
Lemma seen_pop (order : list Hash32) oldest :
  oldest ∉ order → list_to_set (oldest :: order) ∖ {[ oldest ]} = (list_to_set order : gset Hash32).
Proof.
  intros Ho. apply set_eq. intros x.
  rewrite elem_of_difference, !elem_of_list_to_set, elem_of_singleton, elem_of_cons.
  split; [tauto|]. intros Hx. split; [by right|]. by intros ->.
Qed.
Lemma remember_represents accepted recent id :
  represents accepted recent →
  let '(fresh, recent') := Network.remember id recent in
  fresh = negb (bool_decide (id ∈ window accepted)) ∧
  represents (if fresh then accepted ++ [id] else accepted) recent'.
Proof.
  intros [Ho Hs Hnd]. unfold Network.remember. rewrite Hs, <-Ho.
  assert (bool_decide (id ∈ (list_to_set (rm_order recent) : gset Hash32)) =
    bool_decide (id ∈ rm_order recent)) as -> by (apply bool_decide_ext, elem_of_list_to_set).
  case_bool_decide as Hin; [by split|]. split; [done|].
  set (r1 := {| rm_seen := _; rm_order := _ |}).
  assert (NoDup (rm_order recent ++ [id])) as Hnd1.
  { apply NoDup_app. split_and!; [done| |apply NoDup_singleton].
    intros x Hx ->%list_elem_of_singleton. done. }
  assert (length (rm_order recent) ≤ MAX_RECENT)%nat as Hle by (rewrite Ho, length_window; lia).
  assert (length (rm_order r1) = length (rm_order recent) + 1)%nat as Hr1
    by (cbn; by rewrite length_app).
  destruct (decide (MAX_RECENT < length (rm_order r1))%nat) as [Hgt|Hgt].
  - rewrite evict_loop_once by lia. unfold Network.evict.
    pose proof (window_snoc accepted id) as Hw. rewrite <-Ho, decide_True in Hw by exact Hgt.
    cbn [rm_order r1] in *. destruct (rm_order recent ++ [id]) as [|oldest order] eqn:E; [cbn in Hgt; lia|].
    apply NoDup_cons in Hnd1 as [Hno Hnd1]. split; cbn [rm_order rm_seen]; [by rewrite Hw| |done].
    cbn [r1 rm_seen]. rewrite seen_snoc, E. by apply seen_pop.
  - rewrite evict_loop_short by lia. pose proof (window_snoc accepted id) as Hw.
    rewrite <-Ho, decide_False in Hw by exact Hgt. split; [by rewrite Hw| |done].
    cbn [r1 rm_seen rm_order]. apply seen_snoc.
Qed.

(** ** One message *)
Lemma alter_some {A} (f : A → A) (m : gmap string A) i x :
  m !! i = Some x → alter f i m = <[i := f x]> m.
Proof.
  intros Hi. apply map_eq. intros j. destruct (decide (i = j)) as [<-|Hj].
  - by rewrite lookup_alter_eq, Hi, lookup_insert_eq.
  - by rewrite lookup_alter_ne, lookup_insert_ne.
Qed.

Section connection.
Context `{HashBackend, Serde NetworkMessage} (peer : string).

Definition fresh_in (message : NetworkMessage) (c : Connection) : bool :=
  (Network.remember (Network.message_id message) (cn_recent c)).1.
(** The peer's record after a message, before the check for a ban. *)
Definition scored (message : NetworkMessage) (now : Z) (fresh : bool) (s : PeerState) : PeerState :=
  (if fresh then Network.reward else Network.penalize) (Network.count_message now message s).
Definition dated (ban_now : Z) (s : PeerState) : PeerState :=
  if ps_score s <=? SCORE_BAN_THRESHOLD
  then set_banned_until (Some (saturating_add U64_MAX ban_now BAN_DURATION_MS)) s else s.
Definition announced (message : NetworkMessage) (c : Connection) : list NetworkEvent :=
  if fresh_in message c then [{| ne_peer := peer; ne_message := message |}] else [].

Lemma on_message_run message now ban_now c s :
  cn_peers c !! peer = Some s →
  let s' := scored message now (fresh_in message c) s in
  Network.on_message peer message now ban_now c =
  (if ps_score s' <=? SCORE_BAN_THRESHOLD then Ended else Running,
   {| cn_peers := <[peer := dated ban_now s']> (cn_peers c);
      cn_events := cn_events c ++ announced message c;
      cn_recent := (Network.remember (Network.message_id message) (cn_recent c)).2;
      cn_sent := cn_sent c |}).
Proof.
  intros Hp s'. unfold Network.on_message, announced, dated, fresh_in in *.
  destruct (Network.remember _ _) as [fresh recent] eqn:Hr. cbn [fst snd] in *.
  rewrite (alter_some _ _ _ _ Hp).
  rewrite (alter_some _ _ _ (Network.count_message now message s)) by apply lookup_insert_eq.
  rewrite insert_insert_eq. fold (scored message now fresh s). fold s'.
  unfold Network.should_ban. rewrite lookup_insert_eq.
  destruct (_ <=? _).
  - rewrite (alter_some _ _ _ s') by apply lookup_insert_eq. rewrite insert_insert_eq.
    destruct fresh; [done|by rewrite app_nil_r].
  - destruct fresh; [done|by rewrite app_nil_r].
Qed.
Lemma scored_le message now fresh s :
  ps_score s ≤ SCORE_MAX →
  ps_score s + SCORE_DUPLICATE_MESSAGE ≤ ps_score (scored message now fresh s) ≤ SCORE_MAX.
Proof.
  intros Hm. unfold scored, Network.reward, Network.penalize, Network.count_message,
    SCORE_DUPLICATE_MESSAGE, SCORE_VALID_MESSAGE, SCORE_USEFUL_BLOCK, SCORE_MAX in *.
  destruct fresh, message; cbn; try case_match; cbn; lia.
Qed.

(** In general, whether the peer is in the table or not. *)
Lemma on_message_alter message now ban_now c :
  Network.on_message peer message now ban_now c =
  (if match cn_peers c !! peer with
      | Some s => ps_score (scored message now (fresh_in message c) s) <=? SCORE_BAN_THRESHOLD
      | None => false
      end then Ended else Running,
   {| cn_peers := alter (λ s, dated ban_now (scored message now (fresh_in message c) s)) peer (cn_peers c);
      cn_events := cn_events c ++ announced message c;
      cn_recent := (Network.remember (Network.message_id message) (cn_recent c)).2;
      cn_sent := cn_sent c |}).
Proof.
  destruct (cn_peers c !! peer) as [s|] eqn:Hp.
  - rewrite (on_message_run _ _ _ _ _ Hp), (alter_some _ _ _ _ Hp). done.
  - unfold Network.on_message, announced, fresh_in, Network.should_ban in *.
    destruct (Network.remember _ _) as [fresh recent]. cbn [fst snd].
    assert (∀ f : PeerState → PeerState, alter f peer (cn_peers c) = cn_peers c) as Ha.
    { intros f. apply map_eq. intros j. destruct (decide (peer = j)) as [<-|Hj].
      - by rewrite lookup_alter_eq, Hp.
      - by rewrite lookup_alter_ne. }
    rewrite !Ha, Hp. destruct fresh; [done|by rewrite app_nil_r].
Qed.
Lemma turn_frame q event c :
  q ≠ peer → cn_peers (Network.turn peer event c).2 !! q = cn_peers c !! q.
Proof.
  intros Hq. destruct event as [bytes now ban_now| |message []|]; cbn [Network.turn]; try done.
  destruct (Codec.decode bytes) as [message| | ]; [|done..].
  rewrite on_message_alter. cbn [snd cn_peers]. by apply lookup_alter_ne.
Qed.
Lemma loop_frame q events c :
  q ≠ peer → cn_peers (Network.connection_loop peer events c).2 !! q = cn_peers c !! q.
Proof.
  intros Hq. revert c. induction events as [|event events IH]; intros c; [done|].
  cbn [Network.connection_loop]. pose proof (turn_frame q event c Hq) as Ht.
  destruct (Network.turn peer event c) as [[] c']; cbn [snd] in *.
  - by rewrite IH.
  - unfold Network.forget_peer. cbn [cn_peers]. by rewrite lookup_delete_ne.
  - done.
Qed.

(** Two states of a task that differ only in what belongs to others. *)
Record same_view (c1 c2 : Connection) : Prop := {
  sv_peer : cn_peers c1 !! peer = cn_peers c2 !! peer;
  sv_recent : cn_recent c1 = cn_recent c2;
  sv_sent : cn_sent c1 = cn_sent c2;
  sv_events : cn_events c1 = cn_events c2
}.
Lemma turn_view event c1 c2 :
  same_view c1 c2 →
  (Network.turn peer event c1).1 = (Network.turn peer event c2).1 ∧
  same_view (Network.turn peer event c1).2 (Network.turn peer event c2).2.
Proof.
  intros [Hp Hr Hs He]. destruct event as [bytes now ban_now| |message []|]; cbn [Network.turn fst snd];
    try by (split; [|split]).
  - destruct (Codec.decode bytes) as [message| | ]; cbn [fst snd]; try by (split; [|split]).
    rewrite !on_message_alter. unfold announced, fresh_in. rewrite Hp, Hr, Hs, He.
    cbn [fst snd]. split; [done|]. split; cbn; try done. by rewrite !lookup_alter_eq, Hp.
  - split; [done|]. split; cbn; try done. by rewrite Hs.
Qed.
Lemma loop_view events c1 c2 :
  same_view c1 c2 →
  (Network.connection_loop peer events c1).1 = (Network.connection_loop peer events c2).1 ∧
  same_view (Network.connection_loop peer events c1).2 (Network.connection_loop peer events c2).2.
Proof.
  revert c1 c2. induction events as [|event events IH]; intros c1 c2 Hv; [done|].
  cbn [Network.connection_loop]. destruct (turn_view event c1 c2 Hv) as [Hst Hv'].
  destruct (Network.turn peer event c1) as [st1 c1'], (Network.turn peer event c2) as [st2 c2'].
  cbn [fst snd] in *. subst st2. destruct st1; [by apply IH| |done].
  split; [done|]. destruct Hv'. split; cbn; try done. by rewrite !lookup_delete_eq.
Qed.

(** What a running loop does to its own entry. *)
Lemma loop_entry events c s :
  cn_peers c !! peer = Some s →
  SCORE_BAN_THRESHOLD ≤ ps_score s ≤ SCORE_MAX →
  let '(status, c') := Network.connection_loop peer events c in
  match status with
  | Ended => cn_peers c' !! peer = None
  | _ => ∃ s', cn_peers c' !! peer = Some s' ∧ SCORE_BAN_THRESHOLD ≤ ps_score s' ≤ SCORE_MAX ∧
      ps_is_outbound s' = ps_is_outbound s ∧ ps_node_id s' = ps_node_id s ∧
      ps_best_height s ≤ ps_best_height s'
  end.
Proof.
  revert c s. induction events as [|event events IH]; intros c s Hp Hs.
  { cbn. exists s. split_and!; try done; lia. }
  cbn [Network.connection_loop].
  destruct event as [bytes now ban_now| |message []|]; cbn [Network.turn].
  - destruct (Codec.decode bytes) as [message| | ]; [|exists s; split_and!; try done; lia..].
    rewrite (on_message_run _ _ _ _ _ Hp).
    destruct (scored_le message now (fresh_in message c) s) as [_ Hle]; [lia|].
    assert (ps_is_outbound (scored message now (fresh_in message c) s) = ps_is_outbound s ∧
      ps_node_id (scored message now (fresh_in message c) s) = ps_node_id s ∧
      ps_best_height s ≤ ps_best_height (scored message now (fresh_in message c) s)) as (Ho & Hn & Hb).
    { unfold scored, Network.reward, Network.penalize, Network.count_message.
      destruct (fresh_in message c), message; cbn; split_and!; try done; try lia;
        destruct (_ <? _) eqn:E; cbn; try done; try lia; apply Z.ltb_lt in E; lia. }
    destruct (ps_score (scored _ _ _ _) <=? _) eqn:Hban.
    + unfold Network.forget_peer. cbn [cn_peers]. apply lookup_delete_eq.
    + unfold dated. rewrite Hban. apply Z.leb_gt in Hban.
      set (s1 := scored _ _ _ _) in *. set (c1 := {| cn_peers := _ |}).
      assert (cn_peers c1 !! peer = Some s1) as Hp1 by apply lookup_insert_eq.
      specialize (IH c1 s1 Hp1 ltac:(lia)).
      destruct (Network.connection_loop peer events c1) as [[] c']; [|done|];
        destruct IH as (s' & ? & ? & Ho' & Hn' & ?); exists s'; rewrite Ho', Hn'; split_and!; try done; lia.
  - exists s; split_and!; try done; lia.
  - specialize (IH {| cn_peers := cn_peers c; cn_events := cn_events c; cn_recent := cn_recent c;
      cn_sent := cn_sent c ++ [message] |} s Hp Hs). exact IH.
  - exists s; split_and!; try done; lia.
  - unfold Network.forget_peer. cbn [cn_peers]. apply lookup_delete_eq.
Qed.
End connection.

(** ** The recent messages as a window *)

(** A task that is asked about a sequence of ids, and the specification: an id is new when
    it is not among the last [MAX_RECENT] accepted ones. *)
Fixpoint remember_all (ids : list Hash32) (recent : RecentMessages) : list bool :=
  match ids with
  | [] => []
  | id :: ids => let '(fresh, recent) := Network.remember id recent in
                 fresh :: remember_all ids recent
  end.
Fixpoint spec_remember (ids accepted : list Hash32) : list bool :=
  match ids with
  | [] => []
  | id :: ids =>
      let fresh := negb (bool_decide (id ∈ window accepted)) in
      fresh :: spec_remember ids (if fresh then accepted ++ [id] else accepted)
  end.
Lemma represents_default : represents [] RecentMessages_default.
Proof.
  split; [|done|constructor]. unfold window. by rewrite drop_nil.
Qed.
(** C29: the queue and the set of a connection implement the window: for every sequence of
    message ids, [remember] answers as the specification that keeps the whole list of
    accepted ids and looks at its last 2048. *)
Theorem remember_refines_window ids :
  remember_all ids RecentMessages_default = spec_remember ids [].
Proof.
  pose proof represents_default as Hr. revert Hr.
  generalize RecentMessages_default ([] : list Hash32).
  induction ids as [|id ids IH]; intros recent accepted Hr; [done|]. cbn.
  apply (remember_represents _ _ id) in Hr. destruct (Network.remember id recent) as [fresh recent'].
  destruct Hr as [-> Hr]. f_equal. by apply IH.
Qed.

(** ** Repeated frames *)
Section flood.
Context `{HashBackend, Serde NetworkMessage} (peer : string).

(** The message adds nothing any more to what is known of the peer's height. *)
Definition settled (message : NetworkMessage) (s : PeerState) : Prop :=
  match message with
  | MsgCommit finalized => bh_height (bk_header (fb_block finalized)) ≤ ps_best_height s
  | _ => True
  end.
Lemma scored_settles message now fresh s : settled message (scored message now fresh s).
Proof.
  unfold scored, Network.reward, Network.penalize, Network.count_message, settled.
  destruct fresh, message; cbn; try done; destruct (_ <? _) eqn:E; cbn; [lia| |lia|];
    apply Z.ltb_ge in E; lia.
Qed.
Lemma scored_duplicate message now s :
  settled message s →
  ps_score (scored message now false s) = ps_score s + SCORE_DUPLICATE_MESSAGE.
Proof.
  intros Hs. unfold scored, Network.penalize, Network.count_message, settled in *.
  destruct message; cbn; try done. destruct (_ <? _) eqn:E; [|done].
  apply Z.ltb_lt in E. cbn in *. lia.
Qed.
Lemma remember_seen id recent :
  id ∈ rm_seen recent → Network.remember id recent = (false, recent).
Proof. intros Hi. unfold Network.remember. by rewrite bool_decide_true. Qed.
Lemma remember_then_seen accepted id recent :
  represents accepted recent → id ∈ rm_seen (Network.remember id recent).2.
Proof.
  intros Hr. apply (remember_represents _ _ id) in Hr as Hr'.
  destruct (Network.remember id recent) as [fresh recent']. cbn [snd].
  destruct Hr' as [Hf [Ho Hs Hd]]. rewrite Hs, elem_of_list_to_set, Ho.
  destruct fresh.
  - assert (id ∈ window accepted ++ [id]) as Hin
      by (apply elem_of_app; right; by apply list_elem_of_singleton).
    rewrite window_snoc. destruct (decide (MAX_RECENT < length (window accepted ++ [id]))%nat) as [Hl|Hl]; [|done].
    rewrite length_app in Hl. cbn in Hl. pose proof MAX_RECENT_pos.
    rewrite drop_app_le by lia.
    apply elem_of_app; right; by apply list_elem_of_singleton.
  - symmetry in Hf. by apply negb_false_iff, bool_decide_eq_true in Hf.
Qed.

Definition repeats (bytes : list byte) (times : list (Z * Z)) : list LoopEvent :=
  map (λ '(now, ban_now), Frame bytes now ban_now) times.
Lemma duplicates_ban bytes message times c s :
  Codec.decode (T:=NetworkMessage) bytes = Ok message →
  Network.message_id message ∈ rm_seen (cn_recent c) →
  cn_peers c !! peer = Some s → settled message s → times ≠ [] →
  ps_score s - SCORE_BAN_THRESHOLD ≤ 2 * Z.of_nat (length times) →
  (Network.connection_loop peer (repeats bytes times) c).1 = Ended.
Proof.
  intros Hd. revert c s. induction times as [|[now ban_now] times IH]; intros c s Hseen Hp Hs Hne Hl; [done|].
  cbn [repeats map Network.connection_loop Network.turn]. rewrite Hd.
  rewrite (on_message_run _ _ _ _ _ _ Hp). unfold fresh_in. rewrite (remember_seen _ _ Hseen). cbn [fst snd].
  pose proof (scored_duplicate message now s Hs) as Hsc. unfold SCORE_DUPLICATE_MESSAGE in Hsc.
  unfold dated. rewrite Hsc.
  destruct (_ <=? _) eqn:Hban; [done|]. apply Z.leb_gt in Hban. cbn [length] in Hl.
  eapply IH.
  - exact Hseen.
  - apply lookup_insert_eq.
  - apply scored_settles.
  - intros ->. cbn in Hl. lia.
  - rewrite Hsc. lia.
Qed.
Lemma loop_ended events c :
  (Network.connection_loop peer events c).1 = Ended →
  cn_peers (Network.connection_loop peer events c).2 !! peer = None.
Proof.
  revert c. induction events as [|event events IH]; intros c; [done|].
  cbn [Network.connection_loop]. destruct (Network.turn peer event c) as [[] c']; [apply IH| |done].
  intros _. unfold Network.forget_peer. cbn [cn_peers snd]. apply lookup_delete_eq.
Qed.
(** A peer that sends one and the same frame 76 times is dropped, whatever its score
    was before, whatever the message is and however the clock runs. *)
Lemma flood_is_banned bytes message times accepted c s :
  Codec.decode (T:=NetworkMessage) bytes = Ok message →
  represents accepted (cn_recent c) →
  cn_peers c !! peer = Some s → ps_score s ≤ SCORE_MAX →
  length times = 76%nat →
  (Network.connection_loop peer (repeats bytes times) c).1 = Ended ∧
  cn_peers (Network.connection_loop peer (repeats bytes times) c).2 !! peer = None.
Proof.
  intros Hd Hr Hp Hs Hl.
  assert ((Network.connection_loop peer (repeats bytes times) c).1 = Ended) as He;
    [|split; [done|by apply loop_ended]].
  destruct times as [|[now ban_now] times]; [done|]. injection Hl as Hl.
  cbn [repeats map Network.connection_loop Network.turn]. rewrite Hd.
  rewrite (on_message_run _ _ _ _ _ _ Hp).
  destruct (scored_le message now (fresh_in message c) s Hs) as [_ Hle]. unfold dated.
  destruct (_ <=? _) eqn:Hban; [done|]. eapply duplicates_ban; [exact Hd| | | | |].
  - by eapply remember_then_seen.
  - apply lookup_insert_eq.
  - apply scored_settles.
  - by intros ->.
  - unfold SCORE_BAN_THRESHOLD, SCORE_MAX in *. rewrite Hl. lia.
Qed.
End flood.

(** ** The table of peers *)
Definition inbound_entries (peers : Peers) : gset string :=
  dom (filter (λ '(_, s), ps_is_outbound s = false) peers).
Lemma inbound_count_size peers : Network.inbound_count peers = size (inbound_entries peers).
Proof.
  unfold inbound_entries. rewrite size_dom. unfold Network.inbound_count.
  induction peers as [|peer s peers Hp IH] using map_ind; [done|].
  rewrite (map_to_list_insert peers peer s Hp). cbn [fmap list_fmap snd].
  rewrite filter_cons. destruct (decide (ps_is_outbound s = false)) as [Ho|Ho]; cbn [length]; rewrite IH.
  - rewrite map_filter_insert_True by done. rewrite map_size_insert_None; [done|].
    by apply map_lookup_filter_None; left.
  - rewrite map_filter_insert_False by done. by rewrite delete_id.
Qed.
Lemma elem_inbound_entries peers peer :
  peer ∈ inbound_entries peers ↔ ∃ s, peers !! peer = Some s ∧ ps_is_outbound s = false.
Proof.
  unfold inbound_entries. rewrite elem_of_dom. split.
  - intros [s (Hp & Ho)%map_lookup_filter_Some]. by exists s.
  - intros (s & Hp & Ho). exists s. by apply map_lookup_filter_Some.
Qed.
Lemma inbound_count_mono peers peers' :
  (∀ peer s', peers' !! peer = Some s' →
     ∃ s, peers !! peer = Some s ∧ ps_is_outbound s' = ps_is_outbound s) →
  (Network.inbound_count peers' ≤ Network.inbound_count peers)%nat.
Proof.
  intros Hm. rewrite !inbound_count_size. apply subseteq_size. intros peer.
  rewrite !elem_inbound_entries. intros (s' & Hp & Ho). destruct (Hm _ _ Hp) as (s & Hs & He).
  exists s. by rewrite <-He.
Qed.
Lemma inbound_count_register peer inbound_only now payload peers :
  (Network.inbound_count (Network.register peer inbound_only now payload peers) ≤
   Network.inbound_count peers + if inbound_only then 1 else 0)%nat.
Proof.
  rewrite !inbound_count_size. unfold Network.register.
  destruct inbound_only.
  - trans (size ({[ peer ]} ∪ inbound_entries peers)).
    + apply subseteq_size. intros q. rewrite elem_of_union, elem_of_singleton, !elem_inbound_entries.
      destruct (decide (q = peer)) as [->|Hq]; [by left|]. rewrite lookup_insert_ne by done. by right.
    + pose proof (size_union_alt ({[ peer ]} : gset string) (inbound_entries peers)) as Hu.
      pose proof (subseteq_size (inbound_entries peers ∖ {[ peer ]}) (inbound_entries peers) (subseteq_difference_l _ _ _ (reflexivity _))) as Hd.
      rewrite size_singleton in Hu. lia.
  - rewrite Nat.add_0_r. apply subseteq_size. intros q. rewrite !elem_inbound_entries.
    intros (s & Hs & Ho). destruct (decide (q = peer)) as [->|Hq].
    + rewrite lookup_insert_eq in Hs. by simplify_eq/=.
    + rewrite lookup_insert_ne in Hs by done. by exists s.
Qed.
Lemma elem_node_banned node_id now peers :
  Network.node_banned node_id now peers = true ↔
  ∃ peer s, peers !! peer = Some s ∧ ps_node_id s = node_id ∧ Network.banned now s = true.
Proof.
  unfold Network.node_banned. rewrite existsb_exists. setoid_rewrite andb_true_iff.
  setoid_rewrite bool_decide_eq_true. split.
  - intros (s & Hin & Hn & Hb). apply list_elem_of_In, list_elem_of_fmap in Hin as ([peer s0] & -> & Hin).
    apply elem_of_map_to_list in Hin. by exists peer, s0.
  - intros (peer & s & Hp & Hn & Hb). exists s. split; [|done].
    apply list_elem_of_In, list_elem_of_fmap. exists (peer, s). split; [done|].
    by apply elem_of_map_to_list.
Qed.
(** The handshake admits a connection exactly when the peer answers with a handshake
    for the same chain, an inbound connection finds fewer than 50 inbound entries, and no
    entry of the table bans the announced node id at this time; what is admitted becomes
    the entry of its address, with a fresh score, in place of any entry the address had. *)
Lemma handshake_exact chain_id peer inbound_only now remote peers peers' :
  Network.handshake chain_id peer inbound_only now remote peers = Ok peers' ↔
  ∃ payload, remote = MsgHandshake payload ∧ hs_chain_id payload = chain_id ∧
    (inbound_only = true → (Network.inbound_count peers < MAX_INBOUND_CONNECTIONS)%nat) ∧
    (∀ other s, peers !! other = Some s → ps_node_id s = hs_node_id payload →
       Network.banned now s = false) ∧
    peers' = <[peer := Network.new_peer inbound_only now payload]> peers.
Proof.
  unfold Network.handshake, Network.admits.
  assert (∀ payload, (Network.node_banned (hs_node_id payload) now peers = false ↔
    ∀ other s, peers !! other = Some s → ps_node_id s = hs_node_id payload →
       Network.banned now s = false)) as Hnb.
  { intros payload. rewrite <-not_true_iff_false, elem_node_banned. split.
    - intros Hn other s Hp He. apply not_true_iff_false. intros Hb. apply Hn. by exists other, s.
    - intros Ha (other & s & Hp & He & Hb). by rewrite (Ha other s) in Hb. }
  assert (negb (negb (inbound_only && Nat.leb MAX_INBOUND_CONNECTIONS (Network.inbound_count peers))) = false ↔
    (inbound_only = true → (Network.inbound_count peers < MAX_INBOUND_CONNECTIONS)%nat)) as Hadm.
  { rewrite negb_involutive. destruct inbound_only; cbn [andb]; [|done].
    rewrite Nat.leb_gt. split; [by intros|intros Hx; by apply Hx]. }
  split.
  - destruct (negb _) eqn:Ha; [done|]. destruct remote as [payload| | | | | | | | |]; try done.
    case_bool_decide as Hc; [|done]. destruct (Network.node_banned _ _ _) eqn:Hb; [done|].
    intros [= <-]. exists payload. by rewrite <-Hadm, <-Hnb.
  - intros (payload & -> & Hc & Ha & Hb & ->). rewrite (proj2 Hadm Ha).
    by rewrite bool_decide_true, (proj2 (Hnb payload) Hb).
Qed.

Section table.
Context `{HashBackend, Serde NetworkMessage} (chain_id : ChainId).
(** What the tasks do to the shared table: a handshake, some turns of a connection, a ban
    by the owner of the handle. *)
Inductive table_step : Peers → Peers → Prop :=
  | step_handshake peer inbound_only now remote peers peers' :
      Network.handshake chain_id peer inbound_only now remote peers = Ok peers' →
      table_step peers peers'
  | step_turns peer events c :
      table_step (cn_peers c) (cn_peers (Network.connection_loop peer events c).2)
  | step_ban peer duration_ms now peers :
      table_step peers (Network.ban_peer peer duration_ms now peers).
Record table_ok (peers : Peers) : Prop := {
  to_inbound : (Network.inbound_count peers ≤ MAX_INBOUND_CONNECTIONS)%nat;
  to_scores : map_Forall (λ _ s, SCORE_BAN_THRESHOLD ≤ ps_score s ≤ SCORE_MAX) peers
}.
Lemma loop_absent peer events c :
  cn_peers c !! peer = None → cn_peers (Network.connection_loop peer events c).2 !! peer = None.
Proof.
  revert c. induction events as [|event events IH]; intros c Hp; [done|].
  cbn [Network.connection_loop].
  assert (cn_peers (Network.turn peer event c).2 !! peer = None) as Ht.
  { destruct event as [bytes now ban_now| |message []|]; cbn [Network.turn]; try done.
    destruct (Codec.decode bytes) as [message| | ]; try done.
    rewrite on_message_alter. cbn [snd cn_peers]. by rewrite lookup_alter_eq, Hp. }
  destruct (Network.turn peer event c) as [[] c']; cbn [snd] in *; [by apply IH| |done].
  unfold Network.forget_peer. cbn [cn_peers]. apply lookup_delete_eq.
Qed.
(** What a loop leaves in the table was there before, on the same side and in range. *)
Lemma loop_keeps peer events c q s' :
  map_Forall (λ _ s, SCORE_BAN_THRESHOLD ≤ ps_score s ≤ SCORE_MAX) (cn_peers c) →
  cn_peers (Network.connection_loop peer events c).2 !! q = Some s' →
  ∃ s, cn_peers c !! q = Some s ∧ ps_is_outbound s' = ps_is_outbound s ∧
    SCORE_BAN_THRESHOLD ≤ ps_score s' ≤ SCORE_MAX.
Proof.
  intros Hr Hq. destruct (decide (q = peer)) as [->|Hne].
  - destruct (cn_peers c !! peer) as [s|] eqn:Hp; [|by rewrite loop_absent in Hq].
    pose proof (loop_entry peer events c s Hp (Hr _ _ Hp)) as Hl.
    destruct (Network.connection_loop peer events c) as [[] c']; cbn [snd] in *;
      [| by rewrite Hl in Hq |]; destruct Hl as (s1 & Hs1 & Hb & Ho & _); simplify_eq;
      exists s; split_and!; try done; lia.
  - rewrite loop_frame in Hq by done. exists s'. split_and!; try done; apply (Hr q s' Hq).
Qed.
Lemma table_step_ok peers peers' : table_step peers peers' → table_ok peers → table_ok peers'.
Proof.
  intros Hst [Hi Hs]. destruct Hst as [peer inbound_only now remote peers peers' Hh|peer events c|peer d now peers].
  - apply handshake_exact in Hh as (payload & -> & Hc & Ha & _ & ->). split.
    + pose proof (inbound_count_register peer inbound_only now payload peers) as Hr.
      unfold Network.register in Hr. destruct inbound_only; [specialize (Ha eq_refl)|]; lia.
    + apply map_Forall_insert_2; [|done]. cbn. unfold SCORE_BAN_THRESHOLD, SCORE_INITIAL, SCORE_MAX. lia.
  - split.
    + etrans; [|exact Hi]. apply inbound_count_mono. intros q s' Hq.
      destruct (loop_keeps _ _ _ _ _ Hs Hq) as (s & Hp & Ho & _). by exists s.
    + intros q s' Hq. by destruct (loop_keeps _ _ _ _ _ Hs Hq) as (s & _ & _ & Hb).
  - unfold Network.ban_peer. split.
    + etrans; [|exact Hi]. apply inbound_count_mono. intros q s'.
      rewrite lookup_alter_Some. intros [(-> & s & Hq & ->)|[_ Hq]]; by eexists.
    + intros q s'. rewrite lookup_alter_Some. intros [(-> & s & Hq & ->)|[_ Hq]].
      * cbn. unfold SCORE_BAN_THRESHOLD, SCORE_MAX. lia.
      * by apply (Hs q s').
Qed.
(** C30: whatever handshakes, turns of connections and bans the tasks run, one after the
    other, from the empty table: at most 50 entries are inbound, and every score stays
    between the ban threshold and the cap. *)
Theorem peer_table_invariant peers :
  rtc table_step ∅ peers →
  (Network.inbound_count peers ≤ MAX_INBOUND_CONNECTIONS)%nat ∧
  ∀ peer s, peers !! peer = Some s → SCORE_BAN_THRESHOLD ≤ ps_score s ≤ SCORE_MAX.
Proof.
  intros Hr. assert (table_ok ∅) as Hok by (split; [exact (Nat.le_0_l _)|apply map_Forall_empty]).
  enough (table_ok peers) as [Hi Hs] by (split; [exact Hi|exact Hs]).
  induction Hr as [|peers1 peers2 peers3 Hst _ IH]; [done|]. by eapply IH, table_step_ok.
Qed.
(** The turns of the connections of two different peers commute: whichever task runs
    first, both come to the same end, see the same messages, send the same events and
    leave the same table. *)
Lemma connections_commute p q es1 es2 table c1 c2 :
  p ≠ q →
  let attach peers c := {| cn_peers := peers; cn_events := cn_events c; cn_recent := cn_recent c;
                           cn_sent := cn_sent c |} in
  let first := Network.connection_loop p es1 (attach table c1) in
  let then_q := Network.connection_loop q es2 (attach (cn_peers first.2) c2) in
  let first' := Network.connection_loop q es2 (attach table c2) in
  let then_p := Network.connection_loop p es1 (attach (cn_peers first'.2) c1) in
  first.1 = then_p.1 ∧ first'.1 = then_q.1 ∧
  cn_events first.2 = cn_events then_p.2 ∧ cn_events first'.2 = cn_events then_q.2 ∧
  cn_peers then_q.2 = cn_peers then_p.2.
Proof.
  intros Hne attach first then_q first' then_p.
  destruct (loop_view p es1 (attach table c1) (attach (cn_peers first'.2) c1)) as [Hst1 [Hp1 _ _ He1]].
  { split; try done. cbn [attach cn_peers]. unfold first'. by rewrite loop_frame. }
  destruct (loop_view q es2 (attach table c2) (attach (cn_peers first.2) c2)) as [Hst2 [Hp2 _ _ He2]].
  { split; try done. cbn [attach cn_peers]. unfold first. by rewrite loop_frame. }
  split_and!; try done. apply map_eq. intros r.
  destruct (decide (r = p)) as [->|Hrp]; [|destruct (decide (r = q)) as [->|Hrq]].
  - unfold then_q. rewrite loop_frame by done. exact Hp1.
  - unfold then_p. rewrite loop_frame by done. symmetry. exact Hp2.
  - unfold then_q, then_p. rewrite !loop_frame by done. cbn [attach cn_peers].
    unfold first, first'. by rewrite !loop_frame.
Qed.
End table.

(** A task that fails leaves the entry of its peer behind, and only a ban or a closed queue
    removes one: a peer that hangs up is found by the next send, which fails. *)
Lemma failed_keeps_entry `{HashBackend, Serde NetworkMessage} peer message c s :
  cn_peers c !! peer = Some s →
  Network.connection_loop peer [Outgoing message false] c = (Failed, c) ∧
  cn_peers c !! peer = Some s.
Proof. by split. Qed.
(** A ban is dated in the entry that the end of the task deletes, so it bans nobody. *)
Lemma ban_is_forgotten `{HashBackend, Serde NetworkMessage} peer events c (now : Z) :
  (Network.connection_loop peer events c).1 = Ended →
  Network.is_banned peer now (cn_peers (Network.connection_loop peer events c).2) = false.
Proof. intros He. unfold Network.is_banned. by rewrite loop_ended. Qed.

(** ** Examples *)
Module NetworkExamples.
(** Pings of one byte after a tag, and nothing else. *)
#[local] Instance message_serde : Serde NetworkMessage := {|
  encode_to_vec message :=
    match message with MsgPing nonce => [x01; Z_byte nonce] | _ => [] end;
  decode_from_slice bytes :=
    match bytes with x01 :: b :: _ => Ok (MsgPing (byte_Z b), 2%nat) | _ => Err "tag" end
|}.
#[local] Existing Instance ToyHash.backend.
Definition hello : Handshake :=
  {| hs_chain_id := Build_ChainId "zeno"; hs_node_id := "node"; hs_best_height := 7 |}.
Definition table : Peers := Network.register "a" true 0 hello ∅.
Definition flood : list (Z * Z) := replicate 76 (1, 2).
Definition start : Connection :=
  {| cn_peers := table; cn_events := []; cn_recent := RecentMessages_default; cn_sent := [] |}.

Lemma flood_is_banned_witness :
  Codec.decode (T:=NetworkMessage) [x01; x05] = Ok (MsgPing 5) ∧
  (Network.connection_loop "a" (repeats [x01; x05] flood) start).1 = Ended ∧
  cn_peers (Network.connection_loop "a" (repeats [x01; x05] flood) start).2 !! "a" = None.
Proof.
  split; [reflexivity|].
  apply (flood_is_banned "a" [x01; x05] (MsgPing 5) flood [] start (Network.new_peer true 0 hello)).
  - reflexivity.
  - exact represents_default.
  - apply lookup_insert_eq.
  - vm_compute; discriminate.
  - reflexivity.
Defined.
Lemma hello_admitted :
  Network.handshake (Build_ChainId "zeno") "a" true 0 (MsgHandshake hello) ∅ = Ok table.
Proof. vm_compute. reflexivity. Qed.
Lemma peer_table_invariant_witness :
  rtc (table_step (Build_ChainId "zeno")) ∅ table ∧
  (Network.inbound_count table ≤ MAX_INBOUND_CONNECTIONS)%nat.
Proof.
  assert (rtc (table_step (Build_ChainId "zeno")) ∅ table) as Hr.
  { eapply rtc_once, step_handshake. exact hello_admitted. }
  split; [exact Hr|]. apply (peer_table_invariant (Build_ChainId "zeno") table Hr).
Defined.
Lemma connections_commute_witness :
  "a" ≠ "b" ∧
  cn_events (Network.connection_loop "a" [Frame [x01; x05] 1 2] start).2 =
  [{| ne_peer := "a"; ne_message := MsgPing 5 |}].
Proof.
  split; [discriminate|].
  etrans; [|reflexivity].
  destruct (connections_commute "a" "b" [Frame [x01; x05] 1 2] [Frame [x01; x05] 1 2] table start start
    ltac:(discriminate)) as (_ & _ & He & _).
  etrans; [exact He|]. vm_compute. reflexivity.
Defined.
(** Thirty-two equal frames are enough from the initial score; the node is back at once. *)
Lemma banned_node_returns :
  let ended := Network.connection_loop "a" (repeats [x01; x05] (take 32 flood)) start in
  ended.1 = Ended ∧
  Network.handshake (Build_ChainId "zeno") "a" true 3 (MsgHandshake hello) (cn_peers ended.2) =
  Ok (Network.register "a" true 3 hello ∅).
Proof. split; vm_compute; reflexivity. Qed.
End NetworkExamples.
