(* ===== verification/Fanout.v ===== *)
(** [crates/zeno-network], the queues of [start_network]: the channel of outgoing messages,
    the loop that hands them to the connections, and the queue of each connection, all of
    them bounded.  They implement the unbounded [Network.fan_out] as long as they move, and
    one peer that stops reading stops them all. *)

From S2P Require Import Prelude Types Codec Hash Network.
Import Network.

Definition OUTBOUND_CAPACITY : nat := 1024.
Definition REGISTRY_CAPACITY : nat := 128.
Definition SINK_CAPACITY : nat := 256.

Record OutboundMessage := { om_target_peer : option string; om_message : NetworkMessage }.
(** The channels, the table of the loop, and the message it is handing out with the peers
    that still have to get it. *)
Record Fanout := {
  fo_outbound : list OutboundMessage;
  fo_registry : list string;
  fo_sinks : gmap string Sink;
  fo_current : option (NetworkMessage * list string)
}.
Definition Fanout_init : Fanout :=
  {| fo_outbound := []; fo_registry := []; fo_sinks := ∅; fo_current := None |}.

(** Who does the next step: a task of the node that sends, a connection that registers, the
    loop that takes a registration or a message (the latter with the table in the order of
    its keys) or hands the message to its next peer, and a connection that writes a message
    to its socket or ends. *)
Inductive Act :=
  | SendOut (outbound : OutboundMessage)
  | Connect (peer : string)
  | TakeRegistration
  | TakeMessage (order : list string)
  | Deliver
  | Drain (peer : string)
  | Close (peer : string).

Module Fanout.
Definition fresh : Sink := {| sk_closed := false; sk_queue := [] |}.
Definition closed : Sink := {| sk_closed := true; sk_queue := [] |}.
Definition pop (sink : Sink) : Sink :=
  {| sk_closed := sk_closed sink; sk_queue := tail (sk_queue sink) |}.
Definition retain (sinks : gmap string Sink) : gmap string Sink :=
  filter (λ '(_, sink), sk_closed sink = false) sinks.
Definition pending (message : NetworkMessage) (targets : list string) :
    option (NetworkMessage * list string) :=
  match targets with [] => None | _ => Some (message, targets) end.
(** The peers that a message is for. *)
Definition targets (outbound : OutboundMessage) (order : list string) (sinks : gmap string Sink) :
    list string :=
  match om_target_peer outbound with
  | Some peer => match sinks !! peer with Some _ => [peer] | None => [] end
  | None => order
  end.
(** One step; [None] when it has to wait. *)
Definition act (a : Act) (s : Fanout) : option Fanout :=
  match a with
  | SendOut outbound =>
      if Nat.ltb (length (fo_outbound s)) OUTBOUND_CAPACITY then
        Some {| fo_outbound := fo_outbound s ++ [outbound]; fo_registry := fo_registry s;
                fo_sinks := fo_sinks s; fo_current := fo_current s |}
      else None
  | Connect peer =>
      if Nat.ltb (length (fo_registry s)) REGISTRY_CAPACITY then
        Some {| fo_outbound := fo_outbound s; fo_registry := fo_registry s ++ [peer];
                fo_sinks := fo_sinks s; fo_current := fo_current s |}
      else None
  | TakeRegistration =>
      match fo_current s, fo_registry s with
      | None, peer :: registry =>
          Some {| fo_outbound := fo_outbound s; fo_registry := registry;
                  fo_sinks := <[peer := fresh]> (fo_sinks s); fo_current := None |}
      | _, _ => None
      end
  | TakeMessage order =>
      match fo_current s, fo_outbound s with
      | None, outbound :: rest =>
          let sinks := retain (fo_sinks s) in
          if bool_decide (order ≡ₚ (map_to_list sinks).*1) then
            Some {| fo_outbound := rest; fo_registry := fo_registry s; fo_sinks := sinks;
                    fo_current := pending (om_message outbound) (targets outbound order sinks) |}
          else None
      | _, _ => None
      end
  | Deliver =>
      match fo_current s with
      | Some (message, peer :: rest) =>
          let after sinks := Some {| fo_outbound := fo_outbound s; fo_registry := fo_registry s;
            fo_sinks := sinks; fo_current := pending message rest |} in
          match fo_sinks s !! peer with
          | Some sink =>
              if sk_closed sink then after (fo_sinks s) else
              if Nat.ltb (length (sk_queue sink)) SINK_CAPACITY
              then after (<[peer := push message sink]> (fo_sinks s))
              else None
          | None => after (fo_sinks s)
          end
      | _ => None
      end
  | Drain peer =>
      match fo_sinks s !! peer with
      | Some sink =>
          match sk_closed sink, sk_queue sink with
          | false, _ :: _ =>
              Some {| fo_outbound := fo_outbound s; fo_registry := fo_registry s;
                      fo_sinks := <[peer := pop sink]> (fo_sinks s); fo_current := fo_current s |}
          | _, _ => None
          end
      | None => None
      end
  | Close peer =>
      match fo_sinks s !! peer with
      | Some _ =>
          Some {| fo_outbound := fo_outbound s; fo_registry := fo_registry s;
                  fo_sinks := <[peer := closed]> (fo_sinks s); fo_current := fo_current s |}
      | None => None
      end
  end.
Definition run (acts : list Act) (s : Fanout) : option Fanout :=
  foldl (λ s a, s ≫= act a) (Some s) acts.
End Fanout.
Import Fanout.

(** ** The queues implement the fan-out *)

(** What happens to a table without bounds: a message is handed out at once. *)
Inductive TableEvent :=
  | Dispatched (outbound : OutboundMessage)
  | Registered (peer : string)
  | Written (peer : string)
  | Ended (peer : string)
  | Silent.
Definition observe (e : TableEvent) (sinks : gmap string Sink) : gmap string Sink :=
  match e with
  | Dispatched outbound => fan_out (om_target_peer outbound) (om_message outbound) sinks
  | Registered peer => <[peer := fresh]> sinks
  | Written peer => alter pop peer sinks
  | Ended peer => alter (λ _, closed) peer sinks
  | Silent => sinks
  end.
(** The event of a step. *)
Definition event_of (a : Act) (s : Fanout) : TableEvent :=
  match a with
  | TakeMessage _ => match fo_outbound s with outbound :: _ => Dispatched outbound | [] => Silent end
  | TakeRegistration => match fo_registry s with peer :: _ => Registered peer | [] => Silent end
  | Drain peer => Written peer
  | Close peer => Ended peer
  | SendOut _ | Connect _ | Deliver => Silent
  end.
(** The table as it will be once the current message has been handed out. *)
Definition owed (s : Fanout) (peer : string) : list NetworkMessage :=
  match fo_current s with
  | Some (message, targets) => if bool_decide (peer ∈ targets) then [message] else []
  | None => []
  end.
Definition settled_sink (s : Fanout) (peer : string) (sink : Sink) : Sink :=
  if sk_closed sink then closed
  else {| sk_closed := false; sk_queue := sk_queue sink ++ owed s peer |}.
Definition table (s : Fanout) : gmap string Sink :=
  map_imap (λ peer sink, Some (settled_sink s peer sink)) (fo_sinks s).

Record fanout_ok (s : Fanout) : Prop := {
  fk_outbound : (length (fo_outbound s) ≤ OUTBOUND_CAPACITY)%nat;
  fk_registry : (length (fo_registry s) ≤ REGISTRY_CAPACITY)%nat;
  fk_sinks peer sink : fo_sinks s !! peer = Some sink → (length (sk_queue sink) ≤ SINK_CAPACITY)%nat;
  fk_targets message targets : fo_current s = Some (message, targets) →
    targets ≠ [] ∧ NoDup targets ∧ ∀ peer, peer ∈ targets → is_Some (fo_sinks s !! peer)
}.

Lemma table_lookup s peer : table s !! peer = settled_sink s peer <$> fo_sinks s !! peer.
Proof. unfold table. rewrite map_lookup_imap. by destruct (fo_sinks s !! peer). Qed.
Lemma retain_lookup sinks peer :
  retain sinks !! peer = sink ← sinks !! peer; if sk_closed sink then None else Some sink.
Proof.
  unfold retain. rewrite map_lookup_filter. destruct (sinks !! peer) as [sink|]; [|done]. cbn.
  case_guard as Hc; cbn in Hc; destruct (sk_closed sink) eqn:E; done.
Qed.
Lemma pending_spec message l message' l' :
  pending message l = Some (message', l') ↔ message' = message ∧ l' = l ∧ l ≠ [].
Proof. destruct l; cbn; naive_solver. Qed.
Lemma owed_pending o r sinks message l peer :
  owed {| fo_outbound := o; fo_registry := r; fo_sinks := sinks; fo_current := pending message l |} peer =
  if bool_decide (peer ∈ l) then [message] else [].
Proof. unfold owed. cbn. destruct l; [|done]. by rewrite bool_decide_eq_false_2 by apply not_elem_of_nil. Qed.
Lemma targets_spec outbound order sinks :
  order ≡ₚ (map_to_list sinks).*1 →
  NoDup (targets outbound order sinks) ∧
  ∀ peer, peer ∈ targets outbound order sinks ↔
    is_Some (sinks !! peer) ∧ (om_target_peer outbound = Some peer ∨ om_target_peer outbound = None).
Proof.
  intros Ho. assert (∀ peer, peer ∈ order ↔ is_Some (sinks !! peer)) as Hin.
  { intros peer. rewrite Ho, list_elem_of_fmap. split.
    - intros ([k sink] & -> & Hk%elem_of_map_to_list). by exists sink.
    - intros [sink Hs]. exists (peer, sink). split; [done|]. by apply elem_of_map_to_list. }
  unfold targets. destruct (om_target_peer outbound) as [target|].
  - destruct (sinks !! target) as [sink|] eqn:E.
    + split; [apply NoDup_singleton|]. intros peer. rewrite list_elem_of_singleton.
      split; [intros ->; split; [by exists sink|by left]|]. intros [_ [[= ->]|?]]; done.
    + split; [apply NoDup_nil_2|]. intros peer. split; [by intros []%not_elem_of_nil|].
      intros [[sink Hs] [[= ->]|?]]; congruence.
  - split; [rewrite Ho; apply NoDup_fst_map_to_list|]. intros peer. rewrite Hin. naive_solver.
Qed.

(** A change of one queue, and the end of one delivery. *)
Definition with_sink (peer : string) (sink : Sink) (s : Fanout) : Fanout :=
  {| fo_outbound := fo_outbound s; fo_registry := fo_registry s;
     fo_sinks := <[peer := sink]> (fo_sinks s); fo_current := fo_current s |}.
Definition delivered (message : NetworkMessage) (rest : list string) (s : Fanout) : Fanout :=
  {| fo_outbound := fo_outbound s; fo_registry := fo_registry s; fo_sinks := fo_sinks s;
     fo_current := pending message rest |}.
Lemma with_sink_ok peer sink s :
  (length (sk_queue sink) ≤ SINK_CAPACITY)%nat → fanout_ok s → fanout_ok (with_sink peer sink s).
Proof.
  intros Hl [O R S T]. split; [done|done|..]; cbn.
  - intros p' sink' [[<- <-]|[_ Hp]]%lookup_insert_Some; [done|by eapply S].
  - intros message l Hc. destruct (T _ _ Hc) as (A & B & C). split_and!; [done..|].
    intros q Hq. rewrite lookup_insert_is_Some'. right. by apply C.
Qed.
Lemma delivered_ok message peer rest s :
  fo_current s = Some (message, peer :: rest) → fanout_ok s → fanout_ok (delivered message rest s).
Proof.
  intros Hc [O R S T]. destruct (T _ _ Hc) as (_ & [_ Hnd]%NoDup_cons & Hin). split; [done..|]. cbn.
  intros m l (-> & -> & Hl)%pending_spec. split_and!; [done..|]. intros q Hq. apply Hin. by right.
Qed.
(** The bounds hold whatever is done. *)
Lemma act_ok a s s' : fanout_ok s → act a s = Some s' → fanout_ok s'.
Proof.
  intros Hs Ha. pose proof Hs as [O R S T].
  destruct a as [outbound|peer| |order| |peer|peer]; cbn [act] in Ha.
  - destruct (Nat.ltb_spec (length (fo_outbound s)) OUTBOUND_CAPACITY); [|done]. injection Ha as <-.
    split; try done. cbn. rewrite length_app. cbn. lia.
  - destruct (Nat.ltb_spec (length (fo_registry s)) REGISTRY_CAPACITY); [|done]. injection Ha as <-.
    split; try done. cbn. rewrite length_app. cbn. lia.
  - destruct (fo_current s); [done|]. destruct (fo_registry s) as [|peer registry]; [done|].
    injection Ha as <-. split; try done; cbn in *; [lia|].
    intros peer' sink [[<- <-]|[Hne Hl]]%lookup_insert_Some; [cbn; lia|by eapply S].
  - destruct (fo_current s); [done|]. destruct (fo_outbound s) as [|outbound rest]; [done|].
    case_bool_decide as Ho; [|done]. injection Ha as <-. cbn in O. split; cbn; [lia|done|..].
    + intros peer sink. rewrite retain_lookup. destruct (fo_sinks s !! peer) as [sink'|] eqn:E; [|done]. cbn.
      destruct (sk_closed sink'); [done|]. intros [= <-]. by eapply S.
    + intros message l (-> & -> & Hl)%pending_spec. destruct (targets_spec outbound order _ Ho) as [Hnd Hin].
      split; [done|]. split; [done|]. intros peer Hp. by apply Hin.
  - destruct (fo_current s) as [[message [|peer rest]]|] eqn:Ec; [done| |done].
    pose proof (delivered_ok message peer rest s Ec Hs) as Hd.
    destruct (fo_sinks s !! peer) as [sink|] eqn:E; [|by injection Ha as <-].
    destruct (sk_closed sink); [by injection Ha as <-|].
    destruct (Nat.ltb_spec (length (sk_queue sink)) SINK_CAPACITY); [|done]. injection Ha as <-.
    apply (with_sink_ok peer (push message sink)) in Hd; [exact Hd|]. cbn. rewrite length_app. cbn. lia.
  - destruct (fo_sinks s !! peer) as [sink|] eqn:E; [|done]. destruct (sk_closed sink); [done|].
    destruct (sk_queue sink) as [|m q] eqn:Eq; [done|]. injection Ha as <-.
    apply (with_sink_ok peer (pop sink)); [|done]. specialize (S _ _ E). cbn. rewrite Eq in *. cbn in *. lia.
  - destruct (fo_sinks s !! peer) as [sink|] eqn:E; [|done]. injection Ha as <-.
    apply (with_sink_ok peer closed); [cbn; lia|done].
Qed.

(** What a step does to the table, queue by queue. *)
Lemma table_same s s' :
  (∀ peer, settled_sink s' peer <$> fo_sinks s' !! peer = settled_sink s peer <$> fo_sinks s !! peer) →
  table s' = table s.
Proof. intros He. apply map_eq. intros peer. by rewrite !table_lookup. Qed.
Lemma table_with_sink peer sink s :
  table (with_sink peer sink s) = <[peer := settled_sink s peer sink]> (table s).
Proof.
  apply map_eq. intros q. rewrite table_lookup. cbn. destruct (decide (peer = q)) as [<-|Hne].
  - by rewrite !lookup_insert_eq.
  - by rewrite !lookup_insert_ne, table_lookup by done.
Qed.
(** Taking a message hands it out in the table. *)
Lemma dispatch_refines order outbound rest s :
  fo_current s = None → order ≡ₚ (map_to_list (retain (fo_sinks s))).*1 →
  table {| fo_outbound := rest; fo_registry := fo_registry s; fo_sinks := retain (fo_sinks s);
           fo_current := pending (om_message outbound) (targets outbound order (retain (fo_sinks s))) |} =
  fan_out (om_target_peer outbound) (om_message outbound) (table s).
Proof.
  intros Ec Ho. destruct (targets_spec outbound order _ Ho) as [_ Hin].
  destruct outbound as [target message]. cbn [om_target_peer om_message] in *.
  apply map_eq. intros q. specialize (Hin q). rewrite table_lookup. cbn [fo_sinks].
  assert (filter (λ '(_, sink), sk_closed sink = false) (table s) !! q =
    sink ← fo_sinks s !! q; if sk_closed sink then None else Some sink) as Hf.
  { change (filter _ (table s)) with (retain (table s)). rewrite retain_lookup, table_lookup.
    destruct (fo_sinks s !! q) as [[[] queue]|]; [done| |done]. cbn. unfold owed. rewrite Ec.
    by rewrite app_nil_r. }
  rewrite retain_lookup in Hin |- *. unfold settled_sink. rewrite owed_pending.
  assert (fan_out target message (table s) !! q = (λ sink, if bool_decide (target = Some q ∨ target = None)
    then push message sink else sink) <$>
    (sink ← fo_sinks s !! q; if sk_closed sink then None else Some sink)) as ->.
  { unfold fan_out. rewrite <-Hf. destruct target as [target|]; [destruct (decide (target = q)) as [->|Hne]|].
    - rewrite lookup_alter_eq, bool_decide_eq_true_2 by by left. done.
    - rewrite lookup_alter_ne, bool_decide_eq_false_2 by naive_solver. by destruct (filter _ _ !! q).
    - rewrite lookup_fmap, bool_decide_eq_true_2 by by right. done. }
  destruct (fo_sinks s !! q) as [[[] queue]|]; [done| |done].
  cbn in Hin |- *. do 2 case_bool_decide; cbn; rewrite ?app_nil_r; naive_solver.
Qed.
(** Handing it to the next peer changes nothing there. *)
Lemma deliver_refines message peer rest sink sink' s :
  fanout_ok s → fo_current s = Some (message, peer :: rest) → fo_sinks s !! peer = Some sink →
  sk_closed sink' = sk_closed sink → (sk_closed sink = false → sink' = push message sink) →
  table (with_sink peer sink' (delivered message rest s)) = table s.
Proof.
  intros [_ _ _ T] Ec E Hc Hpush. destruct (T _ _ Ec) as (_ & [Hni Hnd]%NoDup_cons & _).
  apply map_eq. intros q. rewrite table_with_sink. unfold delivered.
  destruct (decide (peer = q)) as [<-|Hne].
  - rewrite lookup_insert_eq, table_lookup, E. cbn. f_equal. unfold settled_sink. rewrite owed_pending, Hc.
    destruct (sk_closed sink) eqn:Hs; [done|]. rewrite Hpush by done. unfold owed. rewrite Ec. cbn.
    rewrite bool_decide_eq_false_2, bool_decide_eq_true_2 by (done || by left). by rewrite app_nil_r.
  - rewrite lookup_insert_ne, !table_lookup by done. cbn.
    destruct (fo_sinks s !! q) as [other|]; [|done]. cbn. f_equal. unfold settled_sink.
    rewrite owed_pending. unfold owed. rewrite Ec.
    assert (bool_decide (q ∈ rest) = bool_decide (q ∈ peer :: rest)) as -> by (apply bool_decide_ext; set_solver).
    done.
Qed.
Lemma act_refines a s s' :
  fanout_ok s → act a s = Some s' → table s' = observe (event_of a s) (table s).
Proof.
  intros Hs Ha. destruct a as [outbound|peer| |order| |peer|peer]; cbn [act event_of observe] in *.
  - destruct (Nat.ltb _ _); [|done]. injection Ha as <-. by apply table_same.
  - destruct (Nat.ltb _ _); [|done]. injection Ha as <-. by apply table_same.
  - destruct (fo_current s) eqn:Ec; [done|]. destruct (fo_registry s) as [|peer registry] eqn:Er; [done|].
    injection Ha as <-. apply map_eq. intros q. rewrite table_lookup. cbn [fo_sinks observe].
    destruct (decide (peer = q)) as [<-|Hne]; [by rewrite !lookup_insert_eq|].
    rewrite !lookup_insert_ne, table_lookup by done. unfold settled_sink, owed. by rewrite Ec.
  - destruct (fo_current s) eqn:Ec; [done|]. destruct (fo_outbound s) as [|outbound rest]; [done|].
    case_bool_decide as Ho; [|done]. injection Ha as <-. by apply dispatch_refines.
  - destruct (fo_current s) as [[message [|peer rest]]|] eqn:Ec; [done| |done].
    destruct (fk_targets s Hs _ _ Ec) as (_ & _ & Hin).
    destruct (fo_sinks s !! peer) as [sink|] eqn:E; [|by destruct (Hin peer (list_elem_of_here _ _)); congruence].
    destruct (sk_closed sink) eqn:Hc.
    + injection Ha as <-. rewrite <-(deliver_refines message peer rest sink sink s) by (done || congruence).
      unfold with_sink. cbn. by rewrite insert_id.
    + destruct (Nat.ltb _ _); [|done]. injection Ha as <-.
      by apply (deliver_refines message peer rest sink (push message sink) s).
  - destruct (fo_sinks s !! peer) as [[c queue]|] eqn:E; [|done]. cbn in Ha. destruct c; [done|].
    destruct queue as [|m queue]; [done|]. injection Ha as <-.
    etrans; [apply (table_with_sink peer (pop {| sk_closed := false; sk_queue := m :: queue |}) s)|].
    unfold settled_sink. cbn.
    apply map_eq. intros q. destruct (decide (peer = q)) as [<-|Hne].
    + by rewrite lookup_insert_eq, lookup_alter_eq, table_lookup, E.
    + by rewrite lookup_insert_ne, lookup_alter_ne by done.
  - destruct (fo_sinks s !! peer) as [sink|] eqn:E; [|done]. injection Ha as <-.
    etrans; [apply (table_with_sink peer closed s)|]. unfold settled_sink. cbn.
    apply map_eq. intros q. destruct (decide (peer = q)) as [<-|Hne].
    + by rewrite lookup_insert_eq, lookup_alter_eq, table_lookup, E.
    + by rewrite lookup_insert_ne, lookup_alter_ne by done.
Qed.

(** *** Whole runs *)
Lemma run_cons a acts s : run (a :: acts) s = s1 ← act a s; run acts s1.
Proof.
  unfold run. cbn [foldl mbind option_bind]. destruct (act a s) as [s1|]; [done|].
  induction acts as [|b acts IH]; [done|exact IH].
Qed.
Fixpoint events (acts : list Act) (s : Fanout) : list TableEvent :=
  match acts with
  | [] => []
  | a :: acts => match act a s with Some s1 => event_of a s :: events acts s1 | None => [] end
  end.
Definition sent (acts : list Act) : list OutboundMessage :=
  omap (λ a, match a with SendOut outbound => Some outbound | _ => None end) acts.
Definition joined (acts : list Act) : list string :=
  omap (λ a, match a with Connect peer => Some peer | _ => None end) acts.
Definition dispatched (es : list TableEvent) : list OutboundMessage :=
  omap (λ e, match e with Dispatched outbound => Some outbound | _ => None end) es.
Lemma init_ok : fanout_ok Fanout_init.
Proof. split; cbn; [unfold OUTBOUND_CAPACITY; lia|unfold REGISTRY_CAPACITY; lia|done|done]. Qed.
Lemma run_ok acts s s' : fanout_ok s → run acts s = Some s' → fanout_ok s'.
Proof.
  revert s. induction acts as [|a acts IH]; intros s Hs Hr; [by injection Hr as <-|].
  rewrite run_cons in Hr. apply bind_Some in Hr as (s1 & Ha & Hr). by eapply IH; [eapply act_ok|].
Qed.
(** The channel is a queue: what went in is what came out and what is still there. *)
Lemma act_channel a s s' :
  act a s = Some s' → fo_outbound s ++ sent [a] = dispatched [event_of a s] ++ fo_outbound s'.
Proof.
  destruct a as [outbound|peer| |order| |peer|peer]; cbn [act event_of]; intros Ha;
    repeat (case_match; simplify_eq/=); rewrite ?app_nil_r; done.
Qed.
Lemma run_channel acts s s' :
  run acts s = Some s' → fo_outbound s ++ sent acts = dispatched (events acts s) ++ fo_outbound s'.
Proof.
  revert s. induction acts as [|a acts IH]; intros s Hr; [injection Hr as <-; by rewrite app_nil_r|].
  rewrite run_cons in Hr. apply bind_Some in Hr as (s1 & Ha & Hr).
  cbn [events]. rewrite Ha. unfold sent, dispatched. rewrite (omap_app _ [a] acts : omap _ (a :: acts) = _).
  change (omap _ (event_of a s :: events acts s1)) with (dispatched ([event_of a s] ++ events acts s1)).
  unfold dispatched. rewrite omap_app, (assoc_L (++)). fold (sent [a]). rewrite (act_channel a s s1 Ha).
  fold (sent acts) (dispatched (events acts s1)). by rewrite <-!(assoc_L (++)), <-(IH s1 Hr).
Qed.
Lemma run_table acts s s' :
  fanout_ok s → run acts s = Some s' → table s' = foldl (λ t e, observe e t) (table s) (events acts s).
Proof.
  revert s. induction acts as [|a acts IH]; intros s Hs Hr; [by injection Hr as <-|].
  rewrite run_cons in Hr. apply bind_Some in Hr as (s1 & Ha & Hr).
  cbn [events]. rewrite Ha. cbn [foldl]. rewrite <-(act_refines a s s1) by done.
  apply IH; [by eapply act_ok|done].
Qed.
(** C27: the bounded queues of the network are a fan-out.  However the sending tasks, the
    loop and the connections take turns, the channels stay within their capacities; the
    messages leave the outgoing channel in the order in which they were sent, none lost and
    none twice; and the queues hold at every moment, up to the message being handed out,
    what the unbounded fan-out would have put into them, in the same order. *)
Theorem fanout_refines_table acts s :
  run acts Fanout_init = Some s →
  fanout_ok s ∧ sent acts = dispatched (events acts Fanout_init) ++ fo_outbound s ∧
  table s = foldl (λ t e, observe e t) ∅ (events acts Fanout_init).
Proof.
  intros Hr. split; [by eapply run_ok; [apply init_ok|]|].
  split; [exact (run_channel _ _ _ Hr)|]. exact (run_table _ _ _ init_ok Hr).
Qed.

(** ** One peer that stops reading *)

(** The loop waits for room in the queue of a peer. *)
Definition stalled (peer : string) (s : Fanout) : Prop :=
  ∃ message rest sink, fo_current s = Some (message, peer :: rest) ∧ fo_sinks s !! peer = Some sink ∧
    sk_closed sink = false ∧ length (sk_queue sink) = SINK_CAPACITY.
(** Nothing is added to any queue. *)
Definition starved (sinks sinks' : gmap string Sink) : Prop :=
  ∀ q sink', sinks' !! q = Some sink' →
    ∃ sink, sinks !! q = Some sink ∧ sk_queue sink' `suffix_of` sk_queue sink.
#[export] Instance starved_preorder : PreOrder starved.
Proof.
  split; [intros s q sink; by exists sink|]. intros s1 s2 s3 H12 H23 q sink3 H3.
  destruct (H23 q sink3 H3) as (sink2 & H2 & S2). destruct (H12 q sink2 H2) as (sink1 & H1 & S1).
  exists sink1. split; [done|]. by etrans.
Qed.
Lemma starved_insert peer sink sink' sinks :
  sinks !! peer = Some sink → sk_queue sink' `suffix_of` sk_queue sink →
  starved sinks (<[peer := sink']> sinks).
Proof. intros E Hs q s' [[<- <-]|[_ Hq]]%lookup_insert_Some; [by exists sink|by exists s']. Qed.
Lemma stalled_act peer a s s' :
  stalled peer s → a ≠ Drain peer → a ≠ Close peer → act a s = Some s' →
  stalled peer s' ∧ fo_current s' = fo_current s ∧ starved (fo_sinks s) (fo_sinks s') ∧
  fo_outbound s' = fo_outbound s ++ sent [a] ∧ fo_registry s' = fo_registry s ++ joined [a].
Proof.
  intros (message & rest & sink & Ec & E & Ho & Hl) Hd Hc Ha.
  assert (∀ p' new, p' ≠ peer → <[p' := new]> (fo_sinks s) !! peer = Some sink) as Hother
    by (intros p' new Hne; by rewrite lookup_insert_ne).
  destruct a as [outbound|p'| |order| |p'|p']; cbn [act] in Ha; rewrite ?Ec in Ha; try done.
  - destruct (Nat.ltb _ _); [|done]. injection Ha as <-. cbn. rewrite app_nil_r.
    split_and!; [by exists message, rest, sink|done..].
  - destruct (Nat.ltb _ _); [|done]. injection Ha as <-. cbn. rewrite app_nil_r.
    split_and!; [by exists message, rest, sink|done..].
  - by rewrite E, Ho, Hl, Nat.ltb_irrefl in Ha.
  - destruct (fo_sinks s !! p') as [[[] [|m queue]]|] eqn:E'; try done. injection Ha as <-.
    cbn. rewrite !app_nil_r. split_and!; try done; [exists message, rest, sink; by split_and!; [|apply Hother; congruence|..]|].
    eapply starved_insert; [exact E'|]. cbn. by exists [m].
  - destruct (fo_sinks s !! p') as [sink'|] eqn:E'; [|done]. injection Ha as <-.
    cbn. rewrite !app_nil_r. split_and!; try done; [exists message, rest, sink; by split_and!; [|apply Hother; congruence|..]|].
    eapply starved_insert; [exact E'|]. cbn. apply suffix_nil.
Qed.
Lemma stalled_run peer acts s s' :
  stalled peer s → Drain peer ∉ acts → Close peer ∉ acts → run acts s = Some s' →
  stalled peer s' ∧ fo_current s' = fo_current s ∧ starved (fo_sinks s) (fo_sinks s') ∧
  fo_outbound s' = fo_outbound s ++ sent acts ∧ fo_registry s' = fo_registry s ++ joined acts.
Proof.
  revert s. induction acts as [|a acts IH]; intros s Hs Hd Hc Hr.
  { injection Hr as <-. by rewrite !app_nil_r. }
  rewrite run_cons in Hr. apply bind_Some in Hr as (s1 & Ha & Hr).
  rewrite not_elem_of_cons in Hd, Hc.
  destruct (stalled_act peer a s s1 Hs) as (Hs1 & C1 & Q1 & O1 & R1); [naive_solver..|done|].
  destruct (IH s1 Hs1) as (Hs' & C2 & Q2 & O2 & R2); [naive_solver..|].
  split_and!; [done|congruence|by etrans|..].
  - rewrite O2, O1, <-(assoc_L (++)). unfold sent. by rewrite <-omap_app.
  - rewrite R2, R1, <-(assoc_L (++)). unfold joined. by rewrite <-omap_app.
Qed.
(** C28: one peer that stops reading silences the node.  When the loop waits for room in the
    queue of a peer, then as long as this connection neither takes a message nor ends,
    whatever all others do, no peer is handed any message (queues only shrink), new
    connections are not admitted to the table, and after at most 1024 more messages in the
    outgoing channel and 128 registrations the tasks of the node that send, consensus among
    them, wait as well. *)
Theorem slow_peer_silences_node acts0 acts peer s s' :
  run acts0 Fanout_init = Some s → stalled peer s →
  Drain peer ∉ acts → Close peer ∉ acts → run acts s = Some s' →
  stalled peer s' ∧ starved (fo_sinks s) (fo_sinks s') ∧
  (length (fo_outbound s) + length (sent acts) ≤ OUTBOUND_CAPACITY)%nat ∧
  (length (fo_registry s) + length (joined acts) ≤ REGISTRY_CAPACITY)%nat.
Proof.
  intros H0 Hs Hd Hc Hr. destruct (stalled_run peer acts s s' Hs Hd Hc Hr) as (Hs' & _ & Q & O & R).
  assert (fanout_ok s') as [Ho Hreg _ _] by (eapply run_ok; [eapply run_ok; [apply init_ok|exact H0]|exact Hr]).
  rewrite O, length_app in Ho. rewrite R, length_app in Hreg. by split_and!.
Qed.

(** ** Examples *)
Module FanoutExamples.
Definition ping (nonce : Z) : OutboundMessage := {| om_target_peer := None; om_message := MsgPing nonce |}.
Definition round_of (nonce : Z) : list Act :=
  [SendOut (ping nonce); TakeMessage ["a"; "b"]; Deliver; Deliver; Drain "a"]%string.
(** Peer [b] never reads: after 256 messages the loop waits for it. *)
Definition story : list Act :=
  [Connect "a"; Connect "b"; TakeRegistration; TakeRegistration]%string ++
  mbind round_of (seqZ 0 256) ++ [SendOut (ping 256); TakeMessage ["a"; "b"]%string; Deliver].
Definition waiting : Fanout := default Fanout_init (run story Fanout_init).
Lemma story_runs : run story Fanout_init = Some waiting.
Proof.
  assert (bool_decide (is_Some (run story Fanout_init)) = true) as [s E]%bool_decide_eq_true
    by (vm_compute; reflexivity).
  unfold waiting. by rewrite E.
Qed.
Definition stalled_b (peer : string) (s : Fanout) : bool :=
  match fo_current s with
  | Some (_, p :: _) => bool_decide (p = peer) &&
      match fo_sinks s !! peer with
      | Some sink => negb (sk_closed sink) && Nat.eqb (length (sk_queue sink)) SINK_CAPACITY
      | None => false
      end
  | _ => false
  end.
Lemma stalled_b_spec peer s : stalled_b peer s = true → stalled peer s.
Proof.
  unfold stalled_b, stalled. destruct (fo_current s) as [[m [|p rest]]|]; [done| |done].
  intros [->%bool_decide_eq_true Hs]%andb_prop. destruct (fo_sinks s !! peer) as [sink|]; [|done].
  apply andb_prop in Hs as [Hc Hl%Nat.eqb_eq]. apply negb_true_iff in Hc. by exists m, rest, sink.
Qed.
Definition after : list Act := [Drain "a"; SendOut (ping 257); Connect "c"; SendOut (ping 258)]%string.
Lemma fanout_refines_table_witness :
  fanout_ok waiting ∧ length (dispatched (events story Fanout_init)) = 257%nat.
Proof.
  destruct (fanout_refines_table story waiting story_runs) as (Hok & _ & _).
  split; [exact Hok|]. vm_compute. reflexivity.
Defined.
Lemma slow_peer_silences_node_witness :
  ∃ s', run after waiting = Some s' ∧ stalled "b" s' ∧ starved (fo_sinks waiting) (fo_sinks s').
Proof.
  assert (bool_decide (is_Some (run after waiting)) = true) as [s' E]%bool_decide_eq_true
    by (vm_compute; reflexivity).
  exists s'. split; [exact E|].
  destruct (slow_peer_silences_node story after "b" waiting s' story_runs) as (Hs & Hq & _).
  - apply stalled_b_spec. vm_compute. reflexivity.
  - unfold after. rewrite !not_elem_of_cons. by split_and!; [..|apply not_elem_of_nil].
  - unfold after. rewrite !not_elem_of_cons. by split_and!; [..|apply not_elem_of_nil].
  - exact E.
  - split; [exact Hs|exact Hq].
Defined.
End FanoutExamples.
