(* ===== verification/Setup.v ===== *)
(** [crates/zeno-config], [crates/zeno-genesis] and [crates/zeno-wallet]: the node
    configuration, the generation of a devnet with its genesis, and wallets.  Files and
    their formats are outside: what is written is a list of paths with their values. *)

From S2P Require Import Prelude Types Codec Hash Crypto Wire Toy Primitives.
From stdpp Require Import pretty.
Open Scope Z_scope.

(** ** Configuration *)
Record P2pConfig := { pc_listen : string; pc_peers : list string; pc_max_frame_bytes : Z }.
Record RpcConfig := { rpc_listen : string }.
Record StorageConfig := { stc_data_dir : string }.
(** Durations in milliseconds. *)
Record ConsensusConfig := {
  coc_proposal_timeout : Z;
  coc_vote_timeout : Z;
  coc_max_transactions_per_block : Z
}.
Record ValidatorConfig := {
  vc_address : Address;
  vc_public_key : list byte;
  vc_secret_key : list byte
}.
Record CryptoConfig := { crc_ml_dsa_parameter : MlDsaParameter }.
Record NodeConfig := {
  nc_node_id : string;
  nc_chain_id : ChainId;
  nc_metadata : NetworkMetadata;
  nc_p2p : P2pConfig;
  nc_rpc : RpcConfig;
  nc_storage : StorageConfig;
  nc_consensus : ConsensusConfig;
  nc_validator : option ValidatorConfig;
  nc_crypto : CryptoConfig
}.
Record NodeInfo := {
  ni_node_id : string;
  ni_validator_address : option Address;
  ni_p2p_listen : string;
  ni_rpc_listen : string
}.

Module Config.
Definition description (parameter : MlDsaParameter) : string :=
  match parameter with
  | MlDsa44 => "ML-DSA-44 compatible (Dilithium2 family)"
  | MlDsa65 => "ML-DSA-65 compatible (Dilithium3 family)"
  | MlDsa87 => "ML-DSA-87 compatible (Dilithium5 family)"
  end.
Definition consensus_params (config : NodeConfig) : ConsensusParams := {|
  cp_proposal_timeout_ms := wrapping U64_MAX (coc_proposal_timeout (nc_consensus config));
  cp_vote_timeout_ms := wrapping U64_MAX (coc_vote_timeout (nc_consensus config));
  cp_max_transactions_per_block := coc_max_transactions_per_block (nc_consensus config);
  cp_max_block_bytes := 2097152;
  cp_target_gas_per_block := 15000000;
  cp_max_gas_per_block := 30000000 |}.
Definition crypto_params (config : NodeConfig) : CryptoParams := {|
  cr_ml_dsa_parameter := description (crc_ml_dsa_parameter (nc_crypto config)) |}.
Definition node_info (config : NodeConfig) : NodeInfo := {|
  ni_node_id := nc_node_id config;
  ni_validator_address := vc_address <$> nc_validator config;
  ni_p2p_listen := pc_listen (nc_p2p config);
  ni_rpc_listen := rpc_listen (nc_rpc config) |}.

Definition rpc_urls : list string :=
  ["http://127.0.0.1:8000"; "http://127.0.0.1:8001"; "http://127.0.0.1:8002";
   "http://127.0.0.1:8003"].
Definition default_config : NodeConfig := {|
  nc_node_id := "node-0";
  nc_chain_id := {| chain_id_str := "zeno-devnet" |};
  nc_metadata := {|
    nm_network_name := "Zeno PQ Devnet";
    nm_ticker := "ZPQ";
    nm_rpc_urls := rpc_urls;
    nm_block_explorer_url := "http://127.0.0.1:8000/explorer";
    nm_metamask_compatible := false;
    nm_metamask_snap_compatible := true;
    nm_smart_contracts_supported := true;
    nm_evm_chain_id := Some 424242;
    nm_compatibility_notice := "Solidity-compatible EVM execution is enabled. Standard MetaMask network compatibility remains unavailable because user transaction authorization stays ML-DSA based; use the Zeno MetaMask Snap plus relayer/account-abstraction flow instead.";
    nm_metamask_snap_id := Some "local:http://127.0.0.1:8081/zeno-pq-snap" |};
  nc_p2p := {| pc_listen := "0.0.0.0:7000"; pc_peers := []; pc_max_frame_bytes := 8 * 1024 * 1024 |};
  nc_rpc := {| rpc_listen := "0.0.0.0:8000" |};
  nc_storage := {| stc_data_dir := "./data" |};
  nc_consensus := {| coc_proposal_timeout := 1500; coc_vote_timeout := 1000;
                     coc_max_transactions_per_block := 256 |};
  nc_validator := None;
  nc_crypto := {| crc_ml_dsa_parameter := MlDsaParameter_default |} |}.
End Config.

(** ** Generation of a devnet *)
Record GeneratedValidator := { gv_config : NodeConfig; gv_validator : Validator }.
Inductive SetupFile :=
  | NodeToml (config : NodeConfig)
  | ValidatorKey (validator : ValidatorConfig)
  | GenesisJson (genesis : Genesis).

Module Devnet.
Section devnet.
Context (scheme : SignatureScheme).

Definition port (base : Z) (index : nat) : Z :=
  wrapping U16_MAX (base + wrapping U16_MAX (Z.of_nat index)).
Definition validator_name (index : nat) : string := "validator-" +:+ pretty index.
Definition validator_of (index : nat) (address : Address) (public_key : list byte) : Validator := {|
  vd_validator_id := validator_name index;
  vd_voting_power := 1;
  vd_p2p_address := validator_name index +:+ ":" +:+ pretty (port 7000 index);
  vd_rpc_address := validator_name index +:+ ":" +:+ pretty (port 8000 index);
  vd_public_key := public_key;
  vd_address := address |}.
Definition metadata_of (metadata : NetworkMetadata) : NetworkMetadata := {|
  nm_network_name := "Zeno PQ Devnet";
  nm_ticker := "ZPQ";
  nm_rpc_urls := Config.rpc_urls;
  nm_block_explorer_url := "http://127.0.0.1:8000/explorer";
  nm_metamask_compatible := false;
  nm_metamask_snap_compatible := true;
  nm_smart_contracts_supported := true;
  nm_evm_chain_id := Some 424242;
  nm_compatibility_notice := "Use the Zeno MetaMask Snap plus relayer/account-abstraction flow for ML-DSA-authenticated EVM interactions.";
  nm_metamask_snap_id := Some "local:http://127.0.0.1:8081/zeno-pq-snap" |}.
Definition config_of (output_dir chain_id : string) (validator_count index : nat)
    (address : Address) (public_key secret_key : list byte) : NodeConfig :=
  let config := Config.default_config in {|
  nc_node_id := validator_name index;
  nc_chain_id := {| chain_id_str := chain_id |};
  nc_metadata := metadata_of (nc_metadata config);
  nc_p2p := {|
    pc_listen := "0.0.0.0:" +:+ pretty (port 7000 index);
    pc_peers := (λ peer, validator_name peer +:+ ":" +:+ pretty (port 7000 peer)) <$>
      filter (λ peer, peer ≠ index) (seq 0 validator_count);
    pc_max_frame_bytes := pc_max_frame_bytes (nc_p2p config) |};
  nc_rpc := {| rpc_listen := "0.0.0.0:" +:+ pretty (port 8000 index) |};
  nc_storage := {| stc_data_dir := output_dir +:+ "/node-" +:+ pretty index +:+ "/data" |};
  nc_consensus := nc_consensus config;
  nc_validator := Some {| vc_address := address; vc_public_key := public_key;
                          vc_secret_key := secret_key |};
  nc_crypto := {| crc_ml_dsa_parameter := MlDsaParameter_default |} |}.

(** One turn of the loop, which [anyhow]'s contexts relabel; the state is the genesis
    accounts and the files. *)
Definition generate_validator (output_dir chain_id : string) (validator_count index : nat)
    (entropy : list byte) :
    eff (gmap Address Account * list (string * SetupFile)) AnyError GeneratedValidator :=
  '(public_key, secret_key) ← eff_lift (map_err (λ _, Anyhow "validator keypair")
    (generate_keypair entropy));
  address ← eff_lift (map_err (λ _, Anyhow "validator address") (derive_address public_key));
  _ ← eff_modify (λ '(accounts, files), (match accounts !! address with
    | Some _ => accounts
    | None => <[address := {| acct_nonce := 0; acct_balance := 1000000000 |}]> accounts
    end, files));
  let config := config_of output_dir chain_id validator_count index address public_key secret_key in
  let node_dir := output_dir +:+ "/node-" +:+ pretty index in
  _ ← eff_modify (λ '(accounts, files), (accounts, files ++
    [(node_dir +:+ "/node.toml", NodeToml config);
     (node_dir +:+ "/validator-key.json", ValidatorKey {| vc_address := address;
        vc_public_key := public_key; vc_secret_key := secret_key |})]));
  mret {| gv_config := config; gv_validator := validator_of index address public_key |}.
Fixpoint generate_validators (output_dir chain_id : string) (validator_count index : nat)
    (entropies : list (list byte)) :
    eff (gmap Address Account * list (string * SetupFile)) AnyError (list GeneratedValidator) :=
  match entropies with
  | [] => mret []
  | entropy :: entropies =>
      first ← generate_validator output_dir chain_id validator_count index entropy;
      others ← generate_validators output_dir chain_id validator_count (S index) entropies;
      mret (first :: others)
  end.
Definition fund (funded_accounts : list (Address * Z)) : gmap Address Account :=
  foldl (λ accounts '(address, balance),
    <[address := {| acct_nonce := 0; acct_balance := balance |}]> accounts) ∅ funded_accounts.
Definition genesis_economics : EconomicsParams := {|
  ec_minimum_self_bond := 1000000; ec_epoch_length := 100; ec_unbonding_epochs := 7;
  ec_treasury_bps := 1000; ec_downtime_slash_bps := 100; ec_double_sign_slash_bps := 500 |}.
(** [generate_devnet], with the randomness of each key pair; no validator is a panic. *)
Definition generate_devnet (output_dir chain_id : string) (funded_accounts : list (Address * Z))
    (entropies : list (list byte)) : res AnyError (Genesis * list (string * SetupFile)) :=
  match generate_validators output_dir chain_id (length entropies) 0 entropies
          (fund funded_accounts, []) with
  | (Ok validators, (accounts, files)) =>
      first ← expect (head validators);
      let genesis := {|
        gn_chain_id := {| chain_id_str := chain_id |};
        gn_metadata := nc_metadata (gv_config first);
        gn_accounts := accounts;
        gn_validators := gv_validator <$> validators;
        gn_consensus := Config.consensus_params (gv_config first);
        gn_crypto := Config.crypto_params (gv_config first);
        gn_economics := genesis_economics |} in
      Ok (genesis, files ++ [(output_dir +:+ "/genesis.json", GenesisJson genesis)])
  | (Err e, _) => Err e
  | (Panic, _) => Panic
  end.
Definition generate_local_devnet (output_dir chain_id : string)
    (funded_accounts : list (Address * Z)) (e0 e1 e2 e3 : list byte) :=
  generate_devnet output_dir chain_id funded_accounts [e0; e1; e2; e3].
Definition generate_solo_devnet (output_dir chain_id : string)
    (funded_accounts : list (Address * Z)) (e0 : list byte) :=
  generate_devnet output_dir chain_id funded_accounts [e0].
End devnet.
End Devnet.

(** ** Wallets *)
Record WalletKeyFile := {
  wk_address : Address;
  wk_public_key : list byte;
  wk_secret_key : list byte
}.

Module Wallet.
Section wallet.
Context `{ChainCodec} (scheme : SignatureScheme).

Definition generate_wallet (entropy : list byte) : res AnyError WalletKeyFile :=
  '(public_key, secret_key) ← map_err (λ _, Anyhow "wallet keypair") (generate_keypair entropy);
  address ← map_err (λ _, Anyhow "wallet address") (derive_address public_key);
  Ok {| wk_address := address; wk_public_key := public_key; wk_secret_key := secret_key |}.
Definition build_signed_transfer (wallet : WalletKeyFile) (chain_id : string)
    (recipient : Address) (amount nonce fee : Z) (memo : option string)
    (valid_until : option Z) : res AnyError Transaction :=
  sign_transaction scheme {|
    tb_chain_id := {| chain_id_str := chain_id |}; tb_sender := wk_address wallet;
    tb_recipient := recipient; tb_amount := amount; tb_nonce := nonce; tb_fee := fee;
    tb_evm := None; tb_memo := memo; tb_valid_until := valid_until |}
    (wk_public_key wallet) (wk_secret_key wallet).
Definition build_signed_contract_create (wallet : WalletKeyFile) (chain_id : string)
    (nonce fee gas_limit gas_price : Z) (bytecode : list byte) (valid_until : option Z) :
    res AnyError Transaction :=
  sign_transaction scheme {|
    tb_chain_id := {| chain_id_str := chain_id |}; tb_sender := wk_address wallet;
    tb_recipient := array_repeat 32 x00; tb_amount := 0; tb_nonce := nonce; tb_fee := fee;
    tb_evm := Some {| ev_kind := Create bytecode; ev_value := 0; ev_gas_limit := gas_limit;
                      ev_gas_price := gas_price |};
    tb_memo := Some "evm-create"; tb_valid_until := valid_until |}
    (wk_public_key wallet) (wk_secret_key wallet).
Definition build_signed_contract_call (wallet : WalletKeyFile) (chain_id : string)
    (contract : EvmAddress) (calldata : list byte) (nonce fee gas_limit gas_price : Z)
    (valid_until : option Z) : res AnyError Transaction :=
  sign_transaction scheme {|
    tb_chain_id := {| chain_id_str := chain_id |}; tb_sender := wk_address wallet;
    tb_recipient := array_pad 32 (replicate 12 x00 ++ array_bytes contract); tb_amount := 0;
    tb_nonce := nonce; tb_fee := fee;
    tb_evm := Some {| ev_kind := Call contract calldata; ev_value := 0; ev_gas_limit := gas_limit;
                      ev_gas_price := gas_price |};
    tb_memo := Some "evm-call"; tb_valid_until := valid_until |}
    (wk_public_key wallet) (wk_secret_key wallet).
End wallet.
End Wallet.
