(* ===== verification/Rounds.v ===== *)
(** [crates/zeno-consensus], data: the round state, the engine, the node around it, and
    the recovery of the round state from the write-ahead log. *)

From S2P Require Import Prelude Types Codec Hash Crypto Wire Storage Staking Mempool Zk Evm.
From S2P Require Import Execution.

Record LocalValidator := { lv_validator : Validator; lv_secret_key : list byte }.

(** The part of [ConsensusEngine] that never changes. *)
Record ConsensusEngine := {
  ce_chain_id : ChainId;
  ce_validators : list Validator;
  ce_execution : ExecutionEngine;
  ce_params : ConsensusParams;
  ce_economics : EconomicsParams;
  ce_local_validator : option LocalValidator
}.
Definition NIL_HASH : Hash32 := zero.
Definition MAX_ROUND_TIMEOUT_MS : Z := 60000.

Record RoundState := {
  rs_height : Z;
  rs_round : Z;
  rs_proposal : option Block;
  rs_prevotes : gmap Hash32 (gset Address);
  rs_precommits : gmap Hash32 (gset Address);
  rs_votes : list Vote;
  rs_evidence : list Evidence;
  rs_processed_evidence : gset (Address * Z * Z);
  rs_prevoted : bool;
  rs_precommitted : bool;
  rs_locked_round : option Z;
  rs_locked_block : option Block;
  rs_valid_round : option Z;
  rs_valid_block : option Block
}.
Definition RoundState_default : RoundState :=
  {| rs_height := 1; rs_round := 0; rs_proposal := None; rs_prevotes := ∅;
     rs_precommits := ∅; rs_votes := []; rs_evidence := []; rs_processed_evidence := ∅;
     rs_prevoted := false; rs_precommitted := false; rs_locked_round := None;
     rs_locked_block := None; rs_valid_round := None; rs_valid_block := None |}.

(** What the engine shares with the rest of the process: its round state behind the lock,
    the store, the pool, and the channel to the network task, which is [nd_network_up]
    until that task stops; [nd_outbox] is what was sent through it. *)
Record Node := {
  nd_state : RoundState;
  nd_store : MemoryInner;
  nd_mempool : Inner;
  nd_outbox : list NetworkMessage;
  nd_network_up : bool
}.

(** Field updates. *)
Definition upd_rs_proposal (f : option Block → option Block) (s : RoundState) : RoundState :=
  {| rs_height := rs_height s; rs_round := rs_round s; rs_proposal := f (rs_proposal s);
     rs_prevotes := rs_prevotes s; rs_precommits := rs_precommits s; rs_votes := rs_votes s;
     rs_evidence := rs_evidence s; rs_processed_evidence := rs_processed_evidence s;
     rs_prevoted := rs_prevoted s; rs_precommitted := rs_precommitted s; rs_locked_round :=
     rs_locked_round s; rs_locked_block := rs_locked_block s; rs_valid_round :=
     rs_valid_round s; rs_valid_block := rs_valid_block s |}.
Definition upd_rs_prevotes (f : gmap Hash32 (gset Address) → gmap Hash32 (gset Address)) (s : RoundState) : RoundState :=
  {| rs_height := rs_height s; rs_round := rs_round s; rs_proposal := rs_proposal s;
     rs_prevotes := f (rs_prevotes s); rs_precommits := rs_precommits s; rs_votes := rs_votes
     s; rs_evidence := rs_evidence s; rs_processed_evidence := rs_processed_evidence s;
     rs_prevoted := rs_prevoted s; rs_precommitted := rs_precommitted s; rs_locked_round :=
     rs_locked_round s; rs_locked_block := rs_locked_block s; rs_valid_round :=
     rs_valid_round s; rs_valid_block := rs_valid_block s |}.
Definition upd_rs_precommits (f : gmap Hash32 (gset Address) → gmap Hash32 (gset Address)) (s : RoundState) : RoundState :=
  {| rs_height := rs_height s; rs_round := rs_round s; rs_proposal := rs_proposal s;
     rs_prevotes := rs_prevotes s; rs_precommits := f (rs_precommits s); rs_votes := rs_votes
     s; rs_evidence := rs_evidence s; rs_processed_evidence := rs_processed_evidence s;
     rs_prevoted := rs_prevoted s; rs_precommitted := rs_precommitted s; rs_locked_round :=
     rs_locked_round s; rs_locked_block := rs_locked_block s; rs_valid_round :=
     rs_valid_round s; rs_valid_block := rs_valid_block s |}.
Definition upd_rs_votes (f : list Vote → list Vote) (s : RoundState) : RoundState :=
  {| rs_height := rs_height s; rs_round := rs_round s; rs_proposal := rs_proposal s;
     rs_prevotes := rs_prevotes s; rs_precommits := rs_precommits s; rs_votes := f (rs_votes
     s); rs_evidence := rs_evidence s; rs_processed_evidence := rs_processed_evidence s;
     rs_prevoted := rs_prevoted s; rs_precommitted := rs_precommitted s; rs_locked_round :=
     rs_locked_round s; rs_locked_block := rs_locked_block s; rs_valid_round :=
     rs_valid_round s; rs_valid_block := rs_valid_block s |}.
Definition upd_rs_evidence (f : list Evidence → list Evidence) (s : RoundState) : RoundState :=
  {| rs_height := rs_height s; rs_round := rs_round s; rs_proposal := rs_proposal s;
     rs_prevotes := rs_prevotes s; rs_precommits := rs_precommits s; rs_votes := rs_votes s;
     rs_evidence := f (rs_evidence s); rs_processed_evidence := rs_processed_evidence s;
     rs_prevoted := rs_prevoted s; rs_precommitted := rs_precommitted s; rs_locked_round :=
     rs_locked_round s; rs_locked_block := rs_locked_block s; rs_valid_round :=
     rs_valid_round s; rs_valid_block := rs_valid_block s |}.
Definition upd_rs_processed_evidence (f : gset (Address * Z * Z) → gset (Address * Z * Z)) (s : RoundState) : RoundState :=
  {| rs_height := rs_height s; rs_round := rs_round s; rs_proposal := rs_proposal s;
     rs_prevotes := rs_prevotes s; rs_precommits := rs_precommits s; rs_votes := rs_votes s;
     rs_evidence := rs_evidence s; rs_processed_evidence := f (rs_processed_evidence s);
     rs_prevoted := rs_prevoted s; rs_precommitted := rs_precommitted s; rs_locked_round :=
     rs_locked_round s; rs_locked_block := rs_locked_block s; rs_valid_round :=
     rs_valid_round s; rs_valid_block := rs_valid_block s |}.
Definition upd_rs_prevoted (f : bool → bool) (s : RoundState) : RoundState :=
  {| rs_height := rs_height s; rs_round := rs_round s; rs_proposal := rs_proposal s;
     rs_prevotes := rs_prevotes s; rs_precommits := rs_precommits s; rs_votes := rs_votes s;
     rs_evidence := rs_evidence s; rs_processed_evidence := rs_processed_evidence s;
     rs_prevoted := f (rs_prevoted s); rs_precommitted := rs_precommitted s; rs_locked_round
     := rs_locked_round s; rs_locked_block := rs_locked_block s; rs_valid_round :=
     rs_valid_round s; rs_valid_block := rs_valid_block s |}.
Definition upd_rs_precommitted (f : bool → bool) (s : RoundState) : RoundState :=
  {| rs_height := rs_height s; rs_round := rs_round s; rs_proposal := rs_proposal s;
     rs_prevotes := rs_prevotes s; rs_precommits := rs_precommits s; rs_votes := rs_votes s;
     rs_evidence := rs_evidence s; rs_processed_evidence := rs_processed_evidence s;
     rs_prevoted := rs_prevoted s; rs_precommitted := f (rs_precommitted s); rs_locked_round
     := rs_locked_round s; rs_locked_block := rs_locked_block s; rs_valid_round :=
     rs_valid_round s; rs_valid_block := rs_valid_block s |}.
Definition upd_rs_locked_round (f : option Z → option Z) (s : RoundState) : RoundState :=
  {| rs_height := rs_height s; rs_round := rs_round s; rs_proposal := rs_proposal s;
     rs_prevotes := rs_prevotes s; rs_precommits := rs_precommits s; rs_votes := rs_votes s;
     rs_evidence := rs_evidence s; rs_processed_evidence := rs_processed_evidence s;
     rs_prevoted := rs_prevoted s; rs_precommitted := rs_precommitted s; rs_locked_round := f
     (rs_locked_round s); rs_locked_block := rs_locked_block s; rs_valid_round :=
     rs_valid_round s; rs_valid_block := rs_valid_block s |}.
Definition upd_rs_locked_block (f : option Block → option Block) (s : RoundState) : RoundState :=
  {| rs_height := rs_height s; rs_round := rs_round s; rs_proposal := rs_proposal s;
     rs_prevotes := rs_prevotes s; rs_precommits := rs_precommits s; rs_votes := rs_votes s;
     rs_evidence := rs_evidence s; rs_processed_evidence := rs_processed_evidence s;
     rs_prevoted := rs_prevoted s; rs_precommitted := rs_precommitted s; rs_locked_round :=
     rs_locked_round s; rs_locked_block := f (rs_locked_block s); rs_valid_round :=
     rs_valid_round s; rs_valid_block := rs_valid_block s |}.
Definition upd_rs_valid_round (f : option Z → option Z) (s : RoundState) : RoundState :=
  {| rs_height := rs_height s; rs_round := rs_round s; rs_proposal := rs_proposal s;
     rs_prevotes := rs_prevotes s; rs_precommits := rs_precommits s; rs_votes := rs_votes s;
     rs_evidence := rs_evidence s; rs_processed_evidence := rs_processed_evidence s;
     rs_prevoted := rs_prevoted s; rs_precommitted := rs_precommitted s; rs_locked_round :=
     rs_locked_round s; rs_locked_block := rs_locked_block s; rs_valid_round := f
     (rs_valid_round s); rs_valid_block := rs_valid_block s |}.
Definition upd_rs_valid_block (f : option Block → option Block) (s : RoundState) : RoundState :=
  {| rs_height := rs_height s; rs_round := rs_round s; rs_proposal := rs_proposal s;
     rs_prevotes := rs_prevotes s; rs_precommits := rs_precommits s; rs_votes := rs_votes s;
     rs_evidence := rs_evidence s; rs_processed_evidence := rs_processed_evidence s;
     rs_prevoted := rs_prevoted s; rs_precommitted := rs_precommitted s; rs_locked_round :=
     rs_locked_round s; rs_locked_block := rs_locked_block s; rs_valid_round :=
     rs_valid_round s; rs_valid_block := f (rs_valid_block s) |}.
Definition upd_nd_state (f : RoundState → RoundState) (s : Node) : Node :=
  {| nd_state := f (nd_state s); nd_store := nd_store s; nd_mempool := nd_mempool s;
     nd_outbox := nd_outbox s; nd_network_up := nd_network_up s |}.
Definition upd_nd_store (f : MemoryInner → MemoryInner) (s : Node) : Node :=
  {| nd_state := nd_state s; nd_store := f (nd_store s); nd_mempool := nd_mempool s;
     nd_outbox := nd_outbox s; nd_network_up := nd_network_up s |}.
Definition upd_nd_mempool (f : Inner → Inner) (s : Node) : Node :=
  {| nd_state := nd_state s; nd_store := nd_store s; nd_mempool := f (nd_mempool s);
     nd_outbox := nd_outbox s; nd_network_up := nd_network_up s |}.
Definition upd_nd_outbox (f : list NetworkMessage → list NetworkMessage) (s : Node) : Node :=
  {| nd_state := nd_state s; nd_store := nd_store s; nd_mempool := nd_mempool s; nd_outbox :=
     f (nd_outbox s); nd_network_up := nd_network_up s |}.

(** ** Recovery *)
Record RecoveredState := {
  rv_snapshot : ConsensusSnapshot;
  rv_locked_round : option Z;
  rv_locked_block : option Block;
  rv_valid_round : option Z;
  rv_valid_block : option Block
}.
Module Recovery.
Definition at_height (height round : Z) (r : RecoveredState) : RecoveredState :=
  {| rv_snapshot := {| sn_height := height; sn_round := round |};
     rv_locked_round := rv_locked_round r; rv_locked_block := rv_locked_block r;
     rv_valid_round := rv_valid_round r; rv_valid_block := rv_valid_block r |}.
(** A new height drops the locks. *)
Definition next_height (height : Z) : RecoveredState :=
  {| rv_snapshot := {| sn_height := height; sn_round := 0 |};
     rv_locked_round := None; rv_locked_block := None;
     rv_valid_round := None; rv_valid_block := None |}.
(** One entry of the log. *)
Definition replay (r : RecoveredState) (entry : ConsensusWalEntry) : RecoveredState :=
  let h := sn_height (rv_snapshot r) in
  let rd := sn_round (rv_snapshot r) in
  match entry with
  | SnapshotPersisted height round =>
      if (h <? height) || ((height =? h) && (rd <=? round)) then at_height height round r else r
  | HeightAdvanced height => if h <? height then next_height height else r
  | RoundAdvanced height round =>
      if (height =? h) && (rd <? round) then at_height h round r else r
  | CommitFinalized height _ _ =>
      let height := saturating_add U64_MAX height 1 in
      if h <? height then next_height height else r
  | Locked height round _ block =>
      if height =? h then
        {| rv_snapshot := rv_snapshot r; rv_locked_round := Some round;
           rv_locked_block := Some block; rv_valid_round := rv_valid_round r;
           rv_valid_block := rv_valid_block r |}
      else r
  | PolkaObserved height round _ block =>
      if height =? h then
        {| rv_snapshot := rv_snapshot r; rv_locked_round := rv_locked_round r;
           rv_locked_block := rv_locked_block r; rv_valid_round := Some round;
           rv_valid_block := Some block |}
      else r
  | ProposalAccepted _ _ _ | ProposalBroadcast _ _ _ | VoteRecorded _ _ _ _ _
  | VoteBroadcast _ _ _ _ _ | EvidenceRecorded _ _ _ _ => r
  end.
Definition recover_snapshot (snapshot : ConsensusSnapshot) (wal : list ConsensusWalEntry) :
    RecoveredState :=
  foldl replay {| rv_snapshot := snapshot; rv_locked_round := None; rv_locked_block := None;
                  rv_valid_round := None; rv_valid_block := None |} wal.
End Recovery.
