(* ===== verification/Durability.v ===== *)
(** Recovery of the consensus state: what the write-ahead log and the stored snapshot must
    hold for a restart to find the round and the lock again. *)

From S2P Require Import Prelude Types Codec Hash Crypto Wire Storage Staking Mempool Zk Evm.
From S2P Require Import Execution Rounds.

(** ** What the log says about one height *)
Definition lock_entry (height : Z) (e : ConsensusWalEntry) : option (Z * Block) :=
  match e with
  | Locked h round _ block => if h =? height then Some (round, block) else None
  | _ => None
  end.
Definition polka_entry (height : Z) (e : ConsensusWalEntry) : option (Z * Block) :=
  match e with
  | PolkaObserved h round _ block => if h =? height then Some (round, block) else None
  | _ => None
  end.
(** The last lock and the last polka logged at a height. *)
Definition lock_at (height : Z) (wal : list ConsensusWalEntry) : option (Z * Block) :=
  last (omap (lock_entry height) wal).
Definition polka_at (height : Z) (wal : list ConsensusWalEntry) : option (Z * Block) :=
  last (omap (polka_entry height) wal).
(** An entry written at or before height [h] and round [r]; the entry of a commit is not
    bounded, since it is logged before the commit is known to succeed. *)
Definition entry_before (h r : Z) (e : ConsensusWalEntry) : Prop :=
  match e with
  | SnapshotPersisted h' r' | RoundAdvanced h' r' => h' < h ∨ (h' = h ∧ r' ≤ r)
  | HeightAdvanced h' | Locked h' _ _ _ | PolkaObserved h' _ _ _ => h' ≤ h
  | _ => True
  end.

Lemma last_omap_snoc {A B} (f : A → option B) l x :
  last (omap f (l ++ [x])) = match f x with Some y => Some y | None => last (omap f l) end.
Proof.
  rewrite omap_app. cbn. destruct (f x); [by rewrite last_snoc | by rewrite app_nil_r].
Qed.
Lemma last_omap_snoc2 {A B} (f : A → option B) l x y :
  last (omap f (l ++ [x; y])) =
  match f y with Some z => Some z | None =>
    match f x with Some z => Some z | None => last (omap f l) end end.
Proof. change [x; y] with ([x] ++ [y]). rewrite app_assoc, !last_omap_snoc. done. Qed.
Lemma entry_before_mono h r h' r' e :
  (h < h' ∨ (h = h' ∧ r ≤ r')) → entry_before h r e → entry_before h' r' e.
Proof. destruct e; cbn; lia. Qed.
Lemma lock_at_above h r h' wal :
  Forall (entry_before h r) wal → h < h' → lock_at h' wal = None ∧ polka_at h' wal = None.
Proof.
  intros Hall Hlt. unfold lock_at, polka_at.
  enough (omap (lock_entry h') wal = [] ∧ omap (polka_entry h') wal = []) as [-> ->] by done.
  induction Hall as [|e wal He Hall [IH1 IH2]]; [done|].
  cbn. rewrite IH1, IH2. destruct e; cbn in *; try done; rewrite (proj2 (Z.eqb_neq _ _)) by lia; done.
Qed.

(** The journal is in step with a round state. *)
Record durable (st : RoundState) (wal : list ConsensusWalEntry) (sn : option ConsensusSnapshot) :
    Prop := {
  du_snapshot : sn = Some {| sn_height := rs_height st; sn_round := rs_round st |};
  du_entries : Forall (entry_before (rs_height st) (rs_round st)) wal;
  du_lock : rs_locked_round st = fst <$> lock_at (rs_height st) wal ∧
            rs_locked_block st = snd <$> lock_at (rs_height st) wal;
  du_polka : rs_valid_round st = fst <$> polka_at (rs_height st) wal ∧
             rs_valid_block st = snd <$> polka_at (rs_height st) wal
}.

(** ** Replay *)
Lemma recover_snoc sn wal e :
  Recovery.recover_snapshot sn (wal ++ [e]) = Recovery.replay (Recovery.recover_snapshot sn wal) e.
Proof. unfold Recovery.recover_snapshot. by rewrite foldl_app. Qed.

(** Replaying a log that ends at [(h, r)] from the snapshot [(h, r)] either finds that
    point with its last lock, or runs past the height through a logged commit. *)
Definition recovers (h r : Z) (wal : list ConsensusWalEntry) (rv : RecoveredState) : Prop :=
  (h < sn_height (rv_snapshot rv) ∧ sn_round (rv_snapshot rv) = 0 ∧
   rv_locked_round rv = None ∧ rv_locked_block rv = None ∧
   rv_valid_round rv = None ∧ rv_valid_block rv = None) ∨
  (rv_snapshot rv = {| sn_height := h; sn_round := r |} ∧
   rv_locked_round rv = fst <$> lock_at h wal ∧ rv_locked_block rv = snd <$> lock_at h wal ∧
   rv_valid_round rv = fst <$> polka_at h wal ∧ rv_valid_block rv = snd <$> polka_at h wal).

Lemma replay_step h r wal rv e :
  entry_before h r e → recovers h r wal rv → recovers h r (wal ++ [e]) (Recovery.replay rv e).
Proof.
  unfold recovers, lock_at, polka_at. rewrite !last_omap_snoc.
  intros He [(Hh & Hr & H1 & H2 & H3 & H4)|(Hs & H1 & H2 & H3 & H4)].
  - left. destruct e; cbn in *; try by split_and!;
      repeat case_match; to_prop; cbn; try (by split_and!); try (split_and!; lia || done); try lia.
  - destruct rv as [sn lr lb vr vb]. cbn in Hs, H1, H2, H3, H4. subst.
    destruct e; cbn in *; try (right; by split_and!).
    all: repeat case_match; to_prop; cbn in *;
      try (right; by split_and!); try (left; split_and!; lia || done);
      try (right; split_and!; f_equal; lia || done); try lia.
Qed.
Lemma recover_recovers h r wal :
  Forall (entry_before h r) wal →
  recovers h r wal (Recovery.recover_snapshot {| sn_height := h; sn_round := r |} wal).
Proof.
  induction wal as [|e wal IH] using rev_ind; intros Hall.
  - right. by split_and!.
  - apply Forall_app in Hall as [Hall He]. apply Forall_cons in He as [He _].
    rewrite recover_snoc. apply replay_step; [done | by apply IH].
Qed.

(** ** Keeping the journal in step *)
Definition same_lock (st st' : RoundState) : Prop :=
  rs_height st' = rs_height st ∧ rs_round st' = rs_round st ∧
  rs_locked_round st' = rs_locked_round st ∧ rs_locked_block st' = rs_locked_block st ∧
  rs_valid_round st' = rs_valid_round st ∧ rs_valid_block st' = rs_valid_block st.

Lemma durable_same st st' wal sn : same_lock st st' → durable st wal sn → durable st' wal sn.
Proof.
  intros (Hh & Hr & H1 & H2 & H3 & H4) [Hs He Hl Hp].
  split; rewrite ?Hh, ?Hr, ?H1, ?H2, ?H3, ?H4; done.
Qed.
(** Entries that neither move the round nor lock. *)
Definition neutral (e : ConsensusWalEntry) : Prop :=
  match e with
  | ProposalAccepted _ _ _ | ProposalBroadcast _ _ _ | VoteRecorded _ _ _ _ _
  | VoteBroadcast _ _ _ _ _ | EvidenceRecorded _ _ _ _ | CommitFinalized _ _ _ => True
  | _ => False
  end.
Lemma durable_append st wal sn e : neutral e → durable st wal sn → durable st (wal ++ [e]) sn.
Proof.
  intros Hn [Hs He Hl Hp]. split; unfold lock_at, polka_at in *; rewrite ?last_omap_snoc; [done|..].
  - apply Forall_app; split; [done|]. constructor; [|done]. by destruct e.
  - by destruct e.
  - by destruct e.
Qed.
(** The four writes of a polka: the valid block and the lock, each with its entry. *)
Lemma durable_lock st st' wal sn hash block r :
  rs_height st' = rs_height st → rs_round st' = rs_round st →
  rs_locked_round st' = Some r → rs_locked_block st' = Some block →
  rs_valid_round st' = Some r → rs_valid_block st' = Some block →
  durable st wal sn →
  durable st' (wal ++ [PolkaObserved (rs_height st) r hash block;
                       Locked (rs_height st) r hash block]) sn.
Proof.
  intros Hh Hr H1 H2 H3 H4 [Hs He Hl Hp].
  split; rewrite ?Hh, ?Hr, ?H1, ?H2, ?H3, ?H4; [done|..].
  - apply Forall_app; split; [done|]. repeat constructor; cbn; lia.
  - unfold lock_at. rewrite last_omap_snoc2. cbn. by rewrite Z.eqb_refl.
  - unfold polka_at. rewrite last_omap_snoc2. cbn. by rewrite Z.eqb_refl.
Qed.
Lemma durable_advance st st' wal sn e :
  rs_height st < rs_height st' ∨ (rs_height st = rs_height st' ∧ rs_round st ≤ rs_round st') →
  e = HeightAdvanced (rs_height st') ∨ e = RoundAdvanced (rs_height st') (rs_round st') →
  (rs_height st < rs_height st' → rs_locked_round st' = None ∧ rs_locked_block st' = None ∧
    rs_valid_round st' = None ∧ rs_valid_block st' = None) →
  (rs_height st = rs_height st' → rs_locked_round st' = rs_locked_round st ∧
    rs_locked_block st' = rs_locked_block st ∧ rs_valid_round st' = rs_valid_round st ∧
    rs_valid_block st' = rs_valid_block st) →
  durable st wal sn →
  durable st' (wal ++ [SnapshotPersisted (rs_height st') (rs_round st'); e])
    (Some {| sn_height := rs_height st'; sn_round := rs_round st' |}).
Proof.
  intros Hle He Hup Hsame [Hs Hall Hl Hp].
  assert (lock_at (rs_height st') (wal ++ [SnapshotPersisted (rs_height st') (rs_round st'); e]) =
      lock_at (rs_height st') wal ∧
    polka_at (rs_height st') (wal ++ [SnapshotPersisted (rs_height st') (rs_round st'); e]) =
      polka_at (rs_height st') wal) as [E1 E2].
  { unfold lock_at, polka_at. rewrite !last_omap_snoc2.
    by destruct He as [-> | ->]. }
  split; [done|..].
  - apply Forall_app; split.
    + eapply Forall_impl; [exact Hall|]. intros x. by apply entry_before_mono.
    + repeat constructor; [cbn; lia|]. destruct He as [-> | ->]; cbn; lia.
  - rewrite E1. destruct (decide (rs_height st < rs_height st')) as [Hlt|Hge].
    + destruct (Hup Hlt) as (-> & -> & _).
      by rewrite (proj1 (lock_at_above _ _ _ _ Hall Hlt)).
    + assert (rs_height st = rs_height st') as Eh by lia.
      destruct (Hsame Eh) as (-> & -> & _). by rewrite <-Eh.
  - rewrite E2. destruct (decide (rs_height st < rs_height st')) as [Hlt|Hge].
    + destruct (Hup Hlt) as (_ & _ & -> & ->).
      by rewrite (proj2 (lock_at_above _ _ _ _ Hall Hlt)).
    + assert (rs_height st = rs_height st') as Eh by lia.
      destruct (Hsame Eh) as (_ & _ & -> & ->). by rewrite <-Eh.
Qed.
(** Compaction drops only entries of lower heights. *)
Lemma omap_filter_keep {A B} (f : A → option B) (P : A → Prop) `{∀ x, Decision (P x)} (l : list A) :
  (∀ x, is_Some (f x) → P x) → omap f (filter P l) = omap f l.
Proof.
  intros Hf. induction l as [|x l IH]; [done|]. rewrite filter_cons.
  destruct (decide (P x)) as [Hx|Hx]; cbn; rewrite IH; [done|].
  destruct (f x) eqn:E; [|done]. destruct Hx. apply Hf. by eexists.
Qed.
Lemma durable_compact st wal sn k :
  k ≤ rs_height st → durable st wal sn →
  durable st (filter (λ entry, k ≤ Store.wal_height entry) wal) sn.
Proof.
  intros Hk [Hs He Hl Hp].
  assert (lock_at (rs_height st) (filter (λ entry, k ≤ Store.wal_height entry) wal) =
    lock_at (rs_height st) wal ∧
    polka_at (rs_height st) (filter (λ entry, k ≤ Store.wal_height entry) wal) =
    polka_at (rs_height st) wal) as [E1 E2].
  { unfold lock_at, polka_at. rewrite !omap_filter_keep; [done|..];
      intros [] [? Hx]; cbn in Hx; try done; case_match; simplify_eq; cbn; lia. }
  split; [done| |by rewrite E1|by rewrite E2]. rewrite Forall_forall in *.
  intros x [_ Hx]%list_elem_of_filter. by apply He.
Qed.
