(* ===== verification/Consensus.v ===== *)
(** [crates/zeno-consensus], operations: proposals, votes and locks, certificates,
    finalization, the import of external blocks, and the event loop. *)

From S2P Require Import Prelude Types Codec Hash Crypto Wire Toy Primitives Storage Smt Staking.
From S2P Require Import Mempool Zk Evm Execution Rounds.

(** An [anyhow::Error] of this crate. *)
Inductive ConsensusError :=
  | CeAny (e : AnyError)
  | CeExecution (e : ExecutionError)
  | CeState (e : StateError).
Definition consensus_error (e : ConsensusError) : string :=
  match e with
  | CeAny e => Display.any_error e
  | CeExecution e => execution_error e
  | CeState e => Display.state_error e
  end.
Definition bail (msg : string) : ConsensusError := CeAny (Anyhow msg).

(** What the event loop reacts to: a message, or the end of the round. *)
Inductive Event :=
  | Inbound (message : NetworkMessage)
  | RoundTimeout (now_ms : Z).

Module Consensus.
Section consensus.
Context `{HashBackend, HexEncode, ChainCodec, RevmBackend} (default_scheme : SignatureScheme)
  (self : ConsensusEngine) (scheme : SignatureScheme) (iteration : Inner → list Transaction).
Abbreviation consensus := (eff Node ConsensusError).

Definition get_state : consensus RoundState := λ n, (Ok (nd_state n), n).
Definition get_store : consensus MemoryInner := λ n, (Ok (nd_store n), n).
Definition modify_state (f : RoundState → RoundState) : consensus () :=
  eff_modify (upd_nd_state f).
Definition modify_store (f : MemoryInner → MemoryInner) : consensus () :=
  eff_modify (upd_nd_store f).
Definition fail {A} (e : ConsensusError) : consensus A := eff_lift (Err e).
(** A call of the execution engine. *)
Definition on_store {A} (m : eff MemoryInner ConsensusError A) : consensus A :=
  λ n, let '(r, s) := m (nd_store n) in (r, upd_nd_store (λ _, s) n).
Definition append_wal (entry : ConsensusWalEntry) : consensus () :=
  modify_store (Store.append_consensus_wal entry).
(** [NetworkHandle::broadcast]. *)
Definition broadcast (message : NetworkMessage) : consensus () :=
  n ← eff_get;
  if nd_network_up n then eff_modify (upd_nd_outbox (λ o, o ++ [message]))
  else fail (bail "network stopped").

(** ** Validators *)
Definition ledger (store : MemoryInner) : StakingState :=
  Staking.ensure_validators (ce_validators self) (Staking.load store).
Definition validators_by_address : gmap Address Validator :=
  foldl (λ m validator, <[vd_address validator := validator]> m) ∅ (ce_validators self).
Definition active_validators (store : MemoryInner) : list Validator :=
  let ordered_addresses := Staking.effective_validator_set (ce_economics self) (ledger store) in
  match ordered_addresses with
  | [] => ce_validators self
  | _ => omap (λ address, validators_by_address !! address) ordered_addresses
  end.
Definition quorum (store : MemoryInner) : nat :=
  (length (active_validators store) * 2 / 3 + 1)%nat.
Definition round_timeout (round : Z) : Z :=
  let params := ce_params self in
  let base := wrapping U64_MAX (cp_proposal_timeout_ms params + cp_vote_timeout_ms params) in
  let shift := Z.min round 5 in
  let factor := if shift <? 64 then Z.shiftl 1 shift else 32 in
  Z.min (saturating_mul U64_MAX base factor) MAX_ROUND_TIMEOUT_MS.
(** An empty validator set is a division by zero. *)
Definition proposer_for (height round : Z) (store : MemoryInner) : res ConsensusError Validator :=
  let validators := active_validators store in
  match validators with
  | [] => Panic
  | _ => expect (validators !! Z.to_nat (wrapping U64_MAX (height + round) `mod`
                                           Z.of_nat (length validators)))
  end.
Definition local_validator_active (store : MemoryInner) : bool :=
  match ce_local_validator self with
  | Some local => Staking.is_validator_active (vd_address (lv_validator local))
                    (ce_economics self) (ledger store)
  | None => false
  end.
Definition note_validator_liveness (validator_address : Address) : consensus () :=
  store ← get_store;
  let '(r, staking) := Staking.note_liveness validator_address (ledger store) in
  _ ← eff_lift (map_err CeState r);
  modify_store (Staking.persist staking).
Definition apply_pending_evidence : consensus () :=
  state ← get_state;
  let evidence := rs_evidence state in
  _ ← modify_state (upd_rs_evidence (λ _, []));
  if bool_decide (evidence = []) then mret tt else
  store ← get_store;
  let '(r, staking) := Staking.apply_evidence evidence (ce_economics self) (ledger store) in
  _ ← eff_lift (map_err CeState r);
  modify_store (Staking.persist staking).

(** ** Snapshots *)
Definition snapshot_of (state : RoundState) : ConsensusSnapshot :=
  {| sn_height := rs_height state; sn_round := rs_round state |}.
Definition persist_snapshot : consensus () :=
  state ← get_state;
  _ ← modify_store (Store.put_consensus_snapshot (snapshot_of state));
  append_wal (SnapshotPersisted (rs_height state) (rs_round state)).

Definition clear_round (height round : Z) (state : RoundState) : RoundState :=
  {| rs_height := height; rs_round := round; rs_proposal := None; rs_prevotes := ∅;
     rs_precommits := ∅; rs_votes := []; rs_evidence := rs_evidence state;
     rs_processed_evidence := rs_processed_evidence state; rs_prevoted := false;
     rs_precommitted := false; rs_locked_round := rs_locked_round state;
     rs_locked_block := rs_locked_block state; rs_valid_round := rs_valid_round state;
     rs_valid_block := rs_valid_block state |}.
Definition clear_locks (state : RoundState) : RoundState :=
  upd_rs_locked_round (λ _, None) (upd_rs_locked_block (λ _, None)
    (upd_rs_valid_round (λ _, None) (upd_rs_valid_block (λ _, None) state))).
Definition advance_height (next_height : Z) : consensus () :=
  _ ← modify_state (λ state, clear_locks (clear_round next_height 0 state));
  _ ← persist_snapshot;
  append_wal (HeightAdvanced next_height).
Definition advance_round : consensus () :=
  _ ← modify_state (λ state,
        clear_round (rs_height state) (wrapping U32_MAX (rs_round state + 1)) state);
  state ← get_state;
  _ ← persist_snapshot;
  append_wal (RoundAdvanced (rs_height state) (rs_round state)).

(** ** Votes *)
Definition is_block (hash : Hash32) (block : option Block) : bool :=
  match block with Some b => bool_decide (Block_hash b = hash) | None => false end.
(** [Option<u32>] is ordered with [None] first. *)
Definition opt_ge (a b : option Z) : bool :=
  match a, b with
  | _, None => true
  | None, Some _ => false
  | Some a, Some b => b <=? a
  end.
(** The locking rule of [emit_prevote]. *)
Definition prevote_choice (state : RoundState) : Hash32 :=
  match rs_locked_block state, rs_proposal state with
  | Some locked, Some proposal =>
      if bool_decide (Block_hash locked = Block_hash proposal) then Block_hash proposal
      else if is_block (Block_hash proposal) (rs_valid_block state) &&
              opt_ge (rs_valid_round state) (rs_locked_round state)
      then Block_hash proposal else NIL_HASH
  | None, Some proposal => Block_hash proposal
  | _, None => NIL_HASH
  end.
Definition unsigned_vote (local : LocalValidator) (state : RoundState) (step : VoteStep)
    (block_hash : Hash32) : Vote :=
  {| vt_height := rs_height state; vt_round := rs_round state; vt_step := step;
     vt_block_hash := block_hash; vt_validator_address := vd_address (lv_validator local);
     vt_public_key := vd_public_key (lv_validator local); vt_signature := [] |}.
(** What both emitters do once they decided to vote; [mark] sets the flag. *)
Definition cast (local : LocalValidator) (state : RoundState) (step : VoteStep)
    (block_hash : Hash32) (mark : RoundState → RoundState) : consensus (option Vote) :=
  vote ← eff_lift (map_err CeAny
    (sign_vote scheme (unsigned_vote local state step block_hash) (lv_secret_key local)));
  _ ← note_validator_liveness (vd_address (lv_validator local));
  _ ← append_wal (VoteBroadcast (rs_height state) (rs_round state) step block_hash
        (vd_address (lv_validator local)));
  _ ← modify_state mark;
  _ ← broadcast (MsgVote vote);
  mret (Some vote).
Definition emit_prevote : consensus (option Vote) :=
  match ce_local_validator self with
  | None => mret None
  | Some local =>
      store ← get_store;
      if negb (local_validator_active store) then mret None else
      state ← get_state;
      if rs_prevoted state then mret None else
      cast local state Prevote (prevote_choice state) (upd_rs_prevoted (λ _, true))
  end.
Definition emit_precommit (block_hash : Hash32) : consensus (option Vote) :=
  match ce_local_validator self with
  | None => mret None
  | Some local =>
      store ← get_store;
      if negb (local_validator_active store) then mret None else
      state ← get_state;
      if rs_precommitted state then mret None else
      cast local state Precommit block_hash (upd_rs_precommitted (λ _, true))
  end.

(** A vote by the same validator in the same step for another block. *)
Definition conflicts (vote existing : Vote) : bool :=
  (vt_height existing =? vt_height vote) && (vt_round existing =? vt_round vote) &&
  bool_decide (vt_step existing = vt_step vote) &&
  bool_decide (vt_validator_address existing = vt_validator_address vote) &&
  bool_decide (vt_block_hash existing ≠ vt_block_hash vote).
Definition vote_key (vote : Vote) : Address * Z * Z :=
  (vt_validator_address vote, vt_height vote, vt_round vote).
Definition accuse (vote : Vote) (state : RoundState) : RoundState :=
  if bool_decide (vote_key vote ∈ rs_processed_evidence state) then state else
  upd_rs_evidence (λ l, l ++ [{| evd_validator_address := vt_validator_address vote;
      evd_height := vt_height vote; evd_round := vt_round vote;
      evd_reason := "duplicate vote" |}])
    (upd_rs_processed_evidence (λ s, {[ vote_key vote ]} ∪ s) state).
Definition tally (vote : Vote) (m : gmap Hash32 (gset Address)) : gmap Hash32 (gset Address) :=
  <[vt_block_hash vote :=
      {[ vt_validator_address vote ]} ∪ default ∅ (m !! vt_block_hash vote)]> m.
Definition count_vote (vote : Vote) (state : RoundState) : RoundState :=
  let state := upd_rs_votes (λ l, l ++ [vote]) state in
  match vt_step vote with
  | Prevote => upd_rs_prevotes (tally vote) state
  | Precommit => upd_rs_precommits (tally vote) state
  end.
Definition vote_count (vote : Vote) (state : RoundState) : nat :=
  size (default ∅ (match vt_step vote with
    | Prevote => rs_prevotes state | Precommit => rs_precommits state
    end !! vt_block_hash vote)).
Definition set_polka (round : Z) (block : Block) (state : RoundState) : RoundState :=
  upd_rs_valid_round (λ _, Some round) (upd_rs_valid_block (λ _, Some block) state).
Definition set_lock (round : Z) (block : Block) (state : RoundState) : RoundState :=
  upd_rs_locked_round (λ _, Some round) (upd_rs_locked_block (λ _, Some block) state).
(** A quorum of prevotes locks the node on its proposal, if that is what was voted for. *)
Definition observe_polka (vote : Vote) : consensus () :=
  state ← get_state;
  if bool_decide (vt_block_hash vote = NIL_HASH) then mret tt else
  match rs_proposal state with
  | Some block =>
      if bool_decide (Block_hash block ≠ vt_block_hash vote) then mret tt else
      _ ← modify_state (set_polka (vt_round vote) block);
      _ ← append_wal (PolkaObserved (vt_height vote) (vt_round vote) (vt_block_hash vote) block);
      _ ← modify_state (set_lock (vt_round vote) block);
      append_wal (Locked (vt_height vote) (vt_round vote) (vt_block_hash vote) block)
  | None => mret tt
  end.
Definition record_vote (vote : Vote) : consensus (option Hash32 * option Hash32) :=
  _ ← eff_lift (map_err CeAny (verify_vote scheme vote));
  _ ← note_validator_liveness (vt_validator_address vote);
  state ← get_state;
  if negb (vt_height vote =? rs_height state) || negb (vt_round vote =? rs_round state)
  then mret (None, None) else
  if existsb (conflicts vote) (rs_votes state) then
    _ ← modify_state (accuse vote);
    _ ← append_wal (EvidenceRecorded (vt_height vote) (vt_round vote)
          (vt_validator_address vote) "duplicate vote");
    mret (None, None)
  else
  _ ← append_wal (VoteRecorded (vt_height vote) (vt_round vote) (vt_step vote)
        (vt_block_hash vote) (vt_validator_address vote));
  _ ← modify_state (count_vote vote);
  state ← get_state;
  store ← get_store;
  let reached := Nat.leb (quorum store) (vote_count vote state) in
  match vt_step vote with
  | Prevote =>
      if reached then _ ← observe_polka vote; mret (Some (vt_block_hash vote), None)
      else mret (None, None)
  | Precommit =>
      mret (None, if reached && bool_decide (vt_block_hash vote ≠ NIL_HASH)
                  then Some (vt_block_hash vote) else None)
  end.

(** ** Certificates *)
Fixpoint check_votes (certificate : CommitCertificate) (votes : list Vote) (unique : gset Address) :
    res ConsensusError (gset Address) :=
  match votes with
  | [] => Ok unique
  | vote :: votes =>
      _ ← map_err CeAny (verify_vote scheme vote);
      if negb (vt_height vote =? cc_height certificate) ||
         negb (vt_round vote =? cc_round certificate)
      then Err (bail "certificate vote height/round mismatch") else
      if bool_decide (vt_step vote ≠ Precommit)
      then Err (bail "certificate must contain only precommit votes") else
      if bool_decide (vt_block_hash vote ≠ cc_block_hash certificate)
      then Err (bail "certificate vote block hash mismatch") else
      check_votes certificate votes ({[ vt_validator_address vote ]} ∪ unique)
  end.
Definition validate_commit_certificate (block : Block) (certificate : CommitCertificate)
    (store : MemoryInner) : res ConsensusError () :=
  if bool_decide (cc_block_hash certificate ≠ Block_hash block)
  then Err (bail "certificate block hash mismatch") else
  if negb (cc_height certificate =? bh_height (bk_header block))
  then Err (bail "certificate height mismatch") else
  if negb (cc_round certificate =? bh_round (bk_header block))
  then Err (bail "certificate round mismatch") else
  unique ← check_votes certificate (cc_votes certificate) ∅;
  if Nat.ltb (size unique) (quorum store)
  then Err (bail "certificate quorum not reached") else
  Ok tt.

(** ** Finalization *)
Definition certificate_votes (block_hash : Hash32) (state : RoundState) : list Vote :=
  filter (λ vote, vt_step vote = Precommit ∧ vt_block_hash vote = block_hash) (rs_votes state).
(** The second half of [finalize]: the executed block is committed and announced. *)
Definition conclude (state : RoundState) (executed : BlockExecutionResult)
    (finalized : FinalizedBlock) : consensus () :=
  let height := rs_height state in
  _ ← append_wal (CommitFinalized height (rs_round state)
        (cc_block_hash (fb_certificate finalized)));
  _ ← modify_store (Execution.commit_finalized_block finalized (ber_state executed));
  _ ← apply_pending_evidence;
  _ ← eff_modify (upd_nd_mempool (Mempool.remove_committed (bk_transactions (fb_block finalized))));
  _ ← broadcast (MsgCommit finalized);
  _ ← (if 10 <? height
       then modify_store (λ s, (Store.compact_consensus_wal (saturating_sub height 10) s).2)
       else mret tt);
  _ ← (if 1000 <? height
       then modify_store (λ s, (Store.prune_blocks_below (saturating_sub height 1000) s).2)
       else mret tt);
  advance_height (wrapping U64_MAX (height + 1)).
Definition finalize (block_hash : Hash32) : consensus () :=
  state ← get_state;
  block ← eff_lift (ok_or (bail "missing proposal for finalize") (rs_proposal state));
  if bool_decide (Block_hash block ≠ block_hash) then mret tt else
  let certificate := {| cc_block_hash := block_hash; cc_height := rs_height state;
    cc_round := rs_round state; cc_votes := certificate_votes block_hash state |} in
  store ← get_store;
  _ ← eff_lift (validate_commit_certificate block certificate store);
  executed ← on_store (Execution.err_into CeExecution
    (Execution.execute_block default_scheme (ce_execution self) scheme block));
  conclude state executed {| fb_block := ber_block executed; fb_certificate := certificate;
    fb_receipts := ber_receipts executed; fb_epoch_transition := ber_epoch_transition executed |}.
Definition handle_vote_actions (vote : Vote) : consensus () :=
  '(should_precommit, should_finalize) ← record_vote vote;
  should_finalize ← match should_precommit with
    | Some block_hash =>
        precommit ← emit_precommit block_hash;
        match precommit with
        | Some precommit_vote =>
            '(_, local_finalize) ← record_vote precommit_vote;
            mret (match should_finalize with Some h => Some h | None => local_finalize end)
        | None => mret should_finalize
        end
    | None => mret should_finalize
    end;
  match should_finalize with
  | Some block_hash => finalize block_hash
  | None => mret tt
  end.
Definition on_vote (vote : Vote) : consensus () := handle_vote_actions vote.
(** The prevote and what follows from it, after a proposal or a timeout. *)
Definition vote_on_proposal : consensus () :=
  vote ← emit_prevote;
  match vote with Some vote => handle_vote_actions vote | None => mret tt end.

(** ** External blocks *)
Definition import_external_finalized_block (finalized : FinalizedBlock) : consensus () :=
  let certificate := fb_certificate finalized in
  state ← get_state;
  if cc_height certificate <? rs_height state then mret tt else
  store ← get_store;
  _ ← eff_lift (validate_commit_certificate (fb_block finalized) certificate store);
  _ ← append_wal (CommitFinalized (cc_height certificate) (cc_round certificate)
        (cc_block_hash certificate));
  _ ← on_store (Execution.err_into (λ _, bail "validate external finalized block")
        (Execution.validate_and_commit_finalized_block default_scheme (ce_execution self) scheme
          finalized));
  _ ← eff_modify (upd_nd_mempool (Mempool.remove_committed (bk_transactions (fb_block finalized))));
  advance_height (wrapping U64_MAX (bh_height (bk_header (fb_block finalized)) + 1)).
Definition on_commit (finalized : FinalizedBlock) : consensus () :=
  import_external_finalized_block finalized.

(** ** Proposals *)
Definition check_proposal_tx (height : Z) (state : Smt.StateSnapshot) (tx : Transaction) :
    res ConsensusError Smt.StateSnapshot :=
  let body := tx_body tx in
  _ ← map_err (λ e, bail ("proposal contains invalid transaction: " +:+ Display.transaction_error e))
    (Execution.validate_transaction (ce_execution self) scheme state height tx);
  let sender := Smt.account state (tb_sender body) in
  balance ← ok_or (bail "proposal sender underflow") (checked_sub (acct_balance sender)
    (saturating_add U128_MAX (tb_amount body) (tb_fee body)));
  let state := Smt.put_account (tb_sender body)
    {| acct_nonce := wrapping U64_MAX (acct_nonce sender + 1); acct_balance := balance |} state in
  let state := match tb_evm body with
    | None => Execution.credit (tb_recipient body) (tb_amount body) state
    | Some _ => state
    end in
  derived ← map_err (λ e, bail ("proposal sender derivation failed: " +:+ Display.transaction_error e))
    (sender_from_public_key scheme (tx_public_key tx));
  if bool_decide (derived ≠ tb_sender body)
  then Err (bail "proposal transaction sender mismatch") else
  body_bytes ← map_err CeAny (canonical_transaction_bytes body);
  _ ← map_err (λ e, bail ("proposal transaction signature invalid: " +:+ Display.transaction_error e))
    (verify_transaction scheme (ce_chain_id self) tx height);
  if bool_decide (body_bytes = [])
  then Err (bail "proposal transaction canonical bytes unexpectedly empty") else
  Ok state.
Fixpoint check_proposal_txs (height : Z) (state : Smt.StateSnapshot) (txs : list Transaction) :
    res ConsensusError () :=
  match txs with
  | [] => Ok tt
  | tx :: txs =>
      state ← check_proposal_tx height state tx;
      check_proposal_txs height state txs
  end.
Definition validate_incoming_proposal (proposal : Proposal) (store : MemoryInner) :
    res ConsensusError () :=
  expected ← proposer_for (pr_height proposal) (pr_round proposal) store;
  let block := pr_block proposal in
  let header := bk_header block in
  if bool_decide (vd_address expected ≠ pr_validator_address proposal)
  then Err (bail "proposal from unexpected proposer") else
  if bool_decide (bh_proposer header ≠ vd_address expected)
  then Err (bail "proposal block header proposer mismatch") else
  if bool_decide (bk_proposer_public_key block ≠ vd_public_key expected)
  then Err (bail "proposal public key does not match validator set") else
  if bool_decide (bh_chain_id header ≠ ce_chain_id self)
  then Err (bail "proposal chain id mismatch") else
  if negb (bh_height header =? pr_height proposal)
  then Err (bail "proposal height/header mismatch") else
  if negb (bh_round header =? pr_round proposal)
  then Err (bail "proposal round/header mismatch") else
  if cp_max_transactions_per_block (ce_params self) <? Z.of_nat (length (bk_transactions block))
  then Err (bail "proposal exceeds transaction limit") else
  if bool_decide (bh_parent_hash header ≠ Execution.parent_hash store)
  then Err (bail "proposal parent hash mismatch") else
  _ ← map_err (λ _, bail "invalid proposal block signature") (verify_block scheme block);
  check_proposal_txs (pr_height proposal) (Smt.load store) (bk_transactions block).

Definition proposal_key (proposal : Proposal) : Address * Z * Z :=
  (pr_validator_address proposal, pr_height proposal, pr_round proposal).
(** A second, different proposal for the round is evidence. *)
Definition accuse_proposer (proposal : Proposal) : consensus () :=
  state ← get_state;
  if bool_decide (proposal_key proposal ∈ rs_processed_evidence state) then mret tt else
  _ ← append_wal (EvidenceRecorded (pr_height proposal) (pr_round proposal)
        (pr_validator_address proposal) "conflicting proposal");
  modify_state (λ state, upd_rs_evidence (λ l, l ++ [{|
      evd_validator_address := pr_validator_address proposal;
      evd_height := pr_height proposal; evd_round := pr_round proposal;
      evd_reason := "conflicting proposal" |}])
    (upd_rs_processed_evidence (λ s, {[ proposal_key proposal ]} ∪ s) state)).
Definition on_proposal (proposal : Proposal) : consensus () :=
  store ← get_store;
  _ ← eff_lift (validate_incoming_proposal proposal store);
  state ← get_state;
  if negb (pr_height proposal =? rs_height state) || negb (pr_round proposal =? rs_round state)
  then mret tt else
  match rs_proposal state with
  | Some existing =>
      if bool_decide (Block_hash existing ≠ Block_hash (pr_block proposal))
      then accuse_proposer proposal else mret tt
  | None =>
      _ ← append_wal (ProposalAccepted (pr_height proposal) (pr_round proposal)
            (Block_hash (pr_block proposal)));
      _ ← modify_state (upd_rs_proposal (λ _, Some (pr_block proposal)));
      vote_on_proposal
  end.

(** Building and announcing the block, once this node knows it is to propose. *)
Definition announce (local : LocalValidator) (state : RoundState) (proposer : Validator)
    (block : Block) : consensus () :=
  _ ← note_validator_liveness (vd_address (lv_validator local));
  _ ← append_wal (ProposalAccepted (rs_height state) (rs_round state) (Block_hash block));
  _ ← modify_state (upd_rs_proposal (λ _, Some block));
  _ ← append_wal (ProposalBroadcast (rs_height state) (rs_round state) (Block_hash block));
  _ ← broadcast (MsgProposal {| pr_height := rs_height state; pr_round := rs_round state;
        pr_block := block; pr_validator_address := vd_address proposer |});
  vote_on_proposal.
Definition build_proposal (local : LocalValidator) (state : RoundState) (proposer : Validator)
    (transactions : list Transaction) (now_ms : Z) : consensus Block :=
  '(state_after, receipts) ← on_store (Execution.err_into CeAny
    (Execution.dry_run_transactions default_scheme (ce_execution self) scheme (rs_height state)
      transactions (vd_address proposer)));
  store ← get_store;
  let header := Execution.build_header (ce_execution self) (vd_address proposer)
    (rs_height state) (rs_round state) now_ms transactions state_after receipts store in
  eff_lift (map_err CeAny (sign_block scheme header transactions
    (vd_public_key (lv_validator local)) (lv_secret_key local))).
Definition with_signed_height (height : Z) (p : SlashingProtection) : SlashingProtection :=
  {| sp_last_signed_proposal_height := height;
     sp_last_signed_prevote_height := sp_last_signed_prevote_height p;
     sp_last_signed_precommit_height := sp_last_signed_precommit_height p |}.
Definition maybe_propose (now_ms : Z) : consensus () :=
  match ce_local_validator self with
  | None => mret tt
  | Some local =>
      let me := vd_address (lv_validator local) in
      store ← get_store;
      if negb (local_validator_active store) then mret tt else
      state ← get_state;
      proposer ← eff_lift (proposer_for (rs_height state) (rs_round state) store);
      if bool_decide (vd_address proposer ≠ me) then mret tt else
      if bool_decide (is_Some (rs_proposal state)) then mret tt else
      let protection := default SlashingProtection_default
        (Store.get_slashing_protection me store) in
      if rs_height state <=? sp_last_signed_proposal_height protection then mret tt else
      _ ← modify_store (Store.put_slashing_protection me
            (with_signed_height (rs_height state) protection));
      _ ← eff_modify (upd_nd_mempool (Mempool.evict_expired (rs_height state)));
      node ← eff_get;
      let transactions := Mempool.select_for_block_prioritized (iteration (nd_mempool node))
        (Z.to_nat (cp_max_transactions_per_block (ce_params self))) (rs_height state) in
      block ← build_proposal local state proposer transactions now_ms;
      if cp_max_block_bytes (ce_params self) <? Z.of_nat (length (encode_to_vec block))
      then mret tt else
      announce local state proposer block
  end.

(** ** The event loop *)

(** Rejected messages are logged and dropped. *)
Definition logged (m : consensus ()) : consensus () :=
  λ n, match m n with (Err _, n') => (Ok tt, n') | outcome => outcome end.
(** One turn of the [select!] loop; an error of the timeout branch ends the task. *)
Definition on_event (event : Event) : consensus () :=
  match event with
  | Inbound (MsgProposal proposal) => logged (on_proposal proposal)
  | Inbound (MsgVote vote) => logged (on_vote vote)
  | Inbound (MsgCommit finalized) => logged (on_commit finalized)
  | Inbound _ => mret tt
  | RoundTimeout now_ms =>
      _ ← vote_on_proposal;
      _ ← advance_round;
      maybe_propose now_ms
  end.
Definition start (now_ms : Z) : consensus () :=
  _ ← persist_snapshot; maybe_propose now_ms.
End consensus.

(** [ConsensusEngine::new]: the recovered round state. *)
Definition initial_snapshot (store : MemoryInner) : ConsensusSnapshot :=
  match Store.get_consensus_snapshot store with
  | Some snapshot => snapshot
  | None =>
      {| sn_height := match Store.latest_block store with
           | Some block => wrapping U64_MAX (bh_height (bk_header (fb_block block)) + 1)
           | None => 1
           end;
         sn_round := 0 |}
  end.
Definition recovered_state (store : MemoryInner) : RoundState :=
  let recovered := Recovery.recover_snapshot (initial_snapshot store)
    (Store.load_consensus_wal store) in
  {| rs_height := sn_height (rv_snapshot recovered); rs_round := sn_round (rv_snapshot recovered);
     rs_proposal := None; rs_prevotes := ∅; rs_precommits := ∅; rs_votes := [];
     rs_evidence := []; rs_processed_evidence := ∅; rs_prevoted := false;
     rs_precommitted := false; rs_locked_round := rv_locked_round recovered;
     rs_locked_block := rv_locked_block recovered; rs_valid_round := rv_valid_round recovered;
     rs_valid_block := rv_valid_block recovered |}.
End Consensus.
