(* ===== verification/ConsensusInv.v ===== *)
(** The invariant of the consensus engine and its preservation by every operation: the
    vote tallies, the lock, the messages sent and the journal. *)

From S2P Require Import Prelude Wp Types Codec Hash Crypto Wire Primitives Storage Smt Staking.
From S2P Require Import Mempool Zk Evm Execution Rounds Durability Consensus.

(** ** The messages sent *)

(** What a vote is about: a node may send one vote for each. *)
Definition vote_slot (m : NetworkMessage) : option (VoteStep * Z * Z) :=
  match m with MsgVote v => Some (vt_step v, vt_height v, vt_round v) | _ => None end.
Definition voted (step : VoteStep) (st : RoundState) : bool :=
  match step with Prevote => rs_prevoted st | Precommit => rs_precommitted st end.
Definition slot_used (st : RoundState) (slot : VoteStep * Z * Z) : Prop :=
  let '(step, h, r) := slot in
  h < rs_height st ∨ (h = rs_height st ∧ r < rs_round st) ∨
  (h = rs_height st ∧ r = rs_round st ∧ voted step st = true).
Record sent_inv (st : RoundState) (outbox : list NetworkMessage) : Prop := {
  si_once : NoDup (omap vote_slot outbox);
  si_used : Forall (slot_used st) (omap vote_slot outbox)
}.
Lemma sent_mono st st' outbox :
  (∀ slot, slot_used st slot → slot_used st' slot) → sent_inv st outbox → sent_inv st' outbox.
Proof. intros Hm [Ho Hu]. split; [done|]. eapply Forall_impl; [exact Hu | exact Hm]. Qed.
Lemma sent_other st outbox m : vote_slot m = None → sent_inv st outbox → sent_inv st (outbox ++ [m]).
Proof. intros Hm [Ho Hu]. split; rewrite omap_app; cbn; rewrite Hm, app_nil_r; done. Qed.
(** Sending the vote of the current round once its flag is set. *)
Lemma sent_vote st st' outbox v :
  sent_inv st outbox → voted (vt_step v) st = false →
  rs_height st' = rs_height st → rs_round st' = rs_round st →
  voted (vt_step v) st' = true → (∀ step, voted step st = true → voted step st' = true) →
  vt_height v = rs_height st → vt_round v = rs_round st →
  sent_inv st' (outbox ++ [MsgVote v]).
Proof.
  intros [Ho Hu] Hf Hh Hr Ht Hmono Hvh Hvr. split; rewrite omap_app; cbn.
  - apply NoDup_app. split_and!; [done| |apply NoDup_singleton].
    intros slot Hin ->%list_elem_of_singleton. rewrite Forall_forall in Hu.
    specialize (Hu _ Hin) as [?|[[? ?]|(_ & _ & Hv)]]; [lia|lia|congruence].
  - apply Forall_app; split.
    + eapply Forall_impl; [exact Hu|]. intros [[step h] r] [?|[[? ?]|(? & ? & ?)]]; cbn; [lia|lia|].
      right; right. split_and!; [lia|lia|auto].
    + constructor; [|done]. cbn. right; right. split_and!; [lia|lia|done].
Qed.

(** ** The round state *)
Section invariant.
Context `{HashBackend, HexEncode, ChainCodec, RevmBackend} (default_scheme : SignatureScheme)
  (self : ConsensusEngine) (scheme : SignatureScheme) (iteration : Inner → list Transaction).

Definition ballots (step : VoteStep) (st : RoundState) : gmap Hash32 (gset Address) :=
  match step with Prevote => rs_prevotes st | Precommit => rs_precommits st end.
Record round_inv (st : RoundState) : Prop := {
  ri_valid : rs_valid_round st = rs_locked_round st ∧ rs_valid_block st = rs_locked_block st;
  ri_locked : is_Some (rs_locked_round st) ↔ is_Some (rs_locked_block st);
  ri_lock_round r : rs_locked_round st = Some r → r ≤ rs_round st;
  ri_round : 0 ≤ rs_height st ∧ 0 ≤ rs_round st;
  ri_votes v : v ∈ rs_votes st →
    vt_height v = rs_height st ∧ vt_round v = rs_round st ∧ verify_vote scheme v = Ok ();
  ri_once v w : v ∈ rs_votes st → w ∈ rs_votes st → vt_step v = vt_step w →
    vt_validator_address v = vt_validator_address w → vt_block_hash v = vt_block_hash w;
  ri_ballots step h a : a ∈ default ∅ (ballots step st !! h) ↔
    ∃ v, v ∈ rs_votes st ∧ vt_step v = step ∧ vt_block_hash v = h ∧ vt_validator_address v = a;
  ri_proposal b : rs_proposal st = Some b →
    bh_height (bk_header b) = rs_height st ∧ bh_round (bk_header b) = rs_round st
}.

Record node_inv (n : Node) : Prop := {
  ni_round : round_inv (nd_state n);
  ni_sent : sent_inv (nd_state n) (nd_outbox n);
  ni_durable : durable (nd_state n) (ms_consensus_wal (nd_store n)) (ms_snapshot (nd_store n))
}.

(** Steps that the invariant does not see. *)
Definition quiet (n n' : Node) : Prop :=
  nd_state n' = nd_state n ∧ nd_outbox n' = nd_outbox n ∧
  ms_consensus_wal (nd_store n') = ms_consensus_wal (nd_store n) ∧
  ms_snapshot (nd_store n') = ms_snapshot (nd_store n).
Lemma quiet_inv n n' : quiet n n' → node_inv n → node_inv n'.
Proof.
  intros (Hs & Ho & Hw & Hn) [Hr Hse Hd]. split; rewrite ?Hs, ?Ho, ?Hw, ?Hn; done.
Qed.
(** The invariant holds and the round did not change. *)
Definition stays (n n' : Node) : Prop :=
  node_inv n' ∧ rs_height (nd_state n') = rs_height (nd_state n) ∧
  rs_round (nd_state n') = rs_round (nd_state n).
Lemma stays_refl n : node_inv n → stays n n.
Proof. by split. Qed.
Lemma stays_trans n n1 n2 : stays n n1 → stays n1 n2 → stays n n2.
Proof. intros (_ & E1 & E2) (? & E3 & E4). split_and!; [done | congruence..]. Qed.
Lemma quiet_stays n n' : quiet n n' → node_inv n → stays n n'.
Proof. intros Hq Hi. split; [by eapply quiet_inv|]. destruct Hq as (-> & _). done. Qed.

(** *** Primitive steps *)
Lemma wp_get_state n (Q : RoundState → Node → Prop) X : Q (nd_state n) n → wp Consensus.get_state n Q X.
Proof. done. Qed.
Lemma wp_get_store n (Q : MemoryInner → Node → Prop) X : Q (nd_store n) n → wp Consensus.get_store n Q X.
Proof. done. Qed.
Lemma wp_note_liveness a n (Q : () → Node → Prop) X :
  (∀ n', quiet n n' → Q tt n') → (∀ n', quiet n n' → X n') →
  wp (Consensus.note_validator_liveness self a) n Q X.
Proof.
  intros HQ HX. unfold Consensus.note_validator_liveness.
  apply wp_bind, wp_get_store.
  destruct (Staking.note_liveness a (Consensus.ledger self (nd_store n))) as [r staking].
  apply wp_bind. wp_step; [|by apply HX].
  by apply wp_modify, HQ.
Qed.
Lemma append_neutral_inv n e :
  neutral e → node_inv n → node_inv (upd_nd_store (Store.append_consensus_wal e) n).
Proof. intros He [Hr Hs Hd]. split; [done..|]. by apply durable_append. Qed.
Lemma wp_append_neutral n e (Q : () → Node → Prop) X :
  neutral e → node_inv n → (∀ n', stays n n' → nd_state n' = nd_state n → nd_outbox n' = nd_outbox n → Q tt n') →
  wp (Consensus.append_wal e) n Q X.
Proof. intros He Hi HQ. apply wp_modify, HQ; [|done..]. split; [by apply append_neutral_inv|done]. Qed.

(** A change of the round state that keeps round, lock, votes and sent flags. *)
Definition benign (st st' : RoundState) : Prop :=
  same_lock st st' ∧ rs_votes st' = rs_votes st ∧
  (∀ step, ballots step st' = ballots step st) ∧
  (∀ step, voted step st = true → voted step st' = true) ∧
  (∀ b, rs_proposal st' = Some b →
    rs_proposal st = Some b ∨
    (bh_height (bk_header b) = rs_height st ∧ bh_round (bk_header b) = rs_round st)).
Lemma benign_round st st' : benign st st' → round_inv st → round_inv st'.
Proof.
  intros ((Hh & Hr & H1' & H2' & H3' & H4') & Hv & Hb & _ & Hp) [V L LR R0 VO ON BA PR].
  split; rewrite ?Hh, ?Hr, ?H1', ?H2', ?H3', ?H4', ?Hv; try done.
  - intros step h a. rewrite Hb. apply BA.
  - intros b [Hb'|Hb']%Hp; [by apply PR | done].
Qed.
Lemma benign_sent st st' o : benign st st' → sent_inv st o → sent_inv st' o.
Proof.
  intros ((Hh & Hr & _) & _ & _ & Hm & _). apply sent_mono. intros [[step h] r]. cbn.
  rewrite Hh, Hr. intros [?|[?|(? & ? & ?)]]; [tauto|tauto|]. right; right. auto.
Qed.
Lemma benign_inv n f :
  benign (nd_state n) (f (nd_state n)) → node_inv n → node_inv (upd_nd_state f n).
Proof.
  intros Hb [Hr Hs Hd]. split; cbn.
  - by eapply benign_round.
  - by eapply benign_sent.
  - eapply durable_same; [apply Hb | done].
Qed.
Lemma wp_benign f n (Q : () → Node → Prop) X :
  benign (nd_state n) (f (nd_state n)) → node_inv n →
  (stays n (upd_nd_state f n) → Q tt (upd_nd_state f n)) →
  wp (Consensus.modify_state f) n Q X.
Proof.
  intros Hb Hi HQ. apply wp_modify, HQ. split; [by apply benign_inv|].
  destruct Hb as ((Hh & Hr & _) & _). done.
Qed.

Lemma wp_broadcast_other m n (Q : () → Node → Prop) X :
  vote_slot m = None → node_inv n →
  (∀ n', stays n n' → nd_state n' = nd_state n → nd_store n' = nd_store n → Q tt n') → X n →
  wp (Consensus.broadcast m) n Q X.
Proof.
  intros Hm Hi HQ HX. unfold Consensus.broadcast. apply wp_bind, wp_get.
  destruct (nd_network_up n); [|by apply wp_lift].
  apply wp_modify, HQ; [|done..]. destruct Hi as [Hr Hs Hd]. split; [|done].
  split; [done|by apply sent_other|done].
Qed.

(** *** Recording a vote *)
Lemma existsb_conflicts v st :
  existsb (Consensus.conflicts v) (rs_votes st) = false →
  ∀ w, w ∈ rs_votes st → vt_height w = vt_height v → vt_round w = vt_round v →
    vt_step w = vt_step v → vt_validator_address w = vt_validator_address v →
    vt_block_hash w = vt_block_hash v.
Proof.
  intros He w Hw Hh Hr Hs Ha. apply dec_stable. intros Hne.
  assert (existsb (Consensus.conflicts v) (rs_votes st) = true) as Ht; [|congruence].
  apply existsb_exists. exists w. split; [by apply list_elem_of_In|].
  unfold Consensus.conflicts. rewrite Hh, Hr, !Z.eqb_refl, !bool_decide_eq_true_2 by done. done.
Qed.
Lemma ballots_count v st step h :
  default ∅ (ballots step (Consensus.count_vote v st) !! h) =
  if decide (vt_step v = step ∧ vt_block_hash v = h)
  then {[ vt_validator_address v ]} ∪ default ∅ (ballots step st !! h)
  else default ∅ (ballots step st !! h).
Proof.
  unfold Consensus.count_vote, Consensus.tally.
  destruct (vt_step v) eqn:Es, step; cbn; case_decide as Hd; try (destruct Hd as [? Hd]); try done.
  all: try (subst; by rewrite lookup_insert_eq).
  all: rewrite lookup_insert_ne; [done|]; intros E; by apply Hd.
Qed.
Lemma count_vote_frame v st :
  same_lock st (Consensus.count_vote v st) ∧ rs_votes (Consensus.count_vote v st) = rs_votes st ++ [v] ∧
  rs_proposal (Consensus.count_vote v st) = rs_proposal st ∧
  (∀ step, voted step (Consensus.count_vote v st) = voted step st).
Proof. unfold Consensus.count_vote. destruct (vt_step v); split_and!; try done; by intros []. Qed.
Lemma count_vote_inv v st :
  round_inv st → vt_height v = rs_height st → vt_round v = rs_round st →
  verify_vote scheme v = Ok () → existsb (Consensus.conflicts v) (rs_votes st) = false →
  round_inv (Consensus.count_vote v st).
Proof.
  intros [V L LR R0 VO ON BA PR] Hh Hr Hv Hc.
  destruct (count_vote_frame v st) as ((Eh & Er & E1 & E2 & E3 & E4) & Ev & Ep & _).
  pose proof (existsb_conflicts v st Hc) as Hnc.
  split; rewrite ?Eh, ?Er, ?E1, ?E2, ?E3, ?E4, ?Ev, ?Ep; try done.
  - intros w [Hw| ->%list_elem_of_singleton]%elem_of_app; [by apply VO | done].
  - assert (∀ w, w ∈ rs_votes st → vt_step w = vt_step v →
      vt_validator_address w = vt_validator_address v → vt_block_hash w = vt_block_hash v) as Hw.
    { intros w Hw. destruct (VO w Hw) as (? & ? & _). apply Hnc; congruence. }
    intros w x [Hw'| ->%list_elem_of_singleton]%elem_of_app
      [Hx| ->%list_elem_of_singleton]%elem_of_app Hs Ha; [by apply ON|by apply Hw| |done].
    symmetry. by apply Hw.
  - intros step h a. rewrite ballots_count.
    case_decide as Hd; [rewrite elem_of_union, elem_of_singleton|]; rewrite BA; split.
    + intros [->|(w & Hw & ?)]; [exists v | exists w]; rewrite elem_of_app, ?list_elem_of_singleton;
        destruct Hd; auto.
    + intros (w & [Hw| ->%list_elem_of_singleton]%elem_of_app & ? & ? & ?); [right; eauto | by left].
    + intros (w & Hw & ?). exists w. rewrite elem_of_app. auto.
    + intros (w & [Hw| ->%list_elem_of_singleton]%elem_of_app & ? & ? & ?); [eauto | by destruct Hd].
Qed.

(** *** Locking *)
Lemma observe_polka_run v n :
  ∃ n', Consensus.observe_polka v n = (Ok (), n') ∧
  (node_inv n → vt_height v = rs_height (nd_state n) → vt_round v = rs_round (nd_state n) →
   stays n n' ∧ nd_outbox n' = nd_outbox n).
Proof.
  unfold Consensus.observe_polka, mbind at 1, eff_bind at 1, Consensus.get_state at 1.
  case_bool_decide; [by exists n; split; [|intros; split; [apply stays_refl|]]|].
  destruct (rs_proposal (nd_state n)) as [block|] eqn:Hp;
    [|by exists n; split; [|intros; split; [apply stays_refl|]]].
  case_bool_decide; [by exists n; split; [|intros; split; [apply stays_refl|]]|].
  eexists. split; [reflexivity|]. intros [[V L LR R0 VO ON BA PR] Hs Hd] Hh Hr.
  split; [|done]. split; [|done]. split; cbn.
  - split; cbn; try done. intros r [= <-]. lia.
  - eapply sent_mono; [|exact Hs]. intros [[[] h] r]; cbn; tauto.
  - rewrite <-app_assoc, Hh. cbn. by eapply durable_lock.
Qed.

Lemma accuse_benign v st : benign st (Consensus.accuse v st).
Proof.
  unfold Consensus.accuse. case_bool_decide; (split_and!; [done| | |done..|]); try done.
  all: intros; by left.
Qed.
Lemma wp_record_vote v n :
  node_inv n → wp (Consensus.record_vote self scheme v) n (λ _, stays n) (stays n).
Proof.
  intros Hi. unfold Consensus.record_vote.
  apply wp_bind, wp_lift; [intros [] Hv|by apply stays_refl].
  apply (proj1 (map_err_ok _ _ _)) in Hv.
  apply wp_bind, wp_note_liveness; intros n1 Hq1; pose proof (quiet_stays _ _ Hq1 Hi) as S1; [|done].
  apply wp_bind, wp_get_state.
  destruct (negb _ || negb _) eqn:Hcur; [by apply wp_ret|].
  apply orb_false_iff in Hcur as [Hh%negb_false_iff%Z.eqb_eq Hr%negb_false_iff%Z.eqb_eq].
  destruct (existsb _ _) eqn:Hc.
  { apply wp_bind, wp_benign; [apply accuse_benign|apply S1|]. intros S2.
    apply wp_bind, wp_append_neutral; [done|apply S2|]. intros n3 S3 _ _.
    apply wp_ret. eapply stays_trans; [exact S1|]. by eapply stays_trans. }
  apply wp_bind, wp_append_neutral; [done|apply S1|]. intros n2 S2 E2 _.
  assert (stays n n2) as S02 by (by eapply stays_trans).
  apply wp_bind, wp_modify.
  set (n3 := upd_nd_state _ n2).
  assert (stays n n3) as S3.
  { destruct S02 as ([Hr2 Hs2 Hd2] & Eh & Er). destruct (count_vote_frame v (nd_state n2))
      as (Hl & Ev & Ep & Evo). split; [|by destruct Hl as (Hl1 & Hl2 & _); cbn; rewrite Hl1, Hl2].
    split; cbn.
    - apply count_vote_inv; rewrite ?E2; try done. by rewrite <-E2.
    - eapply sent_mono; [|exact Hs2]. destruct Hl as (Hl1 & Hl2 & _).
      intros [[step h] r]. cbn. by rewrite Hl1, Hl2, Evo.
    - by eapply durable_same. }
  apply wp_bind, wp_get_state, wp_bind, wp_get_store.
  destruct (vt_step v); [|by apply wp_ret].
  destruct (Nat.leb _ _); [|by apply wp_ret].
  apply wp_bind. destruct (observe_polka_run v n3) as (n4 & Hrun & Hn4).
  eapply wp_ok; [exact Hrun|]. apply wp_ret. eapply stays_trans; [exact S3|].
  destruct S3 as (Hi3 & Eh3 & Er3), S1 as (_ & Eh1 & Er1).
  by apply Hn4; [done|congruence..].
Qed.

(** *** Casting a vote *)
Definition set_voted (step : VoteStep) : RoundState → RoundState :=
  match step with
  | Prevote => upd_rs_prevoted (λ _, true) | Precommit => upd_rs_precommitted (λ _, true) end.
Lemma set_voted_spec step st :
  benign st (set_voted step st) ∧ voted step (set_voted step st) = true.
Proof.
  destruct step; split; try done; (split_and!; [done|done| | |]); cbn.
  1,4: by intros [].
  1,3: by intros [].
  all: intros; by left.
Qed.
Lemma wp_cast local step hash n :
  node_inv n → voted step (nd_state n) = false →
  wp (Consensus.cast self scheme local (nd_state n) step hash (set_voted step)) n
    (λ _, stays n) (stays n).
Proof.
  intros Hi Hf. unfold Consensus.cast.
  apply wp_bind, wp_lift; [intros v Hv|by apply stays_refl].
  apply (proj1 (map_err_ok _ _ _)) in Hv.
  assert (vt_step v = step ∧ vt_height v = rs_height (nd_state n) ∧
          vt_round v = rs_round (nd_state n)) as (Es & Eh & Er).
  { unfold sign_vote in Hv. apply res_bind_ok in Hv as (bs & _ & Hv).
    apply res_bind_ok in Hv as (sg & _ & [= <-]). done. }
  apply wp_bind, wp_note_liveness; intros n1 Hq; pose proof (quiet_stays _ _ Hq Hi) as S1; [|done].
  apply wp_bind, wp_append_neutral; [done|apply S1|]. intros n2 S2 E2 O2.
  assert (stays n n2) as S02 by (by eapply stays_trans).
  destruct Hq as (Q1 & Q2 & _).
  destruct (set_voted_spec step (nd_state n2)) as [Hb Hset].
  apply wp_bind, wp_benign; [exact Hb|apply S02|]. intros S3.
  assert (stays n (upd_nd_state (set_voted step) n2)) as S03 by (by eapply stays_trans).
  apply wp_bind. unfold Consensus.broadcast. apply wp_bind, wp_get.
  destruct (nd_network_up _); [|by apply wp_lift].
  apply wp_modify, wp_ret. destruct S03 as ([R3 Se3 D3] & Eh3 & Er3). split; [|done].
  split; [done| |done]. cbn in *.
  rewrite O2, Q2. eapply (sent_vote (nd_state n)); rewrite ?Es; try done.
  - apply Hi.
  - intros s Hs. apply Hb. by rewrite E2, Q1.
Qed.
Lemma wp_emit_prevote n :
  node_inv n → wp (Consensus.emit_prevote self scheme) n (λ _, stays n) (stays n).
Proof.
  intros Hi. unfold Consensus.emit_prevote.
  destruct (ce_local_validator self) as [local|]; [|by apply wp_ret, stays_refl].
  apply wp_bind, wp_get_store. destruct (negb _); [by apply wp_ret, stays_refl|].
  apply wp_bind, wp_get_state. destruct (rs_prevoted (nd_state n)) eqn:Hf; [by apply wp_ret, stays_refl|].
  by apply (wp_cast local Prevote).
Qed.
Lemma wp_emit_precommit hash n :
  node_inv n → wp (Consensus.emit_precommit self scheme hash) n (λ _, stays n) (stays n).
Proof.
  intros Hi. unfold Consensus.emit_precommit.
  destruct (ce_local_validator self) as [local|]; [|by apply wp_ret, stays_refl].
  apply wp_bind, wp_get_store. destruct (negb _); [by apply wp_ret, stays_refl|].
  apply wp_bind, wp_get_state.
  destruct (rs_precommitted (nd_state n)) eqn:Hf; [by apply wp_ret, stays_refl|].
  by apply (wp_cast local Precommit).
Qed.

(** *** Moving on *)
Lemma fresh_round_inv st :
  rs_votes st = [] → rs_prevotes st = ∅ → rs_precommits st = ∅ → rs_proposal st = None →
  rs_valid_round st = rs_locked_round st → rs_valid_block st = rs_locked_block st →
  (is_Some (rs_locked_round st) ↔ is_Some (rs_locked_block st)) →
  (∀ r, rs_locked_round st = Some r → r ≤ rs_round st) → 0 ≤ rs_height st →
  0 ≤ rs_round st → round_inv st.
Proof.
  intros Hv Hp Hc Hpr H1' H2' H3' H4' Hh Hr. split; rewrite ?Hv, ?Hpr; try done.
  1,2: intros v; intros; by exfalso; eapply not_elem_of_nil.
  intros step h a. assert (ballots step st = ∅) as -> by (by destruct step).
  rewrite lookup_empty. cbn. split; [by intros ?%not_elem_of_empty|].
  intros (v & Hin & _). by apply not_elem_of_nil in Hin.
Qed.
(** A later round, with everything about the old one used up. *)
Lemma sent_later st st' o :
  rs_height st < rs_height st' ∨ (rs_height st = rs_height st' ∧ rs_round st < rs_round st') →
  sent_inv st o → sent_inv st' o.
Proof.
  intros Hlt. apply sent_mono. intros [[step h] r]. cbn.
  intros [?|[[? ?]|(? & ? & ?)]]; lia.
Qed.
Definition at_new_height (h : Z) (n' : Node) : Prop :=
  node_inv n' ∧ rs_height (nd_state n') = h ∧ rs_round (nd_state n') = 0.
(** Both moves store the snapshot and log it, then log the move. *)
Definition moved (st : RoundState) (e : ConsensusWalEntry) (n : Node) : Node :=
  {| nd_state := st;
     nd_store := Store.append_consensus_wal e
       (Store.append_consensus_wal (SnapshotPersisted (rs_height st) (rs_round st))
         (Store.put_consensus_snapshot (Consensus.snapshot_of st) (nd_store n)));
     nd_mempool := nd_mempool n; nd_outbox := nd_outbox n; nd_network_up := nd_network_up n |}.
Lemma moved_durable st e n :
  ms_consensus_wal (nd_store (moved st e n)) =
    ms_consensus_wal (nd_store n) ++ [SnapshotPersisted (rs_height st) (rs_round st); e] ∧
  ms_snapshot (nd_store (moved st e n)) = Some (Consensus.snapshot_of st).
Proof. cbn. by rewrite <-app_assoc. Qed.
Lemma advance_height_inv h n :
  node_inv n → rs_height (nd_state n) < h →
  keeps (Consensus.advance_height h) n (at_new_height h).
Proof.
  intros [Hr Hs Hd] Hh. set (st := Consensus.clear_locks (Consensus.clear_round h 0 (nd_state n))).
  apply (wp_ok _ _ tt (moved st (HeightAdvanced h) n)); [reflexivity|].
  split; [|done]. destruct (moved_durable st (HeightAdvanced h) n) as [Ew Es].
  split; rewrite ?Ew, ?Es; cbn [moved nd_state nd_outbox].
  - apply fresh_round_inv; cbn; try done. pose proof (proj1 (ri_round _ Hr)). lia.
  - eapply sent_later; [|exact Hs]. by left.
  - eapply (durable_advance (nd_state n)); [| | | |exact Hd]; cbn; auto; lia.
Qed.
Lemma advance_round_inv n :
  node_inv n → rs_round (nd_state n) + 1 ≤ U32_MAX →
  keeps Consensus.advance_round n (λ n', node_inv n' ∧
    rs_height (nd_state n') = rs_height (nd_state n) ∧
    rs_round (nd_state n') = rs_round (nd_state n) + 1).
Proof.
  intros [Hr Hs Hd] Hmax. pose proof (proj2 (ri_round _ Hr)) as Hr0.
  assert (wrapping U32_MAX (rs_round (nd_state n) + 1) = rs_round (nd_state n) + 1) as Ew
    by (apply wrapping_small; ulia).
  set (st := Consensus.clear_round (rs_height (nd_state n)) (rs_round (nd_state n) + 1) (nd_state n)).
  apply (wp_ok _ _ tt (moved st (RoundAdvanced (rs_height st) (rs_round st)) n)).
  { unfold st. rewrite <-Ew. reflexivity. }
  split; [|done]. destruct (moved_durable st (RoundAdvanced (rs_height st) (rs_round st)) n) as [Ewal Es].
  split; rewrite ?Ewal, ?Es; cbn [moved nd_state nd_outbox].
  - destruct Hr as [[V1 V2] L LR R0 _ _ _ _]. apply fresh_round_inv; cbn; try done; [| |lia].
    2: apply R0.
    intros r Hr. specialize (LR _ Hr). lia.
  - eapply sent_later; [|exact Hs]. cbn. lia.
  - eapply (durable_advance (nd_state n)); [| | | |exact Hd]; cbn; auto; lia.
Qed.

(** *** Finalization *)
Lemma wp_on_store {A} (m : eff MemoryInner ConsensusError A) n (Q : A → Node → Prop) (X : Node → Prop) :
  (∀ s, same_journal s (m s).2) →
  (∀ a n', m (nd_store n) = (Ok a, nd_store n') → quiet n n' → Q a n') → (∀ n', quiet n n' → X n') →
  wp (Consensus.on_store m) n Q X.
Proof.
  intros Hj HQ HX. unfold wp, Consensus.on_store. specialize (Hj (nd_store n)).
  destruct (m (nd_store n)) as [[a|e|] s'] eqn:Hm; cbn in Hj; destruct Hj as (Hw & Hs & _).
  - by apply HQ.
  - by apply HX.
  - by apply HX.
Qed.
Lemma err_into_journal {A E F} (f : E → F) (m : eff MemoryInner E A) s :
  same_journal s (m s).2 → same_journal s (Execution.err_into f m s).2.
Proof. unfold Execution.err_into. by destruct (m s). Qed.
Lemma wp_modify_journal f n (Q : () → Node → Prop) X :
  (∀ s, same_journal s (f s)) → (∀ n', quiet n n' → Q tt n') →
  wp (Consensus.modify_store f) n Q X.
Proof.
  intros Hj HQ. apply wp_modify, HQ. destruct (Hj (nd_store n)) as (Hw & Hs & _). done.
Qed.
Lemma wp_apply_pending_evidence n (Q : () → Node → Prop) X :
  node_inv n → (∀ n', stays n n' → Q tt n') → (∀ n', stays n n' → X n') →
  wp (Consensus.apply_pending_evidence self) n Q X.
Proof.
  intros Hi HQ HX. unfold Consensus.apply_pending_evidence.
  apply wp_bind, wp_get_state, wp_bind, wp_benign; [|done|].
  { split_and!; try done. intros; by left. }
  intros S1. case_bool_decide; [by apply wp_ret, HQ|].
  apply wp_bind, wp_get_store. destruct (Staking.apply_evidence _ _ _) as [r staking].
  apply wp_bind, wp_lift; [intros a _ | by apply HX].
  apply wp_modify_journal; [done|]. intros n' Hq. apply HQ.
  eapply stays_trans; [exact S1|]. apply quiet_stays; [done | apply S1].
Qed.
(** The invariant holds, at the same round or at the start of the next height. *)
Definition proceeds (n n' : Node) : Prop :=
  stays n n' ∨ at_new_height (rs_height (nd_state n) + 1) n'.
Lemma stays_proceeds n n1 n2 : stays n n1 → proceeds n1 n2 → proceeds n n2.
Proof.
  intros (Hi & Eh & Er) [S|(Hi2 & Hh & Hr)]; [left|right].
  - by eapply stays_trans; [split|].
  - split_and!; [done|congruence|done].
Qed.
Lemma prune_journal k s : same_journal s (Store.prune_blocks_below k s).2.
Proof.
  unfold Store.prune_blocks_below. cbn [snd].
  generalize (filter (λ k0, k0 < k) (entries (ms_blocks_by_height s)).*1) as keys. intros keys.
  revert s. induction keys as [|x keys IH]; intros s; [done|]. cbn [foldl].
  eapply same_journal_trans; [|apply IH]. unfold Store.prune_key. by case_match.
Qed.
Lemma wp_finalize hash n :
  node_inv n → rs_height (nd_state n) + 1 ≤ U64_MAX → 
  keeps (Consensus.finalize default_scheme self scheme hash) n (proceeds n).
Proof.
  intros Hi Hmax. unfold Consensus.finalize.
  pose proof (or_introl (stays_refl n Hi) : proceeds n n) as P0.
  apply wp_bind, wp_get_state, wp_bind, wp_lift; [intros block _|done].
  case_bool_decide; [by apply wp_ret|].
  apply wp_bind, wp_get_store, wp_bind, wp_lift; [intros [] _|done].
  apply wp_bind, wp_on_store.
  { intros s. apply err_into_journal, execute_block_journal. }
  2:{ intros n1 Hq. left. by apply quiet_stays. }
  intros executed n1 _ Hq. pose proof (quiet_stays _ _ Hq Hi) as S1. clear Hq. unfold Consensus.conclude.
  apply wp_bind, wp_append_neutral; [done|apply S1|]. intros n2 S2' _ _.
  assert (stays n n2) as S2 by (by eapply stays_trans). clear S2'.
  apply wp_bind, wp_modify_journal; [apply commit_journal|]. intros n3 Hq.
  assert (stays n n3) as S3 by (eapply stays_trans; [exact S2 | apply quiet_stays; [done|apply S2]]).
  clear Hq. apply wp_bind, wp_apply_pending_evidence; [apply S3| |];
    intros n4 S4'; assert (stays n n4) as S4 by (by eapply stays_trans); clear S4'; [|by left].
  apply wp_bind, wp_modify. set (n5 := upd_nd_mempool _ n4).
  assert (stays n n5) as S5 by (eapply stays_trans; [exact S4 | apply quiet_stays; [done|apply S4]]).
  apply wp_bind, wp_broadcast_other; [done|apply S5| |by left].
  intros n6 S6' _ _. assert (stays n n6) as S6 by (by eapply stays_trans). clear S6'.
  apply wp_bind. apply (wp_mono _ _ (λ _, stays n) _ (λ _, False) _); [|intros _ n7 S7|done].
  { destruct (10 <? rs_height (nd_state n)) eqn:H10; [|by apply wp_ret].
    apply Z.ltb_lt in H10. apply wp_modify. destruct S6 as ([Hr Hs Hd] & Eh & Er).
    split; [|done]. split; [done..|]. apply durable_compact; [|done].
    cbn. rewrite Eh. ulia. }
  apply wp_bind. apply (wp_mono _ _ (λ _, stays n) _ (λ _, False) _); [|intros _ n8 S8|done].
  { destruct (1000 <? rs_height (nd_state n)); [|by apply wp_ret].
    apply wp_modify_journal; [apply prune_journal|]. intros n8 Hq.
    eapply stays_trans; [exact S7|]. apply quiet_stays; [done|apply S7]. }
  destruct S8 as (Hi8 & Eh8 & Er8).
  assert (wrapping U64_MAX (rs_height (nd_state n) + 1) = rs_height (nd_state n) + 1) as ->.
  { apply wrapping_small. split; [|done].
    pose proof (proj1 (ri_round _ (ni_round _ Hi))). lia. }
  eapply keeps_mono; [apply advance_height_inv; [done|lia]|]. intros n'; by right.
Qed.

Lemma wp_handle_vote_actions v n :
  node_inv n → rs_height (nd_state n) + 1 ≤ U64_MAX →
  keeps (Consensus.handle_vote_actions default_scheme self scheme v) n (proceeds n).
Proof.
  intros Hi Hmax. unfold Consensus.handle_vote_actions. apply wp_bind.
  eapply wp_mono; [by apply wp_record_vote| |intros; by left].
  intros [pre fin] n1 S1. apply wp_bind.
  apply (wp_mono _ _ (λ _, stays n) _ (stays n) _); [| |intros; by left].
  - destruct pre as [hash|]; [|by apply wp_ret]. apply wp_bind.
    eapply wp_mono; [apply wp_emit_precommit, S1| |intros; by eapply stays_trans].
    intros [w|] n2 S2; [|apply wp_ret; by eapply stays_trans].
    apply wp_bind. eapply wp_mono; [apply wp_record_vote, S2| |];
      [intros [? fin2] n3 S3; apply wp_ret | intros n3 S3];
      (eapply stays_trans; [exact S1|]; by eapply stays_trans).
  - intros [hash|] n2 S2; [|by apply wp_ret; left].
    eapply keeps_mono; [apply wp_finalize; [apply S2|]|];
      [by destruct S2 as (_ & -> & _) | intros n3; by apply stays_proceeds].
Qed.
Lemma wp_vote_on_proposal n :
  node_inv n → rs_height (nd_state n) + 1 ≤ U64_MAX →
  keeps (Consensus.vote_on_proposal default_scheme self scheme) n (proceeds n).
Proof.
  intros Hi Hmax. unfold Consensus.vote_on_proposal. apply wp_bind.
  eapply wp_mono; [by apply wp_emit_prevote| |intros; by left].
  intros [v|] n1 S1; [|by apply wp_ret; left].
  eapply keeps_mono; [apply wp_handle_vote_actions; [apply S1|]|];
    [by destruct S1 as (_ & -> & _) | intros n3; by apply stays_proceeds].
Qed.

(** *** External blocks *)
Definition imports (h : Z) (n n' : Node) : Prop := stays n n' ∨ at_new_height h n'.
Lemma certificate_height block certificate store :
  Consensus.validate_commit_certificate self scheme block certificate store = Ok () →
  cc_height certificate = bh_height (bk_header block).
Proof.
  unfold Consensus.validate_commit_certificate. intros Hrun. run_ok Hrun. by to_prop.
Qed.
Lemma wp_import finalized n :
  node_inv n → bh_height (bk_header (fb_block finalized)) + 1 ≤ U64_MAX →
  keeps (Consensus.import_external_finalized_block default_scheme self scheme finalized) n
    (imports (bh_height (bk_header (fb_block finalized)) + 1) n).
Proof.
  intros Hi Hmax. unfold Consensus.import_external_finalized_block.
  assert (imports (bh_height (bk_header (fb_block finalized)) + 1) n n) as I0 by (left; by apply stays_refl).
  apply wp_bind, wp_get_state.
  destruct (Z.ltb_spec (cc_height (fb_certificate finalized)) (rs_height (nd_state n))) as [|Hge];
    [by apply wp_ret|].
  apply wp_bind, wp_get_store, wp_bind, wp_lift; [intros [] Hcert|done].
  apply certificate_height in Hcert.
  apply wp_bind, wp_append_neutral; [done..|]. intros n1 S1 _ _.
  apply wp_bind, wp_on_store.
  { intros s. apply err_into_journal, validate_and_commit_journal. }
  2:{ intros n2 Hq. left. eapply stays_trans; [exact S1|]. apply quiet_stays; [done|apply S1]. }
  intros [] n2 _ Hq.
  assert (stays n n2) as S2 by (eapply stays_trans; [exact S1|]; apply quiet_stays; [done|apply S1]).
  apply wp_bind, wp_modify. set (n3 := upd_nd_mempool _ n2).
  assert (stays n n3) as S3 by (eapply stays_trans; [exact S2 | apply quiet_stays; [done|apply S2]]).
  pose proof (proj1 (ri_round _ (ni_round _ Hi))).
  rewrite wrapping_small by ulia. destruct S3 as (Hi3 & Eh3 & _).
  eapply keeps_mono; [apply advance_height_inv; [done|lia]|]. intros n'; by right.
Qed.

(** *** Proposals *)
Lemma wp_on_proposal p n :
  node_inv n → rs_height (nd_state n) + 1 ≤ U64_MAX →
  keeps (Consensus.on_proposal default_scheme self scheme p) n (proceeds n).
Proof.
  intros Hi Hmax. unfold Consensus.on_proposal.
  pose proof (or_introl (stays_refl n Hi) : proceeds n n) as P0.
  apply wp_bind, wp_get_store, wp_bind, wp_lift; [intros [] Hval|done].
  apply wp_bind, wp_get_state.
  destruct (negb _ || negb _) eqn:Hcur; [by apply wp_ret|].
  apply orb_false_iff in Hcur as [Hh%negb_false_iff%Z.eqb_eq Hr%negb_false_iff%Z.eqb_eq].
  destruct (rs_proposal (nd_state n)) as [existing|] eqn:Hp.
  - case_bool_decide; [|by apply wp_ret]. unfold Consensus.accuse_proposer.
    apply wp_bind, wp_get_state. case_bool_decide; [by apply wp_ret|].
    apply wp_bind, wp_append_neutral; [done..|]. intros n1 S1 _ _.
    apply wp_benign; [|apply S1|].
    + split_and!; try done. intros; by left.
    + intros S2. left. by eapply stays_trans.
  - apply wp_bind, wp_append_neutral; [done..|]. intros n1 S1 E1 _.
    apply wp_bind, wp_benign; [|apply S1|].
    + split_and!; try done. cbn. intros b [= <-]. right. rewrite E1.
      unfold Consensus.validate_incoming_proposal in Hval.
      apply res_bind_ok in Hval as (expected & _ & Hval). run_ok Hval. to_prop. split; congruence.
    + intros S2. assert (stays n (upd_nd_state (upd_rs_proposal (λ _, Some (pr_block p))) n1)) as S3
        by (by eapply stays_trans).
      eapply keeps_mono; [apply wp_vote_on_proposal; [apply S3|]|];
    [by destruct S3 as (_ & -> & _) | intros n3; by apply stays_proceeds].
Qed.
Lemma wp_maybe_propose now_ms n :
  node_inv n → rs_height (nd_state n) + 1 ≤ U64_MAX →
  keeps (Consensus.maybe_propose default_scheme self scheme iteration now_ms) n (proceeds n).
Proof.
  intros Hi Hmax. unfold Consensus.maybe_propose.
  pose proof (or_introl (stays_refl n Hi) : proceeds n n) as P0.
  destruct (ce_local_validator self) as [local|]; [|by apply wp_ret].
  apply wp_bind, wp_get_store. destruct (negb _); [by apply wp_ret|].
  apply wp_bind, wp_get_state, wp_bind, wp_lift; [intros proposer Hprop|done].
  repeat (case_bool_decide; [by apply wp_ret|]).
  destruct (_ <=? _); [by apply wp_ret|].
  apply wp_bind, wp_modify. set (n1 := upd_nd_store _ n).
  assert (stays n n1) as S1 by (by apply quiet_stays).
  apply wp_bind, wp_modify. set (n2 := upd_nd_mempool _ n1).
  assert (stays n n2) as S2 by (by apply quiet_stays).
  apply wp_bind, wp_get, wp_bind. unfold Consensus.build_proposal.
  apply wp_bind, wp_on_store.
  { intros s. apply err_into_journal, evm_frame_journal, dry_run_frame. }
  2:{ intros n3 Hq. left. eapply stays_trans; [exact S2|]. apply quiet_stays; [done|apply S2]. }
  intros [state_after receipts] n3 _ Hq.
  assert (stays n n3) as S3 by (eapply stays_trans; [exact S2|]; apply quiet_stays; [done|apply S2]).
  assert (nd_state n3 = nd_state n) as E3 by (by destruct Hq as (-> & _)). clear Hq.
  apply wp_bind, wp_get_store, wp_lift; [intros block Hsign|by left].
  apply (proj1 (map_err_ok _ _ _)) in Hsign.
  destruct (_ <? _); [by apply wp_ret; left|]. unfold Consensus.announce.
  apply wp_bind, wp_note_liveness; intros n4 Hq;
    (assert (stays n n4) as S4 by (eapply stays_trans; [exact S3|]; apply quiet_stays; [done|apply S3]));
    [|by left].
  assert (nd_state n4 = nd_state n) as E4 by (by destruct Hq as (-> & _)). clear Hq.
  apply wp_bind, wp_append_neutral; [done|apply S4|]. intros n5 S5' E5 _.
  assert (stays n n5) as S5 by (by eapply stays_trans). clear S5'.
  apply wp_bind, wp_benign; [|apply S5|].
  { split_and!; try done. cbn. intros b [= <-]. right.
    rewrite E5, E4. unfold sign_block in Hsign. apply res_bind_ok in Hsign as (bs & _ & Hsign).
    apply res_bind_ok in Hsign as (sg & _ & [= <-]). done. }
  intros S6'. set (n6 := upd_nd_state _ n5) in *.
  assert (stays n n6) as S6 by (by eapply stays_trans). clear S6'.
  apply wp_bind, wp_append_neutral; [done|apply S6|]. intros n7 S7' _ _.
  assert (stays n n7) as S7 by (by eapply stays_trans). clear S7'.
  apply wp_bind, wp_broadcast_other; [done|apply S7| |by left]. intros n8 S8' _ _.
  assert (stays n n8) as S8 by (by eapply stays_trans). clear S8'.
  eapply keeps_mono; [apply wp_vote_on_proposal; [apply S8|]|];
    [by destruct S8 as (_ & -> & _) | intros n9; by apply stays_proceeds].
Qed.

(** *** Events *)
Lemma keeps_logged m n (P : Node → Prop) : keeps m n P → keeps (Consensus.logged m) n P.
Proof. unfold wp, Consensus.logged. by destruct (m n) as [[a|e|] n']. Qed.
(** Room for the counters: no event here wraps a height or a round. *)
Definition roomy (event : Event) (n : Node) : Prop :=
  rs_height (nd_state n) + 2 ≤ U64_MAX ∧ rs_round (nd_state n) + 1 ≤ U32_MAX ∧
  match event with
  | Inbound (MsgCommit f) => bh_height (bk_header (fb_block f)) + 1 ≤ U64_MAX
  | _ => True
  end.
Lemma proceeds_inv n n' : proceeds n n' → node_inv n'.
Proof. by intros [[? _]|[? _]]. Qed.
Lemma wp_on_event event n :
  node_inv n → roomy event n →
  keeps (Consensus.on_event default_scheme self scheme iteration event) n node_inv.
Proof.
  intros Hi (Hh & Hr & He). assert (rs_height (nd_state n) + 1 ≤ U64_MAX) as H1' by lia.
  unfold Consensus.on_event. destruct event as [[]|now_ms]; try by apply wp_ret.
  - apply keeps_logged. eapply keeps_mono; [by apply wp_on_proposal | apply proceeds_inv].
  - apply keeps_logged. eapply keeps_mono; [by apply wp_handle_vote_actions | apply proceeds_inv].
  - apply keeps_logged. eapply keeps_mono; [by apply wp_import|]. by intros n' [[? _]|[? _]].
  - apply wp_bind. eapply wp_mono; [by apply wp_vote_on_proposal| |apply proceeds_inv].
    intros [] n1 P1. apply wp_bind.
    assert (node_inv n1 ∧ rs_height (nd_state n1) ≤ rs_height (nd_state n) + 1 ∧
      rs_round (nd_state n1) + 1 ≤ U32_MAX) as (Hi1 & Hh1 & Hr1).
    { destruct P1 as [(? & -> & ->)|(? & -> & ->)]; split_and!; done || lia. }
    eapply wp_mono; [by apply advance_round_inv| |by intros n2 (? & _)].
    intros [] n2 (Hi2 & Hh2 & _).
    eapply keeps_mono; [apply wp_maybe_propose; [done|lia] | apply proceeds_inv].
Qed.

(** *** Starting up *)

(** The node of a new process on a store. *)
Definition boot (store : MemoryInner) (pool : Inner) (up : bool) : Node :=
  {| nd_state := Consensus.recovered_state store; nd_store := store; nd_mempool := pool;
     nd_outbox := []; nd_network_up := up |}.
(** What recovery must find in the journal of the store. *)
Record recoverable (store : MemoryInner) : Prop := {
  rc_entries : Forall (entry_before (rs_height (Consensus.recovered_state store))
    (rs_round (Consensus.recovered_state store))) (ms_consensus_wal store);
  rc_lock : let st := Consensus.recovered_state store in
    rs_locked_round st = fst <$> lock_at (rs_height st) (ms_consensus_wal store) ∧
    rs_locked_block st = snd <$> lock_at (rs_height st) (ms_consensus_wal store);
  rc_polka : let st := Consensus.recovered_state store in
    rs_valid_round st = fst <$> polka_at (rs_height st) (ms_consensus_wal store) ∧
    rs_valid_block st = snd <$> polka_at (rs_height st) (ms_consensus_wal store);
  rc_valid : let st := Consensus.recovered_state store in
    rs_valid_round st = rs_locked_round st ∧ rs_valid_block st = rs_locked_block st;
  rc_lock_round r : let st := Consensus.recovered_state store in
    rs_locked_round st = Some r → r ≤ rs_round st;
  rc_point : 0 ≤ rs_height (Consensus.recovered_state store) ∧
    0 ≤ rs_round (Consensus.recovered_state store)
}.
(** The node once it has stored where it starts. *)
Definition booted (store : MemoryInner) (pool : Inner) (up : bool) : Node :=
  let st := Consensus.recovered_state store in
  upd_nd_store (λ s, Store.append_consensus_wal (SnapshotPersisted (rs_height st) (rs_round st))
    (Store.put_consensus_snapshot (Consensus.snapshot_of st) s)) (boot store pool up).
Lemma booted_inv store pool up : recoverable store → node_inv (booted store pool up).
Proof.
  intros [Hall [L1 L2] [P1 P2] [V1 V2] LR [Hh0 R0]]. set (st := Consensus.recovered_state store) in *.
  split; cbn; fold st.
  - apply fresh_round_inv; try done.
    by rewrite L1, L2, !fmap_is_Some.
  - split; cbn; constructor.
  - split; [done| |unfold lock_at in *; by rewrite last_omap_snoc
      |unfold polka_at in *; by rewrite last_omap_snoc].
    apply Forall_app; split; [done|]. constructor; [|done]. cbn. lia.
Qed.
Lemma start_inv store pool up now_ms :
  recoverable store → rs_height (Consensus.recovered_state store) + 1 ≤ U64_MAX →
  keeps (Consensus.start default_scheme self scheme iteration now_ms) (boot store pool up) node_inv.
Proof.
  intros Hrc Hmax. apply wp_bind.
  apply (wp_ok _ _ tt (booted store pool up)); [reflexivity|].
  eapply keeps_mono; [by apply wp_maybe_propose; [apply booted_inv|] | apply proceeds_inv].
Qed.

(** What a restart finds: the same round with the same lock, or a later height. *)
Definition recovered_well (st st' : RoundState) : Prop :=
  same_lock st st' ∨
  (rs_height st < rs_height st' ∧ rs_round st' = 0 ∧ rs_locked_block st' = None ∧
   rs_locked_round st' = None).
Lemma restart_recovers n :
  node_inv n →
  recovered_well (nd_state n) (Consensus.recovered_state (nd_store n)) ∧ recoverable (nd_store n).
Proof.
  intros [[V L LR [Hh0 R0] _ _ _ _] _ [Hs Hall Hl Hp]].
  pose proof (recover_recovers _ _ _ Hall) as Hrec.
  assert (Consensus.initial_snapshot (nd_store n) =
    {| sn_height := rs_height (nd_state n); sn_round := rs_round (nd_state n) |}) as Hsn.
  { unfold Consensus.initial_snapshot, Store.get_consensus_snapshot. by rewrite Hs. }
  set (st' := Consensus.recovered_state (nd_store n)).
  assert ((rs_height (nd_state n) < rs_height st' ∧ rs_round st' = 0 ∧ rs_locked_round st' = None ∧
      rs_locked_block st' = None ∧ rs_valid_round st' = None ∧ rs_valid_block st' = None) ∨
    same_lock (nd_state n) st') as Hst.
  { unfold st', Consensus.recovered_state, Store.load_consensus_wal. rewrite Hsn.
    destruct Hrec as [Hrec|(E & E1 & E2 & E3 & E4)]; [by left|right].
    split_and!; cbn; rewrite ?E, ?E1, ?E2, ?E3, ?E4; cbn; destruct Hl, Hp; done. }
  split.
  - destruct Hst as [(? & ? & ? & ? & _)|?]; [right; done|by left].
  - destruct Hst as [(Hh & Hr & E1 & E2 & E3 & E4)|
      (Eh & Er & E1 & E2 & E3 & E4)].
    + destruct (lock_at_above _ _ _ _ Hall Hh) as [N1 N2].
      split; fold st'; cbv zeta; rewrite ?E1, ?E2, ?E3, ?E4, ?N1, ?N2, ?Hr; try done; [|lia].
      eapply Forall_impl; [exact Hall|]. intros e. apply entry_before_mono. lia.
    + split; fold st'; cbv zeta; rewrite ?Eh, ?Er, ?E1, ?E2, ?E3, ?E4; done.
Qed.

Lemma keeps_inv {A} (m : eff Node ConsensusError A) n r n' (P : Node → Prop) :
  keeps m n P → m n = (r, n') → P n'.
Proof. intros Hk E. apply keeps_run in Hk. by rewrite E in Hk. Qed.
End invariant.
