(* ===== verification/Certificates.v ===== *)
(** Commit certificates: what [validate_commit_certificate] accepts, and what two accepted
    certificates for different blocks prove about the validators that signed them. *)

From S2P Require Import Prelude Types Codec Hash Crypto Wire Primitives Storage Smt Staking.
From S2P Require Import Mempool Zk Evm Execution Rounds Consensus.

Section certificates.
Context `{HashBackend, HexEncode, ChainCodec} (self : ConsensusEngine) (scheme : SignatureScheme).
Implicit Types (store : MemoryInner) (certificate : CommitCertificate) (vote : Vote).

(** A vote that counts for a certificate. *)
Record supports certificate vote : Prop := {
  su_signed : verify_vote scheme vote = Ok ();
  su_height : vt_height vote = cc_height certificate;
  su_round : vt_round vote = cc_round certificate;
  su_step : vt_step vote = Precommit;
  su_hash : vt_block_hash vote = cc_block_hash certificate
}.
Definition signers certificate : gset Address :=
  list_to_set (vt_validator_address <$> cc_votes certificate).
Lemma elem_of_signers certificate a :
  a ∈ signers certificate ↔ ∃ vote, vote ∈ cc_votes certificate ∧ vt_validator_address vote = a.
Proof. unfold signers. rewrite elem_of_list_to_set, list_elem_of_fmap. naive_solver. Qed.

Lemma check_votes_ok certificate votes unique unique' :
  Consensus.check_votes scheme certificate votes unique = Ok unique' ↔
  Forall (supports certificate) votes ∧
  unique' = list_to_set (vt_validator_address <$> votes) ∪ unique.
Proof.
  revert unique. induction votes as [|vote votes IH]; intros unique; cbn [Consensus.check_votes].
  - split; [intros [= <-]; split; [done|set_solver] | intros [_ ->]; f_equal; set_solver].
  - rewrite Forall_cons. split.
    + intros Hrun. run_ok Hrun. to_prop. apply IH in Hrun as [Hall ->].
      match goal with Hv : map_err _ _ = Ok ?u |- _ => apply (proj1 (map_err_ok _ _ _)) in Hv; destruct u end.
      split; [split; [split|]|]; try done. set_solver.
    + intros [[[Hv Hh Hr Hs Hb] Hall] ->]. rewrite Hv, Hh, Hr, Hs, Hb, !Z.eqb_refl.
      rewrite !bool_decide_eq_false_2 by (by intros []). apply IH. split; [done|set_solver].
Qed.
Lemma certificate_ok block certificate store :
  Consensus.validate_commit_certificate self scheme block certificate store = Ok () ↔
  cc_block_hash certificate = Block_hash block ∧
  cc_height certificate = bh_height (bk_header block) ∧
  cc_round certificate = bh_round (bk_header block) ∧
  Forall (supports certificate) (cc_votes certificate) ∧
  (Consensus.quorum self store ≤ size (signers certificate))%nat.
Proof.
  unfold Consensus.validate_commit_certificate. split.
  - intros Hrun. run_ok Hrun. to_prop.
    match goal with Hc : Consensus.check_votes _ _ _ _ = Ok _ |- _ =>
      apply check_votes_ok in Hc as [Hall ->] end.
    unfold signers. rewrite union_empty_r_L in *.
    match goal with Hq : Nat.ltb _ _ = false |- _ => apply Nat.ltb_ge in Hq end. done.
  - intros (Hb & Hh & Hr & Hall & Hq). rewrite Hb, Hh, Hr, !Z.eqb_refl.
    rewrite bool_decide_eq_false_2 by (by intros []). cbn [negb].
    apply res_bind_ok. exists (signers certificate). split.
    + apply check_votes_ok. split; [done | by rewrite union_empty_r_L].
    + by rewrite (proj2 (Nat.ltb_ge _ _) Hq).
Qed.

(** Two sets of quorum size, whose members lie in a set of at most [n] validators or in a
    set of strangers, share more than a third of [n] members, counting the strangers. *)
Lemma quorum_intersection (A B C D : gset Address) (n : nat) :
  A ∪ B ⊆ C ∪ D → (size C ≤ n)%nat → (n * 2 / 3 + 1 ≤ size A)%nat → (n * 2 / 3 + 1 ≤ size B)%nat →
  (n < 3 * (size (A ∩ B) + size D))%nat.
Proof.
  intros Hsub Hn HA HB.
  assert (size (A ∪ B) + size (A ∩ B) = size A + size B)%nat as Hsum.
  { rewrite (size_union_alt A B), (size_difference_alt B A). 
    pose proof (size_union_alt (B ∩ A) B). rewrite (intersection_comm_L A B).
    pose proof (subseteq_size (B ∩ A) B ltac:(set_solver)). lia. }
  assert (size (C ∪ D) ≤ size C + size D)%nat as Hunion.
  { rewrite size_union_alt. pose proof (subseteq_size (D ∖ C) D ltac:(set_solver)). lia. }
  pose proof (subseteq_size _ _ Hsub). pose proof (Nat.div_mod (n * 2) 3 ltac:(lia)).
  pose proof (Nat.mod_upper_bound (n * 2) 3 ltac:(lia)). lia.
Qed.
Definition active_set store : gset Address :=
  list_to_set (vd_address <$> Consensus.active_validators self store).
Lemma size_active_set store : (size (active_set store) ≤ length (Consensus.active_validators self store))%nat.
Proof.
  unfold active_set. rewrite <-(length_fmap vd_address).
  generalize (vd_address <$> Consensus.active_validators self store) as l. intros l.
  induction l as [|a l IH]; cbn; [by rewrite size_empty|].
  rewrite size_union_alt, size_singleton.
  pose proof (subseteq_size (list_to_set l ∖ {[a]}) (list_to_set l : gset Address) ltac:(set_solver)).
  lia.
Qed.
End certificates.

(** A certificate is accepted exactly when it names the block, its height and its
    round, every vote in it is a correctly signed precommit for that block, height and
    round, and its distinct signers reach the quorum of the active validator set; no check
    asks whether a signer belongs to that set. *)
Lemma certificate_exact `{HashBackend, HexEncode, ChainCodec} (self : ConsensusEngine)
    (scheme : SignatureScheme) (block : Block) (certificate : CommitCertificate)
    (store : MemoryInner) :
  Consensus.validate_commit_certificate self scheme block certificate store = Ok () ↔
  cc_block_hash certificate = Block_hash block ∧
  cc_height certificate = bh_height (bk_header block) ∧
  cc_round certificate = bh_round (bk_header block) ∧
  Forall (supports scheme certificate) (cc_votes certificate) ∧
  (Consensus.quorum self store ≤ size (signers certificate))%nat.
Proof. apply certificate_ok. Qed.

(** C2: accountable safety: if two certificates for different blocks are accepted at the
    same height and round, then the addresses that signed a precommit for each of the two
    blocks, which are the pairs of votes that [record_vote] takes as evidence, and the signers
    that are not active validators at all are together more than a third of the number of
    active validators. In particular, when every signer is an active validator, which no
    check of the code asks, more than a third of the active validators signed twice. *)
Theorem certificate_accountability `{HashBackend, HexEncode, ChainCodec}
    (self : ConsensusEngine) (scheme : SignatureScheme) (store : MemoryInner)
    (block1 block2 : Block) (certificate1 certificate2 : CommitCertificate) :
  Consensus.validate_commit_certificate self scheme block1 certificate1 store = Ok () →
  Consensus.validate_commit_certificate self scheme block2 certificate2 store = Ok () →
  cc_height certificate1 = cc_height certificate2 →
  cc_round certificate1 = cc_round certificate2 →
  Block_hash block1 ≠ Block_hash block2 →
  let n := length (Consensus.active_validators self store) in
  let double := signers certificate1 ∩ signers certificate2 in
  let strangers := (signers certificate1 ∪ signers certificate2) ∖ active_set self store in
  (n < 3 * (size double + size strangers))%nat ∧
  (∀ a, a ∈ double → ∃ v w,
     v ∈ cc_votes certificate1 ∧ w ∈ cc_votes certificate2 ∧
     vt_validator_address v = a ∧ vt_validator_address w = a ∧
     verify_vote scheme v = Ok () ∧ verify_vote scheme w = Ok () ∧
     Consensus.conflicts w v = true) ∧
  (strangers = ∅ → (n < 3 * size double)%nat ∧ double ⊆ active_set self store).
Proof.
  intros (Hb1 & _ & _ & Hall1 & Hq1)%certificate_ok (Hb2 & _ & _ & Hall2 & Hq2)%certificate_ok
    Hh Hr Hne n double strangers.
  assert (n < 3 * (size double + size strangers))%nat as Hcount.
  { eapply (quorum_intersection _ _ (active_set self store));
      [|apply size_active_set|exact Hq1|exact Hq2].
    intros a Ha. destruct (decide (a ∈ active_set self store)); set_solver. }
  split_and!; [exact Hcount| |].
  - intros a [(v & Hv & Ev)%elem_of_signers (w & Hw & Ew)%elem_of_signers]%elem_of_intersection.
    rewrite Forall_forall in Hall1, Hall2.
    destruct (Hall1 v Hv) as [Sv H1' H2' H3' H4'], (Hall2 w Hw) as [Sw H5' H6' H7' H8'].
    exists v, w. split_and!; try done. unfold Consensus.conflicts.
    rewrite H1', H2', H3', H4', H5', H6', H7', H8', Hh, Hr, !Z.eqb_refl, Hb1, Hb2, Ev, Ew.
    by rewrite !bool_decide_eq_true_2 by done.
  - intros Hnone. split.
    + rewrite Hnone, size_empty in Hcount. lia.
    + intros a [Ha _]%elem_of_intersection.
      destruct (decide (a ∈ active_set self store)) as [|Hout]; [done|].
      assert (a ∈ strangers) as Hs by (unfold strangers; set_solver). set_solver.
Qed.
