(* ===== verification/ConsensusSafety.v ===== *)
(** The reachable states of the consensus engine, and what its invariant gives: the tallies are authentic, the node
    does not equivocate, a lock binds its votes and survives a restart, and a lock is
    taken only on a quorum. *)

From S2P Require Import Prelude Wp Types Codec Hash Crypto Wire Primitives Storage Smt Staking.
From S2P Require Import Mempool Zk Evm Execution Rounds Durability Consensus ConsensusInv.

Section safety.
Context `{HashBackend, HexEncode, ChainCodec, RevmBackend} (default_scheme : SignatureScheme)
  (self : ConsensusEngine) (scheme : SignatureScheme) (iteration : Inner → list Transaction).

(** ** Reachable states *)

(** A store without a journal: a new chain, or one restored from blocks. *)
Definition unjournaled (store : MemoryInner) : Prop :=
  ms_snapshot store = None ∧ ms_consensus_wal store = [].
Lemma unjournaled_recoverable store :
  unjournaled store → 0 ≤ rs_height (Consensus.recovered_state store) → recoverable store.
Proof.
  intros [Hsn Hwal] Hh. split; cbv zeta; rewrite ?Hwal; try done;
    unfold Consensus.recovered_state, Store.load_consensus_wal in *; rewrite Hwal in *; try done.
  split; [exact Hh|]. cbn. unfold Consensus.initial_snapshot, Store.get_consensus_snapshot. by rewrite Hsn.
Qed.
(** The states of a node, over any sequence of events and restarts. *)
Inductive reachable : Node → Prop :=
  | reach_start store pool up now_ms n r :
      unjournaled store → 0 ≤ rs_height (Consensus.recovered_state store) →
      rs_height (Consensus.recovered_state store) + 1 ≤ U64_MAX →
      Consensus.start default_scheme self scheme iteration now_ms (boot store pool up) = (r, n) →
      reachable n
  | reach_event event n n' r :
      reachable n → roomy event n →
      Consensus.on_event default_scheme self scheme iteration event n = (r, n') → reachable n'
  | reach_restart pool up now_ms n n' r :
      reachable n → rs_height (Consensus.recovered_state (nd_store n)) + 1 ≤ U64_MAX →
      Consensus.start default_scheme self scheme iteration now_ms (boot (nd_store n) pool up) = (r, n') →
      reachable n'.
Lemma reachable_inv n : reachable n → node_inv scheme n.
Proof.
  induction 1 as [store pool up now_ms n r Hun Hh0 Hmax Hrun
    |event n n' r _ IH Hroom Hrun|pool up now_ms n n' r _ IH Hmax Hrun].
  - eapply keeps_inv; [|exact Hrun].
    by apply (start_inv default_scheme self scheme iteration); [apply unjournaled_recoverable|].
  - eapply keeps_inv; [exact (wp_on_event default_scheme self scheme iteration event n IH Hroom) | exact Hrun].
  - eapply keeps_inv; [|exact Hrun].
    apply (start_inv default_scheme self scheme iteration); [|done]. exact (proj2 (restart_recovers scheme n IH)).
Qed.

(** ** Sent votes *)
Lemma omap_lookup_NoDup {A B} (f : A → option B) (l : list A) i j x y b :
  NoDup (omap f l) → l !! i = Some x → l !! j = Some y → f x = Some b → f y = Some b → i = j.
Proof.
  revert i j. induction l as [|z l IH]; intros i j Hnd Hi Hj Hx Hy; [done|].
  assert (∀ k w, l !! k = Some w → f w = Some b → b ∈ omap f l) as Hin.
  { intros k w Hk%list_elem_of_lookup_2 Hw. apply list_elem_of_omap. eauto. }
  cbn in Hnd. destruct i as [|i], j as [|j]; simplify_eq/=; [done|..].
  - rewrite Hx in Hnd. apply NoDup_cons in Hnd as [Hni _]. by destruct Hni; eapply Hin.
  - rewrite Hy in Hnd. apply NoDup_cons in Hnd as [Hni _]. by destruct Hni; eapply Hin.
  - f_equal. eapply IH; try done. destruct (f z); [by apply NoDup_cons in Hnd as [_ ?] | done].
Qed.

(** ** Locks *)
Lemma prevote_choice_locked st b :
  round_inv scheme st → rs_locked_block st = Some b →
  Consensus.prevote_choice st = Block_hash b ∨ Consensus.prevote_choice st = NIL_HASH.
Proof.
  intros Hi Hl. destruct (ri_valid _ _ Hi) as [_ Hv]. unfold Consensus.prevote_choice.
  rewrite Hv, Hl. destruct (rs_proposal st) as [p|]; [|by right].
  case_bool_decide as Hp; [by left|]. cbn. rewrite bool_decide_eq_false_2 by done. by right.
Qed.
Lemma cast_hash local st step hash mark n v n' :
  Consensus.cast self scheme local st step hash mark n = (Ok (Some v), n') →
  vt_block_hash v = hash ∧ vt_step v = step ∧ vt_height v = rs_height st ∧ vt_round v = rs_round st.
Proof.
  unfold Consensus.cast. intros Hrun.
  apply eff_bind_inv_ok in Hrun as (v0 & n0 & Hsign & Hrun).
  repeat (apply eff_bind_inv_ok in Hrun as (? & ? & _ & Hrun)).
  unfold mret, eff_ret in Hrun. simplify_eq.
  unfold eff_lift in Hsign. injection Hsign as Hsign _. apply (proj1 (map_err_ok _ _ _)) in Hsign.
  unfold sign_vote in Hsign. apply res_bind_ok in Hsign as (bs & _ & Hsign).
  by apply res_bind_ok in Hsign as (sg & _ & [= <-]).
Qed.
Lemma emit_prevote_hash n v n' :
  Consensus.emit_prevote self scheme n = (Ok (Some v), n') →
  vt_block_hash v = Consensus.prevote_choice (nd_state n) ∧ vt_step v = Prevote ∧
  vt_height v = rs_height (nd_state n) ∧ vt_round v = rs_round (nd_state n).
Proof.
  unfold Consensus.emit_prevote. destruct (ce_local_validator self) as [local|]; [|done].
  unfold mbind at 1, eff_bind at 1, Consensus.get_store.
  destruct (negb _); [done|]. unfold mbind, eff_bind, Consensus.get_state.
  destruct (rs_prevoted _); [done|]. apply cast_hash.
Qed.

(** The quorum depends on the ledger only. *)
Lemma ledger_neutral e s : Consensus.quorum self (Store.append_consensus_wal e s) = Consensus.quorum self s.
Proof. done. Qed.
(** What a vote can do to the lock. *)
Definition locks_on (n n' : Node) : Prop :=
  rs_locked_block (nd_state n') = rs_locked_block (nd_state n) ∨
  ∃ block (backers : gset Address),
    rs_proposal (nd_state n) = Some block ∧ rs_locked_block (nd_state n') = Some block ∧
    rs_locked_round (nd_state n') = Some (rs_round (nd_state n)) ∧
    (Consensus.quorum self (nd_store n') ≤ size backers)%nat ∧
    ∀ a, a ∈ backers → ∃ w, w ∈ rs_votes (nd_state n') ∧ vt_step w = Prevote ∧
      vt_block_hash w = Block_hash block ∧ vt_validator_address w = a ∧
      verify_vote scheme w = Ok ().
Lemma locks_on_same n n' : nd_state n' = nd_state n → locks_on n n'.
Proof. intros E. left. by rewrite E. Qed.
Lemma wp_observe_polka v n (Q : () → Node → Prop) X :
  (rs_locked_block (nd_state n) = rs_locked_block (nd_state n) → Q tt n) →
  (∀ block n', rs_proposal (nd_state n) = Some block → Block_hash block = vt_block_hash v →
    rs_locked_block (nd_state n') = Some block → rs_locked_round (nd_state n') = Some (vt_round v) →
    rs_votes (nd_state n') = rs_votes (nd_state n) →
    Consensus.quorum self (nd_store n') = Consensus.quorum self (nd_store n) → Q tt n') →
  wp (Consensus.observe_polka v) n Q X.
Proof.
  intros Hsame Hlock. unfold Consensus.observe_polka. apply wp_bind, wp_get_state.
  case_bool_decide; [by apply wp_ret, Hsame|].
  destruct (rs_proposal (nd_state n)) as [block|] eqn:Hp; [|by apply wp_ret, Hsame].
  case_bool_decide as Hb; [by apply wp_ret, Hsame|].
  apply wp_bind, wp_modify, wp_bind, wp_modify, wp_bind, wp_modify, wp_modify.
  by eapply Hlock.
Qed.
Lemma record_vote_locks v n :
  node_inv scheme n →
  wp (Consensus.record_vote self scheme v) n (λ _, locks_on n) (locks_on n).
Proof.
  intros Hi. unfold Consensus.record_vote.
  apply wp_bind, wp_lift; [intros [] Hv|by left]. apply (proj1 (map_err_ok _ _ _)) in Hv.
  apply wp_bind, wp_note_liveness; intros n1 (E1 & _); [|by apply locks_on_same].
  apply wp_bind, wp_get_state. rewrite E1.
  destruct (negb _ || negb _) eqn:Hcur; [by apply wp_ret, locks_on_same|].
  apply orb_false_iff in Hcur as [Hh%negb_false_iff%Z.eqb_eq Hr%negb_false_iff%Z.eqb_eq].
  destruct (existsb _ _) eqn:Hc.
  { apply wp_bind, wp_modify, wp_bind, wp_modify, wp_ret. left. cbn. rewrite E1.
    unfold Consensus.accuse. by case_bool_decide. }
  apply wp_bind, wp_modify, wp_bind, wp_modify, wp_bind, wp_get_state, wp_bind, wp_get_store.
  set (n3 := upd_nd_state (Consensus.count_vote v) _).
  destruct (count_vote_frame v (nd_state n)) as ((_ & _ & L1 & L2 & _) & Ev & Ep & _).
  assert (nd_state n3 = Consensus.count_vote v (nd_state n)) as E3 by (by cbn; rewrite E1).
  assert (rs_locked_block (nd_state n3) = rs_locked_block (nd_state n)) as EL by (by rewrite E3).
  destruct (vt_step v) eqn:Es; [|by apply wp_ret; left].
  destruct (Nat.leb _ _) eqn:Hq; [|by apply wp_ret; left]. apply Nat.leb_le in Hq.
  apply wp_bind, wp_observe_polka; [by intros _; apply wp_ret; left|].
  intros block n4 Hp Hb Hl Hlr Hvs Hqs. apply wp_ret. right.
  exists block, (default ∅ (ballots Prevote (Consensus.count_vote v (nd_state n)) !! vt_block_hash v)).
  rewrite E3, Ep in Hp. split_and!; [done|done|by rewrite Hlr, Hr| |].
  - rewrite Hqs. unfold Consensus.vote_count in Hq. rewrite Es, E3 in Hq. exact Hq.
  - intros a Ha. pose proof (count_vote_inv scheme v (nd_state n) (ni_round _ _ Hi) Hh Hr Hv Hc) as Hinv.
    apply (ri_ballots _ _ Hinv) in Ha as (w & Hw & Hs & Hwb & <-).
    exists w. rewrite Hvs, E3. split_and!; try done; [by rewrite Hb|].
    by apply (ri_votes _ _ Hinv).
Qed.
End safety.

(** C7: in every reachable state the tallies are exactly the votes received for the
    current height and round: an address is counted for a block in a step when a correctly
    signed vote of it for that block is stored, and it is counted for one block only. *)
Theorem tallies_authentic `{HashBackend, HexEncode, ChainCodec, RevmBackend}
    (default_scheme : SignatureScheme) (self : ConsensusEngine) (scheme : SignatureScheme)
    (iteration : Inner → list Transaction) (n : Node) :
  reachable default_scheme self scheme iteration n →
  (∀ step h a, a ∈ default ∅ (ballots step (nd_state n) !! h) ↔
    ∃ v, v ∈ rs_votes (nd_state n) ∧ vt_step v = step ∧ vt_block_hash v = h ∧
      vt_validator_address v = a ∧ vt_height v = rs_height (nd_state n) ∧
      vt_round v = rs_round (nd_state n) ∧ verify_vote scheme v = Ok ()) ∧
  (∀ step h1 h2 a, a ∈ default ∅ (ballots step (nd_state n) !! h1) →
    a ∈ default ∅ (ballots step (nd_state n) !! h2) → h1 = h2).
Proof.
  intros [[_ _ _ _ VO ON BA _] _ _]%reachable_inv. split.
  - intros step h a. rewrite BA. split; [|naive_solver].
    intros (v & Hv & ? & ? & ?). destruct (VO v Hv) as (? & ? & ?). eauto 10.
  - intros step h1 h2 a (v & Hv & Sv & <- & Av)%BA (w & Hw & Sw & <- & Aw)%BA.
    by apply ON; congruence.
Qed.

(** No equivocation: in the life of a process, the node broadcasts at most one vote
    for each step of each round of each height. *)
Lemma no_equivocation `{HashBackend, HexEncode, ChainCodec, RevmBackend}
    (default_scheme : SignatureScheme) (self : ConsensusEngine) (scheme : SignatureScheme)
    (iteration : Inner → list Transaction) (n : Node) (i j : nat) (v w : Vote) :
  reachable default_scheme self scheme iteration n →
  nd_outbox n !! i = Some (MsgVote v) → nd_outbox n !! j = Some (MsgVote w) →
  vt_step v = vt_step w → vt_height v = vt_height w → vt_round v = vt_round w → i = j.
Proof.
  intros [_ [Hnd _] _]%reachable_inv Hi Hj Hs Hh Hr.
  eapply (omap_lookup_NoDup vote_slot); [exact Hnd | exact Hi | exact Hj | done |].
  cbn. by rewrite Hs, Hh, Hr.
Qed.

(** C3: crash recovery: from any reachable state, the round state that a restart rebuilds
    from the stored snapshot and journal is at the same height and round with the same
    lock and the same valid block, or at a later height, round zero, with no lock. *)
Theorem recovery_keeps_lock `{HashBackend, HexEncode, ChainCodec, RevmBackend}
    (default_scheme : SignatureScheme) (self : ConsensusEngine) (scheme : SignatureScheme)
    (iteration : Inner → list Transaction) (n : Node) :
  reachable default_scheme self scheme iteration n →
  recovered_well (nd_state n) (Consensus.recovered_state (nd_store n)).
Proof. 
  intros Hn%reachable_inv. exact (proj1 (restart_recovers scheme n Hn)).
Qed.

(** C4: the lock binds: in a reachable state with a locked block, the prevote the node
    casts, if any, is of the current height and round, and for the locked block or for
    nil, whatever was proposed. *)
Theorem lock_binds_prevote `{HashBackend, HexEncode, ChainCodec, RevmBackend}
    (default_scheme : SignatureScheme) (self : ConsensusEngine) (scheme : SignatureScheme)
    (iteration : Inner → list Transaction) (n n' : Node) (b : Block) (v : Vote) :
  reachable default_scheme self scheme iteration n →
  rs_locked_block (nd_state n) = Some b →
  Consensus.emit_prevote self scheme n = (Ok (Some v), n') →
  (vt_block_hash v = Block_hash b ∨ vt_block_hash v = NIL_HASH) ∧ vt_step v = Prevote ∧
  vt_height v = rs_height (nd_state n) ∧ vt_round v = rs_round (nd_state n).
Proof.
  intros Hn%reachable_inv Hl (Eh & ?)%emit_prevote_hash. split; [|done].
  rewrite Eh. eapply prevote_choice_locked; [apply Hn | exact Hl].
Qed.

(** C5: a lock needs a quorum: when a received vote changes the locked block of a
    reachable state, the new lock is the proposal of the round, and a quorum of distinct
    validators, as many as the active set requires, have each sent a correctly signed
    prevote for it. *)
Theorem lock_needs_quorum `{HashBackend, HexEncode, ChainCodec, RevmBackend}
    (default_scheme : SignatureScheme) (self : ConsensusEngine) (scheme : SignatureScheme)
    (iteration : Inner → list Transaction) (n n' : Node) (v : Vote)
    (r : res ConsensusError (option Hash32 * option Hash32)) :
  reachable default_scheme self scheme iteration n →
  Consensus.record_vote self scheme v n = (r, n') →
  rs_locked_block (nd_state n') ≠ rs_locked_block (nd_state n) →
  ∃ block (backers : gset Address),
    rs_proposal (nd_state n) = Some block ∧ rs_locked_block (nd_state n') = Some block ∧
    rs_locked_round (nd_state n') = Some (rs_round (nd_state n)) ∧
    (Consensus.quorum self (nd_store n') ≤ size backers)%nat ∧
    ∀ a, a ∈ backers → ∃ w, w ∈ rs_votes (nd_state n') ∧ vt_step w = Prevote ∧
      vt_block_hash w = Block_hash block ∧ vt_validator_address w = a ∧
      verify_vote scheme w = Ok ().
Proof.
  intros Hn%reachable_inv Hrun Hne.
  by destruct (keeps_inv _ _ _ _ _ (record_vote_locks self scheme v n Hn) Hrun).
Qed.
