(* ===== verification/ConsensusProgress.v ===== *)
(** How the consensus engine moves on: finalization commits the proposal and opens the next
    height, every timeout leads to a later round, round timeouts are bounded, and the
    check of a proposal agrees with its execution. *)

From S2P Require Import Prelude Wp Types Codec Hash Crypto Wire Primitives Storage Smt Staking.
From S2P Require Import Mempool Zk Evm Execution Rounds Durability Consensus ConsensusInv ConsensusSafety Certificates.

Section finalization.
Context `{HashBackend, HexEncode, ChainCodec, RevmBackend} (default_scheme : SignatureScheme)
  (self : ConsensusEngine) (scheme : SignatureScheme).

(** *** The store after a commit *)
Definition chain_frame (s s' : MemoryInner) : Prop :=
  ms_accounts s' = ms_accounts s ∧ ms_blocks_by_height s' = ms_blocks_by_height s.
Lemma atomic_commit_blocks block accounts s :
  ms_blocks_by_height (Store.atomic_commit_block block accounts s) =
  <[bh_height (bk_header (fb_block block)) := block]> (ms_blocks_by_height s).
Proof.
  unfold Store.atomic_commit_block. by rewrite foldl_put_accounts_eq, foldl_put_receipts_eq.
Qed.
Lemma atomic_commit_accounts block (accounts : Smt.StateSnapshot) s :
  dom (ms_accounts s) ⊆ dom (accounts : gmap Address Account) →
  ms_accounts (Store.atomic_commit_block block accounts s) = accounts.
Proof.
  intros Hd. unfold Store.atomic_commit_block. rewrite foldl_put_receipts_eq. cbn.
  by apply foldl_put_entries.
Qed.
Lemma execute_block_accounts block store executed store' :
  Execution.execute_block default_scheme (ce_execution self) scheme block store = (Ok executed, store') →
  ber_block executed = block ∧ ms_accounts store' = ber_state executed.
Proof.
  unfold Execution.execute_block. intros (pb & store1 & Hpb & Hrun)%eff_bind_inv_ok.
  cbn in Hrun. unfold eff_modify, mbind, eff_bind, mret, eff_ret in Hrun. injection Hrun as <- <-.
  split; [done|]. cbn. pose proof (prepare_block_dom _ _ _ _ _ _ _ Hpb) as Hd.
  pose proof (prepare_block_frame default_scheme (ce_execution self) scheme block store) as [m Hm].
  rewrite Hpb in Hm. cbn in Hm. subst store1.
  unfold Execution.persist_accounting, Smt.persist.
  assert (ms_accounts (foldl (λ s '(address, account), Store.put_account address account s)
    (upd_evm_accounts (λ _, m) store) (entries (pb_state pb : gmap Address Account))) = pb_state pb) as E
    by (by apply foldl_put_entries).
  by destruct (aa_staking _), (aa_governance _), (aa_epoch_transition _).
Qed.
Lemma prune_keeps k h s :
  k ≤ h → ms_blocks_by_height (Store.prune_blocks_below k s).2 !! h = ms_blocks_by_height s !! h.
Proof.
  intros Hk. unfold Store.prune_blocks_below. cbn [snd].
  assert (∀ l s, Forall (λ k0, k0 < k) l →
    ms_blocks_by_height (foldl Store.prune_key s l) !! h = ms_blocks_by_height s !! h) as Hl.
  { clear s. induction l as [|x l IH]; intros s; [done|]. intros [Hx Hl]%Forall_cons. cbn [foldl].
    rewrite IH by done. unfold Store.prune_key. case_match; [|done]. cbn.
    by rewrite lookup_delete_ne by lia. }
  apply Hl, Forall_forall. intros x Hx%list_elem_of_filter. apply Hx.
Qed.
Lemma prune_accounts k s : ms_accounts (Store.prune_blocks_below k s).2 = ms_accounts s.
Proof.
  unfold Store.prune_blocks_below. cbn [snd]. generalize (filter (λ k0, k0 < k) (entries (ms_blocks_by_height s)).*1).
  intros l. revert s. induction l as [|x l IH]; intros s; [done|]. cbn [foldl]. rewrite IH.
  unfold Store.prune_key. by case_match.
Qed.

(** What [finalize] assembles from its state and the executed block. *)
Definition own_certificate (st : RoundState) (hash : Hash32) : CommitCertificate :=
  {| cc_block_hash := hash; cc_height := rs_height st; cc_round := rs_round st;
     cc_votes := Consensus.certificate_votes hash st |}.
Definition own_finalized (st : RoundState) (hash : Hash32) (executed : BlockExecutionResult) :
    FinalizedBlock :=
  {| fb_block := ber_block executed; fb_certificate := own_certificate st hash;
     fb_receipts := ber_receipts executed; fb_epoch_transition := ber_epoch_transition executed |}.
Lemma pending_evidence_run n r n' :
  Consensus.apply_pending_evidence self n = (r, n') →
  nd_state n' = upd_rs_evidence (λ _, []) (nd_state n) ∧ nd_outbox n' = nd_outbox n ∧
  nd_mempool n' = nd_mempool n ∧ nd_network_up n' = nd_network_up n ∧
  chain_frame (nd_store n) (nd_store n').
Proof.
  unfold Consensus.apply_pending_evidence, mbind, eff_bind, Consensus.get_state.
  cbn. case_bool_decide. { by intros [= <- <-]. } unfold Consensus.get_store.
  destruct (Staking.apply_evidence _ _ _) as [[?|?|] staking]; cbn; intros [= <- <-]; by split_and!.
Qed.
Lemma broadcast_run m n n' :
  Consensus.broadcast m n = (Ok tt, n') → n' = upd_nd_outbox (λ o, o ++ [m]) n.
Proof.
  unfold Consensus.broadcast, mbind, eff_bind, eff_get. destruct (nd_network_up n); by intros [= <-].
Qed.
(** The housekeeping of a finalization keeps the accounts and the recent blocks. *)
Definition kept (h : Z) (n n' : Node) : Prop :=
  nd_state n' = nd_state n ∧ nd_outbox n' = nd_outbox n ∧ nd_mempool n' = nd_mempool n ∧
  ms_accounts (nd_store n') = ms_accounts (nd_store n) ∧
  ms_blocks_by_height (nd_store n') !! h = ms_blocks_by_height (nd_store n) !! h.
Lemma compact_run (c : bool) h k n r n' :
  (if c then Consensus.modify_store (λ s, (Store.compact_consensus_wal k s).2)
   else mret tt : eff Node ConsensusError ()) n = (r, n') → kept h n n'.
Proof. by destruct c; intros [= <- <-]. Qed.
Lemma prune_run (c : bool) h k n r n' :
  k ≤ h → (if c then Consensus.modify_store (λ s, (Store.prune_blocks_below k s).2)
   else mret tt : eff Node ConsensusError ()) n = (r, n') → kept h n n'.
Proof.
  intros Hk E. apply (f_equal snd) in E. cbn [snd] in E. subst n'. destruct c; [|done].
  split_and!; try done; [apply prune_accounts | by apply (prune_keeps k h)].
Qed.
Lemma advance_height_state h n r n' :
  Consensus.advance_height h n = (r, n') →
  nd_state n' = Consensus.clear_locks (Consensus.clear_round h 0 (nd_state n)) ∧
  nd_outbox n' = nd_outbox n ∧ nd_mempool n' = nd_mempool n ∧ chain_frame (nd_store n) (nd_store n').
Proof. intros E. apply (f_equal snd) in E. cbn [snd] in E. by subst n'. Qed.

(** The store of a concluded block, and everything else the conclusion changes. *)
Lemma conclude_run st executed finalized n n' :
  in_range U64_MAX (rs_height st + 1) → 0 ≤ rs_height st →
  bh_height (bk_header (fb_block finalized)) = rs_height st →
  ms_accounts (nd_store n) = ber_state executed →
  Consensus.conclude self st executed finalized n = (Ok tt, n') →
  Store.get_block_by_height (rs_height st) (nd_store n') = Some finalized ∧
  Store.accounts (nd_store n') = ber_state executed ∧
  nd_mempool n' = Mempool.remove_committed (bk_transactions (fb_block finalized)) (nd_mempool n) ∧
  nd_outbox n' = nd_outbox n ++ [MsgCommit finalized] ∧
  nd_state n' = Consensus.clear_locks (Consensus.clear_round (rs_height st + 1) 0
    (upd_rs_evidence (λ _, []) (nd_state n))).
Proof.
  intros Hmax Hpos Hbh Hacc Hrun. unfold Consensus.conclude in Hrun.
  apply eff_bind_inv_ok in Hrun as ([] & n2 & [= <-] & Hrun).
  apply eff_bind_inv_ok in Hrun as ([] & n3 & [= <-] & Hrun).
  apply eff_bind_inv_ok in Hrun as ([] & n4 & Hev & Hrun).
  apply pending_evidence_run in Hev as (S4 & O4 & M4 & _ & [A4 B4]).
  apply eff_bind_inv_ok in Hrun as ([] & n5 & [= <-] & Hrun).
  apply eff_bind_inv_ok in Hrun as ([] & n6 & ->%broadcast_run & Hrun).
  apply eff_bind_inv_ok in Hrun as ([] & n7 & Hc & Hrun).
  apply (compact_run _ (rs_height st)) in Hc as (S7 & O7 & M7 & A7 & B7).
  apply eff_bind_inv_ok in Hrun as ([] & n8 & Hpr & Hrun).
  apply (prune_run _ (rs_height st)) in Hpr as (S8 & O8 & M8 & A8 & B8); [|ulia].
  apply advance_height_state in Hrun as (S9 & O9 & M9 & [A9 B9]).
  rewrite wrapping_small in S9 by done. unfold Store.get_block_by_height, Store.accounts.
  rewrite A9, B9, A8, A7, B8, B7, O9, O8, O7, M9, M8, M7, S9, S8, S7.
  cbn [nd_store nd_mempool nd_outbox nd_state upd_nd_outbox upd_nd_mempool].
  rewrite A4, B4, O4, M4, S4. cbn [nd_store upd_nd_store]. unfold Execution.commit_finalized_block.
  split_and!; [| |done..].
  - by rewrite atomic_commit_blocks, Hbh, lookup_insert_eq.
  - apply atomic_commit_accounts. cbn. by rewrite Hacc.
Qed.
End finalization.

(** C6: finalization on success: the proposal is executed, its certificate is made of the
    precommits stored for it and passes the validation that other nodes apply, the block is
    stored at the height with the accounts of its execution, its transactions leave the
    pool, the finalized block is broadcast, and the next height opens at round zero with
    neither proposal, votes nor lock. *)
Theorem finalize_commits `{HashBackend, HexEncode, ChainCodec, RevmBackend}
    (default_scheme : SignatureScheme) (self : ConsensusEngine) (scheme : SignatureScheme)
    (n n' : Node) (block : Block) :
  in_range U64_MAX (rs_height (nd_state n) + 1) → 0 ≤ rs_height (nd_state n) →
  rs_proposal (nd_state n) = Some block →
  Consensus.finalize default_scheme self scheme (Block_hash block) n = (Ok tt, n') →
  ∃ executed store1,
    Execution.execute_block default_scheme (ce_execution self) scheme block (nd_store n) =
      (Ok executed, store1) ∧
    let finalized := own_finalized (nd_state n) (Block_hash block) executed in
    fb_block finalized = block ∧
    Consensus.validate_commit_certificate self scheme block (fb_certificate finalized)
      (nd_store n) = Ok () ∧
    Store.get_block_by_height (rs_height (nd_state n)) (nd_store n') = Some finalized ∧
    Store.accounts (nd_store n') = ber_state executed ∧
    nd_mempool n' = Mempool.remove_committed (bk_transactions block) (nd_mempool n) ∧
    nd_outbox n' = nd_outbox n ++ [MsgCommit finalized] ∧
    nd_state n' = Consensus.clear_locks (Consensus.clear_round (rs_height (nd_state n) + 1) 0
      (upd_rs_evidence (λ _, []) (nd_state n))).
Proof.
  intros Hmax Hpos Hp Hrun. unfold Consensus.finalize in Hrun.
  unfold mbind at 1, eff_bind at 1, Consensus.get_state at 1 in Hrun. rewrite Hp in Hrun.
  unfold mbind at 1, eff_bind at 1, eff_lift at 1 in Hrun. cbn [ok_or] in Hrun.
  rewrite bool_decide_eq_false_2 in Hrun by (by intros []).
  unfold mbind at 1, eff_bind at 1, Consensus.get_store at 1 in Hrun.
  apply eff_bind_inv_ok in Hrun as ([] & n0 & Hcert & Hrun).
  unfold eff_lift in Hcert. injection Hcert as Hcert <-.
  apply eff_bind_inv_ok in Hrun as (executed & n1 & Hexec & Hrun).
  unfold Consensus.on_store, Execution.err_into in Hexec.
  destruct (Execution.execute_block _ _ _ _ _) as [[ex|e|] store1] eqn:Hex; [|done..].
  injection Hexec as -> <-.
  pose proof (execute_block_accounts _ _ _ _ _ _ _ Hex) as [Hb Hacc].
  pose proof (proj1 (proj2 (proj1 (certificate_ok _ _ _ _ _) Hcert))) as Hbh.
  exists executed, store1. split; [done|]. cbn zeta. split; [exact Hb|]. split; [exact Hcert|].
  apply (conclude_run self (nd_state n) executed) in Hrun; [|done|done| |exact Hacc].
  - cbn [fb_block] in Hrun. rewrite Hb in Hrun. unfold own_finalized. by rewrite Hb.
  - cbn. by rewrite Hb.
Qed.

(** ** Timeouts *)
Section timeouts.
Context `{HashBackend, HexEncode, ChainCodec, RevmBackend} (default_scheme : SignatureScheme)
  (self : ConsensusEngine) (scheme : SignatureScheme) (iteration : Inner → list Transaction).

Definition point (n : Node) : Z * Z := (rs_height (nd_state n), rs_round (nd_state n)).
Definition later (p q : Z * Z) : Prop := p.1 < q.1 ∨ (p.1 = q.1 ∧ p.2 < q.2).
Lemma timeout_later now_ms n :
  node_inv scheme n → roomy (RoundTimeout now_ms) n →
  wp (Consensus.on_event default_scheme self scheme iteration (RoundTimeout now_ms)) n
    (λ _ n', node_inv scheme n' ∧ later (point n) (point n')) (λ _, True).
Proof.
  intros Hi (Hh & Hr & _). cbn [Consensus.on_event].
  apply wp_bind. eapply wp_mono; [by apply wp_vote_on_proposal; [|lia]| |done].
  intros [] n1 P1. apply wp_bind.
  assert (node_inv scheme n1 ∧ rs_round (nd_state n1) + 1 ≤ U32_MAX ∧
    rs_height (nd_state n1) + 1 ≤ U64_MAX ∧ (point n = point n1 ∨ later (point n) (point n1)))
    as (Hi1 & Hr1 & Hh1 & Hl1).
  { unfold point, later. destruct P1 as [(? & -> & ->)|(? & -> & ->)]; cbn; split_and!; auto; lia. }
  eapply wp_mono; [by apply advance_round_inv| |done].
  intros [] n2 (Hi2 & Hh2 & Hr2).
  eapply wp_mono; [apply wp_maybe_propose; [done|lia]| |done].
  intros [] n3 P3. split; [by destruct P3 as [[? _]|[? _]]|].
  unfold point, later in *. cbn in *.
  destruct P3 as [(_ & -> & ->)|(_ & -> & ->)], Hl1 as [[= -> ->]|]; lia.
Qed.
(** A node without a validator key has nothing that can fail. *)
Lemma observer_timeout now_ms n :
  ce_local_validator self = None →
  is_ok (Consensus.on_event default_scheme self scheme iteration (RoundTimeout now_ms) n).1 = true.
Proof.
  intros Hl. cbn. unfold Consensus.vote_on_proposal, Consensus.emit_prevote, Consensus.maybe_propose.
  by rewrite Hl.
Qed.
End timeouts.

(** Progress: the end of a round never leaves a node where it was. From a reachable
    state, a timeout that is handled without error leads to a strictly later round or
    height; and for a node that only follows the chain it is always handled. *)
Lemma timeout_progress `{HashBackend, HexEncode, ChainCodec, RevmBackend}
    (default_scheme : SignatureScheme) (self : ConsensusEngine) (scheme : SignatureScheme)
    (iteration : Inner → list Transaction) (n n' : Node) (now_ms : Z) (r : res ConsensusError ()) :
  reachable default_scheme self scheme iteration n → roomy (RoundTimeout now_ms) n →
  Consensus.on_event default_scheme self scheme iteration (RoundTimeout now_ms) n = (r, n') →
  (is_ok r = true → reachable default_scheme self scheme iteration n' ∧
    later (point n) (point n')) ∧
  (ce_local_validator self = None → is_ok r = true).
Proof.
  intros Hn Hroom Hrun. split.
  - intros Hok. split; [by eapply reach_event|].
    pose proof (wp_run _ _ _ _ _ _ (timeout_later default_scheme self scheme iteration now_ms n
      (reachable_inv _ _ _ _ _ Hn) Hroom) Hrun) as Hl.
    destruct r; [apply Hl|done..].
  - intros Hl. pose proof (observer_timeout default_scheme self scheme iteration now_ms n Hl) as Ho.
    by rewrite Hrun in Ho.
Qed.

(** Round timeouts: with timeouts whose sum fits a [u64], the wait of round [r] is the
    base doubled for each round up to the fifth, cut at a minute; it never shrinks from one
    round to the next, and it is never zero unless the base is. *)
Lemma round_timeout_exact (self : ConsensusEngine) (r : Z) :
  let base := cp_proposal_timeout_ms (ce_params self) + cp_vote_timeout_ms (ce_params self) in
  in_range U64_MAX base → 0 ≤ r →
  Consensus.round_timeout self r = Z.min (base * 2 ^ Z.min r 5) MAX_ROUND_TIMEOUT_MS ∧
  Consensus.round_timeout self r ≤ Consensus.round_timeout self (r + 1) ∧
  Z.min base MAX_ROUND_TIMEOUT_MS ≤ Consensus.round_timeout self r ≤ MAX_ROUND_TIMEOUT_MS.
Proof.
  intros base Hb Hr.
  assert (∀ r, 0 ≤ r → Consensus.round_timeout self r =
    Z.min (base * 2 ^ Z.min r 5) MAX_ROUND_TIMEOUT_MS) as Heq.
  { intros r' Hr'. unfold Consensus.round_timeout. fold base. rewrite (wrapping_small U64_MAX base) by done.
    rewrite (proj2 (Z.ltb_lt (Z.min r' 5) 64)) by lia. rewrite Z.shiftl_mul_pow2, Z.mul_1_l by lia.
    unfold MAX_ROUND_TIMEOUT_MS. ulia. }
  rewrite !Heq by lia. unfold MAX_ROUND_TIMEOUT_MS.
  assert (2 ^ Z.min r 5 ≤ 2 ^ Z.min (r + 1) 5) by (apply Z.pow_le_mono_r; lia).
  assert (2 ^ 0 ≤ 2 ^ Z.min r 5) by (apply Z.pow_le_mono_r; lia).
  unfold in_range in Hb. split_and!; [done|nia|nia|lia].
Qed.
