(* ===== verification/ProposalCheck.v ===== *)
(** The check of an incoming proposal against the execution of its block: the loop of
    [validate_incoming_proposal] and the loop of [apply_transactions] are written
    separately, and agree. *)

From S2P Require Import Prelude Types Codec Hash Crypto Wire Primitives Storage Smt Staking.
From S2P Require Import Mempool Zk Evm Execution Rounds Consensus.

Section proposal_check.
Context `{HashBackend, HexEncode, ChainCodec, RevmBackend} (default_scheme : SignatureScheme)
  (self : ConsensusEngine) (scheme : SignatureScheme).

(** The snapshot of the check after a transaction. *)
Definition checked_settle (tx : Transaction) (state : Smt.StateSnapshot) : Smt.StateSnapshot :=
  let body := tx_body tx in
  let sender := Smt.account state (tb_sender body) in
  let state := Smt.put_account (tb_sender body)
    {| acct_nonce := wrapping U64_MAX (acct_nonce sender + 1);
       acct_balance := acct_balance sender -
         saturating_add U128_MAX (tb_amount body) (tb_fee body) |} state in
  match tb_evm body with
  | None => Execution.credit (tb_recipient body) (tb_amount body) state
  | Some _ => state
  end.
Definition encodes (tx : Transaction) : Prop := encode_to_vec (tx_body tx) ≠ [].

Lemma check_tx_ok height state tx state' :
  ce_chain_id self = en_chain_id (ce_execution self) → encodes tx →
  Consensus.check_proposal_tx self scheme height state tx = Ok state' ↔
  admissible scheme (ce_chain_id self) tx height ∧
  tb_nonce (tx_body tx) = acct_nonce (Smt.account state (tb_sender (tx_body tx))) ∧
  saturating_add U128_MAX (tb_amount (tx_body tx)) (tb_fee (tx_body tx)) ≤
    acct_balance (Smt.account state (tb_sender (tx_body tx))) ∧
  state' = checked_settle tx state.
Proof.
  intros Hchain Henc. unfold Consensus.check_proposal_tx, sender_from_public_key. split.
  - intros Hrun. run_ok Hrun. injection Hrun as <-.
    match goal with Hv : map_err _ (Execution.validate_transaction _ _ _ _ _) = Ok ?u |- _ =>
      destruct u; apply (proj1 (map_err_ok _ _ _)), (proj1 (validate_ok _ _ _ _ _)) in Hv
        as (Ha & Hn & Hb) end.
    rewrite Hchain. split_and!; [exact Ha|exact Hn|exact Hb|].
    match goal with Hs : ok_or _ (checked_sub _ _) = Ok _ |- _ =>
      unfold checked_sub in Hs; rewrite decide_True in Hs by exact Hb; injection Hs as <- end.
    done.
  - intros (Ha & Hn & Hb & ->).
    assert (Execution.validate_transaction (ce_execution self) scheme state height tx = Ok tt) as Hv.
    { apply validate_ok. by rewrite <-Hchain. }
    rewrite Hv. cbn [map_err mbind res_bind]. unfold checked_sub. rewrite decide_True by exact Hb.
    cbn [ok_or mbind res_bind]. rewrite (adm_sender _ _ _ _ Ha). cbn [map_err mbind res_bind].
    rewrite bool_decide_eq_false_2 by (by intros []). rewrite bytes_ok. cbn [map_err mbind res_bind].
    rewrite (proj2 (verify_transaction_ok scheme _ tx height _) (conj Ha eq_refl)).
    cbn [map_err mbind res_bind]. by rewrite bool_decide_eq_false_2.
Qed.
Lemma checked_settle_exact tx state :
  tb_nonce (tx_body tx) = acct_nonce (Smt.account state (tb_sender (tx_body tx))) →
  tb_amount (tx_body tx) + tb_fee (tx_body tx) ≤ U128_MAX →
  in_range U64_MAX (tb_nonce (tx_body tx) + 1) →
  checked_settle tx state = settle tx state.
Proof.
  intros Hn Ht Hr. unfold checked_settle, settle, charge. rewrite <-Hn, wrapping_small by done.
  unfold saturating_add. by rewrite Z.min_r by lia.
Qed.

(** A transaction that the engine applies passes the check, with the same snapshot. *)
Lemma payable_checked height state tx :
  ce_chain_id self = en_chain_id (ce_execution self) → encodes tx →
  0 ≤ tb_nonce (tx_body tx) → payable (ce_execution self) scheme state height tx →
  Consensus.check_proposal_tx self scheme height state tx = Ok (settle tx state).
Proof.
  intros Hchain Henc Hpos [Ha Hn Hb Hno Hnr]. apply check_tx_ok; [done..|].
  split_and!; [by rewrite Hchain|done|ulia|].
  by rewrite checked_settle_exact by ulia.
Qed.
Lemma settled_checked height txs state state' :
  ce_chain_id self = en_chain_id (ce_execution self) → Forall encodes txs →
  Forall (λ tx, 0 ≤ tb_nonce (tx_body tx)) txs →
  settled (ce_execution self) scheme height txs state state' →
  Consensus.check_proposal_txs self scheme height state txs = Ok tt.
Proof.
  intros Hchain Henc Hpos Hs. induction Hs as [|tx txs state state' Hp Hs IH]; [done|].
  apply Forall_cons in Henc as [He Henc]. apply Forall_cons in Hpos as [Hp0 Hpos].
  cbn [Consensus.check_proposal_txs]. rewrite payable_checked by done. by apply IH.
Qed.

(** Room below the integer bounds for [k] more transactions. *)
Record spacious (k : nat) (state : Smt.StateSnapshot) : Prop := {
  sp_solvent : solvent state;
  sp_supply : supply state < U128_MAX;
  sp_nonces a : 0 ≤ nonce_of state a ∧ nonce_of state a + Z.of_nat k ≤ U64_MAX
}.
Lemma spacious_settle height k tx state :
  unsigned tx → payable (ce_execution self) scheme state height tx →
  spacious (S k) state → spacious k (settle tx state).
Proof.
  intros Hu Hp [Hs Hlt Hn]. pose proof (pay_nonce _ _ _ _ _ Hp) as Hnonce.
  destruct (supply_settle _ _ tx state height Hp Hu Hs) as [E Hs']. split; [done| |].
  - rewrite E. unfold burned. destruct Hu. destruct (tb_evm _); lia.
  - intros a. rewrite nonce_settle by done. specialize (Hn a). case_decide; lia.
Qed.
Lemma checked_payable height k tx state state' :
  ce_chain_id self = en_chain_id (ce_execution self) → encodes tx → spacious (S k) state →
  Consensus.check_proposal_tx self scheme height state tx = Ok state' →
  payable (ce_execution self) scheme state height tx ∧ state' = settle tx state.
Proof.
  intros Hchain Henc [[Hpos _] Hlt Hn] (Ha & Hnonce & Hb & ->)%check_tx_ok; [|done..].
  pose proof (balance_le_supply state (tb_sender (tx_body tx)) Hpos) as Hle.
  specialize (Hn (tb_sender (tx_body tx))). unfold nonce_of in Hn.
  assert (tb_amount (tx_body tx) + tb_fee (tx_body tx) ≤ U128_MAX) as Ht by ulia.
  split; [split; [by rewrite <-Hchain|done|ulia|done|ulia]|].
  apply checked_settle_exact; [done|done|ulia].
Qed.
Lemma checked_applies height txs fees rcs store state :
  ce_chain_id self = en_chain_id (ce_execution self) → Forall encodes txs → Forall (λ tx, tb_evm (tx_body tx) = None) txs →
  Forall unsigned txs → spacious (length txs) state →
  Consensus.check_proposal_txs self scheme height state txs = Ok tt →
  is_ok (Execution.apply_transactions default_scheme (ce_execution self) scheme height txs fees rcs
    (store, state)).1 = true.
Proof.
  intros Hchain. revert fees rcs store state.
  induction txs as [|tx txs IH]; intros fees rcs store state Henc Hnat Hu Hsp Hrun; [done|].
  apply Forall_cons in Henc as [He Henc], Hnat as [Hevm Hnat], Hu as [Hu1 Hu].
  cbn [Consensus.check_proposal_txs] in Hrun. apply res_bind_ok in Hrun as (st1 & Htx & Hrun).
  destruct (checked_payable _ _ _ _ _ Hchain He Hsp Htx) as [Hp ->].
  cbn [Execution.apply_transactions]. unfold mbind, eff_bind.
  destruct (Execution.apply_transaction _ _ _ _ _ _) as [r [store' st']] eqn:E.
  pose proof (apply_transaction_native _ _ _ _ _ _ _ _ _ Hevm E) as (_ & _ & Hok).
  destruct (Hok Hp) as [-> Hst]. cbn [snd] in Hst. subst st'.
  apply IH; [done..| |done]. by eapply spacious_settle.
Qed.
End proposal_check.

(** C13: the consensus check of a proposal and the execution engine agree, for engines of one
    chain and transactions with unsigned fields: a list of transactions that executes, EVM
    ones included, passes the check of the proposal; and away from the integer bounds, native
    transactions that pass the check execute, in the same order on the same accounts.  An EVM
    transaction may pass the check and fail to execute, so nothing is said of it there. *)
Theorem proposal_check_agrees `{HashBackend, HexEncode, ChainCodec, RevmBackend}
    (default_scheme : SignatureScheme) (self : ConsensusEngine) (scheme : SignatureScheme)
    (height : Z) (txs : list Transaction) (store : MemoryInner) (state : Smt.StateSnapshot) :
  ce_chain_id self = en_chain_id (ce_execution self) →
  Forall (λ tx, encode_to_vec (tx_body tx) ≠ []) txs →
  Forall (λ tx, 0 ≤ tb_nonce (tx_body tx) ∧ unsigned tx) txs →
  (is_ok (Execution.apply_transactions default_scheme (ce_execution self) scheme height txs 0 []
     (store, state)).1 = true →
   Consensus.check_proposal_txs self scheme height state txs = Ok tt) ∧
  (Forall (λ tx, tb_evm (tx_body tx) = None) txs → spacious (length txs) state →
   Consensus.check_proposal_txs self scheme height state txs = Ok tt →
   is_ok (Execution.apply_transactions default_scheme (ce_execution self) scheme height txs 0 []
     (store, state)).1 = true).
Proof.
  intros Hchain Henc [Hpos Hu]%Forall_and. split.
  - destruct (Execution.apply_transactions _ _ _ _ _ _ _ _) as [[[fees rcs]|e|] s'] eqn:E; [|done..].
    intros _. apply apply_transactions_ok in E as [Hs _]; [|done]. by eapply settled_checked.
  - intros Hnat Hsp. by apply checked_applies.
Qed.
