(* ===== verification/Delivery.v ===== *)
(** Delivery of votes: what a node does with the proposal and the votes of its round, as runs
    that end in [Ok].  Votes change the ledger only in the epochs of last liveness; the
    stores that differ in nothing else that the engine reads form an equivalence, which
    quorum, activity and execution respect. *)

From S2P Require Import Prelude Wp Types Codec Hash Crypto Wire Primitives Storage Smt Staking.
From S2P Require Import Mempool Zk Evm Execution Rounds Durability Consensus ConsensusInv.
From S2P Require Import Certificates ConsensusSafety ConsensusProgress.

(** ** The ledger up to liveness *)

(** The entry of a validator without its last liveness. *)
Definition still (vs : ValidatorStake) : ValidatorStake := upd_vs_last_liveness_epoch (λ _, 0) vs.
Lemma still_eligible e vs : Staking.eligible e (still vs) = Staking.eligible e vs.
Proof. done. Qed.

(** The addresses that are in the effective set, in no particular order. *)
Lemma effective_still e st st' :
  still <$> ss_validators st = still <$> ss_validators st' →
  Staking.effective_validator_set e st ≡ₚ Staking.effective_validator_set e st'.
Proof.
  assert (∀ st, Staking.effective_validator_set e st ≡ₚ vs_validator_address <$>
    filter (λ v, Staking.eligible e v = true) (map_to_list (still <$> ss_validators st)).*2) as Hs.
  { clear. intros st. unfold Staking.effective_validator_set.
    rewrite merge_sort_Permutation, entries_Permutation, map_to_list_fmap.
    rewrite <-list_fmap_compose. generalize (map_to_list (ss_validators st)). intros l.
    induction l as [|[a vs] l IH]; [done|]. cbn [fmap list_fmap compose snd prod_map].
    destruct (decide (Staking.eligible e vs = true)) as [He|He].
    - rewrite !filter_cons_True by done. cbn [fmap list_fmap]. by rewrite IH.
    - by rewrite !filter_cons_False by done. }
  intros E. by rewrite (Hs st), (Hs st'), E.
Qed.

Section ledger.
Context (self : ConsensusEngine).

Abbreviation validators s := (ss_validators (Consensus.ledger self s)).
Definition registered (s : MemoryInner) (a : Address) : Prop := is_Some (validators s !! a).
(** Every entry is under its own address. *)
Definition keyed (st : StakingState) : Prop :=
  map_Forall (λ a vs, vs_validator_address vs = a) (ss_validators st).

(** The stores that votes do not tell apart. *)
Record alike (s s' : MemoryInner) : Prop := {
  al_accounts : ms_accounts s' = ms_accounts s;
  al_blocks : ms_blocks_by_height s' = ms_blocks_by_height s;
  al_slashing : ms_slashing_protection s' = ms_slashing_protection s;
  al_ledger : still <$> validators s' = still <$> validators s
}.
#[export] Instance alike_equivalence : Equivalence alike.
Proof.
  split.
  - intros s. by split.
  - intros s s' [A B S L]. split; by symmetry.
  - intros s1 s2 s3 [A1 B1 S1 L1] [A2 B2 S2 L2]. split; congruence.
Qed.

Lemma still_lookup s s' a vs :
  alike s s' → validators s !! a = Some vs →
  ∃ vs', validators s' !! a = Some vs' ∧ still vs' = still vs.
Proof.
  intros Hal Ha. assert ((still <$> validators s') !! a = Some (still vs)) as H
    by (by rewrite (al_ledger _ _ Hal), lookup_fmap, Ha).
  rewrite lookup_fmap in H. destruct (validators s' !! a) as [vs'|]; [|done].
  exists vs'. by apply (inj Some) in H.
Qed.
#[export] Instance registered_proper : Proper (alike ==> eq ==> iff) registered.
Proof.
  intros s s' Hal a ? <-. split; intros [vs Hv].
  - destruct (still_lookup _ _ _ _ Hal Hv) as (vs' & ? & _). by exists vs'.
  - symmetry in Hal. destruct (still_lookup _ _ _ _ Hal Hv) as (vs' & ? & _). by exists vs'.
Qed.
Lemma keyed_alike s s' : alike s s' → keyed (Consensus.ledger self s) → keyed (Consensus.ledger self s').
Proof.
  intros Hal Hk a vs Ha. symmetry in Hal. destruct (still_lookup _ _ _ _ Hal Ha) as (vs' & Hv & E).
  specialize (Hk a vs' Hv). cbn in Hk. rewrite <-Hk. by apply (f_equal vs_validator_address) in E.
Qed.
#[export] Instance active_proper :
  Proper (alike ==> eq) (Consensus.local_validator_active self).
Proof.
  intros s s' Hal. unfold Consensus.local_validator_active, Staking.is_validator_active.
  destruct (ce_local_validator self) as [local|]; [|done].
  destruct (validators s !! vd_address (lv_validator local)) as [vs|] eqn:E.
  - destruct (still_lookup _ _ _ _ Hal E) as (vs' & -> & Es).
    by rewrite <-(still_eligible _ vs), <-(still_eligible _ vs'), Es.
  - destruct (validators s' !! _) as [vs'|] eqn:E'; [|done]. symmetry in Hal.
    destruct (still_lookup _ _ _ _ Hal E') as (vs & ? & _). congruence.
Qed.
#[export] Instance quorum_proper : Proper (alike ==> eq) (Consensus.quorum self).
Proof.
  intros s s' Hal. unfold Consensus.quorum, Consensus.active_validators.
  pose proof (effective_still (ce_economics self) _ _ (eq_sym (al_ledger _ _ Hal))) as Hp.
  destruct (Staking.effective_validator_set _ (Consensus.ledger self s)) as [|a l].
  { apply Permutation_nil_l in Hp. by rewrite <-Hp. }
  destruct (Staking.effective_validator_set _ (Consensus.ledger self s')) as [|a' l'].
  { by symmetry in Hp; apply Permutation_nil_cons in Hp. }
  do 3 f_equal. by rewrite Hp.
Qed.

(** *** The ledger of a store *)
Lemma ensure_registered l st a :
  is_Some (ss_validators st !! a) ∨ a ∈ vd_address <$> l →
  is_Some (ss_validators (Staking.ensure_validators l st) !! a).
Proof.
  revert st. induction l as [|v l IH]; intros st; cbn [Staking.ensure_validators foldl].
  { by intros [?|[]%elem_of_nil]. }
  intros Ha. apply IH. unfold Staking.ensure_validator.
  destruct (ss_validators st !! vd_address v) eqn:E; cbn.
  - destruct Ha as [?|[->|?]%elem_of_cons]; [by left|left; by eexists|by right].
  - destruct (decide (vd_address v = a)) as [<-|Hne];
      [left; by rewrite lookup_insert_eq; eexists|].
    rewrite lookup_insert_ne by done. destruct Ha as [?|[->|?]%elem_of_cons]; [by left|done|by right].
Qed.
Lemma ensure_keyed l st : keyed st → keyed (Staking.ensure_validators l st).
Proof.
  revert st. induction l as [|v l IH]; intros st Hk; [done|]. cbn [Staking.ensure_validators foldl].
  apply IH. unfold Staking.ensure_validator. destruct (ss_validators st !! _); [done|].
  by apply map_Forall_insert_2.
Qed.
Lemma ensure_idle l st :
  (∀ a, a ∈ vd_address <$> l → is_Some (ss_validators st !! a)) → Staking.ensure_validators l st = st.
Proof.
  induction l as [|v l IH]; intros Hl; [done|]. cbn [Staking.ensure_validators foldl].
  unfold Staking.ensure_validator at 2. destruct (Hl (vd_address v)) as [vs ->]; [by left|].
  apply IH. intros a Ha. apply Hl. by right.
Qed.
(** A ledger that was written over the ledger of a store. *)
Lemma ledger_persist s st :
  (∀ a, registered s a → is_Some (ss_validators st !! a)) →
  Consensus.ledger self (Staking.persist st s) = st.
Proof.
  intros Hst. apply ensure_idle. intros a Ha. apply Hst, ensure_registered. by right.
Qed.

(** *** Noting liveness *)
Definition noted (s : MemoryInner) (a : Address) : Prop :=
  ∃ vs, validators s !! a = Some vs ∧
    vs_last_liveness_epoch vs = ss_epoch (Consensus.ledger self s).
(** The stores that follow by noting liveness and appending to the journal. *)
Record later (s s' : MemoryInner) : Prop := {
  la_alike : alike s s';
  la_noted a : noted s a → noted s' a
}.
#[export] Instance later_preorder : PreOrder later.
Proof.
  split.
  - intros s. by split.
  - intros s1 s2 s3 [A1 N1] [A2 N2]. split; [by etrans|auto].
Qed.
Lemma later_append e s : later s (Store.append_consensus_wal e s).
Proof. split; [by split|done]. Qed.

Lemma note_run a n :
  registered (nd_store n) a →
  ∃ s', Consensus.note_validator_liveness self a n = (Ok tt, upd_nd_store (λ _, s') n) ∧
    later (nd_store n) s' ∧ noted s' a.
Proof.
  intros [vs Ha]. set (s := nd_store n) in *. set (epoch := ss_epoch (Consensus.ledger self s)).
  set (vs' := upd_vs_last_liveness_epoch (λ _, epoch) vs).
  set (st := upd_ss_validators (<[a := vs']>) (Consensus.ledger self s)).
  exists (Staking.persist st s).
  assert (Consensus.ledger self (Staking.persist st s) = st) as El.
  { apply ledger_persist. intros b [vsb Hb]. cbn.
    destruct (decide (a = b)) as [<-|]; [rewrite lookup_insert_eq|rewrite lookup_insert_ne by done];
      by eexists. }
  assert (noted (Staking.persist st s) a) as Hna.
  { exists vs'. rewrite El. cbn. by rewrite lookup_insert_eq. }
  split_and!; [|split|exact Hna].
  - assert (Staking.note_liveness a (Consensus.ledger self s) = (Ok tt, st)) as En.
    { unfold Staking.note_liveness, mbind, eff_bind, eff_get, eff_lift. by rewrite Ha. }
    unfold Consensus.note_validator_liveness, mbind, eff_bind, Consensus.get_store. fold s.
    by rewrite En.
  - split; [done..|]. rewrite El. cbn. rewrite fmap_insert.
    apply insert_id. by rewrite lookup_fmap, Ha.
  - intros b (vsb & Hb & Hl). destruct (decide (a = b)) as [<-|Hne]; [exact Hna|].
    exists vsb. rewrite El. cbn. by rewrite lookup_insert_ne.
Qed.
End ledger.

(** ** Execution on a store *)

(** *** The end of an epoch *)
Lemma downtime_slash_run a bps reason st :
  is_Some (ss_validators st !! a) → keyed st →
  ∃ st', Staking.slash a bps reason true st = (Ok tt, st') ∧ keyed st' ∧
    ∀ b, is_Some (ss_validators st !! b) → is_Some (ss_validators st' !! b).
Proof.
  intros [vs Ha] Hk. unfold Staking.slash, mbind, eff_bind, eff_get, eff_lift. rewrite Ha.
  eexists. split; [reflexivity|]. cbn. split.
  - apply map_Forall_insert_2; [exact (Hk a vs Ha) | exact Hk].
  - intros b Hb. destruct (decide (a = b)) as [<-|]; [by rewrite lookup_insert_eq; eexists|].
    by rewrite lookup_insert_ne.
Qed.
Lemma slash_all_run l e st :
  Forall (λ a, is_Some (ss_validators st !! a)) l → keyed st →
  ∃ st', Staking.slash_all l e st = (Ok tt, st') ∧ keyed st'.
Proof.
  revert st. induction l as [|a l IH]; intros st Hl Hk; [by exists st|].
  apply Forall_cons in Hl as [Ha Hl]. cbn [Staking.slash_all].
  destruct (downtime_slash_run a (ec_downtime_slash_bps e) "downtime" st Ha Hk) as (st1 & Hrun & Hk1 & Hr).
  unfold mbind, eff_bind. rewrite Hrun. apply IH; [|done]. eapply Forall_impl; [exact Hl|done].
Qed.
Lemma stale_keys st a : keyed st → a ∈ Staking.stale st → is_Some (ss_validators st !! a).
Proof.
  intros Hk (vs & -> & Hin)%list_elem_of_fmap. apply list_elem_of_filter in Hin as [_ Hin].
  apply list_elem_of_fmap in Hin as ([b vs'] & -> & Hin%elem_of_entries). cbn [snd].
  pose proof (Hk b vs' Hin) as E. cbn in E. rewrite E. by eexists.
Qed.
Lemma settle_epoch_validators f b e st :
  ss_validators (Staking.settle_epoch_rewards f b e st).2 = ss_validators st.
Proof.
  unfold Staking.settle_epoch_rewards. case_match; [done|]. by destruct (foldl _ _ _).
Qed.
(** Only the validators that are stale change. *)
Lemma epoch_step_run `{HashBackend, ChainCodec} height e st gov :
  keyed st →
  ∃ st' gov' tr, Execution.epoch_step height e st gov = Ok (st', gov', tr) ∧ keyed st' ∧
    (Staking.stale st = [] → ss_validators st' = ss_validators st).
Proof.
  intros Hk. unfold Execution.epoch_step. destruct (negb _ && _); [|by do 3 eexists].
  destruct (slash_all_run (Staking.stale st) (gs_economics gov) st) as (st1 & Hrun & Hk1); [|done|].
  { apply Forall_forall. intros a. by apply stale_keys. }
  assert (Staking.apply_downtime_slashing (gs_economics gov) st = (Ok tt, st1)) as -> by exact Hrun.
  cbn [map_err mbind res_bind].
  pose proof (settle_epoch_validators 0 0 (gs_economics gov) st1) as Hv.
  destruct (Staking.settle_epoch_rewards _ _ _ _) as [rewards st2]. cbn [snd] in Hv.
  destruct (Governance.activate_ready_updates _ _) as [applied gov2]. do 3 eexists.
  split; [reflexivity|]. unfold keyed. rewrite Hv. split; [exact Hk1|].
  intros Hs. rewrite Hs in Hrun. by injection Hrun as <-.
Qed.

(** *** Native blocks *)
Section native.
Context `{HashBackend, HexEncode, ChainCodec, RevmBackend} (default_scheme : SignatureScheme)
  (engine : ExecutionEngine) (scheme : SignatureScheme).
Abbreviation native txs := (Forall (λ tx, tb_evm (tx_body tx) = None) txs).
Definition native_receipts (height : Z) (txs : list Transaction) : list Receipt :=
  (λ tx, receipt_of height tx None) <$> txs.
Abbreviation fees_of txs := (lsum (λ tx, tb_fee (tx_body tx)) txs).

Lemma native_transactions_run height txs fees rcs store state state' :
  native txs → settled engine scheme height txs state state' →
  Execution.apply_transactions default_scheme engine scheme height txs fees rcs (store, state) =
  (Ok (foldl (λ f tx, wrapping U128_MAX (f + tb_fee (tx_body tx))) fees txs,
       rcs ++ native_receipts height txs), (store, state')).
Proof.
  intros Hn Hs. revert fees rcs Hn. induction Hs as [state|tx txs state state' Hp Hs IH]; intros fees rcs Hn.
  { cbn. by rewrite app_nil_r. }
  apply Forall_cons in Hn as [Htx Hn]. cbn [Execution.apply_transactions].
  destruct (apply_transaction_eq default_scheme engine scheme height tx store state)
    as [[_ E]|(? & _)]; [|done].
  rewrite Htx in E. unfold mbind, eff_bind. rewrite E. unfold settle in IH. rewrite Htx in IH.
  rewrite IH by done. cbn [foldl rc_fee_charged receipt_of]. unfold native_receipts.
  by rewrite fmap_cons, <-app_assoc.
Qed.

(** What a block of native transactions does to a store whose ledger is keyed. *)
Definition engine_ledger (s : MemoryInner) : StakingState :=
  Staking.ensure_validators (en_validators engine) (Staking.load s).
Definition block_fees (txs : list Transaction) : Z :=
  foldl (λ f tx, wrapping U128_MAX (f + tb_fee (tx_body tx))) 0 txs.
Definition accounted (s : MemoryInner) (acc : AccountingArtifacts) : Prop :=
  match en_economics engine with
  | Some _ => ∃ st, aa_staking acc = Some st ∧ keyed st ∧
      (Staking.stale (engine_ledger s) = [] → ss_validators st = ss_validators (engine_ledger s))
  | None => aa_staking acc = None
  end.
Lemma accounting_run proposer fees height store state :
  keyed (engine_ledger store) →
  ∃ acc, Execution.apply_block_accounting engine proposer fees height (store, state) =
    (Ok acc, (store, paid engine proposer fees state)) ∧ accounted store acc.
Proof.
  intros Hk. pose proof (accounting_writes engine proposer fees height store state) as Hw.
  unfold accounted. unfold Execution.apply_block_accounting, mbind, eff_bind, eff_get, eff_modify, eff_lift in *.
  destruct (en_economics engine) as [e|]; [|by eexists; split; [rewrite <-Hw|]].
  set (cut := saturating_mul _ _ _ / _) in *. set (st := upd_ss_treasury_balance _ _) in *.
  destruct (epoch_step_run height e st (Governance.load e store)) as (st' & gov' & tr & E & Hk' & Hv);
    [exact Hk|].
  fold (engine_ledger store) in *. rewrite E in *. cbn in Hw. rewrite <-Hw.
  eexists. split; [reflexivity|]. exists st'. split_and!; [done..|exact Hv].
Qed.
Lemma native_block_run height proposer txs store state state' :
  native txs → settled engine scheme height txs state state' → keyed (engine_ledger store) →
  ∃ acc, Execution.run_block default_scheme engine scheme height proposer txs (store, state) =
    (Ok (native_receipts height txs, block_fees txs, acc),
     (store, paid engine proposer (block_fees txs) state')) ∧ accounted store acc.
Proof.
  intros Hn Hs Hk. unfold Execution.run_block, mbind, eff_bind.
  rewrite (native_transactions_run height txs 0 [] store state state' Hn Hs).
  destruct (accounting_run proposer (block_fees txs) height store state' Hk) as (acc & E & Ha).
  exists acc. split; [|exact Ha]. unfold Execution.err_into. fold (block_fees txs). by rewrite E.
Qed.
Lemma native_dry_run height proposer txs store state' :
  native txs → settled engine scheme height txs (Smt.load store) state' → keyed (engine_ledger store) →
  Execution.dry_run_transactions default_scheme engine scheme height txs proposer store =
  (Ok (paid engine proposer (block_fees txs) state', native_receipts height txs), store).
Proof.
  intros Hn Hs Hk. unfold Execution.dry_run_transactions, Execution.on_snapshot, mbind, eff_bind,
    Execution.err_into.
  rewrite (native_transactions_run height txs 0 [] store _ state' Hn Hs). cbn [map_err].
  destruct (accounting_run proposer (block_fees txs) height store state' Hk) as (acc & E & Ha).
  fold (block_fees txs). by rewrite E.
Qed.

(** A block that was built over a snapshot of the store. *)
Record executable (s : MemoryInner) (block : Block) (state' : Smt.StateSnapshot) : Prop := {
  ex_native : native (bk_transactions block);
  ex_settled : settled engine scheme (bh_height (bk_header block)) (bk_transactions block)
    (Smt.load s) state';
  ex_header : header_matches scheme block
    (paid engine (bh_proposer (bk_header block)) (block_fees (bk_transactions block)) state')
    (native_receipts (bh_height (bk_header block)) (bk_transactions block)) s
}.
(** It executes wherever the accounts and the blocks are the same. *)
Lemma executable_same s s' block state' :
  ms_accounts s' = ms_accounts s → ms_blocks_by_height s' = ms_blocks_by_height s →
  executable s block state' → executable s' block state'.
Proof.
  intros A B [Hn Hs (Hv & Hp & Hr)]. split; [done| |].
  - by replace (Smt.load s') with (Smt.load s) by (unfold Smt.load, Store.accounts; by rewrite A).
  - split_and!; try apply Hr; [done|]. rewrite Hp. unfold Execution.parent_hash, Store.latest_block.
    by rewrite B.
Qed.
Lemma executable_run s block state' :
  executable s block state' → keyed (engine_ledger s) →
  ∃ pb, Execution.prepare_block default_scheme engine scheme block s = (Ok pb, s) ∧
    pb_state pb = paid engine (bh_proposer (bk_header block))
      (block_fees (bk_transactions block)) state' ∧
    accounted s (pb_accounting pb).
Proof.
  intros [Hn Hs Hh] Hk.
  destruct (native_block_run _ (bh_proposer (bk_header block)) _ _ _ _ Hn Hs Hk) as (acc & Hrun & Ha).
  eexists {| pb_accounting := acc |}. split; [|split; [reflexivity|exact Ha]].
  apply prepare_block_ok. split; [exact Hh|exact Hrun].
Qed.
End native.

(** ** Votes of one round *)

(** A step that returns without a condition. *)
Ltac run_pure := erewrite eff_bind_ok by reflexivity.

Section votes.
Context `{HashBackend, HexEncode, ChainCodec, RevmBackend} (default_scheme : SignatureScheme)
  (self : ConsensusEngine) (scheme : SignatureScheme)
  (keypair : list byte → list byte → Prop) `{!SignatureSchemeLaws scheme keypair}.

(** The key of the node is a key pair of its address, and signing does not fail. *)
Definition can_sign : Prop := ∀ local, ce_local_validator self = Some local →
  keypair (vd_public_key (lv_validator local)) (lv_secret_key local) ∧
  derive_address (vd_public_key (lv_validator local)) = Ok (vd_address (lv_validator local)) ∧
  signs scheme (lv_secret_key local).
Hypothesis Hsign : can_sign.

(** The round: its store up to liveness, its pool, its proposal if there is one, and its
    height and number. *)
Context (s0 : MemoryInner) (pool : Inner) (goal : option Block) (h r : Z).

Definition target : Hash32 :=
  match goal with Some block => Block_hash block | None => NIL_HASH end.
(** The node itself, when it is an active validator. *)
Definition own : gset Address :=
  match ce_local_validator self with
  | Some local => if Consensus.local_validator_active self s0
                  then {[ vd_address (lv_validator local) ]} else ∅
  | None => ∅
  end.
Definition tallied (step : VoteStep) (n : Node) : gset Address :=
  default ∅ (ballots step (nd_state n) !! target).
Definition reached (step : VoteStep) (n : Node) : bool :=
  Nat.leb (Consensus.quorum self s0) (size (tallied step n)).

(** A correct vote for the target of the round. *)
Record for_target (v : Vote) : Prop := {
  ft_signed : verify_vote scheme v = Ok ();
  ft_height : vt_height v = h;
  ft_round : vt_round v = r;
  ft_hash : vt_block_hash v = target;
  ft_registered : registered self s0 (vt_validator_address v)
}.
(** A node in the middle of the round, which has seen votes for the target only. *)
Record voting (n : Node) : Prop := {
  vo_inv : node_inv scheme n;
  vo_height : rs_height (nd_state n) = h;
  vo_round : rs_round (nd_state n) = r;
  vo_proposal : rs_proposal (nd_state n) = goal;
  vo_evidence : rs_evidence (nd_state n) = [];
  vo_votes : Forall (λ v, vt_block_hash v = target) (rs_votes (nd_state n));
  vo_network : nd_network_up n = true;
  vo_pool : nd_mempool n = pool;
  vo_later : later self s0 (nd_store n)
}.
Lemma vo_store n : voting n → alike self s0 (nd_store n).
Proof. intros Hn. apply Hn. Qed.
Definition same_flags (n n' : Node) : Prop := ∀ step, voted step (nd_state n') = voted step (nd_state n).

Lemma no_conflict v n :
  voting n → for_target v → existsb (Consensus.conflicts v) (rs_votes (nd_state n)) = false.
Proof.
  intros Hn Hv. apply not_true_iff_false. intros (w & Hw & Hc)%existsb_exists.
  apply list_elem_of_In in Hw. pose proof (vo_votes _ Hn) as Ha. rewrite Forall_forall in Ha.
  specialize (Ha w Hw). unfold Consensus.conflicts in Hc.
  apply andb_true_iff in Hc as [_ Hc%bool_decide_eq_true]. by rewrite Ha, (ft_hash _ Hv) in Hc.
Qed.

(** A polka moves only the lock and the journal. *)
Lemma polka_run v n :
  ∃ st wal, Consensus.observe_polka v n =
    (Ok tt, upd_nd_state (λ _, st) (upd_nd_store (upd_consensus_wal (λ _, wal)) n)) ∧
  rs_height st = rs_height (nd_state n) ∧ rs_round st = rs_round (nd_state n) ∧
  rs_proposal st = rs_proposal (nd_state n) ∧ rs_evidence st = rs_evidence (nd_state n) ∧
  rs_votes st = rs_votes (nd_state n) ∧
  (rs_proposal (nd_state n) = None → rs_locked_block st = rs_locked_block (nd_state n)) ∧
  ∀ step, ballots step st = ballots step (nd_state n) ∧ voted step st = voted step (nd_state n).
Proof.
  unfold Consensus.observe_polka, mbind at 1, eff_bind at 1, Consensus.get_state at 1.
  assert (∃ st wal, (Ok (), n : Node) = (Ok (E:=ConsensusError) (),
    upd_nd_state (λ _, st) (upd_nd_store (upd_consensus_wal (λ _, wal)) n)) ∧
    st = nd_state n) as (st & wal & E & ->).
  { exists (nd_state n), (ms_consensus_wal (nd_store n)). by destruct n as [? [] ? ? ?]. }
  case_bool_decide; [by exists (nd_state n), wal|].
  destruct (rs_proposal (nd_state n)) as [block|] eqn:Hp; [|by exists (nd_state n), wal].
  case_bool_decide; [by exists (nd_state n), wal|].
  do 2 eexists. split; [reflexivity|]. by split_and!.
Qed.

(** The node after a counted vote, up to lock and journal. *)
Definition counted_from (v : Vote) (n n' : Node) : Prop :=
  rs_height (nd_state n') = rs_height (nd_state n) ∧ rs_round (nd_state n') = rs_round (nd_state n) ∧
  rs_proposal (nd_state n') = rs_proposal (nd_state n) ∧
  rs_evidence (nd_state n') = rs_evidence (nd_state n) ∧
  rs_votes (nd_state n') = rs_votes (nd_state n) ++ [v] ∧
  (∀ step, ballots step (nd_state n') = ballots step (Consensus.count_vote v (nd_state n)) ∧
    voted step (nd_state n') = voted step (nd_state n)) ∧
  (rs_proposal (nd_state n) = None →
    rs_locked_block (nd_state n') = rs_locked_block (nd_state n)) ∧
  nd_network_up n' = nd_network_up n ∧ nd_mempool n' = nd_mempool n ∧
  later self (nd_store n) (nd_store n').
Definition tally_grows (v : Vote) (n n' : Node) : Prop :=
  ∀ step, tallied step n' = if decide (vt_step v = step)
    then {[ vt_validator_address v ]} ∪ tallied step n else tallied step n.
Lemma counted_voting v n n' :
  voting n → for_target v → counted_from v n n' → node_inv scheme n' →
  voting n' ∧ same_flags n n' ∧ tally_grows v n n'.
Proof.
  intros [Hi Hh Hr Hp He Hvo Hnet Hpo Hal] Hv (Eh & Er & Ep & Ee & Ev & Eb & Elo & En & Epo & Eal) Hi'.
  split; [|split].
  - split; try congruence; [|by etrans]. rewrite Ev. apply Forall_app. split; [done|].
    constructor; [apply Hv|constructor].
  - intros step. apply Eb.
  - intros step. unfold tallied. rewrite (proj1 (Eb step)), ballots_count, (ft_hash _ Hv).
    destruct (decide (vt_step v = step)); [by rewrite decide_True|].
    by rewrite decide_False by (by intros []).
Qed.

Lemma count_counted v n s :
  later self (nd_store n) s →
  counted_from v n (upd_nd_state (Consensus.count_vote v) (upd_nd_store (λ _, s) n)).
Proof.
  intros Hal. unfold counted_from. cbn [nd_state nd_store nd_mempool nd_network_up upd_nd_state upd_nd_store].
  unfold Consensus.count_vote. destruct (vt_step v); split_and!; try done; by intros [].
Qed.
Lemma count_reached v n :
  for_target v → alike self s0 (nd_store n) →
  Nat.leb (Consensus.quorum self (nd_store n)) (Consensus.vote_count v (nd_state n)) =
  reached (vt_step v) n.
Proof.
  intros Hv Hal. unfold reached, Consensus.vote_count, tallied, ballots.
  by rewrite (ft_hash _ Hv), (quorum_proper self _ _ Hal).
Qed.
(** What a counted vote asks for: a precommit, or the finalization. *)
Definition outcome (step : VoteStep) (n : Node) : option Hash32 * option Hash32 :=
  match step with
  | Prevote => (if reached Prevote n then Some target else None, None)
  | Precommit => (None, if reached Precommit n && bool_decide (target ≠ NIL_HASH)
                        then Some target else None)
  end.
Lemma record_run v n :
  voting n → for_target v →
  ∃ n', Consensus.record_vote self scheme v n = (Ok (outcome (vt_step v) n'), n') ∧ voting n' ∧ same_flags n n' ∧ tally_grows v n n' ∧
    noted self (nd_store n') (vt_validator_address v) ∧
    (goal = None → rs_locked_block (nd_state n') = rs_locked_block (nd_state n)).
Proof.
  intros Hn Hv. pose proof (no_conflict v n Hn Hv) as Hc.
  pose proof (wp_record_vote self scheme v n (vo_inv _ Hn)) as Hwp.
  destruct (note_run self (vt_validator_address v) n) as (s1 & Hnote & Hla & Hno).
  { rewrite <-(vo_store _ Hn). apply Hv. }
  assert (alike self s0 s1) as Hal01 by (rewrite (vo_store _ Hn); apply Hla).
  enough (∃ n', Consensus.record_vote self scheme v n =
    (Ok (outcome (vt_step v) n'), n') ∧ counted_from v n n' ∧
    later self s1 (nd_store n')) as (n' & E & Hf & Hl').
  { exists n'. split; [exact E|]. pose proof (wp_run _ _ _ _ _ _ Hwp E) as [Hi' _].
    destruct (counted_voting v n n' Hn Hv Hf Hi') as (? & ? & ?). split_and!; [done..| |].
    - by apply (la_noted _ _ _ Hl').
    - intros Eg. destruct Hf as (_ & _ & _ & _ & _ & _ & Hlo & _). apply Hlo.
      by rewrite (vo_proposal _ Hn). }
  unfold Consensus.record_vote.
  rewrite (eff_bind_ok _ _ n tt n) by (by rewrite (ft_signed _ Hv)).
  rewrite (eff_bind_ok _ _ _ _ _ Hnote). run_pure. cbn [nd_state upd_nd_store].
  rewrite (vo_height _ Hn), (vo_round _ Hn), (ft_height _ Hv), (ft_round _ Hv), !Z.eqb_refl, Hc.
  rewrite (ft_hash _ Hv). cbn [negb orb]. do 4 run_pure. set (n2 := upd_nd_state _ _).
  assert (counted_from v n n2) as Hf.
  { apply (count_counted v n (Store.append_consensus_wal _ s1)). rewrite Hla. apply later_append. }
  rewrite count_reached by (done || by rewrite Hal01).
  destruct (vt_step v) eqn:Es; [|by exists n2; split_and!; [done..|apply later_append]].
  destruct (reached Prevote n2) eqn:Hq; [|exists n2; unfold outcome; rewrite Hq; split_and!; [done..|apply later_append]].
  destruct (polka_run v n2) as (st & wal & Hpol & Eh & Er & Ep & Ee & Ev & Elo & Eb).
  set (n3 := upd_nd_state (λ _, st) _) in *. rewrite (eff_bind_ok _ _ _ _ _ Hpol).
  assert (reached Prevote n3 = true) as Hq3.
  { unfold reached, tallied in *. cbn [n3 nd_state upd_nd_state]. by rewrite (proj1 (Eb Prevote)). }
  assert (later self (nd_store n2) (nd_store n3)) as Hl3 by (split; [by split|done]).
  exists n3. split; [unfold outcome; by rewrite Hq3|].
  split; [|rewrite <-Hl3; apply later_append].
  destruct Hf as (? & ? & Hp2 & ? & ? & Hb & Hlo & ? & ? & Hs).
  split_and!; cbn [n3 nd_state nd_store nd_network_up nd_mempool upd_nd_state upd_nd_store]; try congruence.
  - intros step. destruct (Eb step) as [-> ->]. apply Hb.
  - intros E. rewrite Elo by (by rewrite Hp2). by apply Hlo.
  - by rewrite Hs.
Qed.

(** *** The node's own votes *)
Definition same_tallies (n n' : Node) : Prop := ∀ step, tallied step n' = tallied step n.
(** What [emit_prevote] and [emit_precommit] do for a step that was not voted yet. *)
Definition own_vote_cast (step : VoteStep) (m : eff Node ConsensusError (option Vote)) (n : Node) : Prop :=
  (own = ∅ ∧ m n = (Ok None, n)) ∨
  ∃ v n', m n = (Ok (Some v), n') ∧ for_target v ∧ vt_step v = step ∧
    own = {[ vt_validator_address v ]} ∧ voting n' ∧ same_tallies n n' ∧
    rs_locked_block (nd_state n') = rs_locked_block (nd_state n) ∧
    ∀ step', voted step' (nd_state n') = bool_decide (step = step') || voted step' (nd_state n).
Lemma cast_run local step n :
  ce_local_validator self = Some local → Consensus.local_validator_active self s0 = true →
  voting n → voted step (nd_state n) = false →
  own_vote_cast step (Consensus.cast self scheme local (nd_state n) step target (set_voted step)) n.
Proof.
  intros Hl Hact Hn Hvo. right.
  destruct (Hsign local Hl) as (Hkey & Haddr & Htotal).
  pose proof (wp_cast self scheme local step target n (vo_inv _ Hn) Hvo) as Hwp.
  set (unsigned := Consensus.unsigned_vote local (nd_state n) step target).
  destruct (sign_vote_total scheme (lv_secret_key local) unsigned Htotal) as [v Hv].
  assert (registered self s0 (vd_address (lv_validator local))) as Hreg.
  { unfold Consensus.local_validator_active, Staking.is_validator_active in Hact. rewrite Hl in Hact.
    unfold registered. destruct (_ !! _) in *; [by eexists|done]. }
  assert (for_target v ∧ vt_step v = step ∧ vt_validator_address v = vd_address (lv_validator local))
    as (Hft & Hst & Ha).
  { pose proof (signed_vote_verifies scheme keypair _ _ _ _ _ Hkey Haddr Hv eq_refl eq_refl) as Hver.
    unfold sign_vote in Hv. apply res_bind_ok in Hv as (bs & _ & Hv).
    apply res_bind_ok in Hv as (sg & _ & [= <-]). split; [|done].
    split; [exact Hver|apply Hn|apply Hn|done|exact Hreg]. }
  destruct (note_run self (vd_address (lv_validator local)) n) as (s1 & Hnote & Hla & _).
  { by rewrite <-(vo_store _ Hn). }
  enough (∃ n', Consensus.cast self scheme local (nd_state n) step target (set_voted step) n =
    (Ok (Some v), n') ∧ nd_state n' = set_voted step (nd_state n) ∧ nd_network_up n' = true ∧
    nd_mempool n' = pool ∧ later self s0 (nd_store n')) as (n' & E & Es & En & Ep & Eal).
  { exists v, n'. split; [exact E|]. split; [exact Hft|]. split; [exact Hst|]. split_and!.
    - unfold own. by rewrite Hl, Hact, Ha.
    - pose proof (wp_run _ _ _ _ _ _ Hwp E) as [Hi' _]. destruct Hn. split; try done; rewrite Es; by destruct step.
    - intros step'. unfold tallied. rewrite Es. by destruct step, step'.
    - rewrite Es. by destruct step.
    - intros step'. rewrite Es. by destruct step, step'. }
  unfold Consensus.cast. fold unsigned.
  rewrite (eff_bind_ok _ _ n v n) by (by rewrite Hv).
  rewrite (eff_bind_ok _ _ _ _ _ Hnote). do 2 run_pure.
  unfold Consensus.broadcast. unfold mbind, eff_bind, eff_get.
  cbn [nd_network_up upd_nd_state upd_nd_store]. rewrite (vo_network _ Hn).
  eexists. split; [reflexivity|]. cbn. split_and!; [done|apply Hn|apply Hn|].
  rewrite (vo_later _ Hn), Hla. apply later_append.
Qed.
Lemma emit_prevote_run n :
  voting n → voted Prevote (nd_state n) = false → rs_locked_block (nd_state n) = None →
  own_vote_cast Prevote (Consensus.emit_prevote self scheme) n.
Proof.
  intros Hn Hvo Hlo. unfold Consensus.emit_prevote.
  destruct (ce_local_validator self) as [local|] eqn:Hl; [|left; unfold own; by rewrite Hl].
  destruct (Consensus.local_validator_active self s0) eqn:Ha;
    pose proof (active_proper self _ _ (vo_store _ Hn)) as Ha'; rewrite Ha in Ha'.
  2: { left. unfold own. rewrite Hl, Ha. split; [done|]. run_pure. by rewrite <-Ha'. }
  pose proof (cast_run local Prevote n Hl Ha Hn Hvo) as Hcast. unfold own_vote_cast in *.
  run_pure. rewrite <-Ha'. cbn [negb]. run_pure. cbn [voted] in Hvo. rewrite Hvo.
  assert (Consensus.prevote_choice (nd_state n) = target) as ->; [|exact Hcast].
  unfold Consensus.prevote_choice, target. rewrite Hlo, (vo_proposal _ Hn). by destruct goal.
Qed.
Lemma emit_precommit_run n :
  voting n → voted Precommit (nd_state n) = false →
  own_vote_cast Precommit (Consensus.emit_precommit self scheme target) n.
Proof.
  intros Hn Hvo. unfold Consensus.emit_precommit.
  destruct (ce_local_validator self) as [local|] eqn:Hl; [|left; unfold own; by rewrite Hl].
  destruct (Consensus.local_validator_active self s0) eqn:Ha;
    pose proof (active_proper self _ _ (vo_store _ Hn)) as Ha'; rewrite Ha in Ha'.
  2: { left. unfold own. rewrite Hl, Ha. split; [done|]. run_pure. by rewrite <-Ha'. }
  pose proof (cast_run local Precommit n Hl Ha Hn Hvo) as Hcast. unfold own_vote_cast in *.
  run_pure. rewrite <-Ha'. cbn [negb]. run_pure. cbn [voted] in Hvo. by rewrite Hvo.
Qed.
(** A node that precommitted already does nothing. *)
Lemma emit_precommit_again n :
  voted Precommit (nd_state n) = true → Consensus.emit_precommit self scheme target n = (Ok None, n).
Proof.
  intros Hvo. unfold Consensus.emit_precommit. destruct (ce_local_validator self); [|done].
  run_pure. destruct (negb _); [done|]. run_pure. cbn [voted] in Hvo. by rewrite Hvo.
Qed.
End votes.
