(* ===== verification/Finality.v ===== *)
(** Finality of one round: once a node holds a proposal that executes, every quorum of votes
    for it finalizes it, in whatever order the votes arrive. *)

From S2P Require Import Prelude Wp Types Codec Hash Crypto Wire Primitives Storage Smt Staking.
From S2P Require Import Mempool Zk Evm Execution Rounds Durability Consensus ConsensusInv.
From S2P Require Import Certificates ConsensusSafety ConsensusProgress Delivery.

(** A round that nothing happened in yet. *)
Record fresh_round (st : RoundState) : Prop := {
  fr_proposal : rs_proposal st = None;
  fr_prevotes : rs_prevotes st = ∅;
  fr_precommits : rs_precommits st = ∅;
  fr_votes : rs_votes st = [];
  fr_prevoted : rs_prevoted st = false;
  fr_precommitted : rs_precommitted st = false;
  fr_evidence : rs_evidence st = [];
  fr_unlocked : rs_locked_block st = None
}.

(** *** The parts of the store that a conclusion keeps *)
Definition books (s : MemoryInner) : option StakingState * gmap Address SlashingProtection :=
  (ms_staking_state s, ms_slashing_protection s).
Lemma commit_books `{HashBackend, ChainCodec} finalized state s :
  books (Execution.commit_finalized_block finalized state s) = books s.
Proof.
  unfold Execution.commit_finalized_block, Store.atomic_commit_block.
  by rewrite foldl_put_accounts_eq, foldl_put_receipts_eq.
Qed.
Lemma prune_books `{HashBackend, ChainCodec} k s : books (Store.prune_blocks_below k s).2 = books s.
Proof.
  unfold Store.prune_blocks_below. cbn [snd]. generalize (filter (λ k0, k0 < k) (entries (ms_blocks_by_height s)).*1).
  intros l. revert s. induction l as [|x l IH]; intros s; [done|]. cbn [foldl]. rewrite IH.
  unfold Store.prune_key. by case_match.
Qed.
Lemma persist_accounting_books pb s :
  books (Execution.persist_accounting pb s) =
  (match aa_staking (pb_accounting pb) with Some st => Some st | None => ms_staking_state s end,
   ms_slashing_protection s).
Proof.
  unfold Execution.persist_accounting, Smt.persist. rewrite foldl_put_accounts_eq.
  by destruct (aa_staking _), (aa_governance _), (aa_epoch_transition _).
Qed.
Lemma ledger_books self s s' : books s = books s' → Consensus.ledger self s = Consensus.ledger self s'.
Proof. unfold Consensus.ledger, Staking.load, Store.get_staking_state. by intros [= -> _]. Qed.

Lemma conclude_total `{HashBackend, HexEncode, ChainCodec, RevmBackend} self st executed finalized n :
  rs_evidence (nd_state n) = [] → nd_network_up n = true →
  ∃ n', Consensus.conclude self st executed finalized n = (Ok tt, n') ∧ nd_network_up n' = true ∧
    books (nd_store n') = books (nd_store n).
Proof.
  intros He Hup. unfold Consensus.conclude. do 2 run_pure.
  set (n1 := upd_nd_store _ _).
  assert (Consensus.apply_pending_evidence self n1 =
    (Ok tt, upd_nd_state (upd_rs_evidence (λ _, [])) n1)) as Hev.
  { unfold Consensus.apply_pending_evidence. do 2 run_pure. cbn [nd_state n1 upd_nd_store].
    by rewrite He, bool_decide_eq_true_2. }
  rewrite (eff_bind_ok _ _ _ _ _ Hev). run_pure.
  set (n2 := upd_nd_mempool _ _).
  assert (nd_network_up n2 = true) as Hup2 by exact Hup.
  assert (books (nd_store n2) = books (nd_store n)) as Hb2 by (cbn; by rewrite commit_books).
  erewrite eff_bind_ok; [|unfold Consensus.broadcast; run_pure; by rewrite Hup2].
  set (n3 := upd_nd_outbox _ n2).
  assert (∀ (c : bool) k n, ∃ n', (if c then Consensus.modify_store
      (λ s, (Store.compact_consensus_wal k s).2) else mret tt : eff Node ConsensusError ()) n = (Ok tt, n') ∧
    nd_network_up n' = nd_network_up n ∧ books (nd_store n') = books (nd_store n)) as Hcompact
    by (intros [] k n0; by eexists).
  destruct (Hcompact (10 <? rs_height st) (saturating_sub (rs_height st) 10) n3) as (n4 & E4 & U4 & B4).
  rewrite (eff_bind_ok _ _ _ _ _ E4).
  assert (∀ (c : bool) k n, ∃ n', (if c then Consensus.modify_store
      (λ s, (Store.prune_blocks_below k s).2) else mret tt : eff Node ConsensusError ()) n = (Ok tt, n') ∧
    nd_network_up n' = nd_network_up n ∧ books (nd_store n') = books (nd_store n)) as Hprune.
  { intros [] k n0; [|by eexists]. eexists. split; [reflexivity|]. split; [done|]. apply prune_books. }
  destruct (Hprune (1000 <? rs_height st) (saturating_sub (rs_height st) 1000) n4) as (n5 & E5 & U5 & B5).
  rewrite (eff_bind_ok _ _ _ _ _ E5). unfold Consensus.advance_height, Consensus.persist_snapshot.
  eexists. split; [reflexivity|]. split; [cbn; by rewrite U5, U4|].
  change (books (nd_store n5) = books (nd_store n)). by rewrite B5, B4.
Qed.

Section finality.
Context `{HashBackend, HexEncode, ChainCodec, RevmBackend} (default_scheme : SignatureScheme)
  (self : ConsensusEngine) (scheme : SignatureScheme)
  (keypair : list byte → list byte → Prop) `{!SignatureSchemeLaws scheme keypair}.
(** The planes of a node share the validators of its genesis. *)
Hypothesis Hplane : en_validators (ce_execution self) = ce_validators self.
Hypothesis Hsign : can_sign self scheme keypair.
Abbreviation engine := (ce_execution self).
Abbreviation ledger := (Consensus.ledger self).

(** The round: the store it started from up to liveness, the pool, and a block that
    executes on that store. *)
Context (s0 : MemoryInner) (pool : Inner) (block : Block) (h r : Z) (state' : Smt.StateSnapshot).
Record round_block : Prop := {
  rb_keyed : keyed (ledger s0);
  rb_executable : executable engine scheme s0 block state';
  rb_hash : Block_hash block ≠ NIL_HASH;
  rb_height : bh_height (bk_header block) = h;
  rb_round : bh_round (bk_header block) = r;
  rb_range : 0 ≤ h ∧ h + 1 ≤ U64_MAX
}.
Hypothesis Hround : round_block.

Abbreviation voting_n := (voting self scheme s0 pool (Some block) h r).
Abbreviation for_block := (for_target self scheme s0 (Some block) h r).
Abbreviation tallied_n step n := (tallied (Some block) step n).
Abbreviation reached_n step n := (reached self s0 (Some block) step n).
Definition final_accounts : gmap Address Account :=
  paid engine (bh_proposer (bk_header block)) (block_fees (bk_transactions block)) state'.

(** The block is stored at its height, with its accounts, and the next height is open. *)
Record finished (n : Node) : Prop := {
  fi_height : rs_height (nd_state n) = h + 1;
  fi_round : rs_round (nd_state n) = 0;
  fi_fresh : fresh_round (nd_state n);
  fi_block : ∃ finalized, Store.get_block_by_height h (nd_store n) = Some finalized ∧
    fb_block finalized = block ∧ MsgCommit finalized ∈ nd_outbox n;
  fi_accounts : Store.accounts (nd_store n) = final_accounts;
  fi_pool : nd_mempool n = Mempool.remove_committed (bk_transactions block) pool;
  fi_network : nd_network_up n = true;
  fi_slashing : ms_slashing_protection (nd_store n) = ms_slashing_protection s0;
  fi_ledger : keyed (ledger (nd_store n));
  fi_validators : ∃ s1, later self s0 s1 ∧ (Staking.stale (ledger s1) = [] →
    ss_validators (ledger (nd_store n)) = ss_validators (ledger s1))
}.

Lemma alike_executable s : alike self s0 s → executable engine scheme s block state'.
Proof.
  intros [A B _ _]. eapply executable_same; [exact A|exact B|apply Hround].
Qed.
Lemma voting_certificate n :
  voting_n n → reached_n Precommit n = true →
  Consensus.validate_commit_certificate self scheme block
    (own_certificate (nd_state n) (Block_hash block)) (nd_store n) = Ok tt.
Proof.
  intros Hn Hq. destruct (vo_inv _ _ _ _ _ _ _ _ Hn) as [Hri _ _].
  apply certificate_ok. cbn [cc_block_hash cc_height cc_round cc_votes own_certificate].
  rewrite (rb_height Hround), (rb_round Hround), (vo_height _ _ _ _ _ _ _ _ Hn), (vo_round _ _ _ _ _ _ _ _ Hn).
  split_and!; try done.
  - apply Forall_forall. intros v [[Hst Hb] Hv]%list_elem_of_filter.
    destruct (ri_votes _ _ Hri v Hv) as (Hvh & Hvr & Hver). by split.
  - apply Nat.leb_le in Hq. rewrite <-(quorum_proper self _ _ (vo_store _ _ _ _ _ _ _ _ Hn)).
    etrans; [exact Hq|]. apply subseteq_size. intros a Ha.
    apply (ri_ballots _ _ Hri) in Ha as (v & Hv & Hst & Hb & Hva). apply elem_of_signers.
    exists v. split; [|done]. by apply list_elem_of_filter.
Qed.
Lemma execute_block_run s :
  alike self s0 s →
  ∃ pb, Execution.execute_block default_scheme engine scheme block s =
    (Ok {| ber_block := block; ber_receipts := pb_receipts pb;
           ber_epoch_transition := aa_epoch_transition (pb_accounting pb);
           ber_proposer_fees := pb_proposer_fees pb; ber_state := pb_state pb |},
     Execution.persist_accounting pb s) ∧
    (pb_state pb : gmap Address Account) = final_accounts ∧ accounted engine s (pb_accounting pb).
Proof.
  intros Hal. assert (engine_ledger engine s = ledger s) as El
    by (unfold engine_ledger; by rewrite Hplane).
  destruct (executable_run default_scheme engine scheme s block state' (alike_executable s Hal))
    as (pb & Hpb & Hst & Hacc).
  { rewrite El. eapply keyed_alike; [exact Hal|apply Hround]. }
  exists pb. split; [|by split]. unfold Execution.execute_block.
  rewrite (eff_bind_ok _ _ _ _ _ Hpb). by run_pure.
Qed.
(** The ledger of the store that an execution leaves. *)
Lemma accounted_ledger pb s s' :
  keyed (ledger s) → accounted engine s (pb_accounting pb) →
  books s' = books (Execution.persist_accounting pb s) →
  keyed (ledger s') ∧
  (Staking.stale (ledger s) = [] → ss_validators (ledger s') = ss_validators (ledger s)).
Proof.
  intros Hk Hacc Hb. rewrite persist_accounting_books in Hb.
  assert (engine_ledger engine s = ledger s) as El by (unfold engine_ledger; by rewrite Hplane).
  unfold accounted in Hacc. rewrite El in Hacc. destruct (en_economics engine).
  - destruct Hacc as (st & Haa & Hkst & Hst). rewrite Haa in Hb.
    assert (ledger s' = Staking.ensure_validators (ce_validators self) st) as ->
      by exact (ledger_books self s' (Staking.persist st s) Hb).
    split; [by apply ensure_keyed|]. intros Hstale. rewrite ensure_idle; [by apply Hst|].
    intros a Ha. rewrite Hst by done. apply ensure_registered. by right.
  - rewrite Hacc in Hb. assert (ledger s' = ledger s) as -> by exact (ledger_books self s' s Hb). done.
Qed.

Lemma finalize_run n :
  voting_n n → reached_n Precommit n = true →
  ∃ n', Consensus.finalize default_scheme self scheme (Block_hash block) n = (Ok tt, n') ∧ finished n'.
Proof.
  intros Hn Hq. destruct (execute_block_run (nd_store n) (vo_store _ _ _ _ _ _ _ _ Hn)) as (pb & Hex & Hst & Hacc).
  destruct (execute_block_accounts default_scheme self scheme _ _ _ _ Hex) as [_ Hacc'].
  unfold Consensus.finalize. run_pure.
  rewrite (eff_bind_ok _ _ n block n) by (by rewrite (vo_proposal _ _ _ _ _ _ _ _ Hn)).
  rewrite bool_decide_eq_false_2 by (by intros []). run_pure.
  rewrite (eff_bind_ok _ _ n tt n)
    by (unfold eff_lift; f_equal; exact (voting_certificate n Hn Hq)).
  erewrite eff_bind_ok by (unfold Consensus.on_store, Execution.err_into; by rewrite Hex).
  set (executed := {| ber_block := block |}) in *. set (n1 := upd_nd_store _ n).
  match goal with |- context [Consensus.conclude _ ?st ?ex ?fin] => set (finalized := fin) end.
  destruct (conclude_total self (nd_state n) executed finalized n1) as (n' & Hrun & Hup & Hbooks);
    [exact (vo_evidence _ _ _ _ _ _ _ _ Hn) | exact (vo_network _ _ _ _ _ _ _ _ Hn)|].
  exists n'. split; [exact Hrun|]. pose proof (rb_range Hround).
  assert (keyed (ledger (nd_store n))) as Hk by
    (eapply keyed_alike; [exact (vo_store _ _ _ _ _ _ _ _ Hn)|apply Hround]).
  destruct (accounted_ledger pb (nd_store n) (nd_store n') Hk Hacc Hbooks) as [Hk' Hst'].
  pose proof (vo_height _ _ _ _ _ _ _ _ Hn) as Eh.
  apply conclude_run in Hrun as (Hb & Ha & Hp & Ho & Hs); rewrite ?Eh; [|ulia|lia|apply Hround|exact Hacc'].
  rewrite Eh in *. split.
  - by rewrite Hs.
  - by rewrite Hs.
  - rewrite Hs. by split.
  - exists finalized. split_and!; [done|done|]. rewrite Ho, elem_of_app, list_elem_of_singleton. by right.
  - rewrite Ha. exact Hst.
  - rewrite Hp. cbn [nd_mempool n1 upd_nd_store]. by rewrite (vo_pool _ _ _ _ _ _ _ _ Hn).
  - exact Hup.
  - apply (f_equal snd) in Hbooks. cbn [books snd n1 nd_store upd_nd_store] in Hbooks.
    rewrite Hbooks, <-(al_slashing _ _ _ (vo_store _ _ _ _ _ _ _ _ Hn)).
    exact (f_equal snd (persist_accounting_books pb (nd_store n))).
  - exact Hk'.
  - exists (nd_store n). split; [apply Hn|exact Hst'].
Qed.

(** *** Votes *)
Abbreviation own_n := (own self s0).
(** A node between two votes: it has precommitted if it ought to, and the precommits do not
    reach the quorum yet. *)
Record counting (n : Node) : Prop := {
  co_voting : voting_n n;
  co_voted : voted Precommit (nd_state n) = true → own_n ⊆ tallied_n Precommit n;
  co_due : reached_n Prevote n = true → own_n ⊆ tallied_n Precommit n;
  co_open : reached_n Precommit n = false
}.
Definition grown (v : Vote) (n n' : Node) : Prop :=
  ∀ step, tallied_n step n ⊆ tallied_n step n' ∧
    (vt_step v = step → vt_validator_address v ∈ tallied_n step n').
Definition advances (v : Vote) (m : eff Node ConsensusError ()) (n : Node) : Prop :=
  ∃ n', m n = (Ok tt, n') ∧ (finished n' ∨ (counting n' ∧ grown v n n')).

Lemma grows_grown v n n' : tally_grows (Some block) v n n' → grown v n n'.
Proof.
  intros Hg step. rewrite (Hg step). split; [case_decide; set_solver|].
  intros E. rewrite decide_True by done. set_solver.
Qed.
Lemma reached_same step n n' : tallied_n step n' = tallied_n step n → reached_n step n' = reached_n step n.
Proof. unfold reached. by intros ->. Qed.

(** A recorded precommit either completes the quorum, and the block is finalized, or not. *)
Lemma precommit_run v n :
  voting_n n → for_block v → vt_step v = Precommit →
  ∃ n1, Consensus.record_vote self scheme v n = (Ok (None, if reached_n Precommit n1
      then Some (Block_hash block) else None), n1) ∧
    voting_n n1 ∧ same_flags n n1 ∧ grown v n n1 ∧ tallied_n Prevote n1 = tallied_n Prevote n.
Proof.
  intros Hn Hv Hst. destruct (record_run self scheme _ _ _ _ _ v n Hn Hv) as (n1 & Hrun & Hn1 & Hf & Hg & _).
  exists n1. split_and!; [|done..|by apply grows_grown|].
  - rewrite Hrun, Hst. unfold outcome. cbn [target].
    rewrite bool_decide_eq_true_2 by apply Hround. by rewrite andb_true_r.
  - by rewrite (Hg Prevote), Hst.
Qed.
Definition finish (goal : option Hash32) : eff Node ConsensusError () :=
  match goal with
  | Some block_hash => Consensus.finalize default_scheme self scheme block_hash
  | None => mret tt
  end.
Lemma finish_run (n : Node) :
  voting_n n → (reached_n Precommit n = false → counting n) →
  ∃ n', finish (if reached_n Precommit n then Some (Block_hash block) else None) n = (Ok tt, n') ∧
    (finished n' ∨ (counting n' ∧ n' = n)).
Proof.
  intros Hn Hc. destruct (reached_n Precommit n) eqn:Hq.
  - destruct (finalize_run n Hn Hq) as (n' & ? & ?). exists n'. split; [done|by left].
  - exists n. split; [done|]. right. split; [by apply Hc|done].
Qed.

Lemma handle_precommit v n :
  counting n → for_block v → vt_step v = Precommit →
  advances v (Consensus.handle_vote_actions default_scheme self scheme v) n.
Proof.
  intros Hc Hv Hst. destruct (precommit_run v n (co_voting _ Hc) Hv Hst) as (n1 & Hrun & Hn1 & Hf & Hg & Hp).
  unfold advances, Consensus.handle_vote_actions. rewrite (eff_bind_ok _ _ _ _ _ Hrun). run_pure.
  destruct (finish_run n1) as (n' & Hfin & Hn'); [done| |].
  - intros Hq. split; [done| | |done].
    + rewrite (Hf Precommit). intros Hvo. etrans; [by apply (co_voted _ Hc)|apply Hg].
    + rewrite (reached_same Prevote n) by done. intros Hr. etrans; [by apply (co_due _ Hc)|apply Hg].
  - exists n'. split; [exact Hfin|]. destruct Hn' as [?|[? ->]]; [by left|by right].
Qed.
(** The precommit that a quorum of prevotes asks for. *)
Lemma due_precommit_run n :
  voting_n n → (voted Precommit (nd_state n) = true → own_n ⊆ tallied_n Precommit n) →
  reached_n Precommit n = false →
  ∃ vote n1 goal n', Consensus.emit_precommit self scheme (Block_hash block) n = (Ok vote, n1) ∧
    match vote with
    | Some w => Consensus.record_vote self scheme w n1 = (Ok (None, goal), n')
    | None => goal = None ∧ n' = n1
    end ∧
    goal = (if reached_n Precommit n' then Some (Block_hash block) else None) ∧
    voting_n n' ∧ own_n ⊆ tallied_n Precommit n' ∧ ∀ step, tallied_n step n ⊆ tallied_n step n'.
Proof.
  intros Hn Hvo Hq. destruct (voted Precommit (nd_state n)) eqn:Hp.
  - exists None, n, None, n. split; [by apply (emit_precommit_again self scheme (Some block))|].
    rewrite Hq. split_and!; try done. by apply Hvo.
  - destruct (emit_precommit_run self scheme keypair Hsign _ _ _ _ _ n Hn Hp)
      as [(Ho & Hrun)|(w & n1 & Hrun & Hw & Hst & Ho & Hn1 & Ht & _ & _)].
    + exists None, n, None, n. rewrite Hq. split; [exact Hrun|]. split_and!; try done. rewrite Ho. set_solver.
    + destruct (precommit_run w n1 Hn1 Hw Hst) as (n2 & Hrec & Hn2 & Hf & Hg & _).
      exists (Some w), n1, (if reached_n Precommit n2 then Some (Block_hash block) else None), n2.
      split; [exact Hrun|]. split_and!; [exact Hrec|done|done| |].
      * rewrite Ho. intros a ->%elem_of_singleton. by apply Hg.
      * intros step. rewrite <-(Ht step). apply Hg.
Qed.
Lemma handle_prevote v n :
  voting_n n → (voted Precommit (nd_state n) = true → own_n ⊆ tallied_n Precommit n) →
  reached_n Precommit n = false → for_block v → vt_step v = Prevote →
  advances v (Consensus.handle_vote_actions default_scheme self scheme v) n.
Proof.
  intros Hn Hvo Hopen Hv Hst.
  destruct (record_run self scheme _ _ _ _ _ v n Hn Hv) as (n1 & Hrun & Hn1 & Hf & Hg & _).
  assert (tallied_n Precommit n1 = tallied_n Precommit n) as Hpc by (by rewrite (Hg Precommit), Hst).
  assert (reached_n Precommit n1 = false) as Hopen1 by (by rewrite (reached_same Precommit n)).
  assert (voted Precommit (nd_state n1) = true → own_n ⊆ tallied_n Precommit n1) as Hvo1
    by (by rewrite (Hf Precommit), Hpc).
  apply grows_grown in Hg. unfold advances, Consensus.handle_vote_actions.
  rewrite (eff_bind_ok _ _ _ _ _ Hrun), Hst. unfold outcome. cbn [target].
  destruct (reached_n Prevote n1) eqn:Hr.
  - destruct (due_precommit_run n1 Hn1 Hvo1 Hopen1) as (vote & n2 & goal & n3 & Hem & Hrec & Hgoal & Hn3 & Ho & Ht).
    assert (∃ n', finish goal n3 = (Ok tt, n') ∧ (finished n' ∨ (counting n' ∧ n' = n3))) as (n' & Hfin & Hn').
    { rewrite Hgoal. apply finish_run; [done|]. by split. }
    exists n'. split.
    + erewrite eff_bind_ok; [exact Hfin|]. rewrite (eff_bind_ok _ _ _ _ _ Hem).
      destruct vote as [w|]; [|by destruct Hrec as [-> ->]]. by rewrite (eff_bind_ok _ _ _ _ _ Hrec).
    + destruct Hn' as [?|[? ->]]; [by left|right; split; [done|]]. intros step.
      destruct (Hg step) as [Hs Hin]. split; [by etrans|]. intros E. apply Ht, Hin, E.
  - run_pure. exists n1. split; [done|]. right. split; [|done]. split; [done|done|congruence|done].
Qed.
Lemma handle_run v n :
  counting n → for_block v → advances v (Consensus.handle_vote_actions default_scheme self scheme v) n.
Proof.
  intros Hc Hv. destruct (vt_step v) eqn:Hst.
  - apply handle_prevote; try done; apply Hc.
  - by apply handle_precommit.
Qed.

(** *** The start of the vote *)
Lemma reached_empty step n : tallied_n step n = ∅ → reached_n step n = false.
Proof.
  intros E. unfold reached. rewrite E, size_empty. unfold Consensus.quorum.
  by rewrite Nat.add_comm.
Qed.
Record unvoted (n : Node) : Prop := {
  un_voting : voting_n n;
  un_flags step : voted step (nd_state n) = false;
  un_tallies step : tallied_n step n = ∅;
  un_unlocked : rs_locked_block (nd_state n) = None
}.
Lemma vote_on_proposal_run n :
  unvoted n →
  ∃ n', Consensus.vote_on_proposal default_scheme self scheme n = (Ok tt, n') ∧
    (finished n' ∨ (counting n' ∧ own_n ⊆ tallied_n Prevote n')).
Proof.
  intros [Hn Hf Ht Hl]. unfold Consensus.vote_on_proposal.
  destruct (emit_prevote_run self scheme keypair Hsign _ _ _ _ _ n Hn (Hf Prevote) Hl)
    as [(Ho & Hrun)|(v & n1 & Hrun & Hv & Hst & Ho & Hn1 & Ht1 & _ & Hf1)]; rewrite (eff_bind_ok _ _ _ _ _ Hrun).
  - exists n. split; [done|]. right. rewrite Ho. split; [|set_solver].
    split; [done|by rewrite (Hf Precommit)|by rewrite reached_empty by apply Ht|by apply reached_empty].
  - destruct (handle_prevote v n1) as (n2 & E & Hn2); try done.
    + rewrite (Hf1 Precommit), (Hf Precommit). done.
    + apply reached_empty. by rewrite (Ht1 Precommit).
    + exists n2. split; [exact E|]. destruct Hn2 as [?|[Hc Hg]]; [by left|right; split; [done|]].
      rewrite Ho. intros a ->%elem_of_singleton. by apply Hg.
Qed.

(** *** Delivery of a list of votes *)
Context (iteration : Inner → list Transaction).
Abbreviation event_n e := (Consensus.on_event default_scheme self scheme iteration e).
Definition deliver (n : Node) (votes : list Vote) : Node :=
  foldl (λ n v, (event_n (Inbound (MsgVote v)) n).2) n votes.
(** The block is decided; votes that come late change nothing of it. *)
Record decided (n : Node) : Prop := {
  de_height : rs_height (nd_state n) = h + 1;
  de_block : ∃ finalized, Store.get_block_by_height h (nd_store n) = Some finalized ∧
    fb_block finalized = block ∧ MsgCommit finalized ∈ nd_outbox n;
  de_accounts : Store.accounts (nd_store n) = final_accounts
}.
Lemma finished_decided n : finished n → decided n.
Proof. intros []. by split. Qed.

Lemma late_vote v n : decided n → vt_height v = h → decided (event_n (Inbound (MsgVote v)) n).2.
Proof.
  intros [Hh Hb Ha] Hvh. cbn [Consensus.on_event]. unfold Consensus.logged, Consensus.on_vote.
  assert (∃ n1, (Consensus.handle_vote_actions default_scheme self scheme v n).2 = n1 ∧
    nd_state n1 = nd_state n ∧ nd_outbox n1 = nd_outbox n ∧
    chain_frame (nd_store n) (nd_store n1)) as (n1 & E & Hs & Ho & Hacc & Hbl).
  { unfold Consensus.handle_vote_actions, Consensus.record_vote, Consensus.note_validator_liveness,
      mbind, eff_bind, eff_lift, Consensus.get_state, Consensus.get_store.
    destruct (verify_vote scheme v); cbn [map_err]; [|by exists n..].
    destruct (Staking.note_liveness _ _) as [[[]|e|] st]; cbn [map_err]; [|by exists n..].
    cbn [nd_state upd_nd_store Consensus.modify_store eff_modify].
    rewrite Hh, Hvh, (proj2 (Z.eqb_neq h (h + 1))) by lia. cbn. by eexists. }
  destruct (Consensus.handle_vote_actions _ _ _ _ _) as [[[]|e|] n2]; cbn [snd] in *; subst n2;
    (split; [by rewrite Hs| |unfold Store.accounts; by rewrite Hacc]);
    unfold Store.get_block_by_height; by rewrite Hbl, Ho.
Qed.

Lemma deliver_decided votes n : decided n → Forall for_block votes → decided (deliver n votes).
Proof.
  intros Hn Hv. revert n Hn. induction Hv as [|v votes Hv Hvs IH]; intros n Hn; [done|].
  apply IH, late_vote; [done|apply Hv].
Qed.
Definition voters (step : VoteStep) (votes : list Vote) : gset Address :=
  list_to_set (vt_validator_address <$> filter (λ v, vt_step v = step) votes).
Lemma voters_cons step v votes :
  voters step (v :: votes) =
  (if decide (vt_step v = step) then {[ vt_validator_address v ]} else ∅) ∪ voters step votes.
Proof.
  unfold voters. case_decide; [rewrite filter_cons_True by done|rewrite filter_cons_False by done];
    cbn; set_solver.
Qed.
Lemma deliver_run votes n :
  counting n → Forall for_block votes →
  decided (deliver n votes) ∨
  (counting (deliver n votes) ∧
   ∀ step, tallied_n step n ∪ voters step votes ⊆ tallied_n step (deliver n votes)).
Proof.
  intros Hn Hv. revert n Hn. induction Hv as [|v votes Hv Hvs IH]; intros n Hn.
  { right. split; [done|]. intros step. cbn. set_solver. }
  destruct (handle_run v n Hn Hv) as (n1 & E & Hn1).
  assert (deliver n (v :: votes) = deliver n1 votes) as ->.
  { unfold deliver at 1. cbn [foldl Consensus.on_event].
    unfold Consensus.logged at 2, Consensus.on_vote at 2. by rewrite E. }
  destruct Hn1 as [Hfin|[Hc Hg]]; [left; by apply deliver_decided; [apply finished_decided|]|].
  destruct (IH n1 Hc) as [?|[Hc' Hs]]; [by left|right]. split; [done|]. intros step.
  rewrite voters_cons. destruct (Hg step) as [Hmono Hin]. specialize (Hs step).
  case_decide; set_solver.
Qed.

(** Whether the votes reach the quorum, with the precommit that the node adds itself when
    the prevotes do. *)
Definition own_precommit (votes : list Vote) : gset Address :=
  if Nat.leb (Consensus.quorum self s0) (size (own_n ∪ voters Prevote votes)) then own_n else ∅.
Definition supermajority (votes : list Vote) : Prop :=
  (Consensus.quorum self s0 ≤ size (own_precommit votes ∪ voters Precommit votes))%nat.
Lemma deliver_decides votes n :
  counting n → own_n ⊆ tallied_n Prevote n → Forall for_block votes → supermajority votes →
  decided (deliver n votes).
Proof.
  intros Hn Ho Hv Hq. destruct (deliver_run votes n Hn Hv) as [?|[Hc Hs]]; [done|exfalso].
  pose proof (co_open _ Hc) as Hopen. apply Nat.leb_gt in Hopen.
  assert (own_precommit votes ⊆ tallied_n Precommit (deliver n votes)) as Hown.
  { unfold own_precommit. destruct (Nat.leb _ _) eqn:Hr; [|set_solver]. apply (co_due _ Hc).
    apply Nat.leb_le. apply Nat.leb_le in Hr. etrans; [exact Hr|]. apply subseteq_size.
    specialize (Hs Prevote). set_solver. }
  unfold supermajority in Hq. apply (Nat.lt_irrefl (Consensus.quorum self s0)).
  eapply Nat.le_lt_trans; [exact Hq|]. eapply Nat.le_lt_trans; [|exact Hopen].
  apply subseteq_size. specialize (Hs Precommit). set_solver.
Qed.

(** The proposal arrives in a round in which nothing happened yet. *)
Lemma proposal_run p n :
  node_inv scheme n → fresh_round (nd_state n) → nd_network_up n = true → nd_mempool n = pool →
  rs_height (nd_state n) = h → rs_round (nd_state n) = r → nd_store n = s0 →
  pr_block p = block → pr_height p = h → pr_round p = r →
  Consensus.validate_incoming_proposal self scheme p s0 = Ok tt →
  ∃ n', Consensus.on_proposal default_scheme self scheme p n = (Ok tt, n') ∧
    (finished n' ∨ (counting n' ∧ own_n ⊆ tallied_n Prevote n')).
Proof.
  intros Hi Hfr Hup Hpo Hh Hr Hst Hpb Hph Hpr Hval. destruct Hfr as [Fp Fpv Fpc Fv Fpd Fpcd Fe Fl].
  unfold Consensus.on_proposal. run_pure. rewrite Hst.
  rewrite (eff_bind_ok _ _ n tt n) by (unfold eff_lift; by rewrite Hval). run_pure.
  rewrite Hph, Hpr, Hh, Hr, !Z.eqb_refl, Fp, Hpb. cbn [negb orb]. do 2 run_pure.
  apply vote_on_proposal_run. set (n1 := upd_nd_state _ _).
  assert (node_inv scheme n1) as Hi1.
  { apply (benign_inv scheme); [|by apply append_neutral_inv].
    split_and!; [done|done|by intros []|by intros []|]. intros b [= <-]. right. cbn.
    by rewrite Hh, Hr, (rb_height Hround), (rb_round Hround). }
  split; [split| | |]; try done.
  - cbn. by rewrite Fv.
  - cbn. rewrite Hst. apply later_append.
  - intros []; [exact Fpd|exact Fpcd].
  - intros []; unfold tallied; cbn; by rewrite ?Fpv, ?Fpc, lookup_empty.
Qed.
End finality.

Lemma validated_point `{HashBackend, HexEncode, ChainCodec} (self : ConsensusEngine)
    (scheme : SignatureScheme) p store :
  Consensus.validate_incoming_proposal self scheme p store = Ok tt →
  bh_height (bk_header (pr_block p)) = pr_height p ∧ bh_round (bk_header (pr_block p)) = pr_round p.
Proof.
  unfold Consensus.validate_incoming_proposal. intros Hv. run_ok Hv. to_prop. done.
Qed.

(** C8: a supermajority finalizes.  Take a reachable node in a round where nothing happened
    yet; deliver to it a proposal that it validates and whose native transactions execute,
    and then correctly signed votes for the proposal from registered validators, in any
    order, prevotes and precommits mixed and repeated at will.  When the precommits reach
    the quorum, counting the node's own once the prevotes reach it, then at the end the
    block is stored at its height with its execution's accounts and was announced, and the
    node is at the next height: no late vote, no error and no order of arrival prevents it. *)
Theorem supermajority_finalizes `{HashBackend, HexEncode, ChainCodec, RevmBackend}
    (default_scheme scheme : SignatureScheme) keypair `{!SignatureSchemeLaws scheme keypair}
    (self : ConsensusEngine) (iteration : Inner → list Transaction) (n : Node) (p : Proposal)
    (votes : list Vote) (state' : Smt.StateSnapshot) :
  let h := rs_height (nd_state n) in
  let r := rs_round (nd_state n) in
  let block := pr_block p in
  reachable default_scheme self scheme iteration n →
  fresh_round (nd_state n) → nd_network_up n = true → h + 1 ≤ U64_MAX →
  en_validators (ce_execution self) = ce_validators self → can_sign self scheme keypair →
  keyed (Consensus.ledger self (nd_store n)) →
  pr_height p = h → pr_round p = r →
  Consensus.validate_incoming_proposal self scheme p (nd_store n) = Ok tt →
  executable (ce_execution self) scheme (nd_store n) block state' → Block_hash block ≠ NIL_HASH →
  Forall (for_target self scheme (nd_store n) (Some block) h r) votes →
  supermajority self (nd_store n) votes →
  let n' := foldl (λ n v,
      (Consensus.on_event default_scheme self scheme iteration (Inbound (MsgVote v)) n).2)
    (Consensus.on_event default_scheme self scheme iteration (Inbound (MsgProposal p)) n).2 votes in
  rs_height (nd_state n') = h + 1 ∧
  (∃ finalized, Store.get_block_by_height h (nd_store n') = Some finalized ∧
    fb_block finalized = block ∧ MsgCommit finalized ∈ nd_outbox n') ∧
  Store.accounts (nd_store n') = paid (ce_execution self) (bh_proposer (bk_header block))
    (block_fees (bk_transactions block)) state'.
Proof.
  intros h r block Hn Hfr Hup Hmax Hplane Hsign Hk Hph Hpr Hval Hex Hnil Hvotes Hq n'.
  pose proof (reachable_inv _ _ _ _ _ Hn) as Hi. destruct (validated_point _ _ _ _ Hval) as [Hbh Hbr].
  assert (round_block self scheme (nd_store n) block h r state') as Hround.
  { split; try done; [by rewrite <-Hph|by rewrite <-Hpr|]. split; [|done]. apply Hi. }
  destruct (proposal_run default_scheme self scheme keypair Hplane Hsign (nd_store n) (nd_mempool n)
    block h r state' Hround p n) as (n1 & E & Hn1); try done.
  assert (n' = deliver default_scheme self scheme iteration n1 votes) as ->.
  { unfold n', deliver. f_equal. cbn [Consensus.on_event]. unfold Consensus.logged. by rewrite E. }
  enough (decided self block h state' (deliver default_scheme self scheme iteration n1 votes)) as [] by done.
  destruct Hn1 as [Hfin|[Hc Ho]].
  - eapply deliver_decided; [by eapply finished_decided|exact Hvotes].
  - eapply deliver_decides; done.
Qed.
