(* ===== verification/Solo.v ===== *)
(** A network of one validator: every timeout of its node adds a block as long as the
    transactions it selects execute, and stops its consensus task when they do not. *)

From S2P Require Import Prelude Wp Types Codec Hash Crypto Wire Primitives Storage Smt Staking.
From S2P Require Import Mempool Zk Evm Execution Rounds Durability Consensus ConsensusInv.
From S2P Require Import Certificates ConsensusSafety ConsensusProgress Delivery Finality.

Lemma entries_singleton {V} (a : Address) (x : V) : entries ({[a := x]} : gmap Address V) = [(a, x)].
Proof.
  apply Permutation_singleton_r. by rewrite entries_Permutation, map_to_list_singleton.
Qed.

Section solo.
Context `{HashBackend, HexEncode, ChainCodec, RevmBackend} (default_scheme : SignatureScheme)
  (self : ConsensusEngine) (scheme : SignatureScheme)
  (keypair : list byte → list byte → Prop) `{!SignatureSchemeLaws scheme keypair}
  (iteration : Inner → list Transaction) (v : Validator) (sk : list byte).
Abbreviation me := (vd_address v).
Abbreviation engine := (ce_execution self).
Abbreviation ledger := (Consensus.ledger self).

(** The engine of the only validator of its genesis. *)
Record sole : Prop := {
  so_validators : ce_validators self = [v];
  so_local : ce_local_validator self = Some {| lv_validator := v; lv_secret_key := sk |};
  so_plane : en_validators engine = ce_validators self;
  so_sign : can_sign self scheme keypair
}.
Hypothesis Hsole : sole.

(** The ledger has one entry, and it may propose. *)
Definition manned (s : MemoryInner) : Prop :=
  ∃ vs, ss_validators (ledger s) = {[ me := vs ]} ∧ vs_validator_address vs = me ∧
    Staking.eligible (ce_economics self) vs = true.

Section manned.
Context (s : MemoryInner).
Hypothesis Hman : manned s.
Lemma manned_keyed : keyed (ledger s).
Proof.
  destruct Hman as (vs & E & Ha & _). unfold keyed. rewrite E.
  intros a vs' [<- <-]%lookup_singleton_Some. exact Ha.
Qed.
Lemma manned_registered : registered self s me.
Proof. destruct Hman as (vs & E & _). exists vs. by rewrite E, lookup_singleton_eq. Qed.
Lemma manned_active : Consensus.local_validator_active self s = true.
Proof.
  destruct Hman as (vs & E & _ & He). unfold Consensus.local_validator_active, Staking.is_validator_active.
  by rewrite (so_local Hsole), E, lookup_singleton_eq.
Qed.
Lemma manned_validators : Consensus.active_validators self s = [v].
Proof.
  destruct Hman as (vs & E & Ha & He). unfold Consensus.active_validators, Staking.effective_validator_set.
  rewrite E, entries_singleton. cbn [fmap list_fmap snd]. rewrite filter_cons_True by done.
  rewrite filter_nil. cbn [merge_sort fmap list_fmap]. unfold merge_sort; cbn. rewrite Ha.
  unfold Consensus.validators_by_address. rewrite (so_validators Hsole). cbn.
  by rewrite lookup_insert_eq.
Qed.
Lemma manned_quorum : Consensus.quorum self s = 1%nat.
Proof. unfold Consensus.quorum. by rewrite manned_validators. Qed.
Lemma manned_proposer h r : Consensus.proposer_for self h r s = Ok v.
Proof. unfold Consensus.proposer_for. rewrite manned_validators. cbn [length]. by rewrite Z.mod_1_r. Qed.
Lemma manned_own : own self s = {[ me ]}.
Proof. unfold own. by rewrite (so_local Hsole), manned_active. Qed.
Lemma manned_fresh : noted self s me → Staking.stale (ledger s) = [].
Proof.
  intros (vs & Hl & Hn). destruct Hman as (vs' & E & _). rewrite E in Hl.
  apply lookup_singleton_Some in Hl as [_ ->].
  unfold Staking.stale. rewrite E, entries_singleton. cbn [fmap list_fmap snd].
  rewrite filter_cons_False; [done|]. rewrite Hn, Z.ltb_irrefl, andb_false_r. done.
Qed.
End manned.
Lemma manned_same s s' :
  ss_validators (ledger s') = ss_validators (ledger s) → manned s → manned s'.
Proof. intros E. unfold manned. by rewrite E. Qed.
Lemma manned_alike s s' : alike self s s' → manned s → manned s'.
Proof.
  intros [_ _ _ L] (vs & E & Ha & He). rewrite E, map_fmap_singleton in L.
  assert (∃ vs', ss_validators (ledger s') = {[ me := vs' ]} ∧ still vs' = still vs) as (vs' & E' & Hs).
  { pose proof (f_equal (lookup me) L) as Hl. rewrite lookup_fmap, lookup_singleton_eq in Hl.
    destruct (ss_validators (ledger s') !! me) as [vs'|] eqn:Hv; [|done]. exists vs'.
    split; [|by apply (inj Some) in Hl]. apply map_eq. intros a. pose proof (f_equal (lookup a) L) as Hla.
    rewrite lookup_fmap in Hla. destruct (decide (me = a)) as [<-|Hne].
    - by rewrite lookup_singleton_eq.
    - rewrite lookup_singleton_ne in * by done. by destruct (ss_validators (ledger s') !! a). }
  exists vs'. split; [exact E'|]. split.
  - by rewrite <-Ha; apply (f_equal vs_validator_address) in Hs.
  - by rewrite <-still_eligible, Hs.
Qed.

(** ** A round without a proposal *)

(** A node between two heights, or between two rounds in which nothing was proposed. *)
Record resting (n : Node) : Prop := {
  re_inv : node_inv scheme n;
  re_fresh : fresh_round (nd_state n);
  re_network : nd_network_up n = true;
  re_manned : manned (nd_store n)
}.
Abbreviation nil_voting s pool h r := (voting self scheme s pool None h r).
Lemma nil_vote_run n :
  resting n →
  ∃ n', Consensus.vote_on_proposal default_scheme self scheme n = (Ok tt, n') ∧
    nil_voting (nd_store n) (nd_mempool n) (rs_height (nd_state n)) (rs_round (nd_state n)) n' ∧
    rs_locked_block (nd_state n') = None ∧ noted self (nd_store n') me.
Proof.
  intros [Hi [Fp Fpv Fpc Fv Fpd Fpcd Fe Fl] Hup Hman].
  set (h := rs_height (nd_state n)). set (r := rs_round (nd_state n)).
  assert (nil_voting (nd_store n) (nd_mempool n) h r n) as Hn by (split; try done; by rewrite Fv).
  pose proof (manned_own _ Hman) as Hown. pose proof (manned_quorum _ Hman) as Hq.
  unfold Consensus.vote_on_proposal.
  destruct (emit_prevote_run self scheme keypair (so_sign Hsole) _ _ _ _ _ n Hn Fpd Fl)
    as [(Ho & _)|(w1 & n1 & E1 & Hw1 & Hs1 & Ho1 & Hn1 & Ht1 & L1 & F1)]; [set_solver|].
  rewrite (eff_bind_ok _ _ _ _ _ E1). unfold Consensus.handle_vote_actions.
  destruct (record_run self scheme _ _ _ _ _ w1 n1 Hn1 Hw1) as (n2 & E2 & Hn2 & F2 & G2 & N2 & L2).
  rewrite (eff_bind_ok _ _ _ _ _ E2), Hs1. unfold outcome.
  assert (vt_validator_address w1 = me) as Ha1 by set_solver.
  rewrite Ha1 in *. assert (reached self (nd_store n) None Prevote n2 = true) as ->.
  { apply Nat.leb_le. rewrite Hq, (G2 Prevote), Hs1, decide_True, Ha1 by done.
    pose proof (subseteq_size ({[ me ]} : gset Address) ({[ me ]} ∪ tallied None Prevote n1)) as Hsz.
    rewrite size_singleton in Hsz. apply Hsz. set_solver. }
  assert (voted Precommit (nd_state n2) = false) as Fpc2 by (rewrite (F2 Precommit), (F1 Precommit); exact Fpcd).
  destruct (emit_precommit_run self scheme keypair (so_sign Hsole) _ _ _ _ _ n2 Hn2 Fpc2)
    as [(Ho & _)|(w3 & n3 & E3 & Hw3 & Hs3 & Ho3 & Hn3 & Ht3 & L3 & F3)]; [set_solver|].
  destruct (record_run self scheme _ _ _ _ _ w3 n3 Hn3 Hw3) as (n4 & E4 & Hn4 & F4 & G4 & N4 & L4).
  assert (vt_validator_address w3 = me) as Ha3 by set_solver. rewrite Ha3 in *.
  exists n4. split_and!; [|done| |done].
  - rewrite (eff_bind_ok _ _ n2 None n4); [done|]. rewrite (eff_bind_ok _ _ _ _ _ E3).
    rewrite (eff_bind_ok _ _ _ _ _ E4), Hs3. unfold outcome. cbn [target].
    by rewrite bool_decide_eq_false_2, andb_false_r by (by intros []).
  - by rewrite L4, L3, L2, L1.
Qed.

(** The rest of the timeout opens the next round. *)
Lemma advance_round_run n :
  node_inv scheme n → rs_round (nd_state n) + 1 ≤ U32_MAX → rs_height (nd_state n) + 1 ≤ U64_MAX →
  ∃ n', Consensus.advance_round n = (Ok tt, n') ∧ node_inv scheme n' ∧
    nd_state n' = Consensus.clear_round (rs_height (nd_state n)) (rs_round (nd_state n) + 1) (nd_state n) ∧
    nd_mempool n' = nd_mempool n ∧ nd_network_up n' = nd_network_up n ∧
    nd_outbox n' = nd_outbox n ∧ later self (nd_store n) (nd_store n').
Proof.
  intros Hi Hr Hh. pose proof (advance_round_inv scheme n Hi Hr) as Hwp.
  destruct (Consensus.advance_round n) as [x n'] eqn:E. pose proof (wp_run _ _ _ _ _ _ Hwp E) as Hn'.
  assert (wrapping U32_MAX (rs_round (nd_state n) + 1) = rs_round (nd_state n) + 1) as Ew
    by (pose proof (ri_round _ _ (ni_round _ _ Hi)); apply wrapping_small; ulia).
  assert (x = Ok tt) as -> by exact (f_equal fst (eq_sym E)).
  apply (f_equal snd) in E. cbn [snd] in E. subst n'.
  eexists. split; [reflexivity|]. split; [apply Hn'|]. split; [rewrite <-Ew; reflexivity|].
  by split_and!.
Qed.

(** ** Proposing *)
Definition last_signed (s : MemoryInner) : Z :=
  sp_last_signed_proposal_height (default SlashingProtection_default (Store.get_slashing_protection me s)).
(** The transactions that the next proposal at a height takes from a pool. *)
Definition selection (height : Z) (pool : Inner) : list Transaction :=
  Mempool.select_for_block_prioritized (iteration (Mempool.evict_expired height pool))
    (Z.to_nat (cp_max_transactions_per_block (ce_params self))) height.
(** The block built from them when they lead to [state']. *)
Definition own_header (s : MemoryInner) (height round now_ms : Z) (txs : list Transaction)
    (state' : Smt.StateSnapshot) : BlockHeader :=
  Execution.build_header engine me height round now_ms txs
    (paid engine me (block_fees txs) state') (native_receipts height txs) s.
Definition own_block (s : MemoryInner) (height round now_ms : Z) (txs : list Transaction)
    (state' : Smt.StateSnapshot) : res AnyError Block :=
  sign_block scheme (own_header s height round now_ms txs state') txs (vd_public_key v) sk.
(** A block that may be proposed: it is within the size limit, and its hash is not the one
    that stands for no block. *)
Definition proposable (block : Block) : Prop :=
  Z.of_nat (length (encode_to_vec block)) ≤ cp_max_block_bytes (ce_params self) ∧
  Block_hash block ≠ NIL_HASH.
Abbreviation native txs := (Forall (λ tx, tb_evm (tx_body tx) = None) txs).

Lemma own_block_spec s height round now_ms txs state' block :
  own_block s height round now_ms txs state' = Ok block →
  bk_header block = own_header s height round now_ms txs state' ∧ bk_transactions block = txs ∧
  verify_block scheme block = Ok tt.
Proof.
  intros Hb. destruct (so_sign Hsole _ (so_local Hsole)) as (Hkey & Haddr & _). cbn in Hkey, Haddr.
  pose proof (signed_block_verifies scheme keypair _ _ _ _ _ _ Hkey Haddr Hb eq_refl) as Hver.
  unfold own_block, sign_block in Hb. apply res_bind_ok in Hb as (bs & _ & Hb).
  by apply res_bind_ok in Hb as (sg & _ & [= <-]).
Qed.
(** It executes on the store it was built on. *)
Lemma own_block_executable s height round now_ms txs state' block :
  own_block s height round now_ms txs state' = Ok block →
  native txs → settled engine scheme height txs (Smt.load s) state' →
  executable engine scheme s block state'.
Proof.
  intros Hb Hn Hs. destruct (own_block_spec _ _ _ _ _ _ _ Hb) as (Hh & Ht & Hv).
  split; rewrite ?Hh, ?Ht; [done..|]. split; [exact Hv|]. by rewrite Hh, Ht.
Qed.

Lemma announce_run n block state' :
  resting n → 0 ≤ rs_height (nd_state n) → rs_height (nd_state n) + 1 ≤ U64_MAX →
  bh_height (bk_header block) = rs_height (nd_state n) →
  bh_round (bk_header block) = rs_round (nd_state n) →
  executable engine scheme (nd_store n) block state' → Block_hash block ≠ NIL_HASH →
  ∃ s1 n', Consensus.announce default_scheme self scheme
      {| lv_validator := v; lv_secret_key := sk |} (nd_state n) v block n = (Ok tt, n') ∧
    later self (nd_store n) s1 ∧ noted self s1 me ∧
    finished self s1 (nd_mempool n) block (rs_height (nd_state n)) state' n'.
Proof.
  intros [Hi [Fp Fpv Fpc Fv Fpd Fpcd Fe Fl] Hup Hman] Hh0 Hmax Hbh Hbr Hex Hnil.
  unfold Consensus.announce. cbn [lv_validator].
  destruct (note_run self me n (manned_registered _ Hman)) as (s1 & Hnote & Hla & Hno).
  assert (node_inv scheme (upd_nd_store (λ _, s1) n)) as Hi1.
  { assert (wp (Consensus.note_validator_liveness self me) n (λ _ n', node_inv scheme n') (λ _, True)) as Hwp
      by (apply wp_note_liveness; [intros n' Hq; by eapply quiet_inv|done]).
    exact (wp_run _ _ _ _ _ _ Hwp Hnote). }
  rewrite (eff_bind_ok _ _ _ _ _ Hnote). do 3 run_pure.
  set (n1 := upd_nd_store _ (upd_nd_state _ _)).
  assert (node_inv scheme n1) as Hi2.
  { apply append_neutral_inv; [done|]. apply (benign_inv scheme); [|by apply append_neutral_inv].
    split_and!; [done|done|by intros []|by intros []|]. intros b [= <-]. by right. }
  unfold Consensus.broadcast at 1. erewrite eff_bind_ok; [|run_pure; cbn [nd_network_up n1 upd_nd_store upd_nd_state]; by rewrite Hup].
  set (n2 := upd_nd_outbox _ n1).
  assert (node_inv scheme n2) as Hi3.
  { destruct Hi2 as [R Se D]. split; [exact R|by apply sent_other|exact D]. }
  assert (later self (nd_store n) (nd_store n2)) as Hl2.
  { etrans; [exact Hla|]. cbn. etrans; [apply later_append|apply later_append]. }
  set (h := rs_height (nd_state n)) in *. set (r := rs_round (nd_state n)) in *.
  assert (round_block self scheme (nd_store n2) block h r state') as Hround.
  { pose proof (la_alike _ _ _ Hl2) as Hal. split; try done.
    - eapply keyed_alike; [exact Hal|by apply manned_keyed].
    - destruct Hal as [A B _ _]. by eapply executable_same. }
  assert (noted self (nd_store n2) me) as Hn2 by exact Hno.
  destruct (vote_on_proposal_run default_scheme self scheme keypair (so_plane Hsole) (so_sign Hsole)
    (nd_store n2) (nd_mempool n) block h r state' Hround n2) as (n' & E & Hn').
  { split; [split| | |]; try done; cbn.
    - by rewrite Fv.
    - intros []; [exact Fpd|exact Fpcd].
    - intros []; unfold tallied; cbn; by rewrite ?Fpv, ?Fpc, lookup_empty. }
  exists (nd_store n2), n'. split; [exact E|]. split; [exact Hl2|]. split; [exact Hn2|].
  destruct Hn' as [?|[Hc Ho]]; [done|exfalso].
  assert (manned (nd_store n2)) as Hm2 by (eapply manned_alike; [apply Hl2|done]).
  rewrite manned_own in Ho by done.
  pose proof (co_open _ _ _ _ _ _ _ _ Hc) as Hopen. pose proof (co_due _ _ _ _ _ _ _ _ Hc) as Hdue.
  unfold reached in Hopen, Hdue. rewrite manned_quorum, manned_own in * by done.
  apply Nat.leb_gt in Hopen. apply subseteq_size in Ho. rewrite size_singleton in Ho.
  apply Nat.leb_le, Hdue, subseteq_size in Ho. rewrite size_singleton in Ho. lia.
Qed.

(** *** The decision to propose *)

(** The node once it has marked the height as signed and dropped the expired transactions. *)
Definition marked (n : Node) : Node :=
  upd_nd_mempool (Mempool.evict_expired (rs_height (nd_state n)))
    (upd_nd_store (Store.put_slashing_protection me (Consensus.with_signed_height
      (rs_height (nd_state n)) (default SlashingProtection_default
        (Store.get_slashing_protection me (nd_store n))))) n).
Lemma marked_resting n : resting n → resting (marked n).
Proof. intros [Hi Hf Hup Hm]. split; [by apply (quiet_inv scheme n)|exact Hf|exact Hup|exact Hm]. Qed.
Lemma marked_signed n : last_signed (nd_store (marked n)) = rs_height (nd_state n).
Proof. unfold last_signed, Store.get_slashing_protection. cbn. by rewrite lookup_insert_eq. Qed.
Lemma propose_eq now_ms n :
  rs_proposal (nd_state n) = None → manned (nd_store n) →
  Consensus.maybe_propose default_scheme self scheme iteration now_ms n =
  if rs_height (nd_state n) <=? last_signed (nd_store n) then (Ok tt, n) else
  (block ← Consensus.build_proposal default_scheme self scheme
      {| lv_validator := v; lv_secret_key := sk |} (nd_state n) v
      (selection (rs_height (nd_state n)) (nd_mempool n)) now_ms;
   if cp_max_block_bytes (ce_params self) <? Z.of_nat (length (encode_to_vec block)) then mret tt
   else Consensus.announce default_scheme self scheme
      {| lv_validator := v; lv_secret_key := sk |} (nd_state n) v block) (marked n).
Proof.
  intros Hprop Hman. unfold Consensus.maybe_propose. rewrite (so_local Hsole).
  run_pure. rewrite manned_active by done. cbn [negb]. run_pure.
  rewrite (eff_bind_ok _ _ n v n) by (unfold eff_lift; by rewrite manned_proposer).
  cbn [lv_validator]. rewrite bool_decide_eq_false_2 by (by intros []).
  rewrite Hprop, bool_decide_eq_false_2 by (by intros []).
  fold (last_signed (nd_store n)). by destruct (_ <=? last_signed _).
Qed.

(** What one proposal adds to the chain. *)
Record extends (n n' : Node) (block : Block) (state' : Smt.StateSnapshot) : Prop := {
  ex_resting : resting n';
  ex_unsigned : last_signed (nd_store n') < rs_height (nd_state n');
  ex_height : rs_height (nd_state n') = rs_height (nd_state n) + 1;
  ex_round : rs_round (nd_state n') = 0;
  ex_block : ∃ finalized,
    Store.get_block_by_height (rs_height (nd_state n)) (nd_store n') = Some finalized ∧
    fb_block finalized = block ∧ MsgCommit finalized ∈ nd_outbox n';
  ex_accounts : Store.accounts (nd_store n') = paid engine me (block_fees (bk_transactions block)) state';
  ex_pool : nd_mempool n' = Mempool.remove_committed (bk_transactions block)
    (Mempool.evict_expired (rs_height (nd_state n)) (nd_mempool n))
}.
Lemma propose_run now_ms n state' block :
  resting n → last_signed (nd_store n) < rs_height (nd_state n) →
  0 ≤ rs_height (nd_state n) → rs_height (nd_state n) + 1 ≤ U64_MAX →
  let txs := selection (rs_height (nd_state n)) (nd_mempool n) in
  native txs → settled engine scheme (rs_height (nd_state n)) txs (Smt.load (nd_store n)) state' →
  own_block (nd_store n) (rs_height (nd_state n)) (rs_round (nd_state n)) now_ms txs state' = Ok block →
  proposable block →
  ∃ n', Consensus.maybe_propose default_scheme self scheme iteration now_ms n = (Ok tt, n') ∧
    (node_inv scheme n' → extends n n' block state').
Proof.
  intros Hn Hsig Hh0 Hmax txs Hnat Hset Hb [Hsize Hnil].
  rewrite propose_eq, (proj2 (Z.leb_gt _ _)) by (done || apply Hn). fold txs.
  set (h := rs_height (nd_state n)) in *. set (r := rs_round (nd_state n)) in *.
  pose proof (marked_resting n Hn) as Hn1. set (n1 := marked n) in *.
  assert (keyed (engine_ledger engine (nd_store n1))) as Hk.
  { unfold engine_ledger. rewrite (so_plane Hsole). apply manned_keyed, Hn1. }
  unfold Consensus.build_proposal. rewrite (eff_bind_ok _ _ n1 block n1).
  2:{ erewrite eff_bind_ok; [|unfold Consensus.on_store, Execution.err_into;
        rewrite (native_dry_run default_scheme engine scheme h me txs (nd_store n1) state' Hnat Hset Hk); reflexivity].
      cbv beta iota. run_pure. unfold eff_lift. cbn [lv_validator lv_secret_key].
      change ((map_err CeAny (own_block (nd_store n) h r now_ms txs state'), n1) =
        (Ok (E:=ConsensusError) block, n1)). by rewrite Hb. }
  rewrite (proj2 (Z.ltb_ge _ _)) by done.
  destruct (own_block_spec _ _ _ _ _ _ _ Hb) as (Hbh & Hbt & _).
  destruct (announce_run n1 block state') as (s1 & n' & E & Hl1 & Hno1 & Hfin); try done; [by rewrite Hbh..| |].
  { by apply (own_block_executable (nd_store n1) h r now_ms txs). }
  exists n'. split; [exact E|]. intros Hi'. destruct Hfin as [Fh Fr Ff Fb Fa Fp Fn Fs Fk (s2 & Hl2 & Fv)].
  split; try done.
  - split; [done..|]. apply (manned_same s2); [|eapply manned_alike; [apply (la_alike _ _ _ Hl2)|]].
    + apply Fv, manned_fresh; [|by apply Hl2].
      eapply manned_alike; [apply (la_alike _ _ _ Hl2)|]. eapply manned_alike; [apply Hl1|apply Hn1].
    + eapply manned_alike; [apply Hl1|apply Hn1].
  - unfold last_signed, Store.get_slashing_protection.
    rewrite Fs, Fh, (al_slashing _ _ _ (la_alike _ _ _ Hl1)).
    change (last_signed (nd_store n1) < h + 1). unfold n1. rewrite marked_signed. fold h. lia.
  - rewrite Fa. unfold final_accounts. by rewrite Hbh.
Qed.

(** ** A timeout *)
Abbreviation timeout now_ms := (Consensus.on_event default_scheme self scheme iteration (RoundTimeout now_ms)).
(** It first votes nil and opens the next round, with the chain and the pool as they are. *)
Lemma timeout_opens now_ms n :
  resting n → roomy (RoundTimeout now_ms) n →
  ∃ n1, timeout now_ms n = Consensus.maybe_propose default_scheme self scheme iteration now_ms n1 ∧
    resting n1 ∧ rs_height (nd_state n1) = rs_height (nd_state n) ∧
    rs_round (nd_state n1) = rs_round (nd_state n) + 1 ∧
    nd_mempool n1 = nd_mempool n ∧ alike self (nd_store n) (nd_store n1).
Proof.
  intros Hn (Hh & Hr & _). pose proof (re_manned _ Hn) as Hman.
  destruct (nil_vote_run n Hn) as (n1 & E1 & [Hi1 Hh1 Hr1 Hp1 He1 Hv1 Hup1 Hpo1 Hl1] & Hlo & _).
  destruct (advance_round_run n1) as (n2 & E2 & Hi2 & Hs2 & Hpo2 & Hup2 & _ & Hl2); [done|lia..|].
  exists n2. split.
  { cbn [Consensus.on_event]. rewrite (eff_bind_ok _ _ _ _ _ E1). by rewrite (eff_bind_ok _ _ _ _ _ E2). }
  assert (alike self (nd_store n) (nd_store n2)) as Hal by (etrans; [apply Hl1|apply Hl2]).
  split_and!; rewrite ?Hs2, ?Hpo2, ?Hh1, ?Hr1; try done.
  split; rewrite ?Hs2, ?Hup2; [done|by split|done|by eapply manned_alike].
Qed.
Lemma last_signed_alike s s' : alike self s s' → last_signed s' = last_signed s.
Proof. intros [_ _ S _]. unfold last_signed, Store.get_slashing_protection. by rewrite S. Qed.
End solo.

(** C9: a network of one validator makes progress.  The node signs with the key of that
    validator, is at rest with its network up, has room in its counters, and its slashing
    protection has not yet marked the height as signed.  When the transactions that it would
    select next are native and execute in that order, and the block of them is within the
    size limit and does not hash to the nil hash, the end of a round adds exactly one block:
    the node votes nil, opens the next round, builds the block of those
    transactions, votes for it twice, certifies, executes, stores and announces it.  The
    block is final at the height, the accounts are those of its execution with the fees
    paid out, its transactions and the expired ones have left the pool, and the node is at
    the next height, at rest and entitled to propose again, so the next timeout does the
    same: also across epochs, whose slashing for downtime never hits the node. *)
Theorem solo_timeout_finalizes `{HashBackend, HexEncode, ChainCodec, RevmBackend}
    (default_scheme scheme : SignatureScheme) keypair `{!SignatureSchemeLaws scheme keypair}
    (self : ConsensusEngine) (iteration : Inner → list Transaction) (v : Validator)
    (sk : list byte) (n : Node) (now_ms : Z) (state' : Smt.StateSnapshot) (block : Block) :
  let h := rs_height (nd_state n) in
  let txs := selection self iteration h (nd_mempool n) in
  sole self scheme keypair v sk → resting self scheme v n → last_signed v (nd_store n) < h →
  roomy (RoundTimeout now_ms) n →
  Forall (λ tx, tb_evm (tx_body tx) = None) txs →
  settled (ce_execution self) scheme h txs (Smt.load (nd_store n)) state' →
  own_block self scheme v sk (nd_store n) h (rs_round (nd_state n) + 1) now_ms txs state' = Ok block →
  proposable self block →
  ∃ n', Consensus.on_event default_scheme self scheme iteration (RoundTimeout now_ms) n = (Ok tt, n') ∧
    extends self scheme v n n' block state'.
Proof.
  intros h txs Hsole Hn Hsig Hroom Hnat Hset Hb Hprop.
  pose proof (ri_round _ _ (ni_round _ _ (re_inv _ _ _ _ Hn))) as [Hh0 _].
  destruct (timeout_opens default_scheme self scheme keypair iteration v sk Hsole now_ms n Hn Hroom)
    as (n1 & E & Hn1 & Eh & Er & Ep & Hal).
  assert (Smt.load (nd_store n1) = Smt.load (nd_store n)) as Eacc
    by (unfold Smt.load, Store.accounts; by rewrite (al_accounts _ _ _ Hal)).
  assert (own_block self scheme v sk (nd_store n1) h (rs_round (nd_state n) + 1) now_ms txs state' = Ok block)
    as Hb1.
  { rewrite <-Hb. unfold own_block, own_header, Execution.build_header, Execution.parent_hash,
      Store.latest_block. by rewrite (al_blocks _ _ _ Hal). }
  destruct (propose_run default_scheme self scheme keypair iteration v sk Hsole now_ms n1 state' block)
    as (n' & E' & Hext); rewrite ?Eh, ?Er, ?Ep, ?Eacc; try done.
  { by rewrite (last_signed_alike self v _ _ Hal). }
  { destruct Hroom. fold h. lia. }
  exists n'. rewrite E. split; [exact E'|].
  assert (node_inv scheme n') as Hi'.
  { pose proof (wp_on_event default_scheme self scheme iteration (RoundTimeout now_ms) n
      (re_inv _ _ _ _ Hn) Hroom) as Hwp. eapply keeps_inv; [exact Hwp|]. by rewrite E. }
  destruct (Hext Hi') as [X1 X2 X3 X4 X5 X6 X7]. rewrite Eh, ?Ep in *. by split.
Qed.

(** ** A pool that does not execute *)
Section halt.
Context `{HashBackend, HexEncode, ChainCodec, RevmBackend} (default_scheme : SignatureScheme)
  (self : ConsensusEngine) (scheme : SignatureScheme)
  (keypair : list byte → list byte → Prop) `{!SignatureSchemeLaws scheme keypair}
  (iteration : Inner → list Transaction) (v : Validator) (sk : list byte).
Hypothesis Hsole : sole self scheme keypair v sk.
Abbreviation engine := (ce_execution self).
Abbreviation resting_n := (resting self scheme v).
Abbreviation propose now_ms := (Consensus.maybe_propose default_scheme self scheme iteration now_ms).
Abbreviation timeout now_ms := (Consensus.on_event default_scheme self scheme iteration (RoundTimeout now_ms)).

(** The dry run of transactions that cannot all be paid for fails and writes nothing. *)
Lemma dry_run_fails height txs proposer store :
  Forall (λ tx, tb_evm (tx_body tx) = None) txs →
  (∀ state', ¬ settled engine scheme height txs (Smt.load store) state') →
  ∃ r, Execution.dry_run_transactions default_scheme engine scheme height txs proposer store = (r, store) ∧
    is_ok r = false.
Proof.
  intros Hn Hs. unfold Execution.dry_run_transactions, Execution.on_snapshot, mbind, eff_bind, Execution.err_into.
  pose proof (apply_transactions_native default_scheme engine scheme height txs 0 [] store (Smt.load store) Hn) as Hst.
  destruct (Execution.apply_transactions _ _ _ _ _ _ _ _) as [[[fees rcs]|e|] [st state]] eqn:E;
    cbn [fst snd] in Hst; subst st; [|by eexists..].
  apply apply_transactions_ok in E as [Hset _]; [by apply Hs in Hset|ulia].
Qed.
(** The proposal of the node fails, after the height is marked as signed. *)
Lemma propose_fails now_ms n :
  resting_n n → last_signed v (nd_store n) < rs_height (nd_state n) →
  let txs := selection self iteration (rs_height (nd_state n)) (nd_mempool n) in
  Forall (λ tx, tb_evm (tx_body tx) = None) txs →
  (∀ state', ¬ settled engine scheme (rs_height (nd_state n)) txs (Smt.load (nd_store n)) state') →
  ∃ r n', propose now_ms n = (r, n') ∧ is_ok r = false ∧ resting_n n' ∧
    nd_state n' = nd_state n ∧ last_signed v (nd_store n') = rs_height (nd_state n) ∧
    chain_frame (nd_store n) (nd_store n').
Proof.
  intros Hn Hsig txs Hnat Hset. erewrite propose_eq by (done || apply Hn). rewrite (proj2 (Z.leb_gt _ _)) by done.
  pose proof (marked_resting self scheme v n Hn) as Hn1. set (n1 := marked v n) in *.
  destruct (dry_run_fails (rs_height (nd_state n)) txs (vd_address v) (nd_store n1) Hnat Hset) as (r & E & Hr).
  fold txs. unfold Consensus.build_proposal, mbind, eff_bind, Consensus.on_store, Execution.err_into.
  rewrite E. destruct r as [x|e|]; [done|..];
    (do 2 eexists; split; [reflexivity|]; split; [done|]);
    (change (upd_nd_store (λ _, nd_store n1) n1) with n1; split; [exact Hn1|]; split_and!; try done);
    apply marked_signed.
Qed.

(** A validator that signed a proposal of its height proposes no more. *)
Definition stalled (n : Node) : Prop := resting_n n ∧ rs_height (nd_state n) ≤ last_signed v (nd_store n).
Lemma stalled_propose now_ms n : stalled n → propose now_ms n = (Ok tt, n).
Proof.
  intros [Hn Hsig]. erewrite propose_eq by (done || apply Hn). by rewrite (proj2 (Z.leb_le _ _)).
Qed.
Lemma stalled_timeout now_ms n :
  stalled n → roomy (RoundTimeout now_ms) n →
  ∃ n', timeout now_ms n = (Ok tt, n') ∧ stalled n' ∧ rs_height (nd_state n') = rs_height (nd_state n) ∧
    rs_round (nd_state n') = rs_round (nd_state n) + 1 ∧ chain_frame (nd_store n) (nd_store n').
Proof.
  intros [Hn Hsig] Hroom.
  destruct (timeout_opens default_scheme self scheme keypair iteration v sk Hsole now_ms n Hn Hroom)
    as (n1 & E & Hn1 & Eh & Er & Ep & Hal).
  assert (stalled n1) as Hs1 by (split; [done|by rewrite (last_signed_alike self v _ _ Hal), Eh]).
  exists n1. rewrite E. split; [by apply stalled_propose|]. destruct Hal. by split_and!.
Qed.
Lemma stalled_forever nows n :
  stalled n → rs_height (nd_state n) + 2 ≤ U64_MAX →
  rs_round (nd_state n) + Z.of_nat (length nows) ≤ U32_MAX →
  let n' := foldl (λ n now_ms, (timeout now_ms n).2) n nows in
  rs_height (nd_state n') = rs_height (nd_state n) ∧ chain_frame (nd_store n) (nd_store n').
Proof.
  revert n. induction nows as [|now_ms nows IH]; intros n Hs Hh Hr; [done|].
  cbn [foldl length] in *. destruct (stalled_timeout now_ms n Hs) as (n1 & E & Hs1 & Eh & Er & A & B).
  { split_and!; [done|lia|done]. }
  rewrite E. cbn [snd]. destruct (IH n1 Hs1) as (Eh' & A' & B'); [lia..|].
  split; [by rewrite Eh'|]. split; congruence.
Qed.

(** A new process on the store, when recovery finds the height again. *)
Lemma restart_stalled now_ms pool up n :
  resting_n n → rs_height (nd_state n) ≤ last_signed v (nd_store n) → up = true →
  rs_height (Consensus.recovered_state (nd_store n)) = rs_height (nd_state n) →
  ∃ n', Consensus.start default_scheme self scheme iteration now_ms (boot (nd_store n) pool up) = (Ok tt, n') ∧
    stalled n' ∧ rs_height (nd_state n') = rs_height (nd_state n) ∧
    rs_round (nd_state n') = rs_round (nd_state n) ∧ chain_frame (nd_store n) (nd_store n').
Proof.
  intros [Hi Hf Hup Hman] Hsig -> Hrec.
  destruct (restart_recovers scheme n Hi) as [Hwell Hrc].
  destruct Hwell as [(Eh & Er & _ & E2 & _)|(Hlt & _)]; [|lia].
  pose proof (booted_inv scheme (nd_store n) pool true Hrc) as Hi2.
  set (n2 := booted (nd_store n) pool true) in *.
  assert (alike self (nd_store n) (nd_store n2)) as Hal by (by split).
  assert (stalled n2) as Hs2.
  { split; [split; [exact Hi2| |done|by eapply manned_alike]|].
    - split; try done. change (rs_locked_block (Consensus.recovered_state (nd_store n)) = None).
      rewrite E2. apply Hf.
    - rewrite (last_signed_alike self v _ _ Hal).
      change (rs_height (Consensus.recovered_state (nd_store n)) ≤ last_signed v (nd_store n)). by rewrite Hrec. }
  exists n2. split; [|by split_and!].
  unfold Consensus.start. rewrite (eff_bind_ok _ _ _ tt n2) by reflexivity. by apply stalled_propose.
Qed.
End halt.

(** C10: one transaction in the pool halts a network of one validator.  When the
    transactions that its node selects cannot all be paid for in the selected order (an
    unsigned one that anybody gossiped is enough, since the pool checks no signature,
    nonce or balance), the end of the round does not return: its error ends the consensus
    task, with the height marked as signed and nothing committed.  Whenever a restart finds
    that height again, no pool and no number of timeouts ever brings the chain past it. *)
Theorem unexecutable_pool_halts `{HashBackend, HexEncode, ChainCodec, RevmBackend}
    (default_scheme scheme : SignatureScheme) keypair `{!SignatureSchemeLaws scheme keypair}
    (self : ConsensusEngine) (iteration : Inner → list Transaction) (v : Validator)
    (sk : list byte) (n : Node) (now_ms : Z) :
  let h := rs_height (nd_state n) in
  let txs := selection self iteration h (nd_mempool n) in
  sole self scheme keypair v sk → resting self scheme v n → last_signed v (nd_store n) < h →
  roomy (RoundTimeout now_ms) n →
  Forall (λ tx, tb_evm (tx_body tx) = None) txs →
  (∀ state', ¬ settled (ce_execution self) scheme h txs (Smt.load (nd_store n)) state') →
  ∃ r n', Consensus.on_event default_scheme self scheme iteration (RoundTimeout now_ms) n = (r, n') ∧
    is_ok r = false ∧ rs_height (nd_state n') = h ∧ last_signed v (nd_store n') = h ∧
    chain_frame (nd_store n) (nd_store n') ∧
    ∀ pool start_ms timeouts,
      rs_height (Consensus.recovered_state (nd_store n')) = h →
      rs_round (nd_state n') + Z.of_nat (length timeouts) ≤ U32_MAX →
      let restarted := Consensus.start default_scheme self scheme iteration start_ms
        (boot (nd_store n') pool true) in
      let later := foldl (λ m now_ms,
        (Consensus.on_event default_scheme self scheme iteration (RoundTimeout now_ms) m).2)
        restarted.2 timeouts in
      is_ok restarted.1 = true ∧ rs_height (nd_state later) = h ∧
      chain_frame (nd_store n) (nd_store later).
Proof.
  intros h txs Hsole Hn Hsig Hroom Hnat Hset.
  destruct (timeout_opens default_scheme self scheme keypair iteration v sk Hsole now_ms n Hn Hroom)
    as (n1 & E & Hn1 & Eh & Er & Ep & Hal).
  assert (Smt.load (nd_store n1) = Smt.load (nd_store n)) as Eacc
    by (unfold Smt.load, Store.accounts; by rewrite (al_accounts _ _ _ Hal)).
  destruct (propose_fails default_scheme self scheme keypair iteration v sk Hsole now_ms n1)
    as (r & n' & E' & Hr & Hn' & Es & Hl & A & B); rewrite ?Eh, ?Ep, ?Eacc; try done.
  { by rewrite (last_signed_alike self v _ _ Hal). }
  exists r, n'. rewrite E, Es, Eh. rewrite Eh in Hl. fold h in Hl |- *.
  assert (chain_frame (nd_store n) (nd_store n')) as Hc by (destruct Hal; split; congruence).
  split_and!; try done. intros pool start_ms timeouts Hrec Hrounds. cbv zeta.
  destruct Hroom as (Hmax & _). fold h in Hmax.
  destruct (restart_stalled default_scheme self scheme keypair iteration v sk Hsole start_ms pool true n')
    as (m & Em & Hm & Ehm & Erm & Am & Bm); rewrite ?Es, ?Eh; fold h; try done; [lia|].
  rewrite Em. cbn [fst snd]. split; [done|]. rewrite Es, Eh in Ehm. fold h in Ehm.
  destruct (stalled_forever default_scheme self scheme keypair iteration v sk Hsole timeouts m Hm)
    as (-> & A' & B'); rewrite ?Ehm, ?Erm, ?Es; try done.
  split; [done|]. destruct Hc. split; congruence.
Qed.
