(* ===== verification/ConsensusExamples.v ===== *)
(** Runs of the consensus engine on toy chains of one and two validators, the witnesses of
    its properties, and the runs that show where the engine departs from what it means to
    do. *)

From S2P Require Import Prelude Types Codec Hash Crypto Wire Toy Primitives Storage Smt Staking.
From S2P Require Import Mempool Zk Evm Execution Rounds Durability Consensus ConsensusInv.
From S2P Require Import Certificates ConsensusSafety ConsensusProgress ProposalCheck.
Import Toy ToyRevm.

Abbreviation scheme := ToyOqs.scheme.

(** ** The chains *)
Definition pk2 : list byte := [x03; x04].
Definition address_of (pk : list byte) : Address :=
  ToyHash.digest 17 (bytes_of_string "zeno.address.v1" ++ pk).
Definition validator_of (pk : list byte) : Validator := {|
  vd_validator_id := "v"; vd_voting_power := 1; vd_p2p_address := ""; vd_rpc_address := "";
  vd_public_key := pk; vd_address := address_of pk |}.
Definition params : ConsensusParams := {|
  cp_proposal_timeout_ms := 3000; cp_vote_timeout_ms := 2000; cp_max_transactions_per_block := 10;
  cp_max_block_bytes := default_max_block_bytes; cp_target_gas_per_block := default_target_gas;
  cp_max_gas_per_block := default_max_gas |}.
Definition economics : EconomicsParams := {|
  ec_minimum_self_bond := 0; ec_epoch_length := 5; ec_unbonding_epochs := 2;
  ec_treasury_bps := 1000; ec_downtime_slash_bps := 100; ec_double_sign_slash_bps := 500 |}.
Definition engine_of (keys : list (list byte)) (me : option (list byte)) : ConsensusEngine := {|
  ce_chain_id := chain; ce_validators := validator_of <$> keys; ce_execution := Execution.new chain;
  ce_params := params; ce_economics := economics;
  ce_local_validator := (λ pk, {| lv_validator := validator_of pk; lv_secret_key := pk |}) <$> me |}.
Definition no_pool : Inner → list Transaction := λ _, [].
Abbreviation start_of e :=
  (Consensus.start scheme e scheme no_pool 0 (boot MemoryInner_default Inner_default true)).
Abbreviation event_of e ev n := (Consensus.on_event scheme e scheme no_pool ev n).
Abbreviation reaches e := (reachable scheme e scheme no_pool).
(** The vote of a key for a block of height 1 and round 0. *)
Definition vote_by (pk : list byte) (step : VoteStep) (hash : Hash32) : Vote :=
  let vote := {| vt_height := 1; vt_round := 0; vt_step := step; vt_block_hash := hash;
    vt_validator_address := address_of pk; vt_public_key := pk; vt_signature := [] |} in
  match sign_vote scheme vote pk with Ok vote => vote | _ => vote end.

(** ** A chain of two validators *)

(** Its proposer proposes and prevotes, is locked by the prevote of the other, times out,
    and, had the precommit of the other come in time, finalizes. *)
Definition duo : ConsensusEngine := engine_of [pk; pk2] (Some pk2).
Abbreviation run1 := (start_of duo).
Abbreviation n1 := (run1.2).
Definition proposed : Hash32 := default NIL_HASH (Block_hash <$> rs_proposal (nd_state n1)).
Definition polka_vote : Vote := vote_by pk Prevote proposed.
Abbreviation run2 := (event_of duo (Inbound (MsgVote polka_vote)) n1).
Abbreviation n2 := (run2.2).
Abbreviation run3 := (event_of duo (RoundTimeout 5000) n2).
Abbreviation n3 := (run3.2).
Definition commit_ready : Node :=
  (Consensus.record_vote duo scheme (vote_by pk Precommit proposed) n2).2.
Definition no_block : Block :=
  {| bk_header := header; bk_transactions := []; bk_proposer_public_key := [];
     bk_proposer_signature := [] |}.
Definition ready_block : Block := default no_block (rs_proposal (nd_state commit_ready)).
Abbreviation finalized_run :=
  (Consensus.finalize scheme duo scheme (Block_hash ready_block) commit_ready).

Lemma starts e :
  0 ≤ rs_height (Consensus.recovered_state MemoryInner_default) → reaches e (start_of e).2.
Proof.
  intros Hh. eapply (reach_start _ _ _ _ MemoryInner_default Inner_default true 0 _ (start_of e).1);
    [done | exact Hh | vm_compute; discriminate | apply surjective_pairing].
Qed.
Lemma goes_on e event n : reaches e n → roomy event n → reaches e (event_of e event n).2.
Proof. intros Hn Hr. eapply reach_event; [exact Hn | exact Hr | apply surjective_pairing]. Qed.
Lemma reaches1 : reaches duo n1.
Proof. apply starts. vm_compute. discriminate. Qed.
Lemma reaches2 : reaches duo n2.
Proof. apply goes_on; [exact reaches1 | split_and!; vm_compute; done]. Qed.
Lemma reaches3 : reaches duo n3.
Proof. apply goes_on; [exact reaches2 | split_and!; vm_compute; done]. Qed.
(** What the run shows: two votes, one lock, and the finalized height. *)
Lemma duo_run :
  length (nd_outbox n1) = 2%nat ∧ rs_locked_block (nd_state n1) = None ∧
  length (nd_outbox n2) = 3%nat ∧ is_Some (rs_locked_block (nd_state n2)) ∧
  rs_round (nd_state n3) = 1 ∧ rs_height (nd_state finalized_run.2) = 2.
Proof.
  assert (bool_decide (is_Some (rs_locked_block (nd_state n2))) = true) as Hl%bool_decide_eq_true
    by (vm_compute; reflexivity).
  split_and!; try (vm_compute; reflexivity). exact Hl.
Qed.

Definition counted (a h : Hash32) (n : Node) : bool :=
  bool_decide (a ∈ default ∅ (ballots Prevote (nd_state n) !! h)).
Lemma counted_in a h n : counted a h n = true → a ∈ default ∅ (ballots Prevote (nd_state n) !! h).
Proof. apply bool_decide_eq_true. Qed.
Lemma tallies_authentic_witness :
  address_of pk ∈ default ∅ (ballots Prevote (nd_state n2) !! proposed) ∧
  ∀ h, address_of pk ∈ default ∅ (ballots Prevote (nd_state n2) !! h) → h = proposed.
Proof.
  assert (counted (address_of pk) proposed n2 = true) as Hc by (vm_compute; reflexivity).
  pose proof (counted_in _ _ _ Hc) as Hin. split; [exact Hin|]. intros h Hh.
  exact (proj2 (tallies_authentic scheme duo scheme no_pool n2 reaches2) Prevote h proposed _ Hh Hin).
Defined.
Definition sent_vote_at (i : nat) (n : Node) : option Vote :=
  match nd_outbox n !! i with Some (MsgVote v) => Some v | _ => None end.
Lemma sent_vote_spec i n d :
  bool_decide (is_Some (sent_vote_at i n)) = true →
  nd_outbox n !! i = Some (MsgVote (default d (sent_vote_at i n))).
Proof.
  intros [v Hv]%bool_decide_eq_true. rewrite Hv. unfold sent_vote_at in Hv. cbn.
  repeat case_match; congruence.
Qed.
Definition my_vote : Vote := default polka_vote (sent_vote_at 1 n2).
Lemma no_equivocation_witness :
  nd_outbox n2 !! 1%nat = Some (MsgVote my_vote) ∧
  ∀ j w, nd_outbox n2 !! j = Some (MsgVote w) → vt_step my_vote = vt_step w →
    vt_height my_vote = vt_height w → vt_round my_vote = vt_round w → 1%nat = j.
Proof.
  assert (nd_outbox n2 !! 1%nat = Some (MsgVote my_vote)) as H1
    by (apply sent_vote_spec; vm_compute; reflexivity).
  split; [exact H1|]. intros j w Hj Hs1 Hh Hr.
  exact (no_equivocation scheme duo scheme no_pool n2 1 j my_vote w reaches2 H1 Hj Hs1 Hh Hr).
Defined.
Lemma recovery_keeps_lock_witness :
  recovered_well (nd_state n2) (Consensus.recovered_state (nd_store n2)).
Proof. exact (recovery_keeps_lock scheme duo scheme no_pool n2 reaches2). Defined.

(** The prevote of a run of [emit_prevote], and a block of an option. *)
Definition cast_vote (run : res ConsensusError (option Vote) * Node) : option Vote :=
  match run.1 with Ok v => v | _ => None end.
Lemma cast_vote_run (run : res ConsensusError (option Vote) * Node) d :
  bool_decide (is_Some (cast_vote run)) = true →
  run = (Ok (Some (default d (cast_vote run))), run.2).
Proof.
  intros [v Hv]%bool_decide_eq_true. unfold cast_vote in *. destruct run as [[o|e|] n]; [|done..].
  cbn in *. by subst o.
Qed.
Lemma is_default {A} (o : option A) d : bool_decide (is_Some o) = true → o = Some (default d o).
Proof. by intros [v ->]%bool_decide_eq_true. Qed.
Abbreviation next_prevote := (Consensus.emit_prevote duo scheme n3).
Definition locked : Block := default no_block (rs_locked_block (nd_state n3)).
Definition next_vote : Vote := default polka_vote (cast_vote next_prevote).
Lemma lock_binds_prevote_witness :
  rs_locked_block (nd_state n3) = Some locked ∧
  (vt_block_hash next_vote = Block_hash locked ∨ vt_block_hash next_vote = NIL_HASH) ∧
  vt_step next_vote = Prevote ∧ vt_height next_vote = rs_height (nd_state n3) ∧
  vt_round next_vote = rs_round (nd_state n3).
Proof.
  assert (rs_locked_block (nd_state n3) = Some locked) as Hl
    by (apply is_default; vm_compute; reflexivity).
  split; [exact Hl|].
  apply (lock_binds_prevote scheme duo scheme no_pool n3 next_prevote.2 locked next_vote reaches3 Hl).
  apply cast_vote_run. vm_compute. reflexivity.
Defined.

Abbreviation polka_run := (Consensus.record_vote duo scheme polka_vote n1).
Definition unlocked (n : Node) : bool := bool_decide (rs_locked_block (nd_state n) = None).
Lemma unlocked_differ n n' :
  unlocked n = true → unlocked n' = false → rs_locked_block (nd_state n') ≠ rs_locked_block (nd_state n).
Proof. intros ?%bool_decide_eq_true ?%bool_decide_eq_false. congruence. Qed.
Lemma lock_needs_quorum_witness :
  ∃ block (backers : gset Address),
    rs_proposal (nd_state n1) = Some block ∧ rs_locked_block (nd_state polka_run.2) = Some block ∧
    rs_locked_round (nd_state polka_run.2) = Some (rs_round (nd_state n1)) ∧
    (Consensus.quorum duo (nd_store polka_run.2) ≤ size backers)%nat ∧
    ∀ a, a ∈ backers → ∃ w, w ∈ rs_votes (nd_state polka_run.2) ∧ vt_step w = Prevote ∧
      vt_block_hash w = Block_hash block ∧ vt_validator_address w = a ∧
      verify_vote scheme w = Ok ().
Proof.
  apply (lock_needs_quorum scheme duo scheme no_pool n1 polka_run.2 polka_vote polka_run.1 reaches1).
  - apply surjective_pairing.
  - apply unlocked_differ; vm_compute; reflexivity.
Defined.

Lemma ok_run {E S} (run : res E () * S) : is_ok run.1 = true → run = (Ok tt, run.2).
Proof. by destruct run as [[[]|e|] s]. Qed.
Lemma finalize_commits_witness :
  ∃ executed,
    Store.get_block_by_height 1 (nd_store finalized_run.2) =
      Some (own_finalized (nd_state commit_ready) (Block_hash ready_block) executed) ∧
    rs_height (nd_state finalized_run.2) = 2.
Proof.
  destruct (finalize_commits scheme duo scheme commit_ready finalized_run.2 ready_block)
    as (executed & store1 & _ & _ & _ & Hb & _ & _ & _ & Hs).
  - split; vm_compute; discriminate.
  - vm_compute. discriminate.
  - apply is_default. vm_compute. reflexivity.
  - apply ok_run. vm_compute. reflexivity.
  - assert (rs_height (nd_state commit_ready) = 1) as Hh by (vm_compute; reflexivity).
    rewrite Hh in Hb. exists executed. split; [exact Hb|]. rewrite Hs, Hh. reflexivity.
Defined.

(** ** A chain of one validator *)
Definition solo : ConsensusEngine := engine_of [pk] (Some pk).
Abbreviation solo_run := (start_of solo).
Abbreviation solo_next := (event_of solo (RoundTimeout 5000) solo_run.2).
Lemma solo_reaches : reaches solo solo_run.2.
Proof. apply starts. vm_compute. discriminate. Qed.
(** One start is enough for it to finalize a block. *)
Lemma solo_finalizes : rs_height (nd_state solo_run.2) = 2.
Proof. vm_compute. reflexivity. Qed.
Lemma timeout_progress_witness :
  is_ok solo_next.1 = true ∧ later (point solo_run.2) (point solo_next.2).
Proof.
  assert (roomy (RoundTimeout 5000) solo_run.2) as Hr by (split_and!; vm_compute; done).
  assert (is_ok solo_next.1 = true) as Hok by (vm_compute; reflexivity).
  split; [exact Hok|].
  exact (proj2 (proj1 (timeout_progress scheme solo scheme no_pool solo_run.2 solo_next.2 5000
    solo_next.1 solo_reaches Hr (surjective_pairing _)) Hok)).
Defined.

Lemma round_timeout_exact_witness :
  Consensus.round_timeout duo 2 = 20000 ∧ Consensus.round_timeout duo 9 = 60000.
Proof.
  assert (in_range U64_MAX (3000 + 2000)) as Hb by ulia.
  destruct (round_timeout_exact duo 2 Hb ltac:(lia)) as (E2 & _).
  destruct (round_timeout_exact duo 9 Hb ltac:(lia)) as (E9 & _).
  rewrite E2, E9. split; reflexivity.
Defined.

(** Two blocks of one height and round, each with a certificate of the same validator. *)
Definition block_of (proposer : list byte) : Block :=
  {| bk_header := {| bh_height := 1; bh_round := 0; bh_chain_id := chain; bh_parent_hash := zero;
       bh_tx_root := zero; bh_state_root := zero; bh_receipt_root := zero;
       bh_proposer := address_of proposer; bh_timestamp_ms := 0 |};
     bk_transactions := []; bk_proposer_public_key := proposer; bk_proposer_signature := [] |}.
Definition certificate_by (pk : list byte) (block : Block) : CommitCertificate :=
  {| cc_block_hash := Block_hash block; cc_height := 1; cc_round := 0;
     cc_votes := [vote_by pk Precommit (Block_hash block)] |}.
Lemma certificate_accountability_witness :
  let double := signers (certificate_by pk (block_of pk)) ∩
    signers (certificate_by pk (block_of pk2)) in
  (1 < 3 * size double)%nat ∧ double ⊆ active_set solo MemoryInner_default.
Proof.
  destruct (certificate_accountability solo scheme MemoryInner_default (block_of pk) (block_of pk2)
    (certificate_by pk (block_of pk)) (certificate_by pk (block_of pk2))) as (_ & _ & Hactive).
  1,2: vm_compute; reflexivity.
  1,2: reflexivity.
  - assert (bool_decide (Block_hash (block_of pk) = Block_hash (block_of pk2)) = false)
      as Hne%bool_decide_eq_false by (vm_compute; reflexivity). exact Hne.
  - destruct Hactive as [Hn Hs].
    { assert (bool_decide ((signers (certificate_by pk (block_of pk)) ∪
        signers (certificate_by pk (block_of pk2))) ∖ active_set solo MemoryInner_default = ∅) = true)
        as Hsub%bool_decide_eq_true by (vm_compute; reflexivity). exact Hsub. }
    split; [|exact Hs].
    assert (length (Consensus.active_validators solo MemoryInner_default) = 1%nat) as E
      by (vm_compute; reflexivity). rewrite E in Hn. exact Hn.
Defined.

(** ** Proposals *)
Definition transfer : Transaction :=
  let body := {| tb_chain_id := chain; tb_sender := address_of pk; tb_recipient := address_of pk2;
    tb_amount := 5; tb_nonce := 0; tb_fee := 1; tb_evm := None; tb_memo := None;
    tb_valid_until := None |} in
  {| tx_body := body; tx_public_key := pk;
     tx_signature := pk ++ MlDsaScheme.domain_message DomTransaction (encode_to_vec body) |}.
Definition funded : Smt.StateSnapshot :=
  Smt.put_account (address_of pk) {| acct_nonce := 0; acct_balance := 100 |}
    (Smt.load MemoryInner_default).
Lemma funded_account a :
  Smt.account funded a = if decide (address_of pk = a) then {| acct_nonce := 0; acct_balance := 100 |}
                         else {| acct_nonce := 0; acct_balance := 0 |}.
Proof. unfold funded. rewrite account_put. case_decide; [done|]. reflexivity. Qed.
Lemma proposal_check_agrees_witness :
  is_ok (Execution.apply_transactions scheme (ce_execution solo) scheme 1 [transfer] 0 []
    (MemoryInner_default, funded)).1 = true.
Proof.
  apply (proposal_check_agrees scheme solo scheme 1 [transfer] MemoryInner_default funded).
  - reflexivity.
  - repeat constructor. vm_compute. discriminate.
  - repeat constructor; vm_compute; discriminate.
  - repeat constructor.
  - split; [split| |].
    + intros a. rewrite funded_account. case_decide; vm_compute; discriminate.
    + vm_compute. discriminate.
    + vm_compute. reflexivity.
    + intros a. unfold nonce_of. rewrite funded_account. case_decide; split; vm_compute; discriminate.
  - vm_compute. reflexivity.
Defined.

(** ** Where the engine departs from what it means to do *)

(** The certificate of a key outside the validator set counts. *)
Lemma stranger_certificate_accepted :
  address_of pk2 ∉ active_set solo MemoryInner_default ∧
  Consensus.validate_commit_certificate solo scheme (block_of pk) (certificate_by pk2 (block_of pk))
    MemoryInner_default = Ok ().
Proof.
  split; [|vm_compute; reflexivity].
  assert (bool_decide (address_of pk2 ∈ active_set solo MemoryInner_default) = false)
    as Hn%bool_decide_eq_false by (vm_compute; reflexivity). exact Hn.
Qed.

(** An import logs the commit before the block is executed: when the execution fails, the
    error is dropped, and the next start skips the height. *)
Definition bogus : FinalizedBlock :=
  {| fb_block := block_of pk; fb_certificate := certificate_by pk2 (block_of pk); fb_receipts := [];
     fb_epoch_transition := None |}.
Definition follower : ConsensusEngine := engine_of [pk] None.
Definition after_bogus : Node := (event_of follower (Inbound (MsgCommit bogus)) (start_of follower).2).2.
Lemma failed_import_skips_height :
  rs_height (nd_state after_bogus) = 1 ∧ Store.get_block_by_height 1 (nd_store after_bogus) = None ∧
  rs_height (Consensus.recovered_state (nd_store after_bogus)) = 2.
Proof. split_and!; vm_compute; reflexivity. Qed.

(** A quorum of prevotes for a block that the node has not seen makes it precommit the
    block without locking it. *)
Definition quartet : ConsensusEngine := engine_of [pk; pk2; [x05; x06]; [x07; x08]] (Some pk).
Definition unseen : Hash32 := array_repeat 32 x2a.
Definition after_prevotes : Node :=
  foldl (λ n pk, (event_of quartet (Inbound (MsgVote (vote_by pk Prevote unseen))) n).2)
    (start_of quartet).2 [pk2; [x05; x06]; [x07; x08]].
Lemma precommit_without_lock :
  (λ m, match m with MsgVote v => Some (vt_step v, bool_decide (vt_block_hash v = unseen)) | _ => None end)
    <$> nd_outbox after_prevotes = [Some (Precommit, true)] ∧
  rs_proposal (nd_state after_prevotes) = None ∧ rs_locked_block (nd_state after_prevotes) = None.
Proof. split_and!; vm_compute; reflexivity. Qed.

(** Opening a height proposes nothing: the only validator of a chain waits for the timeout
    of round zero, and proposes in round one. *)
Definition proposals (n : Node) : list (Z * Z) :=
  omap (λ m, match m with MsgProposal p => Some (pr_height p, pr_round p) | _ => None end)
    (nd_outbox n).
Lemma round_zero_without_proposal :
  proposals solo_run.2 = [(1, 0)] ∧ proposals solo_next.2 = [(1, 0); (2, 1)].
Proof. split; vm_compute; reflexivity. Qed.

(** The check of a proposal does not execute it: a block with a wrong state root gets the
    votes, locks the node and cannot be finalized; and its lock then makes the node vote
    nil on its own next proposal. *)
Definition bad_header : BlockHeader :=
  {| bh_height := 1; bh_round := 0; bh_chain_id := chain; bh_parent_hash := zero; bh_tx_root := zero;
     bh_state_root := array_repeat 32 x2a; bh_receipt_root := zero; bh_proposer := address_of pk2;
     bh_timestamp_ms := 0 |}.
Definition bad_block : Block :=
  match sign_block scheme bad_header [] pk2 pk2 with Ok block => block | _ => no_block end.
Definition bad_proposal : Proposal :=
  {| pr_height := 1; pr_round := 0; pr_block := bad_block; pr_validator_address := address_of pk2 |}.
Definition honest : ConsensusEngine := engine_of [pk; pk2] (Some pk).
Definition stuck : Node :=
  foldl (λ n event, (event_of honest event n).2) (start_of honest).2
    [Inbound (MsgProposal bad_proposal);
     Inbound (MsgVote (vote_by pk2 Prevote (Block_hash bad_block)));
     Inbound (MsgVote (vote_by pk2 Precommit (Block_hash bad_block)));
     RoundTimeout 5000].
Definition votes_sent (n : Node) : list (VoteStep * Z * bool) :=
  omap (λ m, match m with
    | MsgVote v => Some (vt_step v, vt_round v, bool_decide (vt_block_hash v = NIL_HASH))
    | _ => None end) (nd_outbox n).
Lemma unexecutable_block_locks :
  is_ok (Consensus.validate_incoming_proposal honest scheme bad_proposal MemoryInner_default) = true ∧
  rs_height (nd_state stuck) = 1 ∧
  bool_decide (Block_hash <$> rs_locked_block (nd_state stuck) = Some (Block_hash bad_block)) = true ∧
  proposals stuck = [(1, 1)] ∧
  votes_sent stuck = [(Prevote, 0, false); (Precommit, 0, false); (Prevote, 1, true)].
Proof. split_and!; vm_compute; reflexivity. Qed.
