(* ===== verification/Bootstrap.v ===== *)
(** [crates/zeno-node], start-up: the execution and consensus planes, and the bootstrap of
    the store from the genesis. *)

From S2P Require Import Prelude Types Codec Hash Crypto Wire Toy Primitives Storage Smt Staking.
From S2P Require Import Mempool Zk Evm EthTx Execution Rounds Setup.
From stdpp Require Import pretty.
Open Scope Z_scope.

(** An [anyhow::Error] of the node: its own messages, with the typed error they wrap, and
    the errors that [?] converts. *)
Inductive NodeError :=
  | NeAny (e : AnyError)
  | NeState (context : string) (e : StateError)
  | NeCrypto (context : string) (e : CryptoError)
  | NeMempool (e : MempoolError)
  | NeEvm (e : EvmError)
  | NeZk (e : ZkError)
  | NeTransaction (e : TransactionError).
Definition note (msg : string) : NodeError := NeAny (Anyhow msg).

Record ExecutionPlane := {
  ep_chain_id : ChainId;
  ep_evm_chain_id : option Z;
  ep_genesis : Genesis
}.

Module Plane.
Definition new (chain_id : ChainId) (genesis : Genesis) : ExecutionPlane := {|
  ep_chain_id := chain_id; ep_evm_chain_id := nm_evm_chain_id (gn_metadata genesis);
  ep_genesis := genesis |}.
Definition engine (self : ExecutionPlane) : ExecutionEngine :=
  Execution.with_protocol (ep_chain_id self) (ep_evm_chain_id self)
    (gn_economics (ep_genesis self)) (gn_validators (ep_genesis self)).

Section plane.
Context `{HashBackend, HexEncode, HexBackend, ChainCodec, RevmBackend}
  (default_scheme : SignatureScheme) (self : ExecutionPlane).
Definition validate_transaction (scheme : SignatureScheme) (store : MemoryInner)
    (tx : Transaction) : res NodeError () :=
  let state := Smt.load store in
  let height := match Store.latest_block store with
    | Some block => wrapping U64_MAX (bh_height (bk_header (fb_block block)) + 1)
    | None => 1
    end in
  map_err NeTransaction (Execution.validate_transaction (engine self) scheme state height tx).
Definition eth_call (request : EvmCallRequest) (store : MemoryInner) : res NodeError (list byte) :=
  chain_id ← ok_or (note "evm is not enabled for this chain") (ep_evm_chain_id self);
  map_err NeEvm (Evm.eth_call default_scheme {| ex_evm_chain_id := chain_id |} request store).
Definition eth_get_code (address : EvmAddress) (store : MemoryInner) : list byte :=
  match ep_evm_chain_id self with
  | None => []
  | Some _ => Evm.get_code address store
  end.
End plane.

(** [ConsensusPlane::new], up to the engine: the validator this node signs for. *)
Definition local_validator (config : NodeConfig) (genesis : Genesis) :
    res NodeError (option LocalValidator) :=
  match nc_validator config with
  | None => Ok None
  | Some validator =>
      descriptor ← ok_or (note "validator not present in genesis")
        (list_find (λ entry, vd_address entry = vc_address validator) (gn_validators genesis));
      Ok (Some {| lv_validator := descriptor.2; lv_secret_key := vc_secret_key validator |})
  end.
End Plane.

(** ** Bootstrap *)
Module Bootstrap.
Section bootstrap.
Context `{HashBackend, HexEncode, ChainCodec}.
Abbreviation boot := (eff (MemoryInner * StakingState) NodeError).

(** One turn of the loop over the genesis validators, on the staking snapshot. *)
Definition bond_validator (genesis : Genesis) (validator : Validator) :
    eff StakingState NodeError () :=
  let minimum := ec_minimum_self_bond (gn_economics genesis) in
  account ← eff_lift (ok_or (note ("validator " +:+ hex_encode (array_bytes (vd_address validator)) +:+
      " has no genesis account — cannot bootstrap")) (gn_accounts genesis !! vd_address validator));
  if acct_balance account <? minimum
  then eff_lift (Err (note ("validator " +:+ hex_encode (array_bytes (vd_address validator)) +:+
      " balance " +:+ pretty (acct_balance account) +:+ " is below minimum self-bond " +:+
      pretty minimum))) else
  λ staking, let '(r, staking) :=
      Staking.delegate (vd_address validator) (vd_address validator) minimum true staking in
    (map_err (NeState "bootstrap delegation failed") r, staking).
Fixpoint bond_validators (genesis : Genesis) (validators : list Validator) :
    eff StakingState NodeError () :=
  match validators with
  | [] => mret tt
  | validator :: validators =>
      _ ← bond_validator genesis validator; bond_validators genesis validators
  end.
Definition install_genesis (genesis : Genesis) (store : MemoryInner) : MemoryInner :=
  match Store.get_genesis store with
  | Some _ => store
  | None => foldl (λ s '(address, account), Store.put_account address account s)
              (Store.put_genesis genesis store) (entries (gn_accounts genesis))
  end.
Definition bootstrap_genesis (genesis : Genesis) : eff MemoryInner NodeError () := λ store,
  let store := install_genesis genesis store in
  let governance := Governance.load (gn_economics genesis) store in
  let store := Governance.persist governance store in
  let staking := Staking.ensure_validators (gn_validators genesis) (Staking.load store) in
  match bond_validators genesis (gn_validators genesis) staking with
  | (Ok _, staking) => (Ok tt, Staking.persist staking store)
  | (Err e, _) => (Err e, store)
  | (Panic, _) => (Panic, store)
  end.
End bootstrap.
End Bootstrap.

(** ** The bootstrap *)
Section bootstrap.
Context `{HashBackend, HexEncode, ChainCodec}.

(** A validator's entry after a self-delegation of [amount]. *)
Definition bonded (amount : Z) (vs : ValidatorStake) : ValidatorStake :=
  upd_vs_self_bond (λ b, saturating_add U128_MAX b amount)
    (upd_vs_total_stake (λ t, saturating_add U128_MAX t amount) vs).
Definition self_bond_of (a : Address) (staking : StakingState) : Z :=
  match ss_validators staking !! a with Some vs => vs_self_bond vs | None => 0 end.

Lemma self_delegate_eq a amount staking :
  ∃ delegations, Staking.delegate a a amount true staking =
  match ss_validators staking !! a with
  | Some vs => (Ok tt, upd_ss_validators (<[a := bonded amount vs]>)
                         (upd_ss_delegations (λ _, delegations) staking))
  | None => (Err (State "unknown validator"), staking)
  end.
Proof.
  eexists. unfold Staking.delegate, mbind, eff_bind, eff_get, eff_lift, ok_or.
  destruct (ss_validators staking !! a); [|done]. unfold eff_put. destruct staking. reflexivity.
Qed.

(** The genesis can be bonded: each of its validators has the minimum. *)
Definition bondable (genesis : Genesis) : Prop :=
  ∀ v, v ∈ gn_validators genesis → ∃ account,
    gn_accounts genesis !! vd_address v = Some account ∧
    ec_minimum_self_bond (gn_economics genesis) ≤ acct_balance account.
Lemma bond_validators_ok genesis l staking staking' :
  Bootstrap.bond_validators genesis l staking = (Ok tt, staking') →
  NoDup (vd_address <$> l) →
  (∀ v, v ∈ l → ∃ account, gn_accounts genesis !! vd_address v = Some account ∧
    ec_minimum_self_bond (gn_economics genesis) ≤ acct_balance account) ∧
  ∀ a, ss_validators staking' !! a =
    (if decide (a ∈ vd_address <$> l) then bonded (ec_minimum_self_bond (gn_economics genesis)) else id)
      <$> ss_validators staking !! a.
Proof.
  revert staking. induction l as [|v l IH]; intros staking Hrun Hnd.
  { injection Hrun as <-. split; [by intros v ?%elem_of_nil|].
    intros a. rewrite decide_False by apply not_elem_of_nil. case (_ !! a); done. }
  cbn [fmap list_fmap] in Hnd. apply NoDup_cons in Hnd as [Hv Hnd].
  cbn [Bootstrap.bond_validators] in Hrun. apply eff_bind_inv_ok in Hrun as (u & s1 & Hone & Hrun).
  unfold Bootstrap.bond_validator, mbind, eff_bind, eff_lift, ok_or in Hone.
  destruct (gn_accounts genesis !! vd_address v) as [account|] eqn:Ha; [|done].
  destruct (Z.ltb_spec (acct_balance account) (ec_minimum_self_bond (gn_economics genesis))) as [Hlt|Hge];
    [done|].
  destruct (self_delegate_eq (vd_address v) (ec_minimum_self_bond (gn_economics genesis)) staking)
    as [ds Hd].
  destruct (Staking.delegate _ _ _ _ _) as [r st]. 
  destruct (ss_validators staking !! vd_address v) as [vs|] eqn:Hvs; simplify_eq/=.
  destruct (IH _ Hrun Hnd) as [Hacc Hl]. split.
  - intros w [->|Hw]%elem_of_cons; [by exists account|by apply Hacc].
  - intros a. rewrite Hl. cbn. destruct (decide (a = vd_address v)) as [->|Hne].
    + rewrite lookup_insert_eq, decide_False by done. rewrite decide_True by by left.
      rewrite Hvs. done.
    + rewrite lookup_insert_ne by done. do 2 f_equal.
      destruct (decide (a ∈ vd_address <$> l)) as [Hin|Hin].
      * by rewrite decide_True by by right.
      * by rewrite decide_False by (intros [|]%elem_of_cons; done).
Qed.
Lemma bond_validators_run genesis l staking :
  (∀ v, v ∈ l → ∃ account, gn_accounts genesis !! vd_address v = Some account ∧
    ec_minimum_self_bond (gn_economics genesis) ≤ acct_balance account) →
  (∀ v, v ∈ l → is_Some (ss_validators staking !! vd_address v)) →
  ∃ staking', Bootstrap.bond_validators genesis l staking = (Ok tt, staking').
Proof.
  revert staking. induction l as [|v l IH]; intros staking Hacc Hv; [by eexists|].
  destruct (Hacc v) as (account & Ha & Hge); [by left|].
  destruct (Hv v) as [vs Hvs]; [by left|].
  destruct (self_delegate_eq (vd_address v) (ec_minimum_self_bond (gn_economics genesis)) staking)
    as [ds Hd]. rewrite Hvs in Hd.
  edestruct IH as [staking' Hrun]; [..|exists staking'].
  3: { cbn [Bootstrap.bond_validators]. erewrite eff_bind_ok; [exact Hrun|].
       unfold Bootstrap.bond_validator, mbind, eff_bind, eff_lift, ok_or. rewrite Ha.
       rewrite (proj2 (Z.ltb_ge _ _) Hge), Hd. done. }
  - intros w Hw. apply Hacc. by right.
  - intros w Hw. cbn. destruct (decide (vd_address w = vd_address v)) as [->|Hne].
    + rewrite lookup_insert_eq. by eexists.
    + rewrite lookup_insert_ne by done. apply Hv. by right.
Qed.
Lemma ensure_validators_lookup l staking a :
  match ss_validators staking !! a with
  | Some vs => ss_validators (Staking.ensure_validators l staking) !! a = Some vs
  | None => if decide (a ∈ vd_address <$> l)
      then ∃ vs, ss_validators (Staking.ensure_validators l staking) !! a = Some vs ∧
             vs_self_bond vs = 0 ∧ vs_total_stake vs = 0 ∧ vs_status vs = Active
      else ss_validators (Staking.ensure_validators l staking) !! a = None
  end.
Proof.
  revert staking. induction l as [|v l IH]; intros staking; cbn [Staking.ensure_validators foldl].
  { destruct (ss_validators staking !! a) eqn:E; [done|].
    rewrite decide_False by (by intros ?%elem_of_nil). done. }
  specialize (IH (Staking.ensure_validator staking v)).
  unfold Staking.ensure_validators in IH. unfold Staking.ensure_validator in *.
  destruct (ss_validators staking !! vd_address v) as [vs|] eqn:Hv.
  - destruct (ss_validators staking !! a) eqn:E; [done|].
    assert (a ≠ vd_address v) as Hne by congruence.
    destruct (decide (a ∈ vd_address <$> l)) as [Hin|Hin].
    + by rewrite decide_True by by right.
    + by rewrite decide_False by (intros [|]%elem_of_cons; done).
  - cbn [upd_ss_validators ss_validators] in IH.
    destruct (decide (a = vd_address v)) as [->|Hne].
    + rewrite lookup_insert_eq in IH. rewrite Hv, decide_True by by left. by eexists.
    + rewrite lookup_insert_ne in IH by done. destruct (ss_validators staking !! a) eqn:E; [done|].
      destruct (decide (a ∈ vd_address <$> l)) as [Hin|Hin].
      * by rewrite decide_True by by right.
      * by rewrite decide_False by (intros [|]%elem_of_cons; done).
Qed.
Lemma install_genesis_spec genesis store :
  let store' := Bootstrap.install_genesis genesis store in
  ms_staking_state store' = ms_staking_state store ∧
  ms_governance_state store' = ms_governance_state store ∧
  match Store.get_genesis store with
  | Some _ => store' = store
  | None => Store.get_genesis store' = Some genesis ∧
      ms_accounts store' = gn_accounts genesis ∪ ms_accounts store
  end.
Proof.
  unfold Bootstrap.install_genesis. destruct (Store.get_genesis store) eqn:Hg; [done|].
  rewrite foldl_put_accounts_eq. split_and!; [by destruct store..|].
  rewrite <-foldl_put_accounts_eq. apply map_eq. intros a.
  rewrite foldl_put_lookup by apply entries_keys_NoDup.
  assert (list_to_map (entries (gn_accounts genesis)) = gn_accounts genesis) as ->.
  { rewrite (list_to_map_proper (entries (gn_accounts genesis)) (map_to_list (gn_accounts genesis)));
      [apply list_to_map_to_list | apply entries_keys_NoDup | apply entries_Permutation]. }
  rewrite lookup_union. destruct store. cbn. by destruct (gn_accounts genesis !! a), (ms_accounts !! a).
Qed.
Lemma bootstrap_run genesis store :
  bondable genesis →
  ∃ store', Bootstrap.bootstrap_genesis genesis store = (Ok tt, store').
Proof.
  intros Hb. unfold Bootstrap.bootstrap_genesis.
  destruct (bond_validators_run genesis (gn_validators genesis)
    (Staking.ensure_validators (gn_validators genesis) (Staking.load (Governance.persist
      (Governance.load (gn_economics genesis) (Bootstrap.install_genesis genesis store))
      (Bootstrap.install_genesis genesis store))))) as [staking' Hrun]; [exact Hb| |].
  - intros v Hv. pose proof (ensure_validators_lookup (gn_validators genesis)
      (Staking.load (Governance.persist (Governance.load (gn_economics genesis)
        (Bootstrap.install_genesis genesis store)) (Bootstrap.install_genesis genesis store)))
      (vd_address v)) as He.
    destruct (ss_validators (Staking.load _) !! _); [by eexists|].
    rewrite decide_True in He by by apply list_elem_of_fmap_2. by destruct He as (vs & -> & _); eexists.
  - rewrite Hrun. by eexists.
Qed.
Lemma bootstrap_effect genesis store store' :
  NoDup (vd_address <$> gn_validators genesis) →
  Bootstrap.bootstrap_genesis genesis store = (Ok tt, store') →
  bondable genesis ∧
  match Store.get_genesis store with
  | Some _ => Store.get_genesis store' = Store.get_genesis store ∧
      Store.accounts store' = Store.accounts store
  | None => Store.get_genesis store' = Some genesis ∧
      Store.accounts store' = gn_accounts genesis ∪ Store.accounts store
  end ∧
  Governance.load (gn_economics genesis) store' = Governance.load (gn_economics genesis) store ∧
  ∀ a, ss_validators (Staking.load store') !! a =
    (if decide (a ∈ vd_address <$> gn_validators genesis)
     then bonded (ec_minimum_self_bond (gn_economics genesis)) else id) <$>
    ss_validators (Staking.ensure_validators (gn_validators genesis) (Staking.load store)) !! a.
Proof.
  intros Hnd. unfold Bootstrap.bootstrap_genesis.
  destruct (install_genesis_spec genesis store) as (Hst & Hgov & Hg).
  set (s1 := Bootstrap.install_genesis genesis store) in *.
  destruct (Bootstrap.bond_validators _ _ _) as [[[]| |] staking'] eqn:Hrun; [|done..].
  intros E. apply (f_equal snd) in E. cbn [snd] in E. subst store'.
  apply bond_validators_ok in Hrun as [Hb Hl]; [|done]. split; [exact Hb|].
  split_and!.
  - destruct (Store.get_genesis store) as [g|] eqn:Eg; [|exact Hg].
    rewrite Hg. split; [exact Eg|done].
  - trans (Governance.load (gn_economics genesis) s1); [done|].
    unfold Governance.load, Store.get_governance_state. by rewrite Hgov.
  - intros a. change (Staking.load (Staking.persist staking' _)) with staking'. rewrite Hl.
    assert (Staking.load (Governance.persist (Governance.load (gn_economics genesis) s1) s1) =
      Staking.load store) as ->; [|done].
    unfold Staking.load, Store.get_staking_state. cbn. by rewrite Hst.
Qed.
(** A successful bootstrap installs the genesis and its accounts exactly when the store
    has none yet, keeps the governance state, and adds the minimum self-bond of the genesis
    to the bond of each of its validators, on every start of the node: a restart changes no
    account and adds the bond again. *)
Lemma bootstrap_exact genesis store store' :
  NoDup (vd_address <$> gn_validators genesis) →
  Bootstrap.bootstrap_genesis genesis store = (Ok tt, store') →
  bondable genesis ∧
  match Store.get_genesis store with
  | Some _ => Store.get_genesis store' = Store.get_genesis store ∧
      Store.accounts store' = Store.accounts store
  | None => Store.get_genesis store' = Some genesis ∧
      Store.accounts store' = gn_accounts genesis ∪ Store.accounts store
  end ∧
  Governance.load (gn_economics genesis) store' = Governance.load (gn_economics genesis) store ∧
  ∀ a, self_bond_of a (Staking.load store') =
    if decide (a ∈ vd_address <$> gn_validators genesis)
    then saturating_add U128_MAX (self_bond_of a (Staking.load store))
           (ec_minimum_self_bond (gn_economics genesis))
    else self_bond_of a (Staking.load store).
Proof.
  intros Hnd Hrun. destruct (bootstrap_effect _ _ _ Hnd Hrun) as (Hb & Hg & Hgov & Hl).
  split_and!; [done..|]. intros a. unfold self_bond_of at 1. rewrite Hl.
  pose proof (ensure_validators_lookup (gn_validators genesis) (Staking.load store) a) as He.
  unfold self_bond_of. destruct (ss_validators (Staking.load store) !! a) as [vs|].
  - rewrite He. case_decide; done.
  - case_decide.
    + destruct He as (vs & -> & Hz & _). cbn. by rewrite Hz.
    + by rewrite He.
Qed.

(** ** From the generator to a running validator set *)

(** What the generator writes for one validator. *)
Record generated (accounts0 accounts : gmap Address Account) (gv : GeneratedValidator) : Prop := {
  ge_account : ∃ account, accounts !! vd_address (gv_validator gv) = Some account ∧
    (accounts0 !! vd_address (gv_validator gv) = Some account ∨ acct_balance account = 1000000000);
  ge_config : ∃ secret_key, nc_validator (gv_config gv) = Some {|
    vc_address := vd_address (gv_validator gv);
    vc_public_key := vd_public_key (gv_validator gv); vc_secret_key := secret_key |}
}.
Lemma generate_validators_ok scheme dir chain count i es accounts files gvs accounts' files' :
  Devnet.generate_validators scheme dir chain count i es (accounts, files) =
    (Ok gvs, (accounts', files')) →
  length gvs = length es ∧
  (∀ a account, accounts !! a = Some account → accounts' !! a = Some account) ∧
  (∀ gv, gv ∈ gvs → generated accounts accounts' gv) ∧
  ∀ path config, (path, NodeToml config) ∈ files' →
    (path, NodeToml config) ∈ files ∨ ∃ gv, gv ∈ gvs ∧ config = gv_config gv.
Proof.
  revert i accounts files gvs. induction es as [|e es IH]; intros i accounts files gvs Hrun.
  { injection Hrun as <- <- <-. split_and!; [done|done|by intros gv ?%elem_of_nil|by left]. }
  cbn [Devnet.generate_validators] in Hrun. apply eff_bind_inv_ok in Hrun as (gv & [a1 f1] & Hone & Hrun).
  apply eff_bind_inv_ok in Hrun as (others & [a2 f2] & Hrest & Hrun). injection Hrun as <- <- <-.
  unfold Devnet.generate_validator in Hone.
  apply eff_bind_inv_ok in Hone as ([pk sk] & s0 & Hk & Hone).
  unfold eff_lift in Hk. destruct (map_err _ _) as [[pk' sk']| |]; [|done..]. injection Hk as -> -> <-.
  apply eff_bind_inv_ok in Hone as (address & s0 & Ha & Hone).
  unfold eff_lift in Ha. destruct (map_err _ _) as [address'| |]; [|done..]. injection Ha as -> <-.
  apply eff_bind_inv_ok in Hone as ([] & s0 & Hm & Hone). injection Hm as <-.
  apply eff_bind_inv_ok in Hone as ([] & s0 & Hm & Hone). injection Hm as <-.
  injection Hone as <- <- <-.
  destruct (IH _ _ _ _ Hrest) as (Hlen & Hmono & Hgen & Hfiles).
  set (accounts1 := match accounts !! address with Some _ => accounts | None => _ end) in *.
  assert (∀ a account, accounts !! a = Some account → accounts1 !! a = Some account) as Hm1.
  { intros a account Hacc. unfold accounts1. destruct (accounts !! address) eqn:E; [done|].
    rewrite lookup_insert_ne; [done|]. by intros ->; simplify_eq. }
  assert (∃ account, accounts1 !! address = Some account ∧
    (accounts !! address = Some account ∨ acct_balance account = 1000000000)) as (acc & Hacc & Hor).
  { unfold accounts1. destruct (accounts !! address) eqn:E; [by eexists; split; [|left]|].
    rewrite lookup_insert_eq. eexists; split; [done|by right]. }
  split_and!.
  - cbn. by rewrite Hlen.
  - intros a account Ha. by apply Hmono, Hm1.
  - intros gv [->|Hin]%elem_of_cons.
    + split; [|by eexists]. exists acc. split; [by apply Hmono|done].
    + destruct (Hgen gv Hin) as [(account & Hl & Ho) Hc]. split; [|done]. exists account. split; [done|].
      destruct Ho as [Ho|]; [|by right]. unfold accounts1 in Ho.
      destruct (accounts !! address) eqn:E; [by left|].
      destruct (decide (address = vd_address (gv_validator gv))) as [Heq|Hne].
      * rewrite <-Heq, lookup_insert_eq in Ho. right. by injection Ho as <-.
      * rewrite lookup_insert_ne in Ho by done. by left.
  - intros path config Hin. destruct (Hfiles path config Hin) as [Hin'|(gv & Hgv & ->)].
    + apply elem_of_app in Hin' as [|Hin']; [by left|]. right. eexists. split; [by left|].
      apply elem_of_cons in Hin' as [E|[E|[]%elem_of_nil]%elem_of_cons]; by simplify_eq/=.
    + right. exists gv. split; [by right|done].
Qed.
Lemma fund_balances funded a account :
  Forall (λ e, 1000000 ≤ e.2) funded →
  Devnet.fund funded !! a = Some account → 1000000 ≤ acct_balance account.
Proof.
  unfold Devnet.fund. assert (∀ m : gmap Address Account,
    (∀ a account, m !! a = Some account → 1000000 ≤ acct_balance account) →
    Forall (λ e, 1000000 ≤ e.2) funded →
    ∀ a account, foldl (λ accounts '(address, balance),
      <[address := {| acct_nonce := 0; acct_balance := balance |}]> accounts) m funded !! a =
      Some account → 1000000 ≤ acct_balance account) as Hg.
  { induction funded as [|[b n] l IH]; intros m Hm Hf; [exact Hm|].
    apply Forall_cons in Hf as [Hn Hf]. cbn [foldl]. apply IH; [|exact Hf].
    intros c acc. destruct (decide (b = c)) as [->|Hne].
    - rewrite lookup_insert_eq. by intros [= <-].
    - rewrite lookup_insert_ne by done. apply Hm. }
  intros Hf. apply Hg; [|exact Hf]. intros c acc. by rewrite lookup_empty.
Qed.
Lemma list_find_key l v :
  NoDup (vd_address <$> l) → v ∈ l →
  ∃ i, list_find (λ entry, vd_address entry = vd_address v) l = Some (i, v).
Proof.
  intros Hnd Hin. destruct (list_find_elem_of (λ entry, vd_address entry = vd_address v) l v Hin eq_refl)
    as [[i w] Hf]. exists i. rewrite Hf. do 2 f_equal.
  apply list_find_Some in Hf as (Hw & He & _).
  apply list_elem_of_lookup_1 in Hin as [j Hj].
  assert (i = j) as ->; [|congruence].
  apply (NoDup_lookup (vd_address <$> l) i j (vd_address v) Hnd); rewrite list_lookup_fmap.
  - rewrite Hw. cbn. by rewrite He.
  - by rewrite Hj.
Qed.
(** C31: from the generator to a validator set: the genesis of a generated devnet bootstraps
    an empty store, which then holds exactly the generated accounts and has every generated
    validator active; and each generated configuration names a validator of that genesis,
    with the key it signs with. *)
Theorem generated_genesis_bootstraps scheme output_dir chain_id funded entropies genesis files :
  Devnet.generate_devnet scheme output_dir chain_id funded entropies = Ok (genesis, files) →
  NoDup (vd_address <$> gn_validators genesis) →
  Forall (λ e, 1000000 ≤ e.2) funded →
  (∃ store, Bootstrap.bootstrap_genesis genesis MemoryInner_default = (Ok tt, store) ∧
    Store.accounts store = gn_accounts genesis ∧
    ∀ v, v ∈ gn_validators genesis →
      Staking.is_validator_active (vd_address v) (gn_economics genesis) (Staking.load store) = true) ∧
  ∀ path config, (path, NodeToml config) ∈ files →
    ∃ local, Plane.local_validator config genesis = Ok (Some local) ∧
      lv_validator local ∈ gn_validators genesis ∧
      vc_address <$> nc_validator config = Some (vd_address (lv_validator local)) ∧
      vc_public_key <$> nc_validator config = Some (vd_public_key (lv_validator local)) ∧
      vc_secret_key <$> nc_validator config = Some (lv_secret_key local).
Proof.
  intros Hgen Hnd Hf. unfold Devnet.generate_devnet in Hgen.
  destruct (Devnet.generate_validators _ _ _ _ _ _ _) as [[gvs| |] [accounts fs]] eqn:Hrun; [|done..].
  apply generate_validators_ok in Hrun as (Hlen & Hmono & Hg & Hfiles).
  apply res_bind_inv_ok in Hgen as (first & Hfirst & Hgen). injection Hgen as <- <-.
  set (genesis := {| gn_chain_id := _ |}) in *.
  assert (bondable genesis) as Hb.
  { intros v (gv & -> & Hgv)%list_elem_of_fmap. destruct (Hg gv Hgv) as [(account & Ha & Ho) _].
    exists account. split; [exact Ha|]. cbn.
    destruct Ho as [Ho|Ho]; [by eapply fund_balances|]. rewrite Ho. lia. }
  split.
  - destruct (bootstrap_run genesis MemoryInner_default Hb) as [store Hs]. exists store. split; [exact Hs|].
    destruct (bootstrap_effect _ _ _ Hnd Hs) as (_ & [_ Hacc] & _ & Hl).
    split; [rewrite Hacc; apply map_union_empty|].
    intros v Hv. unfold Staking.is_validator_active. rewrite Hl.
    assert (vd_address v ∈ vd_address <$> gn_validators genesis) as Hin by (by apply list_elem_of_fmap_2).
    rewrite decide_True by done.
    pose proof (ensure_validators_lookup (gn_validators genesis) StakingState_default (vd_address v)) as He.
    cbn [StakingState_default ss_validators] in He. rewrite lookup_empty, decide_True in He by done.
    destruct He as (vs & He & Hz & _ & Hact). change (Staking.load MemoryInner_default) with StakingState_default.
    rewrite He. cbn. unfold Staking.eligible, Staking.is_active, bonded. cbn. rewrite Hact, Hz. done.
  - intros path config Hin. apply elem_of_app in Hin as [Hin|Hin];
      [|by apply list_elem_of_singleton in Hin; simplify_eq].
    destruct (Hfiles path config Hin) as [[]%elem_of_nil|(gv & Hgv & ->)].
    destruct (Hg gv Hgv) as [_ [sk Hc]]. unfold Plane.local_validator. rewrite Hc. cbn [vc_address].
    assert (gv_validator gv ∈ gn_validators genesis) as Hv by (by apply list_elem_of_fmap_2).
    destruct (list_find_key _ _ Hnd Hv) as [i ->]. eexists. split; [done|]. by split_and!.
Qed.
End bootstrap.

(** ** Examples *)
Module BootstrapExamples.
#[local] Existing Instance Toy.codec.
#[local] Existing Instance ToyHash.backend.
#[local] Instance hex : HexEncode := λ _, EmptyString.
(** Two validators and one funded account. *)
Definition devnet : res AnyError (Genesis * list (string * SetupFile)) :=
  Devnet.generate_devnet ToyOqs.scheme "out" "zeno" [(Toy.bob, 5000000)] [[x01; x02]; [x03; x04]].
Definition genesis : Genesis :=
  match devnet with Ok (genesis, _) => genesis | _ => {|
    gn_chain_id := Toy.chain; gn_metadata := nc_metadata Config.default_config; gn_accounts := ∅;
    gn_validators := []; gn_consensus := Config.consensus_params Config.default_config;
    gn_crypto := {| cr_ml_dsa_parameter := "" |}; gn_economics := Devnet.genesis_economics |} end.
Definition files : list (string * SetupFile) :=
  match devnet with Ok (_, files) => files | _ => [] end.
Definition started : MemoryInner := (Bootstrap.bootstrap_genesis genesis MemoryInner_default).2.
Lemma devnet_ok : devnet = Ok (genesis, files).
Proof. vm_compute. reflexivity. Qed.
Lemma validators_distinct : NoDup (vd_address <$> gn_validators genesis).
Proof. apply (bool_decide_unpack _). vm_compute. reflexivity. Qed.
Lemma started_ok : Bootstrap.bootstrap_genesis genesis MemoryInner_default = (Ok tt, started).
Proof.
  unfold started. destruct (Bootstrap.bootstrap_genesis _ _) as [r store] eqn:E. cbn [snd]. f_equal.
  apply (f_equal fst) in E. cbn [fst] in E. rewrite <-E. vm_compute. reflexivity.
Qed.
Lemma bootstrap_exact_witness :
  NoDup (vd_address <$> gn_validators genesis) ∧ self_bond_of Toy.addr (Staking.load started) = 1000000.
Proof.
  split; [exact validators_distinct|].
  destruct (bootstrap_exact genesis MemoryInner_default started validators_distinct started_ok)
    as (_ & _ & _ & Hb).
  rewrite Hb. vm_compute. reflexivity.
Defined.
(** A restart bonds a second time. *)
Lemma restart_bonds_again :
  let restarted := (Bootstrap.bootstrap_genesis genesis started).2 in
  self_bond_of Toy.addr (Staking.load restarted) = 2000000 ∧
  bool_decide (Store.accounts restarted = Store.accounts started) = true.
Proof. vm_compute. done. Qed.
Lemma generated_genesis_bootstraps_witness :
  devnet = Ok (genesis, files) ∧
  ∃ store, Bootstrap.bootstrap_genesis genesis MemoryInner_default = (Ok tt, store).
Proof.
  split; [exact devnet_ok|].
  destruct (generated_genesis_bootstraps ToyOqs.scheme "out" "zeno" [(Toy.bob, 5000000)]
    [[x01; x02]; [x03; x04]] genesis files devnet_ok validators_distinct
    ltac:(repeat constructor; vm_compute; discriminate)) as [(store & Hs & _) _].
  exists store. exact Hs.
Defined.
End BootstrapExamples.
