(* ===== verification/Provider.v ===== *)
(** [crates/zeno-node/src/runtime.rs], the [RpcProvider]: what the node offers to its RPC
    server. *)

From S2P Require Import Prelude Types Codec Hash Crypto Wire Toy Primitives Storage Smt Staking.
From S2P Require Import Mempool Zk Evm EthTx Execution Rounds Consensus Network Setup Bootstrap.
From stdpp Require Import pretty.
Open Scope Z_scope.

(** ** The RPC provider *)
Record PoolInfo := {
  pi_root : Hash32;
  pi_commitment_count : Z;
  pi_nullifier_count : nat;
  pi_total_shielded_value : Z
}.
(** The most that one faucet request may ask for. *)
Definition MAX_FAUCET_AMOUNT : Z := 1000000000000000000000.

Module Provider.
Section provider.
Context `{HashBackend, HexEncode, HexBackend, KeccakBackend, EcdsaBackend, ChainCodec, RevmBackend}
  (default_scheme scheme : SignatureScheme) (config : NodeConfig) (genesis : Genesis)
  (plane : ExecutionPlane).

(** *** Queries *)
Definition account_of (address : Address) (store : MemoryInner) : Account :=
  default inhabitant (Store.get_account address store).
Definition get_balance (address : Address) (store : MemoryInner) : Z :=
  acct_balance (account_of address store).
Definition get_nonce (address : Address) (store : MemoryInner) : Z :=
  acct_nonce (account_of address store).
Definition latest_height (store : MemoryInner) : Z :=
  match Store.latest_block store with
  | Some block => bh_height (bk_header (fb_block block))
  | None => 0
  end.
Definition current_chain_status (peers : list string) (store : MemoryInner) : ChainStatus := {|
  cs_metadata := gn_metadata genesis;
  cs_chain_id := nc_chain_id config;
  cs_latest_height := latest_height store;
  cs_latest_hash := match Store.latest_block store with
    | Some block => Block_hash (fb_block block)
    | None => zero
    end;
  cs_node_id := nc_node_id config;
  cs_peers := peers |}.
Definition get_tx_status (hash : Hash32) (store : MemoryInner) (mempool : Inner) :
    TransactionStatus :=
  match Store.get_receipt hash store with
  | Some receipt => Finalized receipt
  | None => if Mempool.contains hash mempool then Pending else Unknown
  end.
(** An EVM address sees the native account at its zero-padded address as well. *)
Definition padded (address : EvmAddress) : Address :=
  array_pad 32 (replicate 12 x00 ++ array_bytes address).
Definition eth_get_balance (address : EvmAddress) (store : MemoryInner) : Z :=
  let evm_balance := match Store.get_evm_account address store with
    | Some account => ea_balance account | None => 0 end in
  let native_balance := match Store.get_account (padded address) store with
    | Some account => acct_balance account | None => 0 end in
  saturating_add U128_MAX evm_balance native_balance.
Definition eth_get_transaction_count (address : EvmAddress) (store : MemoryInner) : Z :=
  match Store.get_evm_account address store with
  | Some account => ea_nonce account | None => 0 end.
(** The closure of [eth_get_logs]: every required topic is at its index. *)
Definition topics_match (topics : list (option Hash32)) (log : EvmLog) : bool :=
  forallb (λ '(index, topic_filter), match topic_filter with
    | Some required_topic => bool_decide (el_topics log !! index = Some required_topic)
    | None => true
    end) (imap (λ index topic_filter, (index, topic_filter)) topics).
Definition log_matches (query : EvmLogFilter) (log : EvmLog) : bool :=
  match lf_address query with
  | Some addr => bool_decide (el_address log = addr)
  | None => true
  end && topics_match (lf_topics query) log.
Definition eth_get_logs (query : EvmLogFilter) (store : MemoryInner) : res NodeError (list EvmLog) :=
  let from := default 0 (lf_from_block query) in
  let to := default (latest_height store) (lf_to_block query) in
  raw_logs ← map_err NeAny (Store.get_evm_logs_range from to store);
  Ok (filter (λ log, log_matches query log = true) raw_logs.*2).
Definition eth_estimate_gas (request : EvmCallRequest) (store : MemoryInner) : res NodeError Z :=
  result ← Plane.eth_call default_scheme plane request store;
  Ok (wrapping U64_MAX (Z.of_nat (length result) + 21000)).
Definition eth_gas_price : Z := 0.
(** The heights of [(start..=latest_height).rev()]. *)
Definition recent_heights (count latest : Z) : list Z :=
  let start := saturating_sub latest (saturating_sub count 1) in
  rev (seqZ start (latest - start + 1)).
Definition get_recent_blocks (count : Z) (store : MemoryInner) : list FinalizedBlock :=
  omap (λ h, Store.get_block_by_height h store) (recent_heights count (latest_height store)).
Definition get_staking_state (store : MemoryInner) : StakingState :=
  upd_ss_delegations (λ _, ∅) (default StakingState_default (Store.get_staking_state store)).
Definition get_governance_state (store : MemoryInner) : res NodeError GovernanceState :=
  ok_or (note "governance state not initialized") (Store.get_governance_state store).

(** *** Transactions *)
Definition pool_insert (tx : Transaction) : eff Node NodeError () := λ n,
  let '(r, pool) := Mempool.insert tx (nd_mempool n) in
  (map_err NeMempool r, upd_nd_mempool (λ _, pool) n).
Definition submit_tx (tx : Transaction) : eff Node NodeError Hash32 :=
  n ← eff_get;
  _ ← eff_lift (Plane.validate_transaction plane scheme (nd_store n) tx);
  let hash := Transaction_id tx in
  _ ← pool_insert tx;
  n ← eff_get;
  _ ← (if nd_network_up n then eff_modify (upd_nd_outbox (λ o, o ++ [MsgTransaction tx]))
       else eff_lift (Err (note "network stopped")));
  mret hash.
(** The interpreter of raw transactions may not end ([None]), see [EthTx]. *)
Definition eth_send_raw_transaction (fuel : nat) (raw_hex : string) (store : MemoryInner) :
    option (res NodeError Hash32 * MemoryInner) :=
  match ep_evm_chain_id plane with
  | None => Some (Err (note "evm is not enabled for this chain"), store)
  | Some chain_id =>
      match EthTx.execute_raw_ethereum_tx default_scheme Display.any_error fuel {| ex_evm_chain_id := chain_id |}
              raw_hex store with
      | Some (r, store) => Some (fst <$> map_err NeEvm r, store)
      | None => None
      end
  end.

(** *** Validators *)
Definition joining_validator (request : ValidatorJoinRequest) (address : Address) : Validator := {|
  vd_validator_id := "validator-" +:+ hex_encode (take 8 (array_bytes address));
  vd_voting_power := 1;
  vd_p2p_address := vj_p2p_address request;
  vd_rpc_address := vj_rpc_address request;
  vd_public_key := vj_public_key request;
  vd_address := address |}.
Definition register_validator (request : ValidatorJoinRequest) : eff MemoryInner NodeError () :=
  address ← eff_lift (map_err (NeCrypto "invalid public key")
    (derive_address (vj_public_key request)));
  let minimum := ec_minimum_self_bond (gn_economics genesis) in
  if vj_self_bond request <? minimum
  then eff_lift (Err (note ("self-bond " +:+ pretty (vj_self_bond request) +:+ " below minimum " +:+
                            pretty minimum))) else
  store ← eff_get;
  let staking := Staking.ensure_validators [joining_validator request address]
                   (Staking.load store) in
  let '(r, staking) := Staking.delegate address address (vj_self_bond request) true staking in
  _ ← eff_lift (map_err (NeState "delegation failed") r);
  eff_modify (Staking.persist staking).

(** *** Faucet and shielded pool *)
Definition faucet_put (address : Address) (account : Account) : eff MemoryInner NodeError () :=
  eff_modify (Store.put_account address account).
(** [faucet_file]: the key file at its path, when there is one. *)
Definition faucet_send (faucet_file : option (res AnyError WalletKeyFile)) (recipient : Address)
    (amount : Z) : eff MemoryInner NodeError () :=
  if MAX_FAUCET_AMOUNT <? amount
  then eff_lift (Err (note ("faucet maximum is " +:+ pretty MAX_FAUCET_AMOUNT +:+ " ZPQ per request"))) else
  if amount =? 0 then eff_lift (Err (note "amount must be greater than 0")) else
  _ ← (match faucet_file with
       | None => mret tt
       | Some file =>
           faucet_key ← eff_lift (map_err NeAny file);
           store ← eff_get;
           let faucet_account := account_of (wk_address faucet_key) store in
           if acct_balance faucet_account <? amount
           then eff_lift (Err (note "faucet is empty")) else
           faucet_put (wk_address faucet_key) {| acct_nonce := acct_nonce faucet_account;
             acct_balance := saturating_sub (acct_balance faucet_account) amount |}
       end : eff MemoryInner NodeError ());
  store ← eff_get;
  let account := account_of recipient store in
  faucet_put recipient {| acct_nonce := acct_nonce account;
    acct_balance := saturating_add U128_MAX (acct_balance account) amount |}.
Definition zk_shield (request : ShieldRequest) : eff ShieldedPool NodeError Z := λ pool,
  let '(r, pool) := Zk.shield request pool in (map_err NeZk r, pool).
Definition zk_unshield (request : UnshieldRequest) : eff (ShieldedPool * MemoryInner) NodeError () :=
  λ '(pool, store),
  match Zk.unshield request pool with
  | (Ok _, pool) =>
      let account := account_of (ur_recipient request) store in
      (Ok tt, (pool, Store.put_account (ur_recipient request) {| acct_nonce := acct_nonce account;
        acct_balance := saturating_add U128_MAX (acct_balance account) (ur_value request) |} store))
  | (Err e, pool) => (Err (NeZk e), (pool, store))
  | (Panic, pool) => (Panic, (pool, store))
  end.
Definition zk_pool_info (pool : ShieldedPool) : PoolInfo := {|
  pi_root := Zk.pool_root pool;
  pi_commitment_count := Zk.commitment_count pool;
  pi_nullifier_count := Zk.nullifier_count pool;
  pi_total_shielded_value := sp_total_shielded_value pool |}.
End provider.
End Provider.

(** ** Submission *)
Section submission.
Context `{HashBackend, HexEncode, ChainCodec} (scheme : SignatureScheme) (plane : ExecutionPlane).

(** A submitted transaction that passes the checks of the chain state enters the pool
    and is broadcast; a rejected one changes nothing, except that one refused only by the
    stopped network stays in the pool; the store and the round are never touched. *)
Lemma submit_tx_exact tx n :
  mempool_inv (nd_mempool n) →
  let '(r, n') := Provider.submit_tx scheme plane tx n in
  match r with
  | Ok hash =>
      hash = Transaction_id tx ∧ nd_network_up n = true ∧
      Plane.validate_transaction plane scheme (nd_store n) tx = Ok tt ∧
      mempool_inv (nd_mempool n') ∧ accepts tx (nd_mempool n) (nd_mempool n') ∧
      n' = upd_nd_outbox (λ o, o ++ [MsgTransaction tx]) (upd_nd_mempool (λ _, nd_mempool n') n)
  | Err e =>
      n' = n ∨ (nd_network_up n = false ∧ accepts tx (nd_mempool n) (nd_mempool n') ∧
                n' = upd_nd_mempool (λ _, nd_mempool n') n)
  | Panic => Plane.validate_transaction plane scheme (nd_store n) tx = Panic ∧ n' = n
  end.
Proof.
  intros Hi. pose proof (insert_spec (nd_mempool n) tx Hi) as Hs.
  unfold Provider.submit_tx, Provider.pool_insert, mbind, eff_bind, eff_get, eff_lift, eff_modify, mret, eff_ret.
  destruct (Plane.validate_transaction _ _ _ _) as [[]|e|]; [|by left|done].
  destruct (Mempool.insert tx (nd_mempool n)) as [[[]|e|] pool]; cbn [map_err]; [| |done].
  - destruct Hs as [Hi' Ha]. destruct n as [st store pool0 outbox up]. cbn in *.
    destruct up; [by split_and!|]. right. by split_and!.
  - subst pool. left. by destruct n.
Qed.
End submission.

(** ** From a wallet to the pool *)
Section wallet.
Context `{HashBackend, HexEncode, ChainCodec} (scheme : SignatureScheme) keypair
  `{!SignatureSchemeLaws scheme keypair} (plane : ExecutionPlane).

Lemma insert_empty_pool tx :
  nonce tx ≤ 64 → Mempool.insert tx Inner_default = (Ok tt, Mempool.enter tx false Inner_default).
Proof.
  intros Hn. unfold Mempool.insert, Mempool.replace_existing.
  unfold mbind, eff_bind, eff_get, mret, eff_ret.
  rewrite !bool_decide_false by apply is_Some_None. cbv beta iota zeta.
  change (by_sender_nonce Inner_default !! tx_key tx) with (@None Hash32). cbv beta iota zeta.
  unfold Mempool.admit_new, mbind, eff_bind, eff_get.
  change (by_sender_count Inner_default !! sender tx) with (@None Z).
  change (highest_nonce Inner_default !! sender tx) with (@None Z).
  cbn [default from_option]. change (MAX_PER_SENDER <=? 0) with false.
  assert ((saturating_add U64_MAX 0 MAX_PER_SENDER <? nonce tx) = false) as ->
    by (by apply Z.ltb_ge). done.
Qed.
Definition next_height (store : MemoryInner) : Z :=
  match Store.latest_block store with
  | Some block => wrapping U64_MAX (bh_height (bk_header (fb_block block)) + 1)
  | None => 1
  end.
(** A transfer of a wallet that a node with an empty pool admits. *)
Record transfer_admissible (wallet : WalletKeyFile) (chain : string) (amount nonce fee : Z)
    (memo : option string) (valid_until : option Z) (tx : Transaction) (n : Node) : Prop := {
  ta_chain : ep_chain_id plane = {| chain_id_str := chain |};
  ta_amount : 0 < amount;
  ta_fee : 0 < fee;
  ta_sum : amount + fee ≤ U128_MAX;
  ta_memo m : memo = Some m → Z.of_nat (String.length m) ≤ MAX_MEMO_BYTES;
  ta_expiry u : valid_until = Some u → next_height (nd_store n) ≤ u;
  ta_size : Z.of_nat (length (encode_to_vec tx)) ≤ MAX_TRANSACTION_SIZE;
  ta_nonce : Provider.get_nonce (wk_address wallet) (nd_store n) = nonce;
  ta_window : nonce ≤ 64;
  ta_funds : amount + fee ≤ Provider.get_balance (wk_address wallet) (nd_store n);
  ta_pool : nd_mempool n = Inner_default;
  ta_network : nd_network_up n = true;
  ta_fresh : Store.get_receipt (Transaction_id tx) (nd_store n) = None
}.
(** What a proposal at [height] takes from a pool: the pool drops what has expired, its hash
    map is walked in some order, and [select_for_block_prioritized] picks from that. *)
Definition proposes (height : Z) (pool : Inner) (txs : list Transaction) : Prop :=
  ∀ values limit, values ≡ₚ snd <$> map_to_list (by_hash (Mempool.evict_expired height pool)) →
    (0 < limit)%nat → Mempool.select_for_block_prioritized values limit height = txs.
Lemma proposes_single height tx :
  Mempool.is_expired height tx = false → proposes height (Mempool.enter tx false Inner_default) [tx].
Proof.
  intros He values limit Hv Hl.
  assert (map_to_list (by_hash (Mempool.enter tx false Inner_default)) = [(Transaction_id tx, tx)])
    as Hone by apply map_to_list_singleton.
  unfold Mempool.evict_expired in Hv. rewrite Hone in Hv. rewrite filter_cons_False in Hv
    by (cbn [snd]; by rewrite He). cbn [filter list_filter fmap list_fmap foldl] in Hv.
  rewrite Hone in Hv. apply Permutation_singleton_r in Hv. subst values.
  unfold Mempool.select_for_block_prioritized. rewrite filter_cons_True by done.
  change (take limit [tx] = [tx]). apply take_ge. simpl. lia.
Qed.
(** Such a transfer is admitted: the submission succeeds, the transaction is broadcast and
    pending, and it is what a proposal takes from the pool at every height at which it has
    not expired. *)
Lemma wallet_transfer_submitted entropy wallet chain recipient amount nonce fee memo valid_until
    tx n :
  Wallet.generate_wallet scheme entropy = Ok wallet →
  keypair (wk_public_key wallet) (wk_secret_key wallet) →
  Wallet.build_signed_transfer scheme wallet chain recipient amount nonce fee memo valid_until = Ok tx →
  transfer_admissible wallet chain amount nonce fee memo valid_until tx n →
  ∃ n', Provider.submit_tx scheme plane tx n = (Ok (Transaction_id tx), n') ∧
    nd_outbox n' = nd_outbox n ++ [MsgTransaction tx] ∧
    Provider.get_tx_status (Transaction_id tx) (nd_store n') (nd_mempool n') = Pending ∧
    ∀ height, (∀ u, valid_until = Some u → height ≤ u) → proposes height (nd_mempool n') [tx].
Proof.
  intros Hw Hk Hb [Hc Ha Hf Hsum Hmemo Hu Hsize Hn Hn64 Hbal Hpool Hup Hrc].
  unfold Wallet.generate_wallet in Hw. apply res_bind_inv_ok in Hw as ([pk sk] & Hgk & Hw).
  apply res_bind_inv_ok in Hw as (address & Hda & Hw). injection Hw as <-.
  apply (proj1 (map_err_ok _ _ _)) in Hda. cbn [wk_address wk_public_key wk_secret_key] in *.
  unfold Wallet.build_signed_transfer, sign_transaction in Hb.
  apply res_bind_inv_ok in Hb as (bytes & Hbytes & Hb). injection Hbytes as <-.
  apply res_bind_inv_ok in Hb as (sig & Hs & Hb). apply (proj1 (map_err_ok _ _ _)) in Hs.
  set (body := {| tb_chain_id := _ |}) in *. injection Hb as <-. set (tx := {| tx_body := body |}) in *.
  assert (admissible scheme (ep_chain_id plane) tx (next_height (nd_store n))) as Hadm.
  { split; cbn; try done; try lia; auto. by eapply verify_sign. }
  assert (Plane.validate_transaction plane scheme (nd_store n) tx = Ok tt) as Hv.
  { unfold Plane.validate_transaction, Execution.validate_transaction. cbn [Plane.engine Execution.with_protocol en_chain_id].
    fold (next_height (nd_store n)). 
    rewrite (proj2 (verify_transaction_ok scheme (ep_chain_id plane) tx _ _) (conj Hadm eq_refl)).
    cbn [mbind res_bind].
    change (Smt.account (Smt.load (nd_store n)) (tb_sender (tx_body tx))) with
      (Provider.account_of address (nd_store n)).
    unfold Provider.get_nonce, Provider.get_balance in *.
    cbn [tx tx_body body tb_nonce tb_amount tb_fee]. rewrite Hn, Z.eqb_refl. cbn [negb].
    unfold saturating_add. rewrite (proj2 (Z.ltb_ge _ _)) by lia. done. }
  unfold Provider.submit_tx, Provider.pool_insert, mbind, eff_bind, eff_get, eff_lift, eff_modify, mret, eff_ret.
  rewrite Hv, Hpool, insert_empty_pool by exact Hn64.
  destruct n as [st store pool outbox up]. cbn in Hup, Hrc |- *. subst up. eexists. split; [done|]. cbn.
  split_and!; [done| |].
  - unfold Provider.get_tx_status. rewrite Hrc. unfold Mempool.contains, Mempool.enter. cbn.
    rewrite lookup_insert_eq, bool_decide_true by by eexists. done.
  - intros height Hh. apply proposes_single. unfold Mempool.is_expired. cbn.
    destruct valid_until as [u|]; [|done]. apply Z.ltb_ge. by apply Hh.
Qed.
End wallet.

(** ** Queries *)
Lemma topics_match_spec topics log :
  Provider.topics_match topics log = true ↔
  ∀ i topic, topics !! i = Some (Some topic) → el_topics log !! i = Some topic.
Proof.
  unfold Provider.topics_match. rewrite forallb_forall. split.
  - intros Hall i topic Hi. assert (In (i, Some topic) (imap (λ i o, (i, o)) topics)) as Hin.
    { apply list_elem_of_In, list_elem_of_lookup. exists i. by rewrite list_lookup_imap, Hi. }
    apply Hall in Hin. by apply bool_decide_eq_true in Hin.
  - intros Ht [i o] Hin. apply list_elem_of_In, list_elem_of_lookup in Hin as [j Hj].
    rewrite list_lookup_imap in Hj. destruct (topics !! j) as [o'|] eqn:E; [|done].
    injection Hj as <- <-. destruct o' as [topic|]; [|done]. apply bool_decide_eq_true. by apply Ht.
Qed.
(** What a filter selects. *)
Definition selected (query : EvmLogFilter) (log : EvmLog) : Prop :=
  (∀ addr, lf_address query = Some addr → el_address log = addr) ∧
  ∀ i topic, lf_topics query !! i = Some (Some topic) → el_topics log !! i = Some topic.
Lemma log_matches_spec query log : Provider.log_matches query log = true ↔ selected query log.
Proof.
  unfold Provider.log_matches, selected. rewrite andb_true_iff, topics_match_spec.
  apply and_iff_compat_r. destruct (lf_address query) as [addr|]; [|by split].
  rewrite bool_decide_eq_true. split; [by intros <- ? [= <-]|]. intros Hs. by apply Hs.
Qed.
(** [eth_getLogs] answers exactly the stored logs of the requested heights (from the
    first to the latest by default) that come from the requested address and carry every
    required topic at its position; a reversed range over a store with logs is a panic. *)
Lemma eth_get_logs_exact query store :
  let from := default 0 (lf_from_block query) in
  let to := default (Provider.latest_height store) (lf_to_block query) in
  match Provider.eth_get_logs query store with
  | Ok logs => (from ≤ to ∨ ms_evm_logs store = ∅) ∧
      ∀ log, log ∈ logs ↔ selected query log ∧
        ∃ height, from ≤ height ≤ to ∧ log ∈ Store.get_evm_logs_by_height height store
  | Err _ => False
  | Panic => to < from ∧ ms_evm_logs store ≠ ∅
  end.
Proof.
  intros from to. unfold Provider.eth_get_logs, Store.get_evm_logs_range. fold from to.
  destruct ((to <? from) && negb (bool_decide (ms_evm_logs store = ∅))) eqn:Hp; cbn [map_err mbind res_bind].
  { apply andb_true_iff in Hp as [Hlt He]. apply Z.ltb_lt in Hlt. apply negb_true_iff, bool_decide_eq_false in He.
    done. }
  split.
  { apply andb_false_iff in Hp as [Hp|Hp]; [left; by apply Z.ltb_ge in Hp|].
    right. by apply negb_false_iff, bool_decide_eq_true in Hp. }
  intros log. rewrite list_elem_of_filter, log_matches_spec. apply and_iff_compat_l.
  rewrite list_elem_of_fmap. split.
  - intros ([h l] & -> & Hin). exists h. apply list_elem_of_In, in_flat_map in Hin as ([h' logs] & Hin & Hl).
    apply list_elem_of_In, list_elem_of_filter in Hin as [Hr Hin]. apply elem_of_entries in Hin.
    apply list_elem_of_In, list_elem_of_fmap in Hl as (l' & [= -> ->] & Hl).
    split; [done|]. unfold Store.get_evm_logs_by_height. by rewrite Hin.
  - intros (h & Hr & Hl). exists (h, log). split; [done|]. unfold Store.get_evm_logs_by_height in Hl.
    destruct (ms_evm_logs store !! h) as [logs|] eqn:E; [|by apply not_elem_of_nil in Hl].
    apply list_elem_of_In, in_flat_map. exists (h, logs). split.
    + apply list_elem_of_In, list_elem_of_filter. split; [done|]. by apply elem_of_entries.
    + apply list_elem_of_In, list_elem_of_fmap. by exists log.
Qed.

Lemma recent_heights_spec count latest h :
  0 ≤ latest → h ∈ Provider.recent_heights count latest ↔
  0 ≤ h ≤ latest ∧ latest - Z.max 0 (count - 1) ≤ h.
Proof.
  intros Hl. unfold Provider.recent_heights, saturating_sub. rewrite list_elem_of_In, <-in_rev, <-list_elem_of_In.
  rewrite elem_of_seqZ. lia.
Qed.
(** The blocks of the last heights, the latest first. *)
Lemma get_recent_blocks_exact count store block :
  0 ≤ Provider.latest_height store →
  block ∈ Provider.get_recent_blocks count store ↔
  ∃ h, 0 ≤ h ≤ Provider.latest_height store ∧
    Provider.latest_height store - Z.max 0 (count - 1) ≤ h ∧
    Store.get_block_by_height h store = Some block.
Proof.
  intros Hl. unfold Provider.get_recent_blocks. rewrite list_elem_of_omap. split.
  - intros (h & Hh & Hb). apply recent_heights_spec in Hh as [Hr Hc]; [|done]. by exists h.
  - intros (h & Hr & Hc & Hb). exists h. split; [|done]. by apply recent_heights_spec.
Qed.

(** ** The faucet *)
(** A faucet payment is all or nothing; with a faucet key it moves the amount from the
    faucet's account and conserves the sum of the balances, and without one it creates the
    amount. *)
Lemma faucet_effect faucet_file recipient amount store :
  0 ≤ amount →
  Provider.get_balance recipient store + amount ≤ U128_MAX →
  let '(r, store') := Provider.faucet_send faucet_file recipient amount store in
  match r with
  | Ok _ => 0 < amount ≤ MAX_FAUCET_AMOUNT ∧
      supply (Store.accounts store') = supply (Store.accounts store) +
        match faucet_file with Some _ => 0 | None => amount end ∧
      match faucet_file with
      | Some (Ok key) => amount ≤ Provider.get_balance (wk_address key) store
      | _ => faucet_file = None
      end
  | _ => store' = store
  end.
Proof.
  intros Ha Hmax. unfold Provider.faucet_send. destruct (Z.ltb_spec MAX_FAUCET_AMOUNT amount) as [|Hcap]; [done|].
  destruct (Z.eqb_spec amount 0) as [|Hz]; [done|].
  assert (∀ (s : MemoryInner) a acc, Store.accounts (Store.put_account a acc s) = Smt.put_account a acc (Smt.load s)) as Hput
    by (by intros s a acc; destruct s).
  assert (∀ (s : MemoryInner) a, Provider.account_of a s = Smt.account (Smt.load s) a) as Hacc by done.
  unfold mbind, eff_bind, eff_lift, eff_get, eff_modify, Provider.faucet_put, mret, eff_ret.
  destruct faucet_file as [[key|e|]|]; cbn [map_err]; try done.
  - destruct (Z.ltb_spec (acct_balance (Provider.account_of (wk_address key) store)) amount) as [|Hb]; [done|].
    split; [lia|]. split; [|done]. rewrite Hput, supply_put.
    set (s1 := Store.put_account _ _ store).
    assert (Smt.load s1 = Smt.put_account (wk_address key) {|
      acct_nonce := acct_nonce (Provider.account_of (wk_address key) store);
      acct_balance := saturating_sub (acct_balance (Provider.account_of (wk_address key) store)) amount |}
      (Smt.load store)) as Hl by apply Hput.
    cbn [acct_balance]. rewrite Hacc, Hl, supply_put, <-!Hacc. cbn [acct_balance].
    rewrite account_put. unfold saturating_add, saturating_sub, Provider.get_balance in *.
    change (Store.accounts store) with (Smt.load store).
    case_decide as E; [subst recipient|]; cbn [acct_balance]; rewrite <-?Hacc; lia.
  - split; [lia|]. split; [|done]. rewrite Hput, supply_put. cbn [acct_balance]. rewrite <-!Hacc.
    change (Store.accounts store) with (Smt.load store).
    unfold saturating_add, Provider.get_balance in *. lia.
Qed.

(** ** Registration *)
(** A registration bonds what the request names, and takes it from no account. *)
Lemma registration_is_free `{HashBackend, HexEncode, ChainCodec} scheme genesis request store store' :
  Provider.register_validator scheme genesis request store = (Ok tt, store') →
  Store.accounts store' = Store.accounts store ∧
  ∃ address, derive_address (vj_public_key request) = Ok address ∧
    self_bond_of address (Staking.load store') =
    saturating_add U128_MAX (self_bond_of address (Staking.load store)) (vj_self_bond request).
Proof.
  unfold Provider.register_validator, mbind, eff_bind, eff_lift, eff_get, eff_modify.
  destruct (derive_address (vj_public_key request)) as [address| |]; cbn [map_err]; [|done..].
  destruct (_ <? _); [done|].
  pose proof (ensure_validators_lookup [Provider.joining_validator request address] (Staking.load store) address) as He.
  set (staking := Staking.ensure_validators _ _) in *.
  destruct (self_delegate_eq address (vj_self_bond request) staking) as [ds ->].
  destruct (ss_validators staking !! address) as [vs|] eqn:Hvs; [|done]. cbn [map_err].
  intros E. apply (f_equal snd) in E. cbn [snd] in E. subst store'. split; [done|].
  exists address. split; [done|]. unfold self_bond_of.
  change (Staking.load (Staking.persist ?x _)) with x. cbn [upd_ss_validators ss_validators].
  rewrite lookup_insert_eq. cbn. f_equal.
  destruct (ss_validators (Staking.load store) !! address) as [vs0|].
  - rewrite He in Hvs. by simplify_eq.
  - rewrite decide_True in He by by left. destruct He as (vs1 & He & Hz & _).
    rewrite He in Hvs. by simplify_eq.
Qed.

(** ** Examples *)
Module ProviderExamples.
#[local] Existing Instance Toy.codec.
#[local] Existing Instance ToyHash.backend.
#[local] Existing Instance ToyOqs.scheme_laws.
#[local] Instance hex : HexEncode := λ _, EmptyString.
Definition plane : ExecutionPlane := Plane.new Toy.chain BootstrapExamples.genesis.
Definition wallet : WalletKeyFile :=
  {| wk_address := Toy.addr; wk_public_key := Toy.pk; wk_secret_key := Toy.pk |}.
Definition store : MemoryInner :=
  Store.put_evm_logs 3 [{| el_address := array_repeat 20 x01; el_topics := []; el_data := [] |}]
    (Store.put_account Toy.addr {| acct_nonce := 0; acct_balance := 100 |} MemoryInner_default).
Definition node : Node := {| nd_state := RoundState_default; nd_store := store;
  nd_mempool := Inner_default; nd_outbox := []; nd_network_up := true |}.
Definition transfer : Transaction :=
  match Wallet.build_signed_transfer ToyOqs.scheme wallet "zeno" Toy.bob 5 0 10 None None with
  | Ok tx => tx
  | _ => Toy.tx
  end.
Lemma transfer_ok :
  Wallet.build_signed_transfer ToyOqs.scheme wallet "zeno" Toy.bob 5 0 10 None None = Ok transfer.
Proof. vm_compute. reflexivity. Qed.
Lemma transfer_is_admissible :
  transfer_admissible plane wallet "zeno" 5 0 10 None None transfer node.
Proof.
  split.
  - reflexivity.
  - lia.
  - lia.
  - lia.
  - discriminate.
  - discriminate.
  - apply Z.leb_le. vm_compute. reflexivity.
  - vm_compute. reflexivity.
  - lia.
  - apply Z.leb_le. vm_compute. reflexivity.
  - reflexivity.
  - reflexivity.
  - vm_compute. reflexivity.
Qed.
Lemma submit_tx_exact_witness :
  mempool_inv (nd_mempool node) ∧
  is_ok (Provider.submit_tx ToyOqs.scheme plane transfer node).1 = true ∧
  accepts transfer Inner_default (nd_mempool (Provider.submit_tx ToyOqs.scheme plane transfer node).2).
Proof.
  split; [exact pool_init_inv|].
  pose proof (submit_tx_exact ToyOqs.scheme plane transfer node pool_init_inv) as Hs.
  assert (is_ok (Provider.submit_tx ToyOqs.scheme plane transfer node).1 = true) as Hok
    by (vm_compute; reflexivity).
  split; [exact Hok|].
  destruct (Provider.submit_tx _ _ _ _) as [[hash|e|] n']; [|discriminate Hok..]. apply Hs.
Defined.
Lemma faucet_effect_witness :
  let '(r, store') := Provider.faucet_send None Toy.bob 7 store in
  is_ok r = true ∧ supply (Store.accounts store') = supply (Store.accounts store) + 7.
Proof.
  assert (Provider.get_balance Toy.bob store + 7 ≤ U128_MAX) as Hmax
    by (apply Z.leb_le; vm_compute; reflexivity).
  pose proof (faucet_effect None Toy.bob 7 store ltac:(lia) Hmax) as Hf.
  assert (is_ok (Provider.faucet_send None Toy.bob 7 store).1 = true) as Hok
    by (vm_compute; reflexivity).
  destruct (Provider.faucet_send _ _ _ _) as [[u|e|] store']; [|discriminate Hok..].
  split; [reflexivity|]. apply Hf.
Defined.
(** A reversed range panics. *)
Lemma reversed_range_panics :
  Provider.eth_get_logs {| lf_from_block := Some 2; lf_to_block := Some 1; lf_address := None;
    lf_topics := [] |} store = Panic.
Proof. vm_compute. reflexivity. Qed.
End ProviderExamples.
