(* ===== verification/Startup.v ===== *)
(** [crates/zeno-node], from a configuration to a running validator: [Node::new],
    [ConsensusPlane::new] and [ConsensusEngine::new], and the first block of a generated
    network of one validator. *)

From S2P Require Import Prelude Wp Types Codec Hash Crypto Wire Primitives Storage Smt Staking.
From S2P Require Import Mempool Zk Evm EthTx Execution Rounds Durability Consensus ConsensusInv.
From S2P Require Import Certificates ConsensusSafety ConsensusProgress Delivery Finality Solo.
From S2P Require Import Setup Bootstrap Provider.
Open Scope Z_scope.

Module Startup.
(** [ConsensusEngine::new]; its round state is [recovered_state] of the store. *)
Definition consensus_engine (genesis : Genesis) (execution : ExecutionEngine)
    (local_validator : option LocalValidator) : ConsensusEngine := {|
  ce_chain_id := gn_chain_id genesis;
  ce_validators := gn_validators genesis;
  ce_execution := execution;
  ce_params := gn_consensus genesis;
  ce_economics := gn_economics genesis;
  ce_local_validator := local_validator |}.
(** [ConsensusPlane::new]. *)
Definition consensus_plane (config : NodeConfig) (genesis : Genesis) (plane : ExecutionPlane) :
    res NodeError ConsensusEngine :=
  local_validator ← Plane.local_validator config genesis;
  Ok (consensus_engine genesis (Plane.engine plane) local_validator).

Section startup.
Context `{HashBackend, HexEncode, ChainCodec, RevmBackend} (default_scheme scheme : SignatureScheme).
(** [Node::new] and [in_memory_node], on the store they open: the execution plane, and the
    height that the network plane announces in its handshakes. *)
Definition new (config : NodeConfig) (genesis : Genesis) :
    eff MemoryInner NodeError (ExecutionPlane * Z) :=
  _ ← Bootstrap.bootstrap_genesis genesis;
  store ← eff_get;
  let best_height := Provider.latest_height store in
  mret (Plane.new (nc_chain_id config) genesis, best_height).
(** [Node::run], up to the first turn of its event loop; the network task is up. *)
Definition run (iteration : Inner → list Transaction) (now_ms : Z) (config : NodeConfig)
    (genesis : Genesis) (store : MemoryInner) :
    res NodeError (ConsensusEngine * (res ConsensusError () * Node)) :=
  match new config genesis store with
  | (Ok (plane, _), store) =>
      engine ← consensus_plane config genesis plane;
      Ok (engine, Consensus.start default_scheme engine scheme iteration now_ms
            (boot store Inner_default true))
  | (Err e, _) => Err e
  | (Panic, _) => Panic
  end.
End startup.
End Startup.

(** ** A generated network of one validator *)
Section solo_devnet.
Context `{HashBackend, HexEncode, ChainCodec, RevmBackend} (scheme : SignatureScheme).

(** What the generator leaves for its only validator. *)
Lemma generate_solo_ok dir chain funded entropy genesis files :
  Devnet.generate_solo_devnet scheme dir chain funded entropy = Ok (genesis, files) →
  Forall (λ e, 1000000 ≤ e.2) funded →
  ∃ pk sk address config, generate_keypair entropy = Ok (pk, sk) ∧ derive_address pk = Ok address ∧
    gn_validators genesis = [Devnet.validator_of 0 address pk] ∧
    gn_economics genesis = Devnet.genesis_economics ∧ bondable genesis ∧
    nc_validator config = Some {| vc_address := address; vc_public_key := pk; vc_secret_key := sk |} ∧
    ∀ path config', (path, NodeToml config') ∈ files → config' = config.
Proof.
  intros Hgen Hf. unfold Devnet.generate_solo_devnet, Devnet.generate_devnet in Hgen.
  destruct (Devnet.generate_validators _ _ _ _ _ _ _) as [[gvs| |] [accounts fs]] eqn:Hrun; [|done..].
  pose proof (generate_validators_ok _ _ _ _ _ _ _ _ _ _ _ Hrun) as (_ & _ & Hg & Hfiles).
  cbn [Devnet.generate_validators] in Hrun.
  apply eff_bind_inv_ok in Hrun as (gv & [a1 f1] & Hone & [= <- <- <-]).
  unfold Devnet.generate_validator in Hone.
  apply eff_bind_inv_ok in Hone as ([pk sk] & s0 & Hk & Hone).
  unfold eff_lift in Hk. injection Hk as Hk <-. apply (proj1 (map_err_ok _ _ _)) in Hk.
  apply eff_bind_inv_ok in Hone as (address & s0 & Ha & Hone).
  unfold eff_lift in Ha. injection Ha as Ha <-. apply (proj1 (map_err_ok _ _ _)) in Ha.
  apply eff_bind_inv_ok in Hone as ([] & s0 & _ & Hone).
  apply eff_bind_inv_ok in Hone as ([] & s1 & _ & [= <- _]).
  apply res_bind_inv_ok in Hgen as (first & [= <-] & [= <- <-]).
  exists pk, sk, address, (Devnet.config_of dir chain 1 0 address pk sk).
  split_and!; [exact Hk|exact Ha|done|done| |done|].
  - intros v ->%list_elem_of_singleton.
    destruct (Hg _ (list_elem_of_here _ _)) as [(account & Hac & Ho) _]. exists account. split; [exact Hac|].
    cbn. destruct Ho as [Ho|Ho]; [by eapply fund_balances|]. rewrite Ho. lia.
  - intros path config' Hin. apply elem_of_app in Hin as [Hin|Hin];
      [|by apply list_elem_of_singleton in Hin; simplify_eq].
    by destruct (Hfiles path config' Hin) as [[]%elem_of_nil|(gv & ->%list_elem_of_singleton & ->)].
Qed.

(** A bootstrap writes the genesis, the accounts, the staking and the governance state. *)
Lemma bootstrap_frame genesis s s' :
  Bootstrap.bootstrap_genesis genesis s = (Ok tt, s') →
  ms_snapshot s' = ms_snapshot s ∧ ms_consensus_wal s' = ms_consensus_wal s ∧
  ms_blocks_by_height s' = ms_blocks_by_height s ∧
  ms_slashing_protection s' = ms_slashing_protection s.
Proof.
  unfold Bootstrap.bootstrap_genesis. destruct (Bootstrap.bond_validators _ _ _) as [[[]| |] staking]; [|done..].
  intros E. apply (f_equal snd) in E. cbn [snd] in E. subst s'.
  unfold Bootstrap.install_genesis. destruct (Store.get_genesis s); [done|].
  by rewrite foldl_put_accounts_eq.
Qed.
Lemma boot_round s :
  ms_snapshot s = None → ms_consensus_wal s = [] → ms_blocks_by_height s = ∅ →
  Consensus.recovered_state s = RoundState_default.
Proof.
  intros Hs Hw Hb. unfold Consensus.recovered_state, Consensus.initial_snapshot,
    Store.get_consensus_snapshot, Store.load_consensus_wal, Store.latest_block.
  by rewrite Hs, Hw, Hb.
Qed.
End solo_devnet.

Section first_block.
Context `{HashBackend, HexEncode, ChainCodec, RevmBackend} (default_scheme scheme : SignatureScheme)
  (keypair : list byte → list byte → Prop) `{!SignatureSchemeLaws scheme keypair}.

(** The store of a bootstrapped chain of one validator. *)
Lemma solo_ledger genesis v s execution local :
  gn_validators genesis = [v] → gn_economics genesis = Devnet.genesis_economics →
  Bootstrap.bootstrap_genesis genesis MemoryInner_default = (Ok tt, s) →
  manned (Startup.consensus_engine genesis execution local) v s.
Proof.
  intros Hv He Hs. destruct (bootstrap_effect genesis MemoryInner_default s) as (_ & _ & _ & Hl);
    [rewrite Hv; apply NoDup_singleton|exact Hs|]. rewrite Hv, He in Hl.
  change (Staking.load MemoryInner_default) with StakingState_default in Hl.
  set (vs := {| vs_validator_address := vd_address v; vs_self_bond := 0; vs_total_stake := 0;
    vs_commission_bps := 0; vs_status := Active; vs_last_liveness_epoch := 0 |}).
  assert (ss_validators (Staking.load s) = {[ vd_address v := bonded 1000000 vs ]}) as E.
  { assert (ss_validators (Staking.ensure_validators [v] StakingState_default) = {[ vd_address v := vs ]})
      as Ee by reflexivity.
    apply map_eq. intros a. rewrite Hl, Ee. change (vd_address <$> [v]) with [vd_address v].
    destruct (decide (a = vd_address v)) as [->|Hne].
    - rewrite decide_True by by left. by rewrite !lookup_singleton_eq.
    - by rewrite !lookup_singleton_ne, fmap_None by done. }
  exists (bonded 1000000 vs). split; [|by cbn; rewrite He].
  unfold Consensus.ledger. cbn [ce_validators Startup.consensus_engine]. rewrite Hv, ensure_idle; [exact E|].
  intros a ->%list_elem_of_singleton. rewrite E, lookup_singleton_eq. by eexists.
Qed.
Lemma booted_resting engine v s :
  ms_snapshot s = None → ms_consensus_wal s = [] → ms_blocks_by_height s = ∅ →
  manned engine v s → resting engine scheme v (booted s Inner_default true).
Proof.
  intros Hs Hw Hb Hm. pose proof (boot_round s Hs Hw Hb) as Er.
  assert (recoverable s) as Hrc by (apply unjournaled_recoverable; [done|by rewrite Er]).
  split; [by apply booted_inv| |done|].
  - change (fresh_round (Consensus.recovered_state s)). by rewrite Er.
  - exact Hm.
Qed.
(** The first turn on a chain without blocks, with an empty pool. *)
Lemma first_turn engine (iteration : Inner → list Transaction) v sk now_ms s block :
  sole engine scheme keypair v sk → manned engine v s →
  ms_snapshot s = None → ms_consensus_wal s = [] → ms_blocks_by_height s = ∅ →
  ms_slashing_protection s = ∅ → iteration Inner_default = [] →
  own_block engine scheme v sk s 1 0 now_ms [] (Smt.load s) = Ok block → proposable engine block →
  ∃ n', Consensus.start default_scheme engine scheme iteration now_ms (boot s Inner_default true) = (Ok tt, n') ∧
    extends engine scheme v (booted s Inner_default true) n' block (Smt.load s).
Proof.
  intros Hsole Hman Fs Fw Fb Fp Hiter Hb Hprop.
  pose proof (booted_resting engine v s Fs Fw Fb Hman) as Hrest.
  pose proof (boot_round s Fs Fw Fb) as Eround. set (n0 := booted s Inner_default true) in *.
  assert (nd_state n0 = RoundState_default) as Est by exact Eround.
  assert (∀ h, selection engine iteration h Inner_default = []) as Hsel.
  { intros h. unfold selection, Mempool.evict_expired. cbn [by_hash Inner_default].
    rewrite map_to_list_empty. cbn [filter list_filter fmap list_fmap foldl]. rewrite Hiter.
    apply take_nil. }
  destruct (propose_run default_scheme engine scheme keypair iteration v sk Hsole now_ms n0
    (Smt.load s) block) as (n' & E & Hext);
    rewrite ?Est; cbn [rs_height rs_round RoundState_default];
    change (nd_mempool n0) with Inner_default; rewrite ?Hsel; try done.
  { unfold last_signed, Store.get_slashing_protection.
    change (ms_slashing_protection (nd_store n0)) with (ms_slashing_protection s). by rewrite Fp. }
  { constructor. }
  exists n'. assert (Consensus.start default_scheme engine scheme iteration now_ms
    (boot s Inner_default true) = (Ok tt, n')) as Estart
    by (unfold Consensus.start; rewrite (eff_bind_ok _ _ _ tt n0) by reflexivity; exact E).
  split; [exact Estart|]. apply Hext. eapply keeps_inv; [|exact Estart].
  apply start_inv; [|by rewrite Eround]. apply unjournaled_recoverable; [done|by rewrite Eround].
Qed.
End first_block.

(** C12: the first block.  Let the generator make a network of one validator from any
    randomness that gives a key pair which signs, and let a node start from the files it
    wrote.  Then the node bootstraps its store from that genesis, finds its key among the
    genesis validators, and its first call of the consensus engine ends with the block of
    height 1 built, voted, certified, executed, stored and announced, and with height 2
    open; no step of the start-up fails, as long as that block, the one built on the
    bootstrapped store from no transactions, is within the size limit of the genesis and
    does not hash to zero.  The accounts are those of the genesis, with the
    reward of a block without fees paid out. *)
Theorem solo_devnet_first_block `{HashBackend, HexEncode, ChainCodec, RevmBackend}
    (default_scheme scheme : SignatureScheme) keypair `{!SignatureSchemeLaws scheme keypair}
    (iteration : Inner → list Transaction) (now_ms : Z) (dir chain path : string)
    (funded : list (Address * Z)) (entropy : list byte) (genesis : Genesis)
    (files : list (string * SetupFile)) (config : NodeConfig) :
  Devnet.generate_solo_devnet scheme dir chain funded entropy = Ok (genesis, files) →
  (path, NodeToml config) ∈ files →
  Forall (λ e, 1000000 ≤ e.2) funded →
  (∀ pk sk, generate_keypair entropy = Ok (pk, sk) → keypair pk sk ∧ signs scheme sk) →
  iteration Inner_default = [] →
  ∃ engine result v sk store block,
    Startup.run default_scheme scheme iteration now_ms config genesis MemoryInner_default =
      Ok (engine, result) ∧
    gn_validators genesis = [v] ∧
    ce_local_validator engine = Some {| lv_validator := v; lv_secret_key := sk |} ∧
    Bootstrap.bootstrap_genesis genesis MemoryInner_default = (Ok tt, store) ∧
    own_block engine scheme v sk store 1 0 now_ms [] (gn_accounts genesis) = Ok block ∧
    verify_block scheme block = Ok tt ∧
    (proposable engine block →
      result.1 = Ok tt ∧ rs_height (nd_state result.2) = 2 ∧
      (∃ finalized, Store.get_block_by_height 1 (nd_store result.2) = Some finalized ∧
        fb_block finalized = block ∧ MsgCommit finalized ∈ nd_outbox result.2) ∧
      Store.accounts (nd_store result.2) =
        paid (ce_execution engine) (vd_address v) 0 (gn_accounts genesis)).
Proof.
  intros Hgen Hin Hf Hkeys Hiter.
  destruct (generate_solo_ok scheme _ _ _ _ _ _ Hgen Hf) as (pk & sk & address & cfg & Hk & Ha & Hv & He & Hb & Hc & Hcfg).
  pose proof (Hcfg path config Hin) as ->. destruct (Hkeys pk sk Hk) as [Hkey Hsig].
  set (v := Devnet.validator_of 0 address pk) in *.
  destruct (bootstrap_run genesis MemoryInner_default Hb) as [s Hs].
  destruct (bootstrap_frame genesis _ _ Hs) as (Fs & Fw & Fb & Fp).
  destruct (bootstrap_effect genesis MemoryInner_default s) as (_ & [_ Hacc] & _);
    [rewrite Hv; apply NoDup_singleton|exact Hs|].
  set (plane := Plane.new (nc_chain_id cfg) genesis).
  set (local := {| lv_validator := v; lv_secret_key := sk |}).
  assert (Plane.local_validator cfg genesis = Ok (Some local)) as Hloc.
  { unfold Plane.local_validator. rewrite Hc, Hv. cbn [vc_address list_find].
    by rewrite decide_True. }
  set (engine := Startup.consensus_engine genesis (Plane.engine plane) (Some local)).
  assert (sole engine scheme keypair v sk) as Hsole.
  { split; try done. intros l [= <-]. by split_and!. }
  pose proof (solo_ledger genesis v s (Plane.engine plane) (Some local) Hv He Hs) as Hman. fold engine in Hman.
  destruct (sign_block_total scheme sk (own_header engine v s 1 0 now_ms [] (Smt.load s))
    [] (vd_public_key v) Hsig) as [block Hblock].
  destruct (own_block_spec engine scheme keypair v sk Hsole _ _ _ _ _ _ _ Hblock) as (Hbh & Hbt & Hbv).
  assert (Smt.load s = gn_accounts genesis) as El
    by (unfold Smt.load; rewrite Hacc; apply map_union_empty).
  eexists engine, _, v, sk, s, block. split.
  { unfold Startup.run, Startup.new, mbind, eff_bind. rewrite Hs. cbn. fold plane.
    unfold Startup.consensus_plane. rewrite Hloc. reflexivity. }
  split; [exact Hv|]. split; [done|]. split; [exact Hs|].
  split; [by rewrite <-El|]. split; [exact Hbv|]. intros Hprop. fold plane local engine.
  destruct (first_turn default_scheme scheme keypair engine iteration v sk now_ms s block)
    as (n' & -> & [_ _ Xh _ Xb Xa _]); try done.
  change (nd_state (booted s Inner_default true)) with (Consensus.recovered_state s) in Xh, Xb.
  rewrite (boot_round s Fs Fw Fb) in Xh, Xb. cbn [fst snd]. split_and!; [done|exact Xh|exact Xb|].
  by rewrite Xa, Hbt, El.
Qed.
