(* ===== verification/LivenessExamples.v ===== *)
(** Runs that discharge the hypotheses of the liveness theorems: a network of four
    validators that finalizes the proposal of one of them, a network of one validator, its
    pool with an unsigned transaction, and the first block of a generated network. *)

From S2P Require Import Prelude Types Codec Hash Crypto Wire Toy Primitives Storage Smt Staking.
From S2P Require Import Mempool Zk Evm Execution Rounds Durability Consensus ConsensusInv.
From S2P Require Import Certificates ConsensusSafety ConsensusProgress ProposalCheck.
From S2P Require Import Delivery Finality Solo ConsensusExamples Setup Bootstrap Provider Startup.
Import Toy ToyRevm.

(** As the node builds them: the execution engine knows the validators and the economics. *)
Definition plane_of (keys : list (list byte)) (me : option (list byte)) : ConsensusEngine := {|
  ce_chain_id := chain; ce_validators := validator_of <$> keys;
  ce_execution := Execution.with_protocol chain None economics (validator_of <$> keys);
  ce_params := params; ce_economics := economics;
  ce_local_validator := (λ pk, {| lv_validator := validator_of pk; lv_secret_key := pk |}) <$> me |}.
Abbreviation key_pair := ToyOqs.keypair.
#[local] Existing Instance ToyOqs.scheme_laws.

Lemma toy_signs sk : length sk = 2%nat → signs scheme sk.
Proof. intros Hl domain message. cbn. unfold MlDsaScheme.sign. cbn. by rewrite Hl. Qed.
Lemma toy_can_sign keys pk :
  length pk = 2%nat → @derive_address scheme pk = Ok (address_of pk) →
  can_sign (plane_of keys (Some pk)) scheme key_pair.
Proof. intros Hl Ha local [= <-]. cbn. split_and!; [by split|exact Ha|by apply toy_signs]. Qed.

(** Decisions of the hypotheses on concrete nodes. *)
Definition fresh_b (st : RoundState) : bool :=
  bool_decide (rs_proposal st = None) && bool_decide (rs_prevotes st = ∅) &&
  bool_decide (rs_precommits st = ∅) && bool_decide (rs_votes st = []) &&
  negb (rs_prevoted st) && negb (rs_precommitted st) && bool_decide (rs_evidence st = []) &&
  bool_decide (rs_locked_block st = None).
Lemma fresh_b_spec st : fresh_b st = true → fresh_round st.
Proof. unfold fresh_b. intros Hb. repeat apply andb_prop in Hb as [Hb ?]. to_prop. split; done. Qed.
Definition keyed_b (st : StakingState) : bool :=
  bool_decide (map_Forall (λ a vs, vs_validator_address vs = a) (ss_validators st)).
Lemma keyed_b_spec st : keyed_b st = true → keyed st.
Proof. intros Hb%bool_decide_eq_true a vs. apply Hb. Qed.

(** ** A network of four validators *)
Definition four : list (list byte) := [pk; pk2; [x05; x06]; [x07; x08]].
Definition voter : ConsensusEngine := plane_of four (Some pk).
Definition proposer_of_round : list byte :=
  match Consensus.proposer_for voter 1 0 MemoryInner_default with Ok v => vd_public_key v | _ => [] end.
Definition proposer_node : Node := (start_of (plane_of four (Some proposer_of_round))).2.
Definition sent_proposal : option Proposal :=
  match nd_outbox proposer_node with MsgProposal p :: _ => Some p | _ => None end.
Definition offered : Proposal := default
  {| pr_height := 1; pr_round := 0; pr_block := no_block; pr_validator_address := address_of pk2 |}
  sent_proposal.
Definition offered_hash : Hash32 := Block_hash (pr_block offered).
Abbreviation voter_start := ((start_of voter).2).
(** Out of order, with a repetition, and a late vote of the fourth validator. *)
Definition ballots_in : list Vote := [
  vote_by [x05; x06] Precommit offered_hash; vote_by pk2 Prevote offered_hash;
  vote_by pk2 Prevote offered_hash; vote_by [x05; x06] Prevote offered_hash;
  vote_by pk2 Precommit offered_hash; vote_by [x07; x08] Precommit offered_hash].
Abbreviation hears e event n := ((event_of e event n).2).
Definition voter_end : Node :=
  foldl (λ n v, hears voter (Inbound (MsgVote v)) n)
    (hears voter (Inbound (MsgProposal offered)) voter_start) ballots_in.

Definition for_target_b (self : ConsensusEngine) (s : MemoryInner) (block : Block) (h r : Z) (v : Vote) : bool :=
  is_ok (verify_vote scheme v) && (vt_height v =? h) && (vt_round v =? r) &&
  bool_decide (vt_block_hash v = Block_hash block) &&
  bool_decide (is_Some (ss_validators (Consensus.ledger self s) !! vt_validator_address v)).
Lemma for_target_b_spec self s block h r votes :
  forallb (for_target_b self s block h r) votes = true →
  Forall (for_target self scheme s (Some block) h r) votes.
Proof.
  intros Hb. apply Forall_forall. intros v Hv. rewrite forallb_forall in Hb.
  specialize (Hb v (proj1 (list_elem_of_In _ _) Hv)). unfold for_target_b in Hb.
  repeat apply andb_prop in Hb as [Hb ?]. to_prop. split; try done.
  by destruct (verify_vote scheme v) as [[]| |].
Qed.
Lemma empty_block_executable engine (s : MemoryInner) block :
  bk_transactions block = [] → header_matches scheme block
    (paid engine (bh_proposer (bk_header block)) 0 (Smt.load s)) [] s →
  executable engine scheme s block (Smt.load s).
Proof. intros Ht Hh. split; rewrite Ht; [constructor|constructor|exact Hh]. Qed.

Lemma supermajority_finalizes_witness :
  rs_height (nd_state voter_end) = 2 ∧
  Store.accounts (nd_store voter_end) =
    paid (ce_execution voter) (bh_proposer (bk_header (pr_block offered))) 0
      (Smt.load (nd_store voter_start)).
Proof.
  assert (rs_height (nd_state voter_start) = 1) as Hh by (vm_compute; reflexivity).
  assert (rs_round (nd_state voter_start) = 0) as Hr by (vm_compute; reflexivity).
  assert (bk_transactions (pr_block offered) = []) as Ht by (vm_compute; reflexivity).
  destruct (supermajority_finalizes scheme scheme key_pair voter no_pool voter_start offered
    ballots_in (Smt.load (nd_store voter_start))) as (Eh & _ & Ea).
  - apply starts. vm_compute. discriminate.
  - apply fresh_b_spec. vm_compute. reflexivity.
  - vm_compute. reflexivity.
  - rewrite Hh. ulia.
  - reflexivity.
  - apply toy_can_sign; vm_compute; reflexivity.
  - apply keyed_b_spec. vm_compute. reflexivity.
  - rewrite Hh. vm_compute. reflexivity.
  - rewrite Hr. vm_compute. reflexivity.
  - vm_compute. reflexivity.
  - apply empty_block_executable; [exact Ht|].
    split_and!; vm_compute; reflexivity.
  - apply (bool_decide_unpack _). vm_compute. exact I.
  - apply for_target_b_spec. vm_compute. reflexivity.
  - apply Nat.leb_le. vm_compute. reflexivity.
  - rewrite Hh in Eh. rewrite Ht in Ea. split; [exact Eh|exact Ea].
Defined.

(** ** A network of one validator *)
Definition lone : ConsensusEngine := plane_of [pk] (Some pk).
(** One order in which the hash map of the pool may be iterated. *)
Definition values (pool : Inner) : list Transaction := snd <$> map_to_list (by_hash pool).
Definition lone_store : MemoryInner :=
  Store.put_account (address_of pk) {| acct_nonce := 0; acct_balance := 100 |} MemoryInner_default.
Definition lone_start : Node :=
  (Consensus.start scheme lone scheme values 0 (boot lone_store Inner_default true)).2.
(** The node at height 2 once a transaction has been gossiped to it. *)
Definition lone_node (tx : Transaction) : Node :=
  upd_nd_mempool (λ pool, (Mempool.insert tx pool).2) lone_start.
Definition unsigned : Transaction :=
  {| tx_body := tx_body transfer; tx_public_key := pk; tx_signature := [] |}.

Lemma lone_sole : sole lone scheme key_pair (validator_of pk) pk.
Proof. split; [reflexivity..|]. apply toy_can_sign; vm_compute; reflexivity. Qed.
Lemma lone_manned_b self v s :
  bool_decide (ss_validators (Consensus.ledger self s) = {[ vd_address v :=
    default {| vs_validator_address := vd_address v; vs_self_bond := 0; vs_total_stake := 0;
      vs_commission_bps := 0; vs_status := Active; vs_last_liveness_epoch := 0 |}
    (ss_validators (Consensus.ledger self s) !! vd_address v) ]}) = true →
  match ss_validators (Consensus.ledger self s) !! vd_address v with
  | Some vs => bool_decide (vs_validator_address vs = vd_address v) &&
      Staking.eligible (ce_economics self) vs
  | None => false
  end = true →
  manned self v s.
Proof.
  intros E%bool_decide_eq_true Hb. destruct (_ !! _) as [vs|]; [|done].
  apply andb_prop in Hb as [Ha%bool_decide_eq_true He]. by exists vs.
Qed.
Lemma with_pool_inv f n : node_inv scheme n → node_inv scheme (upd_nd_mempool f n).
Proof. by apply quiet_inv. Qed.
Lemma lone_reachable : reachable scheme lone scheme values lone_start.
Proof.
  eapply (reach_start _ _ _ _ lone_store Inner_default true 0 _
    (Consensus.start scheme lone scheme values 0 (boot lone_store Inner_default true)).1).
  - by split.
  - vm_compute. discriminate.
  - vm_compute. discriminate.
  - apply surjective_pairing.
Qed.
Lemma lone_resting tx : resting lone scheme (validator_of pk) (lone_node tx).
Proof.
  split.
  - apply with_pool_inv, (reachable_inv _ _ _ _ _ lone_reachable).
  - apply fresh_b_spec. vm_compute. reflexivity.
  - vm_compute. reflexivity.
  - apply lone_manned_b; vm_compute; reflexivity.
Qed.
Abbreviation event_of_values ev n := (Consensus.on_event scheme lone scheme values ev n).
(** The transactions of the next proposal. *)
Definition next_txs (tx : Transaction) : list Transaction :=
  selection lone values (rs_height (nd_state (lone_node tx))) (nd_mempool (lone_node tx)).
Definition lone_state : Smt.StateSnapshot := Smt.load (nd_store lone_start).
Definition lone_block : Block :=
  match own_block lone scheme (validator_of pk) pk (nd_store (lone_node transfer))
    (rs_height (nd_state (lone_node transfer))) (rs_round (nd_state (lone_node transfer)) + 1) 5000
    [transfer] (settle transfer lone_state) with Ok block => block | _ => no_block end.
Lemma transfer_selected : next_txs transfer = [transfer].
Proof. vm_compute. reflexivity. Qed.
Lemma lone_room tx : roomy (RoundTimeout 5000) (lone_node tx).
Proof. split_and!; vm_compute; done. Qed.
Lemma lone_unsigned tx : last_signed (validator_of pk) (nd_store (lone_node tx)) < rs_height (nd_state (lone_node tx)).
Proof. vm_compute. reflexivity. Qed.
Lemma transfer_pays : payable (ce_execution lone) scheme lone_state 2 transfer.
Proof.
  assert (Execution.validate_transaction (ce_execution lone) scheme lone_state 2 transfer = Ok tt)
    as (Ha & Hn & Hb)%validate_ok by (vm_compute; reflexivity).
  split; [exact Ha|exact Hn|..]; vm_compute; discriminate.
Qed.
(** The next timeout commits the transfer. *)
Lemma solo_timeout_finalizes_witness :
  ∃ n', event_of_values (RoundTimeout 5000) (lone_node transfer) = (Ok tt, n') ∧
    rs_height (nd_state n') = 3 ∧ acct_balance (Smt.account (Smt.load (nd_store n')) (address_of pk2)) = 5.
Proof.
  assert (rs_height (nd_state (lone_node transfer)) = 2) as Hh by (vm_compute; reflexivity).
  pose proof transfer_selected as Hsel.
  unfold next_txs in Hsel. 
  destruct (solo_timeout_finalizes scheme scheme key_pair lone values (validator_of pk) pk
    (lone_node transfer) 5000 (settle transfer lone_state) lone_block) as (n' & E & [_ _ Xh _ _ Xa _]).
  - exact lone_sole.
  - apply lone_resting.
  - apply lone_unsigned.
  - apply lone_room.
  - rewrite Hsel. by repeat constructor.
  - rewrite Hsel, Hh. econstructor; [exact transfer_pays|constructor].
  - rewrite Hsel. vm_compute. reflexivity.
  - split; [vm_compute; discriminate|]. apply (bool_decide_unpack _). vm_compute. exact I.
  - exists n'. split; [exact E|]. split; [by rewrite Xh, Hh|]. unfold Smt.load. rewrite Xa.
    vm_compute. reflexivity.
Defined.

(** The same transfer without its signature. *)
Lemma settled_first engine height tx txs state state' :
  settled engine scheme height (tx :: txs) state state' → payable engine scheme state height tx.
Proof. by inversion_clear 1. Qed.
Lemma unsigned_selected : next_txs unsigned = [unsigned].
Proof. vm_compute. reflexivity. Qed.
Definition halted : Node := (event_of_values (RoundTimeout 5000) (lone_node unsigned)).2.
Lemma unexecutable_pool_halts_witness :
  is_ok (event_of_values (RoundTimeout 5000) (lone_node unsigned)).1 = false ∧
  ∀ pool,
    let restarted := Consensus.start scheme lone scheme values 6000 (boot (nd_store halted) pool true) in
    let later := foldl (λ m now_ms, (event_of_values (RoundTimeout now_ms) m).2) restarted.2
      [9000; 15000; 27000] in
    rs_height (nd_state later) = 2 ∧ chain_frame (nd_store (lone_node unsigned)) (nd_store later).
Proof.
  assert (rs_height (nd_state (lone_node unsigned)) = 2) as Hh by (vm_compute; reflexivity).
  pose proof unsigned_selected as Hsel. unfold next_txs in Hsel.
  destruct (unexecutable_pool_halts scheme scheme key_pair lone values (validator_of pk) pk
    (lone_node unsigned) 5000) as (r & n' & E & Hr & _ & _ & _ & Hhalt).
  - exact lone_sole.
  - apply lone_resting.
  - apply lone_unsigned.
  - apply lone_room.
  - rewrite Hsel. by repeat constructor.
  - rewrite Hsel, Hh. intros state' [Ha Hn _ _ _]%settled_first.
    assert (Execution.validate_transaction (ce_execution lone) scheme
      (Smt.load (nd_store (lone_node unsigned))) 2 unsigned = Ok tt) as Hv.
    { apply validate_ok. split; [exact Ha|]. split; [exact Hn|]. vm_compute. discriminate. }
    vm_compute in Hv. discriminate Hv.
  - assert (n' = halted) as -> by exact (eq_sym (f_equal snd E)).
    split; [exact (eq_trans (f_equal (λ x, is_ok x.1) E) Hr)|]. intros pool. rewrite Hh in Hhalt.
    destruct (Hhalt pool 6000 [9000; 15000; 27000]) as (_ & Eh & Hc).
    + vm_compute. reflexivity.
    + vm_compute. discriminate.
    + by split.
Defined.

(** Two transactions of one sender, each payable at its turn: the one that pays more comes
    first, although its nonce is the later one, and the block cannot be built. *)
Definition second_transfer : Transaction :=
  let body := {| tb_chain_id := chain; tb_sender := address_of pk; tb_recipient := address_of pk2;
    tb_amount := 5; tb_nonce := 1; tb_fee := 2; tb_evm := None; tb_memo := None;
    tb_valid_until := None |} in
  {| tx_body := body; tx_public_key := pk;
     tx_signature := pk ++ MlDsaScheme.domain_message DomTransaction (encode_to_vec body) |}.
Definition two_pooled : Node :=
  upd_nd_mempool (λ pool, (Mempool.insert second_transfer pool).2) (lone_node transfer).
Lemma fee_order_breaks_nonces :
  selection lone values 2 (nd_mempool two_pooled) = [second_transfer; transfer] ∧
  is_ok (event_of_values (RoundTimeout 5000) two_pooled).1 = false ∧
  is_ok (Execution.apply_transactions scheme (ce_execution lone) scheme 2 [transfer; second_transfer] 0 []
    (nd_store two_pooled, lone_state)).1 = true.
Proof. split_and!; vm_compute; reflexivity. Qed.

(** ** The first block of a generated network *)
Definition generated : res AnyError (Genesis * list (string * SetupFile)) :=
  Devnet.generate_solo_devnet scheme "out" "zeno" [(bob, 5000000)] [x01; x02].
Definition new_genesis : Genesis :=
  match generated with Ok (genesis, _) => genesis | _ => BootstrapExamples.genesis end.
Definition new_files : list (string * SetupFile) :=
  match generated with Ok (_, files) => files | _ => [] end.
Definition node_file : option (string * NodeConfig) :=
  head (omap (λ '(path, file), match file with NodeToml c => Some (path, c) | _ => None end) new_files).
Definition new_path : string := default EmptyString (fst <$> node_file).
Definition new_config : NodeConfig := default Config.default_config (snd <$> node_file).
Lemma omap_head {A B} (f : A → option B) (l : list A) b :
  head (omap f l) = Some b → ∃ a, a ∈ l ∧ f a = Some b.
Proof.
  intros Hh. apply list_elem_of_omap. destruct (omap f l); [done|]. injection Hh as ->. by left.
Qed.
Lemma new_config_written : (new_path, NodeToml new_config) ∈ new_files.
Proof.
  assert (bool_decide (is_Some node_file) = true) as [[path config] E]%bool_decide_eq_true
    by (vm_compute; reflexivity).
  unfold new_path, new_config. rewrite E. cbn.
  apply omap_head in E as ([path' file] & Hin & Hf). destruct file; simplify_eq. exact Hin.
Qed.
Abbreviation first_run := (Startup.run scheme scheme values 1000 new_config new_genesis MemoryInner_default).
Abbreviation first_boot := (Bootstrap.bootstrap_genesis new_genesis MemoryInner_default).
Definition proposable_b (self : ConsensusEngine) (block : Block) : bool :=
  (Z.of_nat (length (encode_to_vec block)) <=? cp_max_block_bytes (ce_params self)) &&
  bool_decide (Block_hash block ≠ NIL_HASH).
(** The block of a start, checked against the limits. *)
Definition start_check (run : res NodeError (ConsensusEngine * (res ConsensusError () * Node)))
    (validators : list Validator) (booted : res NodeError () * MemoryInner)
    (accounts : gmap Address Account) : bool :=
  match run, validators with
  | Ok (engine, _), [v] =>
      match ce_local_validator engine with
      | Some local =>
          match own_block engine scheme v (lv_secret_key local) booted.2 1 0 1000 [] accounts with
          | Ok block => proposable_b engine block
          | _ => false
          end
      | None => false
      end
  | _, _ => false
  end.
Lemma start_check_spec run engine result validators v local booted accounts block :
  start_check run validators booted accounts = true → run = Ok (engine, result) → validators = [v] →
  ce_local_validator engine = Some local →
  own_block engine scheme v (lv_secret_key local) booted.2 1 0 1000 [] accounts = Ok block →
  proposable engine block.
Proof.
  unfold start_check. intros Hc -> -> Hl Hb. rewrite Hl, Hb in Hc.
  apply andb_prop in Hc as [Hs%Z.leb_le Hn%bool_decide_eq_true]. by split.
Qed.
Lemma solo_devnet_first_block_witness :
  ∃ engine result, first_run = Ok (engine, result) ∧ result.1 = Ok tt ∧
    rs_height (nd_state result.2) = 2 ∧ is_Some (Store.get_block_by_height 1 (nd_store result.2)).
Proof.
  destruct (solo_devnet_first_block scheme scheme key_pair values 1000 "out" "zeno" new_path
    [(bob, 5000000)] [x01; x02] new_genesis new_files new_config)
    as (engine & result & v & sk & store & block & E & Hv & Hl & Hs & Hb & _ & Hrun).
  - vm_compute. reflexivity.
  - exact new_config_written.
  - repeat constructor. vm_compute. discriminate.
  - intros pk' sk' [= <- <-]. split; [by split|]. by apply toy_signs.
  - vm_compute. reflexivity.
  - exists engine, result. split; [exact E|].
    destruct Hrun as (Hok & Hh & (finalized & Hf & _) & _).
    { apply (start_check_spec first_run engine result (gn_validators new_genesis) v
        {| lv_validator := v; lv_secret_key := sk |} first_boot (gn_accounts new_genesis) block);
        [vm_compute; reflexivity|exact E|exact Hv|exact Hl|].
      rewrite Hs. exact Hb. }
    split; [exact Hok|]. split; [exact Hh|]. exists finalized. exact Hf.
Defined.
