(* ===== verification/Json.v ===== *)
(** Values of [serde_json] with the readers the source uses, and the texts of numbers
    ([{:x}], [from_str_radix]) with the round trip between them. *)

From S2P Require Import Prelude Types Codec Hash Crypto Wire EthTx.
From stdpp Require Import pretty.
Import Rlp(hex_digit) EthTx.EthTx(strip_0x).
Open Scope Z_scope.

(** ** Values *)

(** [serde_json::Number]; a float is kept as its text. *)
Inductive Number :=
  | PosInt (n : Z)
  | NegInt (n : Z)
  | Float (text : string).
(** [serde_json::Value]: an object is the list of its fields, with distinct names. *)
Inductive Value :=
  | VNull
  | VBool (b : bool)
  | VNumber (n : Number)
  | VString (s : string)
  | VArray (items : list Value)
  | VObject (fields : list (string * Value)).

Definition as_str (v : Value) : option string :=
  match v with VString s => Some s | _ => None end.
Definition as_bool (v : Value) : option bool :=
  match v with VBool b => Some b | _ => None end.
Definition as_u64 (v : Value) : option Z :=
  match v with VNumber (PosInt n) => Some n | _ => None end.
(** [Value::get] with a field name. *)
Fixpoint field (name : string) (fields : list (string * Value)) : option Value :=
  match fields with
  | [] => None
  | (n, v) :: fields => if bool_decide (n = name) then Some v else field name fields
  end.
Definition get (name : string) (v : Value) : option Value :=
  match v with VObject fields => field name fields | _ => None end.

(** [json!] of an unsigned number that fits [u64]. *)
Definition number (n : Z) : Value := VNumber (PosInt n).

(** [serde_json::to_value] and [from_value]: the conversions of a type. *)
Class ToJson (T : Type) := to_value : T → res string Value.
Class FromJson (T : Type) := from_value : Value → res string T.
(** [json!(value)] unwraps the conversion. *)
Definition json {E T} `{ToJson T} (value : T) : res E Value :=
  match to_value value with Ok v => Ok v | _ => Panic end.

(** ** Texts of numbers *)

(** [{:x}]: 32 digits are enough for [u128]. *)
Fixpoint hex_digits (fuel : nat) (n : Z) : string :=
  match fuel with
  | O => ""
  | S fuel =>
      if n <? 16 then hex_digit n else hex_digits fuel (n / 16) +:+ hex_digit (n mod 16)
  end.
Definition lower_hex (n : Z) : string := hex_digits 32 n.
(** [format!("0x{n:x}")]. *)
Definition hex0x (n : Z) : string := "0x" +:+ lower_hex n.

(** [char::to_digit]. *)
Definition digit_value (radix : Z) (c : Ascii.ascii) : option Z :=
  let code := Z.of_nat (Ascii.nat_of_ascii c) in
  v ← (if (48 <=? code) && (code <=? 57) then Some (code - 48)
       else if (97 <=? code) && (code <=? 122) then Some (code - 87)
       else if (65 <=? code) && (code <=? 90) then Some (code - 55) else None);
  if v <? radix then Some v else None.
(** The checked multiplication and addition of one digit after the other. *)
Fixpoint digits_value (radix max acc : Z) (s : string) : option Z :=
  match s with
  | EmptyString => Some acc
  | String c s =>
      d ← digit_value radix c;
      let acc := acc * radix + d in
      if max <? acc then None else digits_value radix max acc s
  end.
(** [from_str_radix] and [parse] of an unsigned type: one leading [+] (43) is allowed. *)
Definition from_str_radix (radix max : Z) (s : string) : option Z :=
  match s with
  | EmptyString => None
  | String c rest =>
      if bool_decide (c = Ascii.ascii_of_nat 43)
      then match rest with EmptyString => None | _ => digits_value radix max 0 rest end
      else digits_value radix max 0 s
  end.

(** ** Round trip *)
Lemma app_string_cons c s t : String c s +:+ t = String c (s +:+ t).
Proof. done. Qed.
Lemma digits_value_app radix max acc s t :
  digits_value radix max acc (s +:+ t) =
    (a ← digits_value radix max acc s; digits_value radix max a t).
Proof.
  revert acc. induction s as [|c s IH]; intros acc; [done|]. rewrite app_string_cons. simpl.
  destruct (digit_value radix c) as [d|]; simpl; [|done]. case_match; [done | apply IH].
Qed.
Lemma hex_digit_spec d : 0 ≤ d < 16 →
  ∃ c, hex_digit d = String c "" ∧ digit_value 16 c = Some d.
Proof.
  intros Hd. assert (d ∈ seqZ 0 16) as Hin by (apply elem_of_seqZ; lia). revert Hin. clear.
  unfold seqZ. simpl. rewrite !elem_of_cons, elem_of_nil.
  intros Hin. by repeat (destruct Hin as [->|Hin]; [eexists; split; reflexivity|]).
Qed.
Lemma hex_digit_value d max acc : 0 ≤ d < 16 → acc * 16 + d ≤ max →
  digits_value 16 max acc (hex_digit d) = Some (acc * 16 + d).
Proof.
  intros Hd Hmax. destruct (hex_digit_spec d Hd) as (c & -> & Hc).
  simpl. rewrite Hc. simpl. by rewrite (proj2 (Z.ltb_ge _ _) Hmax).
Qed.
Lemma hex_digits_nonempty fuel n : 0 ≤ n → hex_digits (S fuel) n ≠ ""%string.
Proof.
  intros Hn. simpl. destruct (Z.ltb_spec n 16).
  - by destruct (hex_digit_spec n) as (c & -> & _).
  - destruct (hex_digit_spec (n mod 16)) as (c & -> & _); [apply Z.mod_pos_bound; lia|].
    by destruct (hex_digits fuel (n / 16)).
Qed.
Lemma hex_digits_value fuel n max :
  0 ≤ n < 16 ^ Z.of_nat fuel → n ≤ max →
  digits_value 16 max 0 (hex_digits fuel n) = Some n.
Proof.
  revert n. induction fuel as [|fuel IH]; intros n Hn Hmax; simpl hex_digits.
  { simpl in *. f_equal. lia. }
  destruct (Z.ltb_spec n 16); [by apply hex_digit_value; lia|].
  rewrite Nat2Z.inj_succ, Z.pow_succ_r in Hn by lia.
  rewrite digits_value_app, IH; simpl.
  - pose proof (Z.mod_pos_bound n 16 ltac:(lia)). pose proof (Z.div_mod n 16).
    rewrite hex_digit_value by lia. f_equal. lia.
  - split; [apply Z.div_pos; lia | apply Z.div_lt_upper_bound; lia].
  - transitivity n; [|done]. apply Z.div_le_upper_bound; lia.
Qed.
Lemma from_digits_value radix max s v :
  s ≠ ""%string → radix ≤ 43 → digits_value radix max 0 s = Some v →
  from_str_radix radix max s = Some v.
Proof.
  destruct s as [|c s]; [done|]. intros _ Hr Hv. cbn [from_str_radix].
  case_bool_decide as Hc; [|done]. subst c. cbn in Hv. done.
Qed.
Lemma lower_hex_parses n max :
  in_range U128_MAX n → n ≤ max → from_str_radix 16 max (lower_hex n) = Some n.
Proof.
  intros Hn Hmax. apply from_digits_value; [|done|].
  - apply hex_digits_nonempty. ulia.
  - apply hex_digits_value; [|done]. change (16 ^ Z.of_nat 32) with (U128_MAX + 1). ulia.
Qed.
Lemma substring_all s : String.substring 0 (String.length s) s = s.
Proof. induction s as [|c s IH]; simpl; [done | by rewrite IH]. Qed.
Lemma strip_0x_prefixed s : strip_0x ("0x" +:+ s) = s.
Proof.
  unfold strip_0x. simpl. rewrite Nat.sub_0_r. destruct s; simpl; [done|].
  by rewrite substring_all.
Qed.
(** Reading back a formatted quantity. *)
Lemma hex0x_parses n max :
  in_range U128_MAX n → n ≤ max → from_str_radix 16 max (strip_0x (hex0x n)) = Some n.
Proof. intros. unfold hex0x. rewrite strip_0x_prefixed. by apply lower_hex_parses. Qed.
