(* ===== verification/Rpc.v ===== *)
(** [crates/zeno-rpc]: the provider interface, the rate limiter, the decoding of requests
    and parameters, the Ethereum views of blocks and receipts, the handlers behind the
    method names, and the server around them.  [serde_json] and the conversions it derives
    are the class [SerdeJson]; pages are kept as the data they show. *)

From S2P Require Import Prelude Types Codec Hash Crypto Wire EthTx Zk Json.
From Stdlib Require Import SpecFloat.
From stdpp Require Import pretty.
Import EthTx.EthTx(strip_0x).
Open Scope Z_scope.

(** ** The provider

    The trait [RpcProvider] over a node of type [S]: queries look at the node, the other
    methods also change it.  Errors are the texts of [anyhow] errors. *)
Class RpcProvider (S : Type) := {
  rp_get_balance : Address → S → res string Z;
  rp_get_nonce : Address → S → res string Z;
  rp_get_block_by_height : Z → S → res string (option FinalizedBlock);
  rp_get_block_by_hash : Hash32 → S → res string (option FinalizedBlock);
  rp_get_latest_block : S → res string (option FinalizedBlock);
  rp_get_tx_status : Hash32 → S → res string TransactionStatus;
  rp_submit_tx : Transaction → eff S string Hash32;
  rp_get_peers : S → res string (list string);
  rp_get_validator_set : S → res string (list Validator);
  rp_get_chain_status : S → res string ChainStatus;
  rp_eth_chain_id : S → res string (option Z);
  rp_eth_block_number : S → res string Z;
  rp_eth_get_code : EvmAddress → S → res string (list byte);
  rp_eth_call : EvmCallRequest → S → res string (list byte);
  rp_eth_get_balance : EvmAddress → S → res string Z;
  rp_eth_get_transaction_count : EvmAddress → S → res string Z;
  rp_eth_get_transaction_receipt : Hash32 → S → res string (option Receipt);
  rp_eth_get_logs : EvmLogFilter → S → res string (list EvmLog);
  rp_eth_estimate_gas : EvmCallRequest → S → res string Z;
  rp_eth_gas_price : S → res string Z;
  rp_eth_send_raw_transaction : string → eff S string Hash32;
  rp_register_validator : ValidatorJoinRequest → eff S string ();
  rp_get_recent_blocks : Z → S → res string (list FinalizedBlock);
  rp_get_staking_state : S → res string StakingState;
  rp_get_governance_state : S → res string GovernanceState;
  rp_faucet_send : Address → Z → eff S string ();
  rp_zk_shield : ShieldRequest → eff S string Z;
  rp_zk_unshield : UnshieldRequest → eff S string ();
  rp_zk_pool_info : S → res string Value;
  rp_metrics : S → res string string
}.

(** ** The rate limiter *)

(** [f64]: the double-precision numbers of the standard library's specification. *)
Abbreviation f64 := spec_float (only parsing).
Module F64.
Definition add : f64 → f64 → f64 := SFadd 53 1024.
Definition sub : f64 → f64 → f64 := SFsub 53 1024.
Definition mul : f64 → f64 → f64 := SFmul 53 1024.
Definition div : f64 → f64 → f64 := SFdiv 53 1024.
(** [as f64] of an integer. *)
Definition of_int (n : Z) : f64 := binary_normalize 53 1024 n 0 false.
Definition le (x y : f64) : bool := SFleb x y.
(** [f64::min] ignores a NaN. *)
Definition min (x y : f64) : f64 :=
  match SFcompare x y with
  | Some Gt => y
  | Some _ => x
  | None => match x with S754_nan => y | _ => x end
  end.
End F64.

(** [IpAddr]; its parser is a parameter. *)
Inductive IpAddr := V4 (octets : array 4) | V6 (octets : array 16).
#[export] Instance ip_eq_dec : EqDecision IpAddr.
Proof. solve_decision. Defined.
#[export] Program Instance ip_countable : Countable IpAddr :=
  inj_countable' (λ ip, match ip with V4 a => inl a | V6 a => inr a end)
    (λ s, match s with inl a => V4 a | inr a => V6 a end) _.
Next Obligation. by intros []. Qed.
Class ParseIp := parse_ip : string → option IpAddr.
Definition localhost : IpAddr := V4 (array_pad 4 [x7f; x00; x00; x01]).

(** Instants are counted in nanoseconds. *)
Record TokenBucket := { tk_tokens : f64; tk_last_refill : Z }.
Record RateLimiter := {
  rl_buckets : gmap IpAddr TokenBucket;
  rl_max_rps : f64;
  rl_burst : f64
}.
Module Limiter.
Definition new (max_rps burst : Z) : RateLimiter := {|
  rl_buckets := ∅; rl_max_rps := F64.of_int max_rps; rl_burst := F64.of_int burst |}.
(** [duration_since(..).as_secs_f64()]: zero when the clock went back. *)
Definition elapsed_secs (now last_refill : Z) : f64 :=
  let nanos := saturating_sub now last_refill in
  F64.add (F64.of_int (nanos / 1000000000))
    (F64.div (F64.of_int (nanos mod 1000000000)) (F64.of_int 1000000000)).
Definition refill (limiter : RateLimiter) (bucket : TokenBucket) (now : Z) : f64 :=
  F64.min (F64.add (tk_tokens bucket)
    (F64.mul (elapsed_secs now (tk_last_refill bucket)) (rl_max_rps limiter)))
    (rl_burst limiter).
Definition check (ip : IpAddr) (now : Z) (limiter : RateLimiter) : bool * RateLimiter :=
  let bucket := default {| tk_tokens := rl_burst limiter; tk_last_refill := now |}
                  (rl_buckets limiter !! ip) in
  let tokens := refill limiter bucket now in
  let allowed := F64.le (F64.of_int 1) tokens in
  let tokens := if allowed then F64.sub tokens (F64.of_int 1) else tokens in
  (allowed, {|
    rl_buckets := <[ip := {| tk_tokens := tokens; tk_last_refill := now |}]> (rl_buckets limiter);
    rl_max_rps := rl_max_rps limiter; rl_burst := rl_burst limiter |}).
End Limiter.

(** ** Requests *)
Record JsonRpcRequest := {
  jr_jsonrpc : string;
  jr_id : Value;
  jr_method : string;
  jr_params : Value
}.

(** What [serde_json] converts; [u128_to_value] is [json!] of a [u128], which has no
    representation above [u64]; [parse_json] is [from_slice]. *)
Class SerdeJson := {
  json_opt_block :: ToJson (option FinalizedBlock);
  json_blocks :: ToJson (list FinalizedBlock);
  json_hash :: ToJson Hash32;
  json_tx_status :: ToJson TransactionStatus;
  json_strings :: ToJson (list string);
  json_validators :: ToJson (list Validator);
  json_chain_status :: ToJson ChainStatus;
  json_staking :: ToJson StakingState;
  json_governance :: ToJson GovernanceState;
  from_json_hash :: FromJson Hash32;
  from_json_u64 :: FromJson Z;
  from_json_tx :: FromJson Transaction;
  from_json_join :: FromJson ValidatorJoinRequest;
  from_json_shield :: FromJson ShieldRequest;
  from_json_unshield :: FromJson UnshieldRequest;
  from_json_request :: FromJson JsonRpcRequest;
  u128_to_value : Z → res string Value;
  parse_json : list byte → res string Value
}.

Module Params.
Section params.
Context `{HexBackend}.

(** *** Parameters in Ethereum's format *)
Definition parse_hex_address (val : Value) : res string EvmAddress :=
  s ← ok_or "expected hex address string" (as_str val);
  bytes ← map_err (λ e, "invalid hex address: " +:+ e) (hex_decode (strip_0x s));
  if negb (Nat.eqb (length bytes) 20)
  then Err ("address must be 20 bytes, got " +:+ pretty (length bytes))
  else expect (array_of 20 bytes).
Definition parse_hex_hash (val : Value) : res string Hash32 :=
  s ← ok_or "expected hex hash string" (as_str val);
  bytes ← map_err (λ e, "invalid hex hash: " +:+ e) (hex_decode (strip_0x s));
  if negb (Nat.eqb (length bytes) 32)
  then Err ("hash must be 32 bytes, got " +:+ pretty (length bytes))
  else expect (array_of 32 bytes).
Definition parse_block_number (val : Value) (latest : Z) : Z :=
  match as_str val with
  | None => latest
  | Some s =>
      if bool_decide (s = "latest") || bool_decide (s = "pending") then latest
      else if bool_decide (s = "earliest") then 0
      else default latest (from_str_radix 16 U64_MAX (strip_0x s))
  end.
Definition param_at (params : Value) (index : nat) : option Value :=
  match params with
  | VArray arr => arr !! index
  | other => if Nat.eqb index 0 then Some other else None
  end.

(** [hex::decode(..).unwrap_or_default()]. *)
Definition decode_or_empty (s : string) : list byte :=
  match hex_decode (strip_0x s) with Ok bytes => bytes | _ => [] end.
(** Anything but 20 bytes leaves the zero address. *)
Definition lenient_address (s : string) : EvmAddress :=
  default (array_repeat 20 x00) (array_of 20 (decode_or_empty s)).
Definition parse_eth_call_request (params : Value) : res string EvmCallRequest :=
  obj ← ok_or "missing call object" (param_at params 0);
  let str name := get name obj ≫= as_str in
  let to := default (array_repeat 20 x00) (lenient_address <$> str "to") in
  let from := lenient_address <$> str "from" in
  let data := default [] (decode_or_empty <$>
    (match get "data" obj with Some v => Some v | None => get "input" obj end ≫= as_str)) in
  let value := str "value" ≫= λ s, from_str_radix 16 U128_MAX (strip_0x s) in
  let gas := str "gas" ≫= λ s, from_str_radix 16 U64_MAX (strip_0x s) in
  Ok {| ecq_from := from; ecq_to := to; ecq_data := data; ecq_gas_limit := gas;
        ecq_value := value |}.
End params.
End Params.

(** ** Ethereum's views of blocks and receipts *)
Fixpoint repeat_str (n : nat) (s : string) : string :=
  match n with O => EmptyString | S n => s +:+ repeat_str n s end.
(** ["0x"] and 64 zeros. *)
Definition zero_word : string := "0x" +:+ repeat_str 64 "0".
Definition empty_uncles : string :=
  "0x1dcc4de8dec75d7aab85b567b6ccd41ad312451b948a7413f0a142fd40d49347".

Module Format.
Section format.
Context `{HashBackend, HexEncode, ChainCodec}.

(** [format!("0x{}", hash)] and [format!("0x{}", hex::encode(bytes))]. *)
Definition hash0x (h : Hash32) : string := "0x" +:+ hex_encode (array_bytes h).
Definition bytes0x (bytes : list byte) : string := "0x" +:+ hex_encode bytes.
(** The last 20 bytes of a native address. *)
Definition short0x (a : Address) : string := bytes0x (drop 12 (array_bytes a)).

Definition eth_tx (block_hash : string) (height : Z) (i : nat) (tx : Transaction) : Value :=
  VObject [
    ("hash", VString (hash0x (Transaction_id tx)));
    ("blockHash", VString block_hash);
    ("blockNumber", VString (hex0x height));
    ("transactionIndex", VString (hex0x (Z.of_nat i)));
    ("from", VString (short0x (tb_sender (tx_body tx))));
    ("to", VString (short0x (tb_recipient (tx_body tx))));
    ("value", VString (hex0x (tb_amount (tx_body tx))));
    ("gas", VString "0x5208"); ("gasPrice", VString "0x0"); ("input", VString "0x");
    ("nonce", VString (hex0x (tb_nonce (tx_body tx))))]%string.
Definition eth_block_object (number hash parent_hash transactions_root state_root
    receipts_root miner timestamp : string) (txs : Value) : Value :=
  VObject [
    ("number", VString number); ("hash", VString hash); ("parentHash", VString parent_hash);
    ("nonce", VString "0x0000000000000000"); ("sha3Uncles", VString empty_uncles);
    ("logsBloom", VString ("0x" +:+ repeat_str 512 "0"));
    ("transactionsRoot", VString transactions_root); ("stateRoot", VString state_root);
    ("receiptsRoot", VString receipts_root); ("miner", VString miner);
    ("difficulty", VString "0x0"); ("totalDifficulty", VString "0x0");
    ("extraData", VString "0x"); ("size", VString "0x100");
    ("gasLimit", VString "0x1c9c380"); ("gasUsed", VString "0x0");
    ("timestamp", VString timestamp); ("transactions", txs); ("uncles", VArray []);
    ("baseFeePerGas", VString "0x0"); ("mixHash", VString zero_word)]%string.
Definition format_eth_block (block : FinalizedBlock) (full_txs : bool) : Value :=
  let h := bk_header (fb_block block) in
  let block_hash := hash0x (Block_hash (fb_block block)) in
  let transactions := bk_transactions (fb_block block) in
  let txs := VArray (if full_txs then imap (eth_tx block_hash (bh_height h)) transactions
                     else (λ tx, VString (hash0x (Transaction_id tx))) <$> transactions) in
  eth_block_object (hex0x (bh_height h)) block_hash (hash0x (bh_parent_hash h))
    (hash0x (bh_tx_root h)) (hash0x (bh_state_root h)) (hash0x (bh_receipt_root h))
    (short0x (bh_proposer h)) (hex0x (bh_timestamp_ms h / 1000)) txs.
(** The block [eth_getBlockByNumber] makes up when there is no block at height zero. *)
Definition synthetic_genesis : Value :=
  eth_block_object "0x0" zero_word zero_word zero_word zero_word zero_word
    ("0x" +:+ repeat_str 40 "0") "0x0" (VArray []).

Definition eth_log_fields (log : EvmLog) : list (string * Value) := [
    ("address", VString (bytes0x (array_bytes (el_address log))));
    ("topics", VArray ((λ t, VString (hash0x t)) <$> el_topics log));
    ("data", VString (bytes0x (el_data log)))]%string.
Definition format_eth_receipt (receipt : Receipt) (block : option FinalizedBlock) : Value :=
  let block_hash := match block with
    | Some b => hash0x (Block_hash (fb_block b))
    | None => repeat_str 33 "0x" end in
  let block_number := match block with
    | Some b => bh_height (bk_header (fb_block b)) | None => 0 end in
  let success := match rc_outcome receipt with Success => true | Rejected _ => false end in
  let contract_addr := match rc_evm receipt ≫= ecr_contract_address with
    | Some a => VString (bytes0x (array_bytes a)) | None => VNull end in
  let logs := imap (λ i log, VObject (eth_log_fields log ++ [
      ("blockNumber", VString (hex0x block_number)); ("blockHash", VString block_hash);
      ("transactionHash", VString (hash0x (rc_tx_hash receipt)));
      ("transactionIndex", VString "0x0"); ("logIndex", VString (hex0x (Z.of_nat i)));
      ("removed", VBool false)]%string))
    (match rc_evm receipt with Some e => ecr_logs e | None => [] end) in
  let gas_used := match rc_evm receipt with Some e => ecr_gas_used e | None => 21000 end in
  VObject [
    ("transactionHash", VString (hash0x (rc_tx_hash receipt)));
    ("blockHash", VString block_hash); ("blockNumber", VString (hex0x block_number));
    ("transactionIndex", VString "0x0"); ("from", VString ("0x" +:+ repeat_str 40 "0"));
    ("to", VNull); ("contractAddress", contract_addr);
    ("cumulativeGasUsed", VString (hex0x gas_used)); ("gasUsed", VString (hex0x gas_used));
    ("effectiveGasPrice", VString "0x0"); ("logs", VArray logs);
    ("logsBloom", VString ("0x" +:+ repeat_str 512 "0"));
    ("status", VString (if success then "0x1" else "0x0")); ("type", VString "0x0")]%string.
End format.
End Format.

(** ** The methods *)
Module Rpc.
Section rpc.
Context `{HashBackend, HexBackend, HexEncode, ChainCodec, SerdeJson} {S : Type} `{RpcProvider S}.
Import Params Format.

(** A method gets its parameters and the height read at the start of [dispatch]. *)
Definition handler : Type := Value → Z → eff S string Value.
Definition query {A} (f : S → res string A) : eff S string A := λ s, (f s, s).
Definition params_as {T} `{FromJson T} (params : Value) : eff S string T :=
  eff_lift (from_value params).
Definition answer (v : res string Value) : eff S string Value := eff_lift v.
Definition text (s : string) : eff S string Value := mret (VString s).
(** [json!] of a [u128]. *)
Definition json_u128 (n : Z) : res string Value :=
  match u128_to_value n with Ok v => Ok v | _ => Panic end.

(** *** Native methods *)
Definition get_balance : handler := λ params _,
  address ← params_as params; balance ← query (rp_get_balance address);
  answer (json_u128 balance).
Definition get_nonce : handler := λ params _,
  address ← params_as params; nonce ← query (rp_get_nonce address); mret (number nonce).
Definition get_block_by_height : handler := λ params _,
  height ← params_as params; block ← query (rp_get_block_by_height height);
  answer (json block).
Definition get_block_by_hash : handler := λ params _,
  hash ← params_as params; block ← query (rp_get_block_by_hash hash); answer (json block).
Definition get_latest_block : handler := λ _ _,
  block ← query rp_get_latest_block; answer (json block).
Definition get_tx_status : handler := λ params _,
  hash ← params_as params; status ← query (rp_get_tx_status hash); answer (json status).
Definition submit_tx : handler := λ params _,
  tx ← params_as params; hash ← rp_submit_tx tx; answer (json hash).
Definition get_peers : handler := λ _ _, peers ← query rp_get_peers; answer (json peers).
Definition get_validator_set : handler := λ _ _,
  validators ← query rp_get_validator_set; answer (json validators).
Definition get_chain_status : handler := λ _ _,
  status ← query rp_get_chain_status; answer (json status).

(** *** Ethereum methods *)
Definition eth_chainId : handler := λ _ _,
  id ← query rp_eth_chain_id; text (hex0x (default 0 id)).
Definition net_version : handler := λ _ _,
  id ← query rp_eth_chain_id; text (pretty (default 0 id)).
Definition constant (v : Value) : handler := λ _ _, mret v.
Definition eth_blockNumber : handler := λ _ _,
  height ← query rp_eth_block_number; text (hex0x height).
Definition address_param (params : Value) : eff S string EvmAddress :=
  addr ← eff_lift (ok_or "missing address" (param_at params 0));
  eff_lift (parse_hex_address addr).
Definition eth_getBalance : handler := λ params _,
  address ← address_param params; balance ← query (rp_eth_get_balance address);
  text (hex0x balance).
Definition eth_getTransactionCount : handler := λ params _,
  address ← address_param params; nonce ← query (rp_eth_get_transaction_count address);
  text (hex0x nonce).
Definition eth_getCode : handler := λ params _,
  address ← address_param params; code ← query (rp_eth_get_code address);
  text (bytes0x code).
(** The second parameter of the block queries. *)
Definition full_txs (params : Value) : bool :=
  default false (param_at params 1 ≫= as_bool).
Definition eth_getBlockByNumber : handler := λ params latest_height,
  let block_param := default (VString "latest") (param_at params 0) in
  let height := parse_block_number block_param latest_height in
  block ← query (rp_get_block_by_height height);
  match block with
  | Some block => mret (format_eth_block block (full_txs params))
  | None => if height =? 0 then mret synthetic_genesis else mret VNull
  end.
Definition hash_param (params : Value) : eff S string Hash32 :=
  hash ← eff_lift (ok_or "missing hash" (param_at params 0));
  eff_lift (parse_hex_hash hash).
Definition eth_getBlockByHash : handler := λ params _,
  hash ← hash_param params; block ← query (rp_get_block_by_hash hash);
  match block with
  | Some block => mret (format_eth_block block (full_txs params))
  | None => mret VNull
  end.
Definition eth_getTransactionByHash : handler := λ params _,
  hash ← hash_param params; status ← query (rp_get_tx_status hash);
  match status with
  | Finalized receipt =>
      block ← query (rp_get_block_by_height (rc_height receipt));
      mret (VObject [
        ("hash", VString (hash0x hash));
        ("blockHash", match block with
          | Some b => VString (hash0x (Block_hash (fb_block b))) | None => VNull end);
        ("blockNumber", VString (hex0x (rc_height receipt)));
        ("transactionIndex", VString "0x0"); ("from", VString ("0x" +:+ repeat_str 40 "0"));
        ("to", VNull); ("value", VString "0x0"); ("gas", VString "0x5208");
        ("gasPrice", VString "0x0"); ("input", VString "0x"); ("nonce", VString "0x0")]%string)
  | _ => mret VNull
  end.
Definition eth_getTransactionReceipt : handler := λ params _,
  hash ← hash_param params; receipt ← query (rp_eth_get_transaction_receipt hash);
  match receipt with
  | Some receipt =>
      block ← query (rp_get_block_by_height (rc_height receipt));
      mret (format_eth_receipt receipt block)
  | None => mret VNull
  end.
Definition eth_call : handler := λ params _,
  call_req ← eff_lift (parse_eth_call_request params); output ← query (rp_eth_call call_req);
  text (bytes0x output).
Definition eth_estimateGas : handler := λ params _,
  call_req ← eff_lift (parse_eth_call_request params);
  gas ← query (rp_eth_estimate_gas call_req); text (hex0x gas).
Definition eth_gasPrice : handler := λ _ _, price ← query rp_eth_gas_price; text (hex0x price).
Definition eth_feeHistory : handler := λ _ latest_height,
  mret (VObject [
    ("baseFeePerGas", VArray [VString "0x0"; VString "0x0"]);
    ("gasUsedRatio", VArray [VNumber (Float "0.0")]);
    ("oldestBlock", VString (hex0x latest_height));
    ("reward", VArray [VArray [VString "0x0"]])]%string).
Definition eth_getLogs : handler := λ params latest_height,
  let filter_obj := default (VObject []) (param_at params 0) in
  let block name := (λ v, parse_block_number v latest_height) <$> get name filter_obj in
  let address := get "address" filter_obj ≫= λ v,
    match parse_hex_address v with Ok a => Some a | _ => None end in
  let filter := {| lf_from_block := block "fromBlock"; lf_to_block := block "toBlock";
                   lf_address := address; lf_topics := [] |} in
  logs ← query (rp_eth_get_logs filter);
  mret (VArray ((λ log, VObject (eth_log_fields log)) <$> logs)).
Definition eth_sendRawTransaction : handler := λ params _,
  raw ← eff_lift (ok_or "missing raw transaction hex" (param_at params 0 ≫= as_str));
  hash ← rp_eth_send_raw_transaction raw; text (hash0x hash).

(** *** Validators, explorer, faucet and shielded pool *)
Definition status_ok : Value := VObject [("status", VString "ok")]%string.
Definition register_validator : handler := λ params _,
  request ← params_as params; _ ← rp_register_validator request; mret status_ok.
Definition get_recent_blocks : handler := λ params _,
  let count := default 10 (param_at params 0 ≫= as_u64) in
  blocks ← query (rp_get_recent_blocks count); answer (json blocks).
Definition get_staking_state : handler := λ _ _,
  staking ← query rp_get_staking_state; answer (json staking).
Definition get_governance_state : handler := λ _ _,
  governance ← query rp_get_governance_state; answer (json governance).
(** A 20-byte address is padded on the left; [copy_from_slice] panics on a mismatch. *)
Definition faucet_address (addr_hex : string) : res string Address :=
  let decoded := map_err (λ e, e) (hex_decode addr_hex) in
  if Nat.eqb (String.length addr_hex) 40 then
    bytes ← decoded; expect (array_of 32 (replicate 12 x00 ++ bytes))
  else if Nat.eqb (String.length addr_hex) 64 then
    bytes ← decoded; expect (array_of 32 bytes)
  else Err "invalid address length"%string.
Definition faucet_amount (params : Value) : Z :=
  default 1000000000000000000 (param_at params 1 ≫= λ v,
    match as_str v ≫= from_str_radix 10 U128_MAX with Some n => Some n | None => as_u64 v end).
Definition faucet_send : handler := λ params _,
  addr_str ← eff_lift (ok_or "missing address" (param_at params 0 ≫= as_str));
  address ← eff_lift (faucet_address (strip_0x addr_str));
  let amount := faucet_amount params in
  _ ← rp_faucet_send address amount;
  amount ← eff_lift (json_u128 amount);
  mret (VObject [("status", VString "ok"); ("amount", amount)]%string).
Definition zk_shield : handler := λ params _,
  request ← params_as params; index ← rp_zk_shield request;
  mret (VObject [("index", number index)]%string).
Definition zk_unshield : handler := λ params _,
  request ← params_as params; _ ← rp_zk_unshield request; mret status_ok.
Definition zk_pool_info : handler := λ _ _, query rp_zk_pool_info.

(** *** Dispatch *)
Definition handlers : list (string * handler) := [
    ("get_balance", get_balance); ("get_nonce", get_nonce);
    ("get_block_by_height", get_block_by_height); ("get_block_by_hash", get_block_by_hash);
    ("get_latest_block", get_latest_block); ("get_tx_status", get_tx_status);
    ("submit_tx", submit_tx); ("get_peers", get_peers);
    ("get_validator_set", get_validator_set); ("get_chain_status", get_chain_status);
    ("eth_chainId", eth_chainId); ("net_version", net_version);
    ("web3_clientVersion", constant (VString "ZenoPQ/0.1.0"));
    ("eth_accounts", constant (VArray [])); ("eth_syncing", constant (VBool false));
    ("eth_mining", constant (VBool false)); ("eth_hashrate", constant (VString "0x0"));
    ("eth_protocolVersion", constant (VString "0x41")); ("eth_blockNumber", eth_blockNumber);
    ("eth_getBalance", eth_getBalance);
    ("eth_getTransactionCount", eth_getTransactionCount); ("eth_getCode", eth_getCode);
    ("eth_getStorageAt", constant (VString zero_word));
    ("eth_getBlockByNumber", eth_getBlockByNumber);
    ("eth_getBlockByHash", eth_getBlockByHash);
    ("eth_getTransactionByHash", eth_getTransactionByHash);
    ("eth_getTransactionReceipt", eth_getTransactionReceipt);
    ("eth_call", eth_call); ("eth_estimateGas", eth_estimateGas);
    ("eth_gasPrice", eth_gasPrice);
    ("eth_maxPriorityFeePerGas", constant (VString "0x0"));
    ("eth_feeHistory", eth_feeHistory); ("eth_getLogs", eth_getLogs);
    ("eth_sendRawTransaction", eth_sendRawTransaction);
    ("register_validator", register_validator); ("get_recent_blocks", get_recent_blocks);
    ("get_staking_state", get_staking_state);
    ("get_governance_state", get_governance_state); ("faucet_send", faucet_send);
    ("zk_shield", zk_shield); ("zk_unshield", zk_unshield);
    ("zk_pool_info", zk_pool_info)]%string.
Fixpoint find_handler (method : string) (hs : list (string * handler)) : option handler :=
  match hs with
  | [] => None
  | (name, h) :: hs => if bool_decide (name = method) then Some h else find_handler method hs
  end.
Definition dispatch (request : JsonRpcRequest) : eff S string Value :=
  s ← eff_get;
  latest_height ← eff_lift (match rp_eth_block_number s with
    | Ok height => Ok height | Err _ => Ok 0 | Panic => Panic end);
  match find_handler (jr_method request) handlers with
  | Some h => h (jr_params request) latest_height
  | None => eff_lift (Err ("unknown method: " +:+ jr_method request))
  end.

(** ** The server *)
Definition reply (id : Value) (body : string * Value) : Value :=
  VObject [("jsonrpc", VString "2.0"); ("id", id); body]%string.
Definition error_reply (id : Value) (code : Z) (message : string) : Value :=
  reply id ("error", VObject [("code", VNumber (NegInt code));
    ("message", VString message)]%string)%string.
Definition process_single_request (raw : Value) : eff S string Value := λ s,
  match from_value raw with
  | Panic => (Panic, s)
  | Err e => (Ok (error_reply VNull (-32600) ("invalid request: " +:+ e)), s)
  | Ok request =>
      match dispatch request s with
      | (Ok result, s) => (Ok (reply (jr_id request) ("result"%string, result)), s)
      | (Err err, s) => (Ok (error_reply (jr_id request) (-32000) err), s)
      | (Panic, s) => (Panic, s)
      end
  end.
(** The loop over a batch. *)
Fixpoint process_batch (items responses : list Value) : eff S string (list Value) :=
  match items with
  | [] => mret responses
  | item :: items =>
      resp ← process_single_request item; process_batch items (responses ++ [resp])
  end.

Inductive StatusCode := STATUS_OK | TOO_MANY_REQUESTS | INTERNAL_SERVER_ERROR.
Context `{ParseIp}.
(** The first element of the [x-forwarded-for] header, a list of addresses. *)
Fixpoint before_comma (s : string) : string :=
  match s with
  | EmptyString => EmptyString
  | String c s => if bool_decide (c = Ascii.ascii_of_nat 44) then EmptyString
                  else String c (before_comma s)
  end.
(** [trim]: a header has no other white space than blanks (32) and tabs (9). *)
Definition blank (c : Ascii.ascii) : bool :=
  bool_decide (c = Ascii.ascii_of_nat 32) || bool_decide (c = Ascii.ascii_of_nat 9).
Fixpoint trim_start (s : string) : string :=
  match s with
  | String c s' => if blank c then trim_start s' else s
  | EmptyString => EmptyString
  end.
Definition trim (s : string) : string := String.rev (trim_start (String.rev (trim_start s))).
Definition client_ip (forwarded_for : option string) : IpAddr :=
  default localhost (forwarded_for ≫= λ s, parse_ip (trim (before_comma s))).
Definition handle_rpc (now : Z) (forwarded_for : option string) (body : list byte) :
    eff (RateLimiter * S) string (StatusCode * Value) := λ '(limiter, s),
  let '(allowed, limiter) := Limiter.check (client_ip forwarded_for) now limiter in
  if negb allowed
  then (Ok (TOO_MANY_REQUESTS, error_reply VNull (-32005) "rate limit exceeded"), (limiter, s))
  else
    let '(r, s) :=
      match parse_json body with
      | Err e => (Ok (error_reply VNull (-32700) ("parse error: " +:+ e)), s)
      | Panic => (Panic, s)
      | Ok (VArray batch) =>
          (responses ← process_batch batch []; mret (VArray responses)) s
      | Ok raw => process_single_request raw s
      end in
    ((STATUS_OK,.) <$> r, (limiter, s)).
End rpc.
End Rpc.

(** ** The pages of the explorer

    A page is the data its template shows. *)
Inductive Page :=
  | ExplorerPage (height chain_id peers : Z) (ticker : string)
      (blocks : list (Z * string * Z * Z * string))
  | BlockPage (height : Z) (hash parent_hash state_root tx_root receipt_root proposer : string)
      (timestamp tx_count : Z) (txs : list (string * string * string * Z * Z))
  | TxPage (hash : string) (height : Z) (from to : string) (amount fee nonce : Z)
      (status : string)
  | AddressPage (address : string) (balance nonce : Z)
  | StakingPage (epoch treasury : Z) (validators : list (string * Z * Z * Z * string))
  | GovernancePage (next_id treasury_bps epoch_length min_bond : Z)
      (pending : list (Z * Z * string))
  | FaucetPage
  | NoticePage (title heading : string).

Module Pages.
(** The age of a block, from the seconds of the clock; a block of the future is new. *)
Definition format_timestamp (now_secs ms : Z) : string :=
  let secs := ms / 1000 in
  let mins_ago := saturating_sub now_secs secs in
  if mins_ago <? 60 then pretty mins_ago +:+ "s ago"
  else if mins_ago <? 3600 then pretty (mins_ago / 60) +:+ "m ago"
  else pretty (mins_ago / 3600) +:+ "h ago".

Section pages.
Context `{HashBackend, HexBackend, HexEncode, ChainCodec} {S : Type} `{RpcProvider S}.

(** [.ok()], [.ok().flatten()] and [.unwrap_or(d)] of an answer. *)
Definition ok {A} (r : res string A) : res string (option A) :=
  match r with Ok a => Ok (Some a) | Err _ => Ok None | Panic => Panic end.
Definition ok_flatten {A} (r : res string (option A)) : res string (option A) :=
  match r with Ok o => Ok o | Err _ => Ok None | Panic => Panic end.
Definition unwrap_or {A} (d : A) (r : res string A) : res string A :=
  o ← ok r; Ok (default d o).
(** [to_string] of a digest or a native address. *)
Definition hex (a : array 32) : string := hex_encode (array_bytes a).

Definition handle_health (s : S) : res string Value :=
  block ← ok_flatten (rp_get_latest_block s);
  let height := match block with
    | Some block => bh_height (bk_header (fb_block block)) | None => 0 end in
  Ok (VObject [("status", VString "ok"); ("height", number height)]%string).
Definition handle_metrics (s : S) : res string (Rpc.StatusCode * string) :=
  match rp_metrics s with
  | Ok body => Ok (Rpc.STATUS_OK, body)
  | Err _ => Ok (Rpc.INTERNAL_SERVER_ERROR, EmptyString)
  | Panic => Panic
  end.
Definition block_row (b : FinalizedBlock) : Z * string * Z * Z * string :=
  let h := bk_header (fb_block b) in
  (bh_height h, hex (Block_hash (fb_block b)), bh_timestamp_ms h,
   Z.of_nat (length (bk_transactions (fb_block b))), hex (bh_proposer h)).
Definition handle_explorer (s : S) : res string Page :=
  chain_id ← ok_flatten (rp_eth_chain_id s);
  status ← ok (rp_get_chain_status s);
  let peers := match status with Some st => Z.of_nat (length (cs_peers st)) | None => 0 end in
  let ticker := match status with Some st => nm_ticker (cs_metadata st) | None => "ZPQ"%string end in
  blocks ← unwrap_or [] (rp_get_recent_blocks 20 s);
  let height := match blocks with b :: _ => bh_height (bk_header (fb_block b)) | [] => 0 end in
  Ok (ExplorerPage height (default 0 chain_id) peers ticker (block_row <$> blocks)).
Definition tx_row (tx : Transaction) : string * string * string * Z * Z :=
  (hex (Transaction_id tx), hex (tb_sender (tx_body tx)), hex (tb_recipient (tx_body tx)),
   tb_amount (tx_body tx), tb_fee (tx_body tx)).
Definition handle_block_page (height : Z) (s : S) : res string Page :=
  block ← ok_flatten (rp_get_block_by_height height s);
  match block with
  | Some block =>
      let h := bk_header (fb_block block) in
      let transactions := bk_transactions (fb_block block) in
      Ok (BlockPage (bh_height h) (hex (Block_hash (fb_block block))) (hex (bh_parent_hash h))
        (hex (bh_state_root h)) (hex (bh_tx_root h)) (hex (bh_receipt_root h))
        (hex (bh_proposer h)) (bh_timestamp_ms h) (Z.of_nat (length transactions))
        (tx_row <$> transactions))
  | None => Ok (NoticePage "Not Found" "Block Not Found")
  end.
(** The transaction of a block with the identifier [parsed]. *)
Definition find_tx (parsed : Hash32) (block : FinalizedBlock) : option Transaction :=
  head (filter (λ tx, Transaction_id tx = parsed) (bk_transactions (fb_block block))).
Definition handle_tx_page (hash : string) (s : S) : res string Page :=
  let parsed := match hex_decode (strip_0x hash) with
    | Ok b => array_of 32 b | _ => None end in
  match parsed with
  | None => Ok (NoticePage "Not Found" "Invalid Hash")
  | Some parsed =>
      status ← ok (rp_get_tx_status parsed s);
      match status with
      | Some (Finalized receipt) =>
          block ← ok_flatten (rp_get_block_by_height (rc_height receipt) s);
          let '(from, to, amount, fee, nonce) :=
            match block ≫= find_tx parsed with
            | Some tx => (hex (tb_sender (tx_body tx)), hex (tb_recipient (tx_body tx)),
                tb_amount (tx_body tx), tb_fee (tx_body tx), tb_nonce (tx_body tx))
            | None => ("unknown"%string, "unknown"%string, 0, 0, 0)
            end in
          let status := match rc_outcome receipt with
            | Success => "Success" | Rejected _ => "Failed" end%string in
          Ok (TxPage hash (rc_height receipt) from to amount fee nonce status)
      | _ => Ok (NoticePage "Not Found" "Transaction Not Found")
      end
  end.
(** A 20-byte address is looked up in the EVM, a 32-byte one among the native accounts,
    where [copy_from_slice] panics on a mismatch. *)
Definition handle_address_page (address : string) (s : S) : res string Page :=
  let addr_str := strip_0x address in
  '(balance, nonce) ← (
    if Nat.eqb (String.length addr_str) 40 then
      match Params.parse_hex_address (VString ("0x" +:+ addr_str)) with
      | Ok addr =>
          b ← unwrap_or 0 (rp_eth_get_balance addr s);
          n ← unwrap_or 0 (rp_eth_get_transaction_count addr s); Ok (b, n)
      | Err _ => Ok (0, 0)
      | Panic => Panic
      end
    else if Nat.eqb (String.length addr_str) 64 then
      match hex_decode addr_str with
      | Ok bytes =>
          a ← expect (array_of 32 bytes);
          b ← unwrap_or 0 (rp_get_balance a s);
          n ← unwrap_or 0 (rp_get_nonce a s); Ok (b, n)
      | Err _ => Ok (0, 0)
      | Panic => Panic
      end
    else Ok (0, 0) : res string (Z * Z));
  Ok (AddressPage address balance nonce).
Definition stake_row (v : ValidatorStake) : string * Z * Z * Z * string :=
  (hex (vs_validator_address v), vs_self_bond v, vs_total_stake v, vs_commission_bps v,
   match vs_status v with
   | Active => "Active" | Jailed => "Jailed" | Inactive => "Inactive" end%string).
Definition handle_staking_page (s : S) : res string Page :=
  staking ← unwrap_or StakingState_default (rp_get_staking_state s);
  Ok (StakingPage (ss_epoch staking) (ss_treasury_balance staking)
    (stake_row <$> (entries (ss_validators staking)).*2)).
Definition handle_governance_page (s : S) : res string Page :=
  match rp_get_governance_state s with
  | Ok g =>
      Ok (GovernancePage (gs_next_proposal_id g) (ec_treasury_bps (gs_economics g))
        (ec_epoch_length (gs_economics g)) (ec_minimum_self_bond (gs_economics g))
        ((λ p, (gp_proposal_id p, gp_activation_epoch p, gp_description p)) <$> gs_pending g))
  | Err _ => Ok (NoticePage "Governance" "Governance Unavailable")
  | Panic => Panic
  end.
Definition handle_faucet_page (s : S) : res string Page := Ok FaucetPage.
End pages.
End Pages.
