(* ===== verification/RpcProofs.v ===== *)
(** The theorems of the RPC server: queries leave the node as it is, every request is
    answered, printed heights and addresses are read back, and the burst of the rate
    limiter. *)

From S2P Require Import Prelude Types Codec Hash Crypto Wire EthTx Zk Json Rpc.
From Stdlib Require Import SpecFloat.
From stdpp Require Import pretty.
Import EthTx.EthTx(strip_0x).
Open Scope Z_scope.

(** ** Queries leave the node as it is *)

(** The six methods that write. *)
Definition writing_methods : list string := [
  "submit_tx"; "eth_sendRawTransaction"; "register_validator"; "faucet_send"; "zk_shield";
  "zk_unshield"]%string.

Section moves.
Context {S E : Type} (R : relation S).
(** A computation whose effect on the state is within [R]. *)
Definition moves {A} (m : eff S E A) : Prop := ∀ s, R s (m s).2.
Context `{!PreOrder R}.
Lemma moves_bind {A B} (m : eff S E A) (f : A → eff S E B) :
  moves m → (∀ a, moves (f a)) → moves (m ≫= f).
Proof.
  intros Hm Hf s. unfold mbind, eff_bind. pose proof (Hm s) as Hs.
  destruct (m s) as [[a|e|] s1]; simpl in *; [|done..]. etrans; [exact Hs|apply Hf].
Qed.
Lemma moves_ret {A} (a : A) : moves (mret a).
Proof. intros s. simpl. reflexivity. Qed.
Lemma moves_lift {A} (m : res E A) : moves (eff_lift m).
Proof. intros s. simpl. reflexivity. Qed.
Lemma moves_get : moves eff_get.
Proof. intros s. simpl. reflexivity. Qed.
Lemma moves_modify f : (∀ s, R s (f s)) → moves (eff_modify f).
Proof. intros Hf s. apply Hf. Qed.
End moves.
Lemma moves_query {S A} (R : relation S) `{!PreOrder R} (f : S → res string A) : moves R (Rpc.query f).
Proof. intros s. simpl. reflexivity. Qed.
(** Walks through a handler; [tac] proves what its operations do. *)
Ltac by_moves tac :=
  repeat first [ tac | apply moves_bind; [apply _| |intros ?] | apply moves_ret; apply _
               | apply moves_lift; apply _ | apply moves_get; apply _ | apply moves_query; apply _ | case_match ].
Ltac by_handlers tac :=
  repeat match goal with |- moves _ (?h _ _) => unfold h end;
  unfold Rpc.text, Rpc.answer, Rpc.address_param, Rpc.hash_param, Rpc.params_as; by_moves tac.

Section theorems.
Context `{HashBackend, HexBackend, HexEncode, ChainCodec, SerdeJson} {S : Type} `{RpcProvider S}.

Lemma handlers_pure :
  Forall (λ nh : string * Rpc.handler,
    nh.1 ∉ writing_methods → ∀ params latest, moves (=) (nh.2 params latest)) Rpc.handlers.
Proof.
  unfold Rpc.handlers.
  repeat (apply Forall_cons; split;
    [intros Hm params latest; simpl in Hm |- *;
     try (exfalso; apply Hm, (bool_decide_unpack _); vm_compute; exact I)|]);
    [..|apply Forall_nil_2].
  all: clear Hm; by_handlers fail.
Qed.
(** Every method, when the six operations that write stay within a relation. *)
Lemma handlers_move (R : relation S) `{!PreOrder R} :
  (∀ tx, moves R (rp_submit_tx tx)) → (∀ raw, moves R (rp_eth_send_raw_transaction raw)) →
  (∀ q, moves R (rp_register_validator q)) → (∀ a amount, moves R (rp_faucet_send a amount)) →
  (∀ q, moves R (rp_zk_shield q)) → (∀ q, moves R (rp_zk_unshield q)) →
  Forall (λ nh : string * Rpc.handler, True → ∀ params latest, moves R (nh.2 params latest)) Rpc.handlers.
Proof.
  intros H1' H2' H3' H4' H5' H6'. unfold Rpc.handlers.
  repeat (apply Forall_cons; split; [intros _ params latest; simpl|]); [..|apply Forall_nil_2].
  all: by_handlers ltac:(first [apply H1'|apply H2'|apply H3'|apply H4'|apply H5'|apply H6']).
Qed.
Lemma find_handler_elem method (hs : list (string * Rpc.handler (S := S))) h :
  Rpc.find_handler method hs = Some h → (method, h) ∈ hs.
Proof.
  induction hs as [|[name h'] hs IH]; simpl; [done|]. case_bool_decide as Hn.
  - intros [= <-]. subst. left.
  - intros Hf. right. auto.
Qed.

(** ** Replies *)

(** The reply to a request has its identifier, and either a result or an error. *)
Definition replies_to (raw v : Value) : Prop :=
  match from_value (T := JsonRpcRequest) raw with
  | Ok request =>
      (∃ result, v = Rpc.reply (jr_id request) ("result"%string, result)) ∨
      (∃ msg, v = Rpc.error_reply (jr_id request) (-32000) msg)
  | Err e => v = Rpc.error_reply VNull (-32600) ("invalid request: " +:+ e)
  | Panic => False
  end.
(** The method of a request panics on some state of the node. *)
Definition handler_panics (raw : Value) : Prop :=
  match from_value (T := JsonRpcRequest) raw with
  | Ok request => ∃ s, (Rpc.dispatch request s).1 = Panic
  | Err _ => False
  | Panic => True
  end.
Lemma single_outcome raw s :
  match (Rpc.process_single_request raw s).1 with
  | Ok v => replies_to raw v
  | Err _ => False
  | Panic => handler_panics raw
  end.
Proof.
  unfold Rpc.process_single_request, replies_to, handler_panics.
  destruct (from_value raw) as [request|e|]; [|done..].
  destruct (Rpc.dispatch request s) as [[result|err|] s1] eqn:Hd; cbn [fst]; [eauto..|].
  exists s. by rewrite Hd.
Qed.
Lemma batch_outcome items : ∀ responses s,
  match (Rpc.process_batch items responses s).1 with
  | Ok vs => ∃ answers, vs = responses ++ answers ∧ Forall2 replies_to items answers
  | Err _ => False
  | Panic => Exists handler_panics items
  end.
Proof.
  induction items as [|item items IH]; intros responses s.
  { exists []. by rewrite app_nil_r. }
  cbn [Rpc.process_batch]. unfold mbind, eff_bind. pose proof (single_outcome item s) as Hv.
  destruct (Rpc.process_single_request item s) as [[v|e|] s1]; cbn [fst] in Hv |- *; [|done|by left].
  specialize (IH (responses ++ [v]) s1).
  destruct (Rpc.process_batch items (responses ++ [v]) s1) as [[vs|e|] s2]; cbn [fst] in IH |- *;
    [|done|by right].
  destruct IH as (answers & -> & Hall). exists (v :: answers). rewrite <-app_assoc.
  split; [done | by constructor].
Qed.
End theorems.

(** ** The rate limiter in one instant *)
#[export] Instance spec_float_eq_dec : EqDecision spec_float.
Proof. solve_decision. Defined.

(** [n] requests from one address at the same time. *)
Fixpoint check_n (n : nat) (ip : IpAddr) (now : Z) (limiter : RateLimiter) :
    list bool * RateLimiter :=
  match n with
  | O => ([], limiter)
  | S n =>
      let '(allowed, limiter) := Limiter.check ip now limiter in
      let '(answers, limiter) := check_n n ip now limiter in
      (allowed :: answers, limiter)
  end.

Section burst.
(** A step with [k] tokens, for the limiter of the server. *)
Lemma token_steps :
  forallb (λ k, bool_decide
    (F64.min (F64.add (F64.of_int k) (F64.mul (F64.add (F64.of_int 0)
      (F64.div (F64.of_int 0) (F64.of_int 1000000000))) (F64.of_int 100))) (F64.of_int 200)
      = F64.of_int k ∧ F64.le (F64.of_int 1) (F64.of_int k) = (1 <=? k) ∧
     (1 ≤ k → F64.sub (F64.of_int k) (F64.of_int 1) = F64.of_int (k - 1)))) (seqZ 0 201) = true.
Proof. vm_compute. reflexivity. Qed.
Lemma token_step k : 0 ≤ k ≤ 200 →
  F64.min (F64.add (F64.of_int k) (F64.mul (F64.add (F64.of_int 0)
    (F64.div (F64.of_int 0) (F64.of_int 1000000000))) (F64.of_int 100))) (F64.of_int 200)
    = F64.of_int k ∧ F64.le (F64.of_int 1) (F64.of_int k) = (1 <=? k) ∧
  (1 ≤ k → F64.sub (F64.of_int k) (F64.of_int 1) = F64.of_int (k - 1)).
Proof.
  intros Hk. pose proof token_steps as Hall. rewrite forallb_forall in Hall.
  eapply bool_decide_eq_true_1, Hall, list_elem_of_In, elem_of_seqZ. lia.
Qed.

Definition served (ip : IpAddr) (now k : Z) (limiter : RateLimiter) : Prop :=
  default {| tk_tokens := rl_burst limiter; tk_last_refill := now |} (rl_buckets limiter !! ip)
    = {| tk_tokens := F64.of_int k; tk_last_refill := now |} ∧
  rl_max_rps limiter = F64.of_int 100 ∧ rl_burst limiter = F64.of_int 200.
Lemma served_new ip now : served ip now 200 (Limiter.new 100 200).
Proof. done. Qed.
Lemma check_served ip now k limiter : 0 ≤ k ≤ 200 → served ip now k limiter →
  (Limiter.check ip now limiter).1 = (1 <=? k) ∧
  served ip now (Z.max 0 (k - 1)) (Limiter.check ip now limiter).2.
Proof.
  intros Hk (Hb & Hr & Hm). unfold Limiter.check, Limiter.refill. rewrite Hb, Hr, Hm.
  unfold Limiter.elapsed_secs. cbn [tk_tokens tk_last_refill].
  replace (saturating_sub now now) with 0 by ulia.
  change (0 / 1000000000) with 0. change (0 mod 1000000000) with 0.
  destruct (token_step k Hk) as (-> & -> & Hsub). split; [done|].
  unfold served. cbn [rl_buckets rl_max_rps rl_burst snd]. rewrite lookup_insert_eq.
  split_and!; [|done..]. cbn [from_option]. unfold id. f_equal.
  destruct (Z.leb_spec 1 k); [rewrite Hsub by lia|]; f_equal; lia.
Qed.
Lemma check_n_served n : ∀ ip now k limiter, 0 ≤ k ≤ 200 → served ip now k limiter →
  (check_n n ip now limiter).1 =
    replicate (n `min` Z.to_nat k) true ++ replicate (n - Z.to_nat k) false.
Proof.
  induction n as [|n IH]; intros ip now k limiter Hk Hs; [done|]. cbn [check_n].
  destruct (check_served ip now k limiter Hk Hs) as [Ha Hs'].
  destruct (Limiter.check ip now limiter) as [allowed limiter']. simpl in Ha, Hs'. subst.
  specialize (IH ip now (Z.max 0 (k - 1)) limiter' ltac:(lia) Hs').
  destruct (check_n n ip now limiter') as [answers limiter2]. simpl in *. rewrite IH.
  destruct (Z.leb_spec 1 k).
  - replace (Z.to_nat k) with (S (Z.to_nat (k - 1))) by lia.
    replace (Z.max 0 (k - 1)) with (k - 1) by lia. done.
  - replace (Z.to_nat k) with 0%nat by lia. replace (Z.to_nat (Z.max 0 (k - 1))) with 0%nat by lia.
    by rewrite !Nat.min_0_r, !Nat.sub_0_r.
Qed.
End burst.

(** ** Parameters *)

(** What the code relies on of [json!] of a [u128]: it converts what fits [u64] and nothing else. *)
Class SerdeJsonLaws `{SerdeJson} : Prop := {
  u128_small n : in_range U64_MAX n → u128_to_value n = Ok (number n);
  u128_large n : U64_MAX < n → ∃ e, u128_to_value n = Err e
}.
Section parameters.
Context `{HexLaws}.

(** An address printed by the server is read back. *)
Lemma printed_address_parses (a : EvmAddress) :
  Params.parse_hex_address (VString (Format.bytes0x (array_bytes a))) = Ok a.
Proof.
  unfold Params.parse_hex_address, Format.bytes0x. simpl.
  rewrite strip_0x_prefixed, hex_decode_encode. simpl.
  by rewrite array_length, array_of_bytes.
Qed.
Lemma block_number_parses h latest : in_range U64_MAX h →
  Params.parse_block_number (VString (hex0x h)) latest = h.
Proof.
  intros Hh. unfold Params.parse_block_number. cbn [as_str].
  rewrite !bool_decide_false by (unfold hex0x; discriminate). simpl.
  by rewrite hex0x_parses by ulia.
Qed.
(** The address of a faucet request never panics: its length was checked. *)
Lemma faucet_address_returns s : Rpc.faucet_address s ≠ Panic.
Proof.
  unfold Rpc.faucet_address.
  destruct (hex_decode s) as [bytes|e|] eqn:E; [|by repeat case_match|by apply hex_decode_returns in E].
  apply hex_decode_length in E. simpl.
  destruct (Nat.eqb_spec (String.length s) 40); [|destruct (Nat.eqb_spec (String.length s) 64); [|done]];
    unfold array_of; (destruct (decide _) as [|Hd]; [done|]);
    destruct Hd; simpl; lia.
Qed.
End parameters.

(** ** The server *)

(** The requests of a body. *)
Definition requests_of `{SerdeJson} (body : list byte) : list Value :=
  match parse_json body with
  | Ok (VArray items) => items
  | Ok raw => [raw]
  | _ => []
  end.

Section server.
Context `{HashBackend, HexBackend, HexEncode, ChainCodec, SerdeJson, ParseIp}.
Context {S : Type} `{RpcProvider S}.

Section within.
Context (R : relation S) `{!PreOrder R} (allowed : string → Prop).
Hypothesis Hhandlers : Forall (λ nh : string * Rpc.handler,
  allowed nh.1 → ∀ params latest, moves R (nh.2 params latest)) Rpc.handlers.
Lemma dispatch_moves request : allowed (jr_method request) → moves R (Rpc.dispatch request).
Proof.
  intros Hm. unfold Rpc.dispatch. apply moves_bind; [done| |intros s].
  { intros s. simpl. reflexivity. }
  apply moves_bind; [done|by apply moves_lift|]. intros latest.
  destruct (Rpc.find_handler _ _) as [h|] eqn:Hh; [|by apply moves_lift].
  apply find_handler_elem in Hh. exact (proj1 (Forall_forall _ _) Hhandlers _ Hh Hm _ _).
Qed.
Lemma single_moves raw :
  (∀ request, from_value raw = Ok request → allowed (jr_method request)) →
  moves R (Rpc.process_single_request raw).
Proof.
  intros Hm s. unfold Rpc.process_single_request.
  destruct (from_value raw) as [request|e|]; [|by simpl; reflexivity..].
  pose proof (dispatch_moves request (Hm request eq_refl) s) as Hs.
  destruct (Rpc.dispatch request s) as [[result|err|] s1]; done.
Qed.
Lemma batch_moves items : ∀ responses,
  (∀ raw request, raw ∈ items → from_value raw = Ok request → allowed (jr_method request)) →
  moves R (Rpc.process_batch items responses).
Proof.
  induction items as [|item items IH]; intros responses Hm; [by apply moves_ret|].
  cbn [Rpc.process_batch]. apply moves_bind; [done| |].
  - apply single_moves. intros request. apply Hm. left.
  - intros resp. apply IH. intros raw request ?. apply Hm. by right.
Qed.
(** What a body does to the node, when all its methods are allowed. *)
Lemma body_moves now forwarded_for body limiter s :
  (∀ raw request, raw ∈ requests_of body → from_value raw = Ok request → allowed (jr_method request)) →
  R s (Rpc.handle_rpc now forwarded_for body (limiter, s)).2.2.
Proof.
  intros Hm. unfold Rpc.handle_rpc, requests_of in *.
  destruct (Limiter.check _ now limiter) as [[] limiter']; [|by simpl; reflexivity]. simpl.
  destruct (parse_json body) as [raw|e|]; [|by simpl; reflexivity..].
  assert (∀ r, r ∈ (match raw with VArray items => items | _ => [raw] end) →
    ∀ request, from_value r = Ok request → allowed (jr_method request)) as Hm'.
  { intros r Hr request. apply (Hm r request). by destruct raw. }
  destruct raw as [| | | |items|]; try (pose proof (single_moves _ (Hm' _ ltac:(left)) s) as Hs;
    by destruct (Rpc.process_single_request _ s)).
  pose proof (moves_bind R (Rpc.process_batch items []) (λ vs, mret (VArray vs))
    (batch_moves items [] (λ raw request Hr, Hm' raw Hr request)) (λ _, moves_ret R _) s) as Hs.
  by destruct ((Rpc.process_batch items [] ≫= _) s).
Qed.
End within.

(** C17: only the six submission methods change the node: a body without them, in whatever
    combination and however malformed, leaves it as it was. *)
Theorem queries_do_not_write now forwarded_for body limiter s :
  (∀ raw request, raw ∈ requests_of body → from_value raw = Ok request →
    jr_method request ∉ writing_methods) →
  (Rpc.handle_rpc now forwarded_for body (limiter, s)).2.2 = s.
Proof.
  intros Hm. symmetry. by apply (body_moves (=) (λ method, method ∉ writing_methods) handlers_pure).
Qed.

(** C18: every body is answered unless a handler panics: a refused one with its error and
    without touching the node, an unreadable one with a parse error, a batch with one reply
    per request in their order, a single request with its reply; every reply has the
    identifier of its request and a result or an error.  The server itself never fails. *)
Theorem every_request_is_answered now forwarded_for body limiter s :
  let allowed := (Limiter.check (Rpc.client_ip forwarded_for) now limiter).1 in
  let '(r, (_, s')) := Rpc.handle_rpc now forwarded_for body (limiter, s) in
  match r with
  | Ok (status, v) =>
      if allowed then
        status = Rpc.STATUS_OK ∧
        match parse_json body with
        | Err e => v = Rpc.error_reply VNull (-32700) ("parse error: " +:+ e)
        | Ok (VArray items) => ∃ answers, v = VArray answers ∧ Forall2 replies_to items answers
        | Ok raw => replies_to raw v
        | Panic => False
        end
      else
        status = Rpc.TOO_MANY_REQUESTS ∧ s' = s ∧
        v = Rpc.error_reply VNull (-32005) "rate limit exceeded"
  | Err _ => False
  | Panic => allowed = true ∧ (parse_json body = Panic ∨ Exists handler_panics (requests_of body))
  end.
Proof.
  unfold Rpc.handle_rpc, requests_of.
  destruct (Limiter.check _ now limiter) as [[] limiter1]; cbn [fst negb]; [|done].
  destruct (parse_json body) as [raw|e|]; [|by split..|by split; [|left]].
  destruct raw as [| | | |items|];
    try (match goal with |- context [Rpc.process_single_request ?raw s] =>
           pose proof (single_outcome raw s) as Hr;
           destruct (Rpc.process_single_request raw s) as [[w| |] s1] end;
         cbn [fst] in Hr; [by split | done | by split; [|right; left]]).
  pose proof (batch_outcome items [] s) as Hr. unfold mbind, eff_bind.
  destruct (Rpc.process_batch items [] s) as [[vs| |] s1]; cbn [fst] in Hr; [|done|by split; [|right]].
  destruct Hr as (answers & -> & Hall). split; [done|]. by exists answers.
Qed.

Lemma dispatch_at request s latest h :
  rp_eth_block_number s = Ok latest →
  Rpc.find_handler (jr_method request) Rpc.handlers = Some h →
  Rpc.dispatch request s = h (jr_params request) latest s.
Proof.
  intros Hl Hh. unfold Rpc.dispatch, mbind, eff_bind, eff_get, eff_lift. by rewrite Hl, Hh.
Qed.

(** The height a wallet asks for is the height it gets: what [eth_blockNumber] prints,
    [eth_getBlockByNumber] reads back, whatever the node's height is by then. *)
Lemma printed_height_is_read_back h s s' id params full b latest :
  in_range U64_MAX h →
  rp_eth_block_number s = Ok h →
  rp_eth_block_number s' = Ok latest →
  rp_get_block_by_height h s' = Ok (Some b) →
  ∃ printed,
    Rpc.dispatch {| jr_jsonrpc := "2.0"; jr_id := id; jr_method := "eth_blockNumber";
      jr_params := params |} s = (Ok printed, s) ∧
    Rpc.dispatch {| jr_jsonrpc := "2.0"; jr_id := id; jr_method := "eth_getBlockByNumber";
      jr_params := VArray [printed; VBool full] |} s' = (Ok (Format.format_eth_block b full), s').
Proof.
  intros Hh Hs Hs' Hb. exists (VString (hex0x h)).
  rewrite (dispatch_at _ s h Rpc.eth_blockNumber),
    (dispatch_at _ s' latest Rpc.eth_getBlockByNumber) by done.
  unfold Rpc.eth_blockNumber, Rpc.eth_getBlockByNumber, Rpc.query, mbind, eff_bind. rewrite Hs.
  split; [done|]. cbn [Params.param_at lookup list_lookup from_option jr_params].
  unfold Datatypes.id. by rewrite block_number_parses, Hb.
Qed.
End server.

(** In one instant an address that was not seen before is served exactly its burst: the
    first 200 of [n] requests pass the limiter of the server, the others do not. *)
Lemma burst_is_bounded (n : nat) (ip : IpAddr) (now : Z) :
  (check_n n ip now (Limiter.new 100 200)).1 =
    replicate (n `min` 200) true ++ replicate (n - 200) false.
Proof. by apply (check_n_served n ip now 200 _ ltac:(lia)), served_new. Qed.

(** A receipt whose block is gone is printed with a block hash that is no hash: 33 times
    ["0x"]. *)
Lemma lost_block_hash `{HashBackend, HexEncode, ChainCodec} (receipt : Receipt) :
  get "blockHash" (Format.format_eth_receipt receipt None) =
    Some (VString (repeat_str 33 "0x")).
Proof. done. Qed.

(** [eth_getLogs] forgets the topics of a filter. *)
Lemma topics_are_ignored `{HashBackend, HexBackend, HexEncode, ChainCodec, SerdeJson}
    {S : Type} `{RpcProvider S} fields topics latest s :
  Rpc.eth_getLogs (VArray [VObject (fields ++ [("topics"%string, topics)])]) latest s =
  Rpc.eth_getLogs (VArray [VObject fields]) latest s.
Proof.
  unfold Rpc.eth_getLogs. cbn [Params.param_at lookup list_lookup from_option].
  unfold id, get.
  assert (∀ name, name ≠ "topics"%string →
    field name (fields ++ [("topics"%string, topics)]) = field name fields) as Hf.
  { intros name Hn. induction fields as [|[n v] fields IH]; simpl; [|by rewrite IH].
    by rewrite bool_decide_false by congruence. }
  by rewrite !Hf by discriminate.
Qed.
