(* ===== verification/RpcNode.v ===== *)
(** The node behind its RPC server: the operations of [Provider.v] as an instance of the
    interface of [Rpc.v], and what requests do to the node end to end. *)

From S2P Require Import Prelude Types Codec Hash Crypto Wire Toy Primitives Storage Smt Staking.
From S2P Require Import Mempool Zk Evm EthTx Execution Rounds Consensus Network Setup Bootstrap.
From S2P Require Import Provider Json Rpc RpcProofs.
From stdpp Require Import pretty.
Open Scope Z_scope.

(** The parts of a node that its RPC methods reach. *)
Record RpcNode := {
  rn_node : Node;
  rn_pool : ShieldedPool;
  rn_peers : list string
}.
Definition rn_store (n : RpcNode) : MemoryInner := nd_store (rn_node n).
Definition upd_rn_store (f : MemoryInner → MemoryInner) (n : RpcNode) : RpcNode := {|
  rn_node := upd_nd_store f (rn_node n); rn_pool := rn_pool n; rn_peers := rn_peers n |}.

Section node.
Context `{HashBackend, HexEncode, HexBackend, KeccakBackend, EcdsaBackend, ChainCodec, RevmBackend,
  SerdeJson}.
Context (default_scheme scheme : SignatureScheme) (config : NodeConfig) (genesis : Genesis).
Context (plane : ExecutionPlane) (faucet_file : option (res AnyError WalletKeyFile)).
(** The texts of errors and metrics, and raw transactions, whose interpreter may not end. *)
Context (show : NodeError → string) (metrics : string).
Context (send_raw : string → eff MemoryInner NodeError Hash32).

Definition shown {A} (r : res NodeError A) : res string A := map_err show r.
Definition on_store {A} (m : eff MemoryInner NodeError A) : eff RpcNode string A := λ n,
  let '(r, store) := m (rn_store n) in (shown r, upd_rn_store (λ _, store) n).
Definition on_node {A} (m : eff Node NodeError A) : eff RpcNode string A := λ n,
  let '(r, node) := m (rn_node n) in
  (shown r, {| rn_node := node; rn_pool := rn_pool n; rn_peers := rn_peers n |}).
Definition on_pool {A} (m : eff (ShieldedPool * MemoryInner) NodeError A) :
    eff RpcNode string A := λ n,
  let '(r, (pool, store)) := m (rn_pool n, rn_store n) in
  (shown r, {| rn_node := upd_nd_store (λ _, store) (rn_node n); rn_pool := pool;
               rn_peers := rn_peers n |}).
Definition pool_info (pool : ShieldedPool) : res string Value :=
  let info := Provider.zk_pool_info pool in
  total ← Rpc.json_u128 (pi_total_shielded_value info);
  Ok (VObject [("root", VString (Pages.hex (pi_root info)));
    ("commitment_count", number (pi_commitment_count info));
    ("nullifier_count", number (Z.of_nat (pi_nullifier_count info)));
    ("total_shielded_value", total)]%string).

Definition node_provider : RpcProvider RpcNode := {|
  rp_get_balance a n := Ok (Provider.get_balance a (rn_store n));
  rp_get_nonce a n := Ok (Provider.get_nonce a (rn_store n));
  rp_get_block_by_height h n := Ok (Store.get_block_by_height h (rn_store n));
  rp_get_block_by_hash h n := Ok (Store.get_block_by_hash h (rn_store n));
  rp_get_latest_block n := Ok (Store.latest_block (rn_store n));
  rp_get_tx_status h n :=
    Ok (Provider.get_tx_status h (rn_store n) (nd_mempool (rn_node n)));
  rp_submit_tx tx := on_node (Provider.submit_tx scheme plane tx);
  rp_get_peers n := Ok (rn_peers n);
  rp_get_validator_set _ := Ok (gn_validators genesis);
  rp_get_chain_status n :=
    Ok (Provider.current_chain_status config genesis (rn_peers n) (rn_store n));
  rp_eth_chain_id _ := Ok (ep_evm_chain_id plane);
  rp_eth_block_number n := Ok (Provider.latest_height (rn_store n));
  rp_eth_get_code a n := Ok (Plane.eth_get_code plane a (rn_store n));
  rp_eth_call q n := shown (Plane.eth_call default_scheme plane q (rn_store n));
  rp_eth_get_balance a n := Ok (Provider.eth_get_balance a (rn_store n));
  rp_eth_get_transaction_count a n :=
    Ok (Provider.eth_get_transaction_count a (rn_store n));
  rp_eth_get_transaction_receipt h n := Ok (Store.get_receipt h (rn_store n));
  rp_eth_get_logs q n := shown (Provider.eth_get_logs q (rn_store n));
  rp_eth_estimate_gas q n :=
    shown (Provider.eth_estimate_gas default_scheme plane q (rn_store n));
  rp_eth_gas_price _ := Ok Provider.eth_gas_price;
  rp_eth_send_raw_transaction raw := on_store (send_raw raw);
  rp_register_validator q := on_store (Provider.register_validator scheme genesis q);
  rp_get_recent_blocks c n := Ok (Provider.get_recent_blocks c (rn_store n));
  rp_get_staking_state n := Ok (Provider.get_staking_state (rn_store n));
  rp_get_governance_state n := shown (Provider.get_governance_state (rn_store n));
  rp_faucet_send a amount := on_store (Provider.faucet_send faucet_file a amount);
  rp_zk_shield q := on_pool (λ '(pool, store),
    let '(r, pool) := Provider.zk_shield q pool in (r, (pool, store)));
  rp_zk_unshield q := on_pool (Provider.zk_unshield q);
  rp_zk_pool_info n := pool_info (rn_pool n);
  rp_metrics _ := Ok metrics
|}.

(** ** Requests end to end *)
#[local] Existing Instance node_provider.

Definition request (method : string) (params : Value) : JsonRpcRequest := {|
  jr_jsonrpc := "2.0"; jr_id := VNull; jr_method := method; jr_params := params |}.
(** Every height of the node is known. *)
Lemma node_dispatch method params h n :
  Rpc.find_handler method Rpc.handlers = Some h →
  Rpc.dispatch (request method params) n =
    h params (Provider.latest_height (rn_store n)) n.
Proof.
  intros Hh.
  rewrite (dispatch_at (request method params) n (Provider.latest_height (rn_store n)) h);
    [reflexivity | reflexivity | exact Hh].
Qed.

Context `{!HexLaws} `{!SerdeJsonLaws}.

Lemma faucet_address_padded (a : EvmAddress) :
  Rpc.faucet_address (hex_encode (array_bytes a)) = Ok (Provider.padded a).
Proof.
  unfold Rpc.faucet_address. rewrite hex_decode_encode.
  assert (String.length (hex_encode (array_bytes a)) = 40%nat) as Hl.
  { rewrite (hex_decode_length _ _ (hex_decode_encode _)), array_length. done. }
  rewrite Hl. cbn [Nat.eqb map_err mbind res_bind].
  assert (array_bytes (Provider.padded a) = replicate 12 x00 ++ array_bytes a) as <-;
    [|by rewrite array_of_bytes].
  unfold Provider.padded, array_pad. cbn [array_bytes]. rewrite take_app_le, take_ge; [done|..];
    rewrite length_app, length_replicate, array_length; lia.
Qed.

(** What the faucet does to the balance of its recipient. *)
Lemma faucet_send_balance recipient amount store store' :
  Provider.faucet_send faucet_file recipient amount store = (Ok tt, store') →
  (∀ key, faucet_file = Some (Ok key) → wk_address key ≠ recipient) →
  ms_evm_accounts store' = ms_evm_accounts store ∧
  Store.get_account recipient store' = Some {|
    acct_nonce := acct_nonce (Provider.account_of recipient store);
    acct_balance := saturating_add U128_MAX (Provider.get_balance recipient store) amount |}.
Proof.
  unfold Provider.faucet_send. case_match; [done|]. case_match; [done|]. intros Hrun Hkey.
  apply eff_bind_inv_ok in Hrun as ([] & s1 & Hpay & Hrun). injection Hrun as <-.
  assert (ms_evm_accounts s1 = ms_evm_accounts store ∧
    Store.get_account recipient s1 = Store.get_account recipient store) as [He Ha].
  { destruct faucet_file as [file|]; [|by injection Hpay as <-].
    apply eff_bind_inv_ok in Hpay as (key & s2 & Hfile & Hpay). injection Hfile as Hfile ->.
    destruct file as [key'| |]; simplify_eq/=. specialize (Hkey key eq_refl).
    unfold mbind, eff_bind, eff_get in Hpay. case_match; [done|]. injection Hpay as <-.
    split; [done|]. by apply lookup_insert_ne. }
  split; [done|]. unfold Store.get_account, Provider.get_balance, Provider.account_of in *.
  cbn. rewrite lookup_insert_eq. unfold Store.get_account in *. by rewrite Ha.
Qed.

(** The reply of the faucet. *)
Definition paid (amount : Z) : Value :=
  VObject [("status", VString "ok"); ("amount", number amount)]%string.
Definition eth_address (a : EvmAddress) : Value := VString (Format.bytes0x (array_bytes a)).
Lemma faucet_dispatch (a : EvmAddress) v n :
  let amount := Rpc.faucet_amount (VArray [eth_address a; v]) in
  Rpc.dispatch (request "faucet_send" (VArray [eth_address a; v])) n =
    (_ ← on_store (Provider.faucet_send faucet_file (Provider.padded a) amount);
     shown_amount ← eff_lift (Rpc.json_u128 amount);
     mret (VObject [("status", VString "ok"); ("amount", shown_amount)]%string)) n.
Proof.
  intros amount. rewrite (node_dispatch _ _ Rpc.faucet_send) by done.
  unfold Rpc.faucet_send, eth_address, Format.bytes0x.
  cbn [Params.param_at lookup list_lookup]. unfold mbind at 1, eff_bind, eff_lift.
  cbn [mbind option_bind as_str ok_or]. rewrite strip_0x_prefixed, faucet_address_padded. done.
Qed.

(** Money from the faucet arrives: when the server answers a faucet request for an Ethereum
    address, the balance it shows a wallet for that address has grown by the amount. *)
Lemma faucet_credit_is_visible (a : EvmAddress) amount n n' v :
  in_range U64_MAX amount →
  (∀ key, faucet_file = Some (Ok key) → wk_address key ≠ Provider.padded a) →
  (∀ account, Store.get_evm_account a (rn_store n) = Some account → 0 ≤ ea_balance account) →
  Rpc.dispatch (request "faucet_send" (VArray [eth_address a; number amount])) n = (Ok v, n') →
  v = paid amount ∧
  Rpc.dispatch (request "eth_getBalance" (VArray [eth_address a; VString "latest"])) n' =
    (Ok (VString (hex0x
       (saturating_add U128_MAX (Provider.eth_get_balance a (rn_store n)) amount))), n').
Proof.
  intros Hamount Hkey Hevm. rewrite faucet_dispatch. intros Hrun.
  apply eff_bind_inv_ok in Hrun as ([] & n1 & Hpay & Hrun).
  unfold Rpc.json_u128, eff_lift, mbind, eff_bind in Hrun. rewrite u128_small in Hrun by done.
  injection Hrun as <- <-. split; [done|].
  unfold on_store in Hpay.
  destruct (Provider.faucet_send _ _ _ (rn_store n)) as [[[]| |] store'] eqn:Hsend; simplify_eq/=.
  apply faucet_send_balance in Hsend as [He Ha]; [|done].
  rewrite (node_dispatch _ _ Rpc.eth_getBalance) by done.
  unfold Rpc.eth_getBalance, Rpc.address_param, Rpc.query, Rpc.text, mbind, eff_bind, eff_lift.
  cbn [Params.param_at lookup list_lookup ok_or]. unfold eth_address.
  rewrite printed_address_parses. cbn. unfold mret, eff_ret. do 4 f_equal.
  unfold Provider.eth_get_balance, Store.get_evm_account in *. rewrite Ha.
  clear Hkey Ha. revert He. generalize (Provider.padded a). cbn. intros p ->.
  unfold Provider.get_balance, Provider.account_of, Store.get_account in *.
  destruct (ms_evm_accounts (rn_store n) !! a) as [ea|]; [specialize (Hevm _ eq_refl)|];
    destruct (ms_accounts (rn_store n) !! p); cbn; ulia.
Qed.

(** A native balance above [u64] cannot be asked for: the handler panics. *)
Lemma get_balance_panics a params n :
  from_value params = Ok a →
  U64_MAX < Provider.get_balance a (rn_store n) →
  Rpc.dispatch (request "get_balance" params) n = (Panic, n).
Proof.
  intros Ha Hlarge. rewrite (node_dispatch _ _ Rpc.get_balance) by done.
  unfold Rpc.get_balance, Rpc.params_as, Rpc.query, Rpc.answer, Rpc.json_u128, mbind, eff_bind,
    eff_lift. rewrite Ha. cbn. by destruct (u128_large _ Hlarge) as [e ->].
Qed.
(** A faucet payment above [u64] is made, and then the reply panics. *)
Lemma large_faucet_panics a v store' n :
  let amount := Rpc.faucet_amount (VArray [eth_address a; v]) in
  U64_MAX < amount →
  Provider.faucet_send faucet_file (Provider.padded a) amount (rn_store n) = (Ok tt, store') →
  Rpc.dispatch (request "faucet_send" (VArray [eth_address a; v])) n =
    (Panic, upd_rn_store (λ _, store') n).
Proof.
  intros amount Hlarge Hsend. rewrite faucet_dispatch.
  change (Rpc.faucet_amount _) with amount. clearbody amount.
  unfold on_store, Rpc.json_u128, mbind, eff_bind, eff_lift. rewrite Hsend. cbn.
  by destruct (u128_large _ Hlarge) as [e ->].
Qed.
End node.
