(* ===== verification/Cli.v ===== *)
(** [crates/zeno-cli/src/main.rs]: the commands of [zeno-cli], with the client side of the
    RPC, over the files of the working directory and the node at the other end of the
    connection.  The formats of the files and the connection itself are outside. *)

From S2P Require Import Prelude Types Codec Hash Crypto Wire Toy Primitives Storage Smt Staking.
From S2P Require Import Mempool Zk Evm EthTx Execution Rounds Consensus Network Setup Bootstrap.
From S2P Require Import Provider Json Rpc RpcProofs RpcNode.
From stdpp Require Import pretty.
Import EthTx.EthTx(strip_0x).
Open Scope Z_scope.

(** ** Commands *)
Inductive NodeCommand :=
  | InitDevnet (output chain_id : string)
  | InitSolo (output chain_id : string)
  | Start (config genesis : string)
  | Info (config : string)
  | NodeStatus (rpc : string).
Inductive WalletCommand :=
  | Generate (output : string)
  | ShowAddress (key : string)
  | Balance (rpc address : string)
  | BuildTx (key chain_id recipient : string) (amount nonce fee : Z) (output : string)
      (memo : option string) (valid_until : option Z)
  | BuildEvmCreate (key chain_id : string) (nonce fee gas_limit gas_price : Z)
      (bytecode_hex output : string) (valid_until : option Z)
  | BuildEvmCall (key chain_id contract calldata_hex : string)
      (nonce fee gas_limit gas_price : Z) (output : string) (valid_until : option Z)
  | EthCall (rpc to calldata_hex : string)
  | GetCode (rpc address : string)
  | SubmitTx (rpc tx : string)
  | TxStatus (rpc hash : string).
Inductive TopLevelCommand := NodeCmd (command : NodeCommand) | WalletCmd (command : WalletCommand).

(** ** The world of a command

    A file is the value written to it; [cli_net] is the node that answers. *)
Inductive CliFile :=
  | CfWallet (wallet : WalletKeyFile)
  | CfTransaction (tx : Transaction)
  | CfSetup (file : SetupFile).
Inductive Printed :=
  | Line (s : string)
  | Pretty (v : Value)
  | PrettyInfo (info : NodeInfo).
Record Cli (N : Type) := {
  cli_files : gmap string CliFile;
  cli_printed : list Printed;
  cli_net : N
}.
Arguments cli_files {_}. Arguments cli_printed {_}. Arguments cli_net {_}.
Arguments Build_Cli {_}.

(** ** The answer of a server *)
Record JsonRpcError := { je_code : Z; je_message : string }.
Record JsonRpcResponse (T : Type) := {
  jp_jsonrpc : string;
  jp_id : Value;
  jp_result : option T;
  jp_error : option JsonRpcError
}.
Arguments jp_jsonrpc {_}. Arguments jp_id {_}. Arguments jp_result {_}. Arguments jp_error {_}.
(** The conversions of [serde_json] on the client's side; [parse_response] is the one that
    is derived for [JsonRpcResponse<T>]. *)
Class CliJson := {
  json_tx :: ToJson Transaction;
  json_evm_address :: ToJson EvmAddress;
  json_call_request :: ToJson EvmCallRequest;
  u128_from_value : Value → res string Z;
  string_from_value : Value → res string string;
  parse_response {R} : (Value → res string R) → Value → res string (JsonRpcResponse R)
}.

Module ZenoCli.
Section cli.
Context `{HashBackend, HexEncode, HexBackend, ChainCodec, SerdeJson, CliJson} {N : Type}.
Context (scheme : SignatureScheme).
(** The randomness of the key pairs, the identifier of a request, the exchange with the
    server at an address, the run of a node, and the error of a file of another format. *)
Context (entropy : nat → list byte) (uuid : string).
Context (post : string → Value → eff N string Value).
Context (start : string → string → eff (Cli N) AnyError ()) (bad_file : string).

(** *** Files and output *)
Definition read_file {A} (path : string) (as_a : CliFile → option A) : eff (Cli N) AnyError A := λ w,
  (match cli_files w !! path with
   | None => Err (Anyhow ("unable to read " +:+ path))
   | Some file => ok_or (Anyhow bad_file) (as_a file)
   end, w).
Definition write_file (path : string) (file : CliFile) : eff (Cli N) AnyError () :=
  eff_modify (λ w, {| cli_files := <[path := file]> (cli_files w);
                      cli_printed := cli_printed w; cli_net := cli_net w |}).
Definition println (line : Printed) : eff (Cli N) AnyError () :=
  eff_modify (λ w, {| cli_files := cli_files w; cli_printed := cli_printed w ++ [line];
                      cli_net := cli_net w |}).
(** The key file of a validator has the fields of a wallet. *)
Definition wallet_of (file : CliFile) : option WalletKeyFile :=
  match file with
  | CfWallet wallet => Some wallet
  | CfSetup (ValidatorKey key) => Some {| wk_address := vc_address key;
      wk_public_key := vc_public_key key; wk_secret_key := vc_secret_key key |}
  | _ => None
  end.
Definition load_wallet_key (path : string) : eff (Cli N) AnyError WalletKeyFile :=
  read_file path wallet_of.
Definition address_line (a : array 32) : Printed := Line (hex_encode (array_bytes a)).

(** *** Arguments *)
Definition parse_address (value : string) : res AnyError Address :=
  bytes ← map_err (λ _, Anyhow "invalid address hex") (hex_decode value);
  if negb (Nat.eqb (length bytes) 32) then Err (Anyhow "address must be 32 bytes")
  else expect (array_of 32 bytes).
Definition parse_evm_address (value : string) : res AnyError EvmAddress :=
  bytes ← map_err (λ _, Anyhow "invalid evm address hex") (hex_decode (strip_0x value));
  if negb (Nat.eqb (length bytes) 20) then Err (Anyhow "evm address must be 20 bytes")
  else expect (array_of 20 bytes).
Definition decode_hex (value : string) : res AnyError (list byte) :=
  map_err Anyhow (hex_decode value).
Definition parse_hash (value : string) : res AnyError Hash32 :=
  map_err (λ e, Anyhow (match e with
    | Hex msg => "invalid hex encoding: " +:+ msg | Length => "invalid digest length" end)) (from_str value).

(** *** Calls *)
Definition request_value (request : JsonRpcRequest) : Value :=
  VObject [("jsonrpc", VString (jr_jsonrpc request)); ("id", jr_id request);
    ("method", VString (jr_method request)); ("params", jr_params request)]%string.
Definition on_net {A} (m : eff N string A) : eff (Cli N) AnyError A := λ w,
  let '(r, net) := m (cli_net w) in
  (map_err Anyhow r, {| cli_files := cli_files w; cli_printed := cli_printed w; cli_net := net |}).
Definition rpc_call {R} (from : Value → res string R) (rpc method : string)
    (params : res string Value) : eff (Cli N) AnyError R :=
  params ← eff_lift (map_err Anyhow params);
  response ← on_net (post rpc (request_value {| jr_jsonrpc := "2.0"; jr_id := VString uuid;
                                                jr_method := method; jr_params := params |}));
  body ← eff_lift (map_err Anyhow (parse_response from response));
  eff_lift (match jp_error body with
    | Some error => Err (Anyhow (je_message error))
    | None => ok_or (Anyhow "missing rpc result") (jp_result body)
    end).

(** *** Node commands; a failed generation leaves out its files *)
Definition faucet_funds : Z := 10000000000.
Definition init (output : string)
    (generate : list (Address * Z) → res AnyError (Genesis * list (string * SetupFile))) :
    eff (Cli N) AnyError () :=
  faucet ← eff_lift (Wallet.generate_wallet scheme (entropy 0));
  _ ← write_file (output +:+ "/faucet.json") (CfWallet faucet);
  '(_, files) ← eff_lift (generate [(wk_address faucet, faucet_funds)]);
  _ ← eff_modify (λ w, {|
    cli_files := foldl (λ fs '(path, file), <[path := CfSetup file]> fs) (cli_files w) files;
    cli_printed := cli_printed w; cli_net := cli_net w |});
  println (Line output).
Definition handle_node (command : NodeCommand) : eff (Cli N) AnyError () :=
  match command with
  | InitDevnet output chain_id =>
      init output (λ funded, Devnet.generate_local_devnet scheme output chain_id funded
        (entropy 1) (entropy 2) (entropy 3) (entropy 4))
  | InitSolo output chain_id =>
      init output (λ funded, Devnet.generate_solo_devnet scheme output chain_id funded (entropy 1))
  | Start config genesis => start config genesis
  | Info path =>
      config ← read_file path (λ file, match file with
        | CfSetup (NodeToml config) => Some config | _ => None end);
      println (PrettyInfo (Config.node_info config))
  | NodeStatus rpc =>
      status ← rpc_call Ok rpc "get_chain_status" (Ok VNull); println (Pretty status)
  end.

(** *** Wallet commands *)
Definition save_tx (output : string) (tx : Transaction) : eff (Cli N) AnyError () :=
  _ ← write_file output (CfTransaction tx); println (address_line (Transaction_id tx)).
Definition handle_wallet (command : WalletCommand) : eff (Cli N) AnyError () :=
  match command with
  | Generate output =>
      wallet ← eff_lift (Wallet.generate_wallet scheme (entropy 0));
      _ ← write_file output (CfWallet wallet); println (address_line (wk_address wallet))
  | ShowAddress key =>
      wallet ← load_wallet_key key; println (address_line (wk_address wallet))
  | Balance rpc address =>
      address ← eff_lift (parse_address address);
      balance ← rpc_call u128_from_value rpc "get_balance" (to_value address);
      println (Line (pretty balance))
  | BuildTx key chain_id recipient amount nonce fee output memo valid_until =>
      wallet ← load_wallet_key key;
      recipient ← eff_lift (parse_address recipient);
      tx ← eff_lift (Wallet.build_signed_transfer scheme wallet chain_id recipient amount nonce
        fee memo valid_until);
      save_tx output tx
  | BuildEvmCreate key chain_id nonce fee gas_limit gas_price bytecode_hex output valid_until =>
      wallet ← load_wallet_key key;
      bytecode ← eff_lift (decode_hex bytecode_hex);
      tx ← eff_lift (Wallet.build_signed_contract_create scheme wallet chain_id nonce fee
        gas_limit gas_price bytecode valid_until);
      save_tx output tx
  | BuildEvmCall key chain_id contract calldata_hex nonce fee gas_limit gas_price output
      valid_until =>
      wallet ← load_wallet_key key;
      contract ← eff_lift (parse_evm_address contract);
      calldata ← eff_lift (decode_hex calldata_hex);
      tx ← eff_lift (Wallet.build_signed_contract_call scheme wallet chain_id contract calldata
        nonce fee gas_limit gas_price valid_until);
      save_tx output tx
  | EthCall rpc to calldata_hex =>
      to ← eff_lift (parse_evm_address to);
      data ← eff_lift (decode_hex calldata_hex);
      result ← rpc_call string_from_value rpc "eth_call" (to_value {|
        ecq_from := None; ecq_to := to; ecq_data := data; ecq_gas_limit := None;
        ecq_value := None |});
      println (Line result)
  | GetCode rpc address =>
      address ← eff_lift (parse_evm_address address);
      result ← rpc_call string_from_value rpc "eth_getCode" (to_value address);
      println (Line result)
  | SubmitTx rpc path =>
      tx ← read_file path (λ file, match file with CfTransaction tx => Some tx | _ => None end);
      hash ← rpc_call from_value rpc "submit_tx" (to_value (T := Transaction) tx);
      println (address_line hash)
  | TxStatus rpc hash =>
      hash ← eff_lift (parse_hash hash);
      status ← rpc_call Ok rpc "get_tx_status" (to_value (T := Hash32) hash);
      println (Pretty status)
  end.
Definition main (command : TopLevelCommand) : eff (Cli N) AnyError () :=
  match command with
  | NodeCmd command => handle_node command
  | WalletCmd command => handle_wallet command
  end.
End cli.
End ZenoCli.

(** ** Commands against a node

    What the client relies on of [serde_json] and of the conversions derived on both
    sides. *)
Definition byte_values (bytes : list byte) : Value := VArray ((λ b, number (byte_Z b)) <$> bytes).
Class CliJsonLaws `{SerdeJson, CliJson} : Prop := {
  request_read request : from_value (ZenoCli.request_value request) = Ok request;
  result_read {R} (from : Value → res string R) id v x : v ≠ VNull → from v = Ok x →
    parse_response from (Rpc.reply id ("result"%string, v)) =
      Ok {| jp_jsonrpc := "2.0"; jp_id := id; jp_result := Some x; jp_error := None |};
  error_read {R} (from : Value → res string R) id code msg :
    parse_response from (Rpc.error_reply id code msg) =
      Ok {| jp_jsonrpc := "2.0"; jp_id := id; jp_result := None;
            jp_error := Some {| je_code := code; je_message := msg |} |};
  hash_value (h : Hash32) : ∃ v, to_value h = Ok v ∧ v ≠ VNull ∧ from_value v = Ok h;
  tx_value (tx : Transaction) v : to_value tx = Ok v → from_value v = Ok tx;
  evm_address_value (a : EvmAddress) : to_value a = Ok (byte_values (array_bytes a));
  call_request_value to data : to_value (T := EvmCallRequest) {| ecq_from := None; ecq_to := to;
      ecq_data := data; ecq_gas_limit := None; ecq_value := None |} =
    Ok (VObject [("from", VNull); ("to", byte_values (array_bytes to));
      ("data", byte_values data); ("gas_limit", VNull); ("value", VNull)]%string)
}.

Section client.
Context `{HashBackend, HexEncode, HexBackend, ChainCodec, SerdeJson, CliJson, !CliJsonLaws}.
Context {N : Type} `{RpcProvider N} (uuid closed : string).

(** A server at the other end: a panic of the handler closes the connection. *)
Definition post_to_server (_ : string) (request : Value) : eff N string Value := λ n,
  match Rpc.process_single_request request n with
  | (Panic, n) => (Err closed, n)
  | answered => answered
  end.
Definition with_net {M} (net : M) (w : Cli M) : Cli M :=
  {| cli_files := cli_files w; cli_printed := cli_printed w; cli_net := net |}.
Definition cli_request (method : string) (params : Value) : JsonRpcRequest :=
  {| jr_jsonrpc := "2.0"; jr_id := VString uuid; jr_method := method; jr_params := params |}.

(** The client sees what the method answered. *)
Lemma rpc_call_answer {R} (from : Value → res string R) rpc method params w :
  let '(r, n) := Rpc.dispatch (cli_request method params) (cli_net w) in
  (∀ v x, r = Ok v → v ≠ VNull → from v = Ok x →
    ZenoCli.rpc_call uuid post_to_server from rpc method (Ok params) w = (Ok x, with_net n w)) ∧
  (∀ e, r = Err e →
    ZenoCli.rpc_call uuid post_to_server from rpc method (Ok params) w =
      (Err (Anyhow e), with_net n w)) ∧
  (r = Panic →
    ZenoCli.rpc_call uuid post_to_server from rpc method (Ok params) w =
      (Err (Anyhow closed), with_net n w)).
Proof.
  unfold ZenoCli.rpc_call, ZenoCli.on_net, post_to_server, mbind, eff_bind, eff_lift.
  cbn [map_err]. unfold Rpc.process_single_request. rewrite request_read.
  fold (cli_request method params). destruct (Rpc.dispatch _ _) as [[v|e|] n].
  - split_and!; [|done..]. intros _ x [= <-] Hv Hx. cbn. by rewrite (result_read from _ v x).
  - split_and!; [done| |done]. intros _ [= <-]. cbn. by rewrite error_read.
  - split_and!; [done..|]. intros _. done.
Qed.

(** A call that the method refuses is refused. *)
Lemma rpc_call_refused {R} (from : Value → res string R) rpc method params w :
  is_ok (Rpc.dispatch (cli_request method params) (cli_net w)).1 = false →
  is_ok (ZenoCli.rpc_call uuid post_to_server from rpc method (Ok params) w).1 = false.
Proof.
  intros Hr. pose proof (rpc_call_answer from rpc method params w) as Hc.
  destruct (Rpc.dispatch _ _) as [[v|e|] n]; [done|..]; destruct Hc as (_ & He & Hp).
  - by rewrite (He e eq_refl).
  - by rewrite (Hp eq_refl).
Qed.
(** [eth_getCode] refuses an address that is not a string. *)
Lemma get_code_refuses bytes n :
  is_ok (Rpc.dispatch (cli_request "eth_getCode" (byte_values bytes)) n).1 = false.
Proof.
  unfold Rpc.dispatch, mbind, eff_bind, eff_get, eff_lift.
  destruct (rp_eth_block_number n); [|destruct bytes; done..]. by destruct bytes.
Qed.
(** [wallet get-code] fails whatever the address and the node. *)
Lemma get_code_command_fails scheme entropy bad_file rpc address w :
  is_ok (ZenoCli.handle_wallet scheme entropy uuid post_to_server bad_file
    (GetCode rpc address) w).1 = false.
Proof.
  unfold ZenoCli.handle_wallet, mbind, eff_bind, eff_lift.
  destruct (ZenoCli.parse_evm_address address) as [a|e|]; [|done..]. rewrite evm_address_value.
  pose proof (rpc_call_refused string_from_value rpc "eth_getCode" (byte_values (array_bytes a)) w
    (get_code_refuses _ _)) as Hr.
  destruct (ZenoCli.rpc_call _ _ _ _ _ _ w) as [[v|e|] w']; done.
Qed.
(** [wallet eth-call] calls the zero address with no data, whatever it was given. *)
Lemma eth_call_command_forgets scheme entropy bad_file rpc to data to' data' a a' d d' w :
  ZenoCli.parse_evm_address to = Ok a → ZenoCli.decode_hex data = Ok d →
  ZenoCli.parse_evm_address to' = Ok a' → ZenoCli.decode_hex data' = Ok d' →
  let run to data := ZenoCli.handle_wallet scheme entropy uuid post_to_server bad_file
    (EthCall rpc to data) w in
  run to data = run to' data'.
Proof.
  intros Ha Hd Ha' Hd'. cbv zeta. unfold ZenoCli.handle_wallet, mbind, eff_bind, eff_lift.
  rewrite Ha, Hd, Ha', Hd', !call_request_value.
  unfold ZenoCli.rpc_call, ZenoCli.on_net, post_to_server, Rpc.process_single_request,
    mbind, eff_bind, eff_lift. cbn [map_err]. rewrite !request_read. done.
Qed.
End client.

(** An address that a command printed is read back. *)
Lemma parse_printed_address `{HexLaws} (a : Address) :
  ZenoCli.parse_address (hex_encode (array_bytes a)) = Ok a.
Proof.
  unfold ZenoCli.parse_address. rewrite hex_decode_encode. cbn [map_err mbind res_bind].
  by rewrite array_length, array_of_bytes.
Qed.

(** ** From the command line to the pool *)
Section transfer.
Context `{HashBackend, HexBackend, HexEncode, KeccakBackend, EcdsaBackend, ChainCodec,
  RevmBackend, SerdeJson, CliJson, !CliJsonLaws}.
Context (default_scheme scheme : SignatureScheme) (keypair : list byte → list byte → Prop)
  `{!SignatureSchemeLaws scheme keypair}.
Context (config : NodeConfig) (genesis : Genesis) (plane : ExecutionPlane)
  (faucet_file : option (res AnyError WalletKeyFile)) (show : NodeError → string)
  (metrics : string) (send_raw : string → eff MemoryInner NodeError Hash32)
  (entropy : nat → list byte) (uuid closed bad_file : string).
#[local] Instance provider : RpcProvider RpcNode := node_provider default_scheme scheme config
  genesis plane faucet_file show metrics send_raw.

Definition cli_wallet (command : WalletCommand) : eff (Cli RpcNode) AnyError () :=
  ZenoCli.handle_wallet scheme entropy uuid (post_to_server closed) bad_file command.

Lemma build_tx_writes key chain recipient to amount nonce fee output memo valid_until wallet tx w :
  cli_files w !! key = Some (CfWallet wallet) →
  ZenoCli.parse_address recipient = Ok to →
  Wallet.build_signed_transfer scheme wallet chain to amount nonce fee memo valid_until = Ok tx →
  cli_wallet (BuildTx key chain recipient amount nonce fee output memo valid_until) w =
    (Ok tt, {| cli_files := <[output := CfTransaction tx]> (cli_files w);
               cli_printed := cli_printed w ++ [ZenoCli.address_line (Transaction_id tx)];
               cli_net := cli_net w |}).
Proof.
  intros Hkey Hto Htx. unfold cli_wallet, ZenoCli.handle_wallet, ZenoCli.load_wallet_key,
    ZenoCli.read_file, mbind, eff_bind, eff_lift. rewrite Hkey. cbn [ZenoCli.wallet_of ok_or].
  by rewrite Hto, Htx.
Qed.
Lemma submit_tx_prints rpc path tx v hash node w :
  cli_files w !! path = Some (CfTransaction tx) →
  to_value tx = Ok v →
  Provider.submit_tx scheme plane tx (rn_node (cli_net w)) = (Ok hash, node) →
  cli_wallet (SubmitTx rpc path) w =
    (Ok tt, {| cli_files := cli_files w;
               cli_printed := cli_printed w ++ [ZenoCli.address_line hash];
               cli_net := {| rn_node := node; rn_pool := rn_pool (cli_net w);
                             rn_peers := rn_peers (cli_net w) |} |}).
Proof.
  intros Hpath Hv Hsubmit. unfold cli_wallet, ZenoCli.handle_wallet, ZenoCli.read_file, mbind,
    eff_bind. rewrite Hpath. cbn [ok_or]. rewrite Hv.
  destruct (hash_value hash) as (hv & Hhv & Hnull & Hback).
  pose proof (rpc_call_answer uuid closed (from_value (T := Hash32)) rpc "submit_tx" v w) as Hc.
  rewrite (dispatch_at _ (cli_net w) (Provider.latest_height (rn_store (cli_net w))) Rpc.submit_tx)
    in Hc by done.
  unfold Rpc.submit_tx, Rpc.params_as, Rpc.answer, mbind, eff_bind, eff_lift in Hc.
  cbn [jr_params cli_request] in Hc. rewrite (tx_value tx v Hv) in Hc.
  cbn [rp_submit_tx provider node_provider] in Hc. unfold on_node in Hc. rewrite Hsubmit in Hc.
  cbn [shown map_err] in Hc. unfold json in Hc. rewrite Hhv in Hc.
  destruct Hc as (Hok & _). by rewrite (Hok hv hash eq_refl Hnull Hback).
Qed.

End transfer.
