(* ===== verification/RpcExamples.v ===== *)
(** Concrete parameters for the RPC server and its client, and runs of both: a [hex] crate,
    a parser of JSON text (strings are written between single quotes, without escapes), the
    conversions of [serde_json] that the runs need, and a node. *)

From Stdlib Require Import Ascii.
From S2P Require Import Prelude Types Codec Hash Crypto Wire Toy Primitives Storage Smt Staking.
From S2P Require Import Mempool Zk Evm EthTx Execution Rounds Consensus Network Setup Bootstrap.
From S2P Require Import Provider Json Rpc RpcProofs RpcNode Cli RocksExamples.
From stdpp Require Import pretty.
Import Rlp(hex2, hex_digit) Toy.
Open Scope Z_scope.

(** ** Hexadecimal *)
Module ToyHex.
#[export] Instance encode : HexEncode := λ bytes, foldr (λ b s, hex2 b +:+ s) "" bytes.
Fixpoint read (s : string) : option (list byte) :=
  match s with
  | String hi (String lo s) =>
      h ← digit_value 16 hi; l ← digit_value 16 lo; bytes ← read s; Some (Z_byte (h * 16 + l) :: bytes)
  | String _ EmptyString => None
  | EmptyString => Some []
  end.
#[export] Instance decode : HexBackend := λ s, ok_or "odd length or invalid digit" (read s).
Lemma read_hex2 b s : read (hex2 b +:+ s) = (bytes ← read s; Some (b :: bytes)).
Proof. destruct b; reflexivity. Qed.
Lemma read_encode bytes : read (hex_encode bytes) = Some bytes.
Proof.
  unfold hex_encode, encode. induction bytes as [|b bytes IH]; [done|]. cbn [foldr].
  by rewrite read_hex2, IH.
Qed.
Lemma read_length bytes : ∀ s, read s = Some bytes → String.length s = (2 * length bytes)%nat.
Proof.
  induction bytes as [|b bytes IH]; intros [|hi [|lo s]] Hs; simpl in Hs; simplify_option_eq; try done.
  cbn. erewrite IH by done. lia.
Qed.
#[export] Instance laws : HexLaws.
Proof.
  split.
  - intros bytes. unfold hex_decode, decode. by rewrite read_encode.
  - intros s bytes. unfold hex_decode, decode. destruct (read s) as [bs|] eqn:E; [|done].
    intros [= <-]. by apply read_length.
  - intros s. unfold hex_decode, decode. by destruct (read s).
Qed.
End ToyHex.

(** ** JSON text *)
Module ToyText.
Fixpoint until_quote (s : string) : option (string * string) :=
  match s with
  | String "'"%char s => Some (EmptyString, s)
  | String c s => '(text, rest) ← until_quote s; Some (String c text, rest)
  | EmptyString => None
  end.
Fixpoint digits (acc : Z) (s : string) : Z * string :=
  match s with
  | String c rest => match digit_value 10 c with
      | Some d => digits (acc * 10 + d) rest | None => (acc, s) end
  | EmptyString => (acc, s)
  end.
Definition drop_string (n : nat) (s : string) : string :=
  String.substring n (String.length s - n) s.
Fixpoint value (fuel : nat) (s : string) : option (Value * string) :=
  match fuel with
  | O => None
  | S fuel =>
      match Rpc.trim_start s with
      | String "["%char s => items fuel s []
      | String "{"%char s => fields fuel s []
      | String "'"%char s => '(text, s) ← until_quote s; Some (VString text, s)
      | String "n"%char s => Some (VNull, drop_string 3 s)
      | String "t"%char s => Some (VBool true, drop_string 3 s)
      | String "f"%char s => Some (VBool false, drop_string 4 s)
      | String c _ as s => _ ← digit_value 10 c; let '(n, s) := digits 0 s in Some (number n, s)
      | EmptyString => None
      end
  end
with items (fuel : nat) (s : string) (acc : list Value) : option (Value * string) :=
  match fuel with
  | O => None
  | S fuel =>
      match Rpc.trim_start s with
      | String "]"%char s => Some (VArray acc, s)
      | String ","%char s | s => '(v, s) ← value fuel s; items fuel s (acc ++ [v])
      end
  end
with fields (fuel : nat) (s : string) (acc : list (string * Value)) : option (Value * string) :=
  match fuel with
  | O => None
  | S fuel =>
      match Rpc.trim_start s with
      | String "}"%char s => Some (VObject acc, s)
      | String ","%char s | s =>
          match Rpc.trim_start s with
          | String "'"%char s =>
              '(name, s) ← until_quote s;
              match Rpc.trim_start s with
              | String ":"%char s => '(v, s) ← value fuel s; fields fuel s (acc ++ [(name, v)])
              | _ => None
              end
          | _ => None
          end
      end
  end.
Definition parse (s : string) : res string Value :=
  match value 100 s with
  | Some (v, s) => match Rpc.trim_start s with EmptyString => Ok v | _ => Err "trailing characters" end
  | None => Err "expected value"
  end%string.
End ToyText.

(** ** The conversions of [serde_json]

    Digests and addresses are lists of numbers, a transaction is its encoding as a text. *)
Module ToySerde.
Import RocksToy ToyHex.
Definition packed {T} `{Serde T} (x : T) : Value := VString (hex_encode (encode_to_vec x)).
Definition unpacked {T} `{Serde T} (v : Value) : res string T :=
  s ← ok_or "expected a string"%string (as_str v);
  bytes ← hex_decode s;
  '(x, _) ← decode_from_slice bytes; Ok x.
Lemma unpacked_packed {T} `{SerdeLaws T} (x : T) : unpacked (packed x) = Ok x.
Proof.
  unfold unpacked, packed. cbn [as_str ok_or mbind res_bind]. rewrite hex_decode_encode.
  cbn [mbind res_bind]. rewrite <-(app_nil_r (encode_to_vec x)). by rewrite decode_encode_prefix.
Qed.
Definition byte_of_value (v : Value) : option byte :=
  n ← as_u64 v; if (0 <=? n) && (n <=? 255) then Some (Z_byte n) else None.
Definition array_of_value {n} (v : Value) : res string (array n) :=
  ok_or "expected an array of bytes"%string
    (match v with VArray items => bytes ← mapM byte_of_value items; array_of n bytes | _ => None end).
Lemma array_of_byte_values {n} (a : array n) : array_of_value (byte_values (array_bytes a)) = Ok a.
Proof.
  unfold array_of_value, byte_values.
  assert (mapM byte_of_value ((λ b, number (byte_Z b)) <$> array_bytes a) = Some (array_bytes a)) as ->.
  { apply mapM_fmap_Some. intros []; reflexivity. }
  cbn. by rewrite array_of_bytes.
Qed.
Definition fits (tx : Transaction) : bool :=
  (tb_amount (tx_body tx) <=? U64_MAX) && (tb_fee (tx_body tx) <=? U64_MAX).
Definition request_of_value (v : Value) : res string JsonRpcRequest :=
  ok_or "missing field"%string (
    jsonrpc ← get "jsonrpc" v ≫= as_str; id ← get "id" v; method ← get "method" v ≫= as_str;
    params ← get "params" v;
    Some {| jr_jsonrpc := jsonrpc; jr_id := id; jr_method := method; jr_params := params |}).

#[export] Instance serde_json : SerdeJson := {|
  json_opt_block := λ b, Ok (match b with Some b => packed b | None => VNull end);
  json_blocks := λ bs, Ok (VArray (packed <$> bs));
  json_hash := λ h, Ok (byte_values (array_bytes h));
  json_tx_status := λ status, Ok (match status with
    | Pending => VString "Pending" | Finalized r => VObject [("Finalized", packed r)]
    | Unknown => VString "Unknown" end%string);
  json_strings := λ l, Ok (VArray (VString <$> l));
  json_validators := λ l, Ok (VArray (packed <$> l));
  json_chain_status := λ st, Ok (VObject [("latest_height", number (cs_latest_height st));
    ("node_id", VString (cs_node_id st))]%string);
  json_staking := λ st, Ok (packed st);
  json_governance := λ st, Ok (packed st);
  from_json_hash := array_of_value;
  from_json_u64 := λ v, ok_or "expected u64"%string (as_u64 v);
  from_json_tx := unpacked;
  from_json_join := λ _, Err "missing field"%string;
  from_json_shield := λ _, Err "missing field"%string;
  from_json_unshield := λ _, Err "missing field"%string;
  from_json_request := request_of_value;
  u128_to_value := λ n, if n <=? U64_MAX then Ok (number n) else Err "number out of range"%string;
  parse_json := λ body, ToyText.parse (String.string_of_list_byte body)
|}.
#[export] Instance serde_json_laws : SerdeJsonLaws.
Proof.
  split; intros n Hn; unfold u128_to_value, serde_json; destruct (Z.leb_spec n U64_MAX);
    [done | ulia | ulia | by eexists].
Qed.
Definition error_of_value (v : Value) : option JsonRpcError :=
  code ← get "code" v ≫= λ c, match c with
    | VNumber (PosInt n) | VNumber (NegInt n) => Some n | _ => None end;
  message ← get "message" v ≫= as_str; Some {| je_code := code; je_message := message |}.
Definition response_of_value {R} (from : Value → res string R) (v : Value) :
    res string (JsonRpcResponse R) :=
  '(jsonrpc, id) ← ok_or "missing field"%string
    (jsonrpc ← get "jsonrpc" v ≫= as_str; id ← get "id" v; Some (jsonrpc, id));
  result ← (match get "result" v with
    | None | Some VNull => Ok None | Some r => Some <$> from r end : res string (option R));
  error ← (match get "error" v with
    | None | Some VNull => Ok None
    | Some e => ok_or "missing field"%string (Some <$> error_of_value e) end
    : res string (option JsonRpcError));
  Ok {| jp_jsonrpc := jsonrpc; jp_id := id; jp_result := result; jp_error := error |}.
#[export] Instance cli_json : CliJson := {|
  json_tx := λ tx, if fits tx then Ok (packed tx) else Err "number out of range"%string;
  json_evm_address := λ a, Ok (byte_values (array_bytes a));
  json_call_request := λ q, Ok (VObject [
    ("from", match ecq_from q with Some a => byte_values (array_bytes a) | None => VNull end);
    ("to", byte_values (array_bytes (ecq_to q))); ("data", byte_values (ecq_data q));
    ("gas_limit", match ecq_gas_limit q with Some n => number n | None => VNull end);
    ("value", match ecq_value q with Some n => number n | None => VNull end)]%string);
  u128_from_value := λ v, ok_or "expected u128"%string (as_u64 v);
  string_from_value := λ v, ok_or "expected a string"%string (as_str v);
  parse_response := @response_of_value
|}.
#[export] Instance cli_json_laws : CliJsonLaws.
Proof.
  split.
  - by intros [].
  - intros R from id v x Hv Hx. unfold parse_response, cli_json, response_of_value.
    assert (get "jsonrpc" (Rpc.reply id ("result"%string, v)) = Some (VString "2.0") ∧
      get "id" (Rpc.reply id ("result"%string, v)) = Some id ∧
      get "result" (Rpc.reply id ("result"%string, v)) = Some v ∧
      get "error" (Rpc.reply id ("result"%string, v)) = None) as (-> & -> & -> & ->)
      by (repeat split).
    cbn [mbind option_bind as_str ok_or res_bind].
    destruct v; [done|..]; by rewrite Hx.
  - done.
  - intros h. eexists. split; [done|]. split; [done|]. apply array_of_byte_values.
  - intros tx v. unfold to_value, json_tx, cli_json. destruct (fits tx); [|done].
    intros [= <-]. apply unpacked_packed.
  - done.
  - done.
Qed.
End ToySerde.

(** ** Runs *)
Module RpcRuns.
Import RocksToy ToyHex ToySerde.
#[local] Existing Instance ToyRevm.backend.
#[local] Existing Instance ToyOqs.scheme_laws.
#[local] Instance keccak : KeccakBackend := ToyHash.digest 5.
#[local] Instance ecdsa : EcdsaBackend := {|
  Signature := list byte; RecoveryId := Z; VerifyingKey := list byte;
  signature_from_bytes bs := Ok bs;
  recovery_id_from_byte v := if v <? 4 then Some v else None;
  recover_from_prehash h sig _ := Ok (array_bytes h ++ sig);
  to_encoded_point key := x04 :: key
|}.
(** Addresses of four decimal numbers. *)
Fixpoint octets (n : nat) (s : string) : option (list byte) :=
  match n with
  | O => if bool_decide (s = "") then Some [] else None
  | S n =>
      let '(d, rest) := ToyText.digits 0 s in
      if 255 <? d then None else
      bytes ← octets n (match rest with String "."%char rest => rest | _ => rest end);
      Some (Z_byte d :: bytes)
  end.
#[local] Instance parse_v4 : ParseIp := λ s, bytes ← octets 4 s; V4 <$> array_of 4 bytes.

Definition carol : EvmAddress := array_repeat 20 xab.
Definition block : FinalizedBlock := {|
  fb_block := {| bk_header := Toy.header; bk_transactions := []; bk_proposer_public_key := [];
                 bk_proposer_signature := [] |};
  fb_certificate := {| cc_block_hash := zero; cc_height := 1; cc_round := 0; cc_votes := [] |};
  fb_receipts := []; fb_epoch_transition := None |}.
Definition node : RpcNode := {|
  rn_node := upd_nd_store (Store.put_finalized_block block) ProviderExamples.node;
  rn_pool := Zk.new_pool; rn_peers := [] |}.
#[local] Instance provider : RpcProvider RpcNode :=
  node_provider ToyOqs.scheme ToyOqs.scheme Config.default_config BootstrapExamples.genesis
    ProviderExamples.plane None (λ _, "refused"%string) "" (λ _ s, (Err (note "no raw"), s)).
Definition limiter : RateLimiter := Limiter.new 100 200.
Definition bytes_of (s : string) : list byte := String.list_byte_of_string s.
Definition batch : list byte := bytes_of
  "[{'jsonrpc':'2.0', 'id':1, 'method':'eth_blockNumber', 'params':[]}, 5]".
Definition block_number_request : Value := VObject [("jsonrpc", VString "2.0");
  ("id", number 1); ("method", VString "eth_blockNumber"); ("params", VArray [])]%string.
Lemma batch_parses : parse_json batch = Ok (VArray [block_number_request; number 5]).
Proof. vm_compute. reflexivity. Qed.
Lemma batch_admitted : (Limiter.check (Rpc.client_ip (Some "10.0.0.1, 10.0.0.2")) 0 limiter).1 = true.
Proof. vm_compute. reflexivity. Qed.

Lemma queries_do_not_write_witness :
  (Rpc.handle_rpc 0 (Some "10.0.0.1, 10.0.0.2") batch (limiter, node)).2.2 = node.
Proof.
  apply (queries_do_not_write 0 (Some "10.0.0.1, 10.0.0.2"%string) batch limiter node).
  intros raw request Hraw Hread. unfold requests_of in Hraw. rewrite batch_parses in Hraw.
  apply elem_of_cons in Hraw as [->|Hraw].
  - injection Hread as <-. apply (bool_decide_unpack _). vm_compute. reflexivity.
  - apply list_elem_of_singleton in Hraw as ->. discriminate Hread.
Defined.
Lemma every_request_is_answered_witness :
  ∃ first second,
    (Rpc.handle_rpc 0 (Some "10.0.0.1, 10.0.0.2") batch (limiter, node)).1 =
      Ok (Rpc.STATUS_OK, VArray [first; second]) ∧
    replies_to block_number_request first ∧ replies_to (number 5) second.
Proof.
  pose proof (every_request_is_answered 0 (Some "10.0.0.1, 10.0.0.2"%string) batch limiter node) as Ha.
  assert (is_ok (Rpc.handle_rpc 0 (Some "10.0.0.1, 10.0.0.2"%string) batch (limiter, node)).1 = true)
    as Hok by (vm_compute; reflexivity).
  destruct (Rpc.handle_rpc 0 (Some "10.0.0.1, 10.0.0.2"%string) batch (limiter, node))
    as [[[status v]|e|] [l' s']]; [|discriminate Hok..].
  rewrite batch_admitted, batch_parses in Ha. destruct Ha as (-> & answers & -> & Hall).
  apply Forall2_cons_inv_l in Hall as (first & rest & Hfirst & Hrest & ->).
  apply Forall2_cons_inv_l in Hrest as (second & rest' & Hsecond & Hnil & ->).
  apply Forall2_nil_inv_l in Hnil as ->. exists first, second.
  split_and!; [done | exact Hfirst | exact Hsecond].
Defined.
Lemma printed_height_is_read_back_witness :
  ∃ printed,
    Rpc.dispatch {| jr_jsonrpc := "2.0"; jr_id := VNull; jr_method := "eth_blockNumber";
      jr_params := VNull |} node = (Ok printed, node) ∧
    Rpc.dispatch {| jr_jsonrpc := "2.0"; jr_id := VNull; jr_method := "eth_getBlockByNumber";
      jr_params := VArray [printed; VBool false] |} node = (Ok (Format.format_eth_block block false), node).
Proof.
  apply (printed_height_is_read_back 1 node node VNull VNull false block 1);
    [ulia | vm_compute; reflexivity..].
Defined.

(** *** The faucet *)
Definition shown_balance (r : res string Value * RpcNode) : option string :=
  match r.1 with Ok v => as_str v | _ => None end.
Lemma faucet_credit_is_visible_witness :
  ∃ n', Rpc.dispatch (request "faucet_send" (VArray [eth_address carol; number 1000])) node =
      (Ok (paid 1000), n') ∧
    Rpc.dispatch (request "eth_getBalance" (VArray [eth_address carol; VString "latest"])) n' =
      (Ok (VString "0x3e8"), n').
Proof.
  destruct (Rpc.dispatch (request "faucet_send" (VArray [eth_address carol; number 1000])) node)
    as [[v|e|] n'] eqn:Hrun.
  - assert (hex0x (saturating_add U128_MAX (Provider.eth_get_balance carol (rn_store node)) 1000)
      = "0x3e8"%string) as Hshown by (vm_compute; reflexivity).
    destruct (faucet_credit_is_visible ToyOqs.scheme ToyOqs.scheme Config.default_config
      BootstrapExamples.genesis ProviderExamples.plane None (λ _, "refused"%string) ""
      (λ _ s, (Err (note "no raw"), s)) carol 1000 node n' v) as [-> Hb].
    + ulia.
    + discriminate.
    + vm_compute. discriminate.
    + exact Hrun.
    + exists n'. split; [reflexivity|]. rewrite Hshown in Hb. exact Hb.
  - apply (f_equal (is_ok ∘ fst)) in Hrun. vm_compute in Hrun. discriminate Hrun.
  - apply (f_equal (is_ok ∘ fst)) in Hrun. vm_compute in Hrun. discriminate Hrun.
Defined.
(** A payment of 20 coins is made and never confirmed. *)
Lemma large_payment_panics :
  let '(r, n') := Rpc.dispatch (request "faucet_send"
    (VArray [eth_address carol; VString "20000000000000000000"])) node in
  r = Panic ∧ Provider.eth_get_balance carol (rn_store n') = 20000000000000000000.
Proof. vm_compute. done. Qed.

(** *** A transfer from the command line *)
Definition bob_hex : string := hex_encode (array_bytes Toy.bob).
Definition shell : Cli RpcNode := {|
  cli_files := {[ "key.json"%string := CfWallet ProviderExamples.wallet ]};
  cli_printed := [];
  cli_net := {| rn_node := ProviderExamples.node; rn_pool := Zk.new_pool; rn_peers := [] |} |}.
Definition run_wallet : WalletCommand → eff (Cli RpcNode) AnyError () :=
  cli_wallet ToyOqs.scheme ToyOqs.scheme Config.default_config BootstrapExamples.genesis
    ProviderExamples.plane None (λ _, "refused"%string) "" (λ _ s, (Err (note "no raw"), s))
    (λ _, []) "1" "closed" "bad file".
(** [wallet get-code] and [wallet balance] against the same node. *)
Lemma get_code_run :
  (run_wallet (GetCode "127.0.0.1:8000" ("0x" +:+ hex_encode (array_bytes carol))) shell).1 =
    Err (Anyhow "expected hex address string").
Proof. vm_compute. reflexivity. Qed.
Lemma balance_run :
  cli_printed (run_wallet (Balance "127.0.0.1:8000" (hex_encode (array_bytes Toy.addr))) shell).2 =
    [Line "100"].
Proof. vm_compute. reflexivity. Qed.
End RpcRuns.
