(* ===== verification/Sync.v ===== *)
(** [crates/zeno-node/src/runtime.rs], synchronisation: the state of the download from one
    peer, the requests it makes, the answers it takes, and the gossip task around it. *)

From S2P Require Import Prelude Types Codec Hash Crypto Wire Toy Primitives Storage Smt Staking.
From S2P Require Import Mempool Zk Evm Execution Rounds Consensus Network Setup Bootstrap Provider.
From S2P Require Import Wp.
From stdpp Require Import pretty.
Open Scope Z_scope.

Record PendingHeadersRequest := { ph_request_id : Z; ph_start_height : Z; ph_limit : Z }.
Record PendingBlockRequest := { pr_request_id : Z; pr_height : Z }.
Record SyncState := {
  sy_active_peer : option string;
  sy_target_height : Z;
  sy_pending_headers : option PendingHeadersRequest;
  sy_pending_block : option PendingBlockRequest;
  sy_queued_heights : list Z
}.
Definition SyncState_default : SyncState :=
  {| sy_active_peer := None; sy_target_height := 0; sy_pending_headers := None;
     sy_pending_block := None; sy_queued_heights := [] |}.

(** The process: what the consensus engine shares, the state of the download behind its
    lock, the counter of requests, and what was sent to single peers. *)
Record Runtime := {
  ru_node : Node;
  ru_sync : SyncState;
  ru_request_ids : Z;
  ru_sent : list (string * NetworkMessage)
}.
Inductive RuntimeError := RuNode (e : NodeError) | RuConsensus (e : ConsensusError).
Definition sync_error (msg : string) : RuntimeError := RuNode (note msg).

(** Field updates. *)
Definition upd_ru_node (f : Node → Node) (r : Runtime) : Runtime :=
  {| ru_node := f (ru_node r); ru_sync := ru_sync r; ru_request_ids := ru_request_ids r;
     ru_sent := ru_sent r |}.
Definition upd_ru_sync (f : SyncState → SyncState) (r : Runtime) : Runtime :=
  {| ru_node := ru_node r; ru_sync := f (ru_sync r); ru_request_ids := ru_request_ids r;
     ru_sent := ru_sent r |}.
Definition upd_ru_request_ids (f : Z → Z) (r : Runtime) : Runtime :=
  {| ru_node := ru_node r; ru_sync := ru_sync r; ru_request_ids := f (ru_request_ids r);
     ru_sent := ru_sent r |}.
Definition upd_ru_sent (f : list (string * NetworkMessage) → list (string * NetworkMessage))
    (r : Runtime) : Runtime :=
  {| ru_node := ru_node r; ru_sync := ru_sync r; ru_request_ids := ru_request_ids r;
     ru_sent := f (ru_sent r) |}.
Definition upd_sy_target_height (f : Z → Z) (s : SyncState) : SyncState :=
  {| sy_active_peer := sy_active_peer s; sy_target_height := f (sy_target_height s);
     sy_pending_headers := sy_pending_headers s; sy_pending_block := sy_pending_block s;
     sy_queued_heights := sy_queued_heights s |}.
Definition upd_sy_pending_headers (f : option PendingHeadersRequest → option PendingHeadersRequest)
    (s : SyncState) : SyncState :=
  {| sy_active_peer := sy_active_peer s; sy_target_height := sy_target_height s;
     sy_pending_headers := f (sy_pending_headers s); sy_pending_block := sy_pending_block s;
     sy_queued_heights := sy_queued_heights s |}.
Definition upd_sy_pending_block (f : option PendingBlockRequest → option PendingBlockRequest)
    (s : SyncState) : SyncState :=
  {| sy_active_peer := sy_active_peer s; sy_target_height := sy_target_height s;
     sy_pending_headers := sy_pending_headers s; sy_pending_block := f (sy_pending_block s);
     sy_queued_heights := sy_queued_heights s |}.
Definition upd_sy_queued_heights (f : list Z → list Z) (s : SyncState) : SyncState :=
  {| sy_active_peer := sy_active_peer s; sy_target_height := sy_target_height s;
     sy_pending_headers := sy_pending_headers s; sy_pending_block := sy_pending_block s;
     sy_queued_heights := f (sy_queued_heights s) |}.

Module Sync.
Section sync.
Context `{HashBackend, HexEncode, ChainCodec, RevmBackend} (default_scheme : SignatureScheme)
  (config : NodeConfig) (genesis : Genesis) (consensus : ConsensusEngine)
  (scheme : SignatureScheme).
Abbreviation runtime := (eff Runtime RuntimeError).

(** ** Answers *)
(** The loop over the requested heights, which stops at the first one that is missing. *)
Fixpoint stored_headers (heights : list Z) (store : MemoryInner) : list BlockHeader :=
  match heights with
  | [] => []
  | height :: heights =>
      match Store.get_block_by_height height store with
      | Some block => bk_header (fb_block block) :: stored_headers heights store
      | None => []
      end
  end.
Definition build_sync_response (request : SyncRequest) (store : MemoryInner) : SyncResponse :=
  match request with
  | ReqHeaders start_height limit =>
      let limit := Z.min 256 (Z.max 1 limit) in
      RespHeaders (stored_headers
        (seqZ start_height (saturating_add U64_MAX start_height limit - start_height)) store)
  | ReqBlockByHeight height => RespBlock (Store.get_block_by_height height store)
  | ReqBlockByHash hash => RespBlock (Store.get_block_by_hash hash store)
  end.

(** ** Headers *)
(** The loop of [validate_header_batch] after [index] headers; [prev_hash] is compared for
    the first header as well, where it is the hash of the latest block. *)
Fixpoint check_headers (now_ms : Z) (index : nat) (prev_hash : Hash32) (expected_height : Z)
    (headers : list BlockHeader) : res RuntimeError (list Z) :=
  match headers with
  | [] => Ok []
  | header :: headers =>
      if bool_decide (bh_chain_id header ≠ nc_chain_id config)
      then Err (sync_error "sync header chain id mismatch") else
      if negb (bh_height header =? expected_height)
      then Err (sync_error "sync header range is not contiguous") else
      if Nat.eqb index 0 && bool_decide (bh_parent_hash header ≠ prev_hash)
      then Err (sync_error "sync first header parent hash mismatch") else
      if Nat.ltb 0 index && bool_decide (bh_parent_hash header ≠ prev_hash)
      then Err (sync_error ("sync header parent hash chain broken at height " +:+
                            pretty (bh_height header))) else
      if saturating_add U64_MAX now_ms 600000 <? bh_timestamp_ms header
      then Err (sync_error "sync header timestamp too far in future") else
      heights ← check_headers now_ms (S index) (hash_bytes (encode_to_vec header))
        (saturating_add U64_MAX expected_height 1) headers;
      Ok (bh_height header :: heights)
  end.
Definition latest_hash (store : MemoryInner) : Hash32 :=
  match Store.latest_block store with
  | Some block => Block_hash (fb_block block)
  | None => zero
  end.
Definition validate_header_batch (now_ms local_height : Z) (headers : list BlockHeader)
    (pending : PendingHeadersRequest) (store : MemoryInner) : res RuntimeError (list Z) :=
  match headers with
  | [] => Ok []
  | _ =>
      if ph_limit pending <? Z.of_nat (length headers)
      then Err (sync_error "sync header response exceeds requested limit") else
      check_headers now_ms 0 (latest_hash store)
        (Z.max (ph_start_height pending) (saturating_add U64_MAX local_height 1)) headers
  end.

(** ** Requests *)
Definition send_to (peer : string) (message : NetworkMessage) : runtime () :=
  r ← eff_get;
  if nd_network_up (ru_node r) then eff_modify (upd_ru_sent (λ sent, sent ++ [(peer, message)]))
  else eff_lift (Err (sync_error "network stopped")).
Definition next_request_id : runtime Z :=
  r ← eff_get;
  _ ← eff_modify (upd_ru_request_ids (λ id, wrapping U64_MAX (id + 1)));
  mret (ru_request_ids r).
(** The next request, decided under the lock and sent after it. *)
Definition continue_sync (peer : string) : runtime () :=
  r ← eff_get;
  let local_height := Provider.latest_height (nd_store (ru_node r)) in
  let sync := ru_sync r in
  if negb (bool_decide (sy_active_peer sync = Some peer)) then mret tt else
  if bool_decide (is_Some (sy_pending_headers sync)) || bool_decide (is_Some (sy_pending_block sync))
  then mret tt else
  match sy_queued_heights sync with
  | height :: rest =>
      _ ← eff_modify (upd_ru_sync (upd_sy_queued_heights (λ _, rest)));
      request_id ← next_request_id;
      _ ← eff_modify (upd_ru_sync (upd_sy_pending_block (λ _,
            Some {| pr_request_id := request_id; pr_height := height |})));
      send_to peer (MsgSyncRequest request_id (ReqBlockByHeight height))
  | [] =>
      if local_height <? sy_target_height sync then
        request_id ← next_request_id;
        let start_height := saturating_add U64_MAX local_height 1 in
        let limit := Z.min (sy_target_height sync - local_height) 32 in
        _ ← eff_modify (upd_ru_sync (upd_sy_pending_headers (λ _,
              Some {| ph_request_id := request_id; ph_start_height := start_height;
                      ph_limit := limit |})));
        send_to peer (MsgSyncRequest request_id (ReqHeaders start_height limit))
      else mret tt
  end.

(** ** Responses *)
(** The critical section for headers: [false] when the response is not awaited. *)
Definition take_headers (now_ms local_height : Z) (peer : string) (request_id : Z)
    (headers : list BlockHeader) : runtime bool :=
  r ← eff_get;
  if negb (bool_decide (sy_active_peer (ru_sync r) = Some peer)) then mret false else
  match sy_pending_headers (ru_sync r) with
  | None => mret false
  | Some pending =>
      if negb (ph_request_id pending =? request_id) then mret false else
      _ ← eff_modify (upd_ru_sync (upd_sy_pending_headers (λ _, None)));
      heights ← eff_lift (validate_header_batch now_ms local_height headers pending
        (nd_store (ru_node r)));
      _ ← eff_modify (upd_ru_sync (upd_sy_queued_heights (λ q, q ++ heights)));
      mret true
  end.
(** The critical section for a block: the height that was asked for. *)
Definition take_block (peer : string) (request_id : Z) : runtime (option Z) :=
  r ← eff_get;
  if negb (bool_decide (sy_active_peer (ru_sync r) = Some peer)) then mret None else
  match sy_pending_block (ru_sync r) with
  | None => mret None
  | Some pending =>
      if negb (pr_request_id pending =? request_id) then mret None else
      _ ← eff_modify (upd_ru_sync (upd_sy_pending_block (λ _, None)));
      mret (Some (pr_height pending))
  end.
Definition import_block (block : FinalizedBlock) : runtime () := λ r,
  let '(result, node) := Consensus.import_external_finalized_block default_scheme consensus scheme
                           block (ru_node r) in
  (map_err RuConsensus result, upd_ru_node (λ _, node) r).
Definition handle_sync_response (now_ms : Z) (peer : string) (request_id : Z)
    (response : SyncResponse) : runtime () :=
  match response with
  | RespHeaders headers =>
      r ← eff_get;
      taken ← take_headers now_ms (Provider.latest_height (nd_store (ru_node r))) peer request_id
                headers;
      if (taken : bool) then continue_sync peer else mret tt
  | RespBlock block =>
      expected ← take_block peer request_id;
      match expected with
      | None => mret tt
      | Some expected_height =>
          match block with
          | Some block =>
              if negb (bh_height (bk_header (fb_block block)) =? expected_height) then mret tt else
              _ ← import_block block;
              continue_sync peer
          | None => continue_sync peer
          end
      end
  | RespNotFound => mret tt
  end.

(** ** The tasks *)
(** [max_by_key]: the last of the largest, in the order of the map. *)
Definition best_peer (local_height : Z) (peers : list (string * PeerState)) :
    option (string * PeerState) :=
  foldl (λ best candidate, match best with
    | None => Some candidate
    | Some current =>
        if (ps_best_height candidate.2 <? ps_best_height current.2) ||
           ((ps_best_height candidate.2 =? ps_best_height current.2) &&
            (ps_score candidate.2 <? ps_score current.2))
        then best else Some candidate
    end) None (filter (λ e, local_height < ps_best_height e.2) peers).
(** One tick of the sync task; [peers] is the table in the order of its keys. *)
Definition sync_with_best_peer (peers : list (string * PeerState)) : runtime () :=
  r ← eff_get;
  match best_peer (Provider.latest_height (nd_store (ru_node r))) peers with
  | None => mret tt
  | Some (peer, state) =>
      _ ← eff_modify (upd_ru_sync (λ sync,
        if negb (bool_decide (sy_active_peer sync = Some peer))
        then {| sy_active_peer := Some peer; sy_target_height := ps_best_height state;
                sy_pending_headers := None; sy_pending_block := None; sy_queued_heights := [] |}
        else upd_sy_target_height (λ h, Z.max h (ps_best_height state)) sync));
      continue_sync peer
  end.
(** One message of the gossip task; an error ends the task. *)
Definition on_gossip (now_ms : Z) (peer : string) (message : NetworkMessage) : runtime () :=
  match message with
  | MsgTransaction tx =>
      eff_modify (upd_ru_node (upd_nd_mempool (λ pool, (Mempool.insert tx pool).2)))
  | MsgSyncRequest request_id request =>
      r ← eff_get;
      send_to peer (MsgSyncResponse request_id
        (build_sync_response request (nd_store (ru_node r))))
  | MsgPing nonce => send_to peer (MsgPong nonce)
  | MsgSyncResponse request_id response => handle_sync_response now_ms peer request_id response
  | MsgHandshake _ | MsgProposal _ | MsgVote _ | MsgCommit _ | MsgStatus _ | MsgPong _ => mret tt
  end.
(** One tick of the status task. *)
Definition on_status_tick (peers : list string) : runtime () :=
  r ← eff_get;
  let status := Provider.current_chain_status config genesis peers (nd_store (ru_node r)) in
  if nd_network_up (ru_node r)
  then eff_modify (upd_ru_node (upd_nd_outbox (λ o, o ++ [MsgStatus status])))
  else eff_lift (Err (sync_error "network stopped")).
End sync.
End Sync.

(** ** Header batches *)
Lemma bool_decide_ne_false {A} `{EqDecision A} (x y : A) : bool_decide (x ≠ y) = false ↔ x = y.
Proof. rewrite bool_decide_eq_false. split; [apply dec_stable|intros -> Hn; by apply Hn]. Qed.
Section headers.
Context `{HashBackend, ChainCodec} (config : NodeConfig).

(** The heights from [a] on, as the counter of the loop saturates. *)
Definition heights_from (a : Z) (n : nat) : list Z := Z.min U64_MAX <$> seqZ a (Z.of_nat n).
Lemma heights_from_S a n :
  a ≤ U64_MAX → heights_from a (S n) = a :: heights_from (saturating_add U64_MAX a 1) n.
Proof.
  intros Ha. unfold heights_from, saturating_add. rewrite Nat2Z.inj_succ, seqZ_cons by lia. cbn [fmap list_fmap].
  f_equal; [lia|]. replace (Z.pred (Z.succ (Z.of_nat n))) with (Z.of_nat n) by lia.
  apply list_eq. intros i. rewrite !list_lookup_fmap. destruct (decide (i < n)%nat) as [Hi|Hi].
  - rewrite !lookup_seqZ_lt by lia. cbn. f_equal. lia.
  - rewrite !lookup_seqZ_ge by lia. done.
Qed.

(** What the headers of an accepted batch satisfy: chain, height, link and time. *)
Record header_ok (now_ms expected : Z) (prev_hash : Hash32) (header : BlockHeader) : Prop := {
  hk_chain : bh_chain_id header = nc_chain_id config;
  hk_height : bh_height header = expected;
  hk_parent : bh_parent_hash header = prev_hash;
  hk_time : bh_timestamp_ms header ≤ saturating_add U64_MAX now_ms 600000
}.
(** The hash that header [i] must name as its parent. *)
Definition link (prev_hash : Hash32) (headers : list BlockHeader) (i : nat) : Hash32 :=
  match i with
  | O => prev_hash
  | S i => match headers !! i with
           | Some header => hash_bytes (encode_to_vec header)
           | None => zero
           end
  end.
Definition batch_ok (now_ms expected : Z) (prev_hash : Hash32) (headers : list BlockHeader) : Prop :=
  ∀ i header, headers !! i = Some header →
    header_ok now_ms (Z.min U64_MAX (expected + Z.of_nat i)) (link prev_hash headers i) header.
Lemma batch_ok_cons now_ms expected prev_hash header headers :
  expected ≤ U64_MAX →
  batch_ok now_ms expected prev_hash (header :: headers) ↔
  header_ok now_ms expected prev_hash header ∧
  batch_ok now_ms (saturating_add U64_MAX expected 1) (hash_bytes (encode_to_vec header)) headers.
Proof.
  intros He. unfold batch_ok, saturating_add. split.
  - intros Hb. split.
    + specialize (Hb 0%nat header eq_refl). cbn [link] in Hb. by rewrite Z.add_0_r, Z.min_r in Hb by lia.
    + intros i h Hi. specialize (Hb (S i) h Hi). 
      replace (Z.min U64_MAX (Z.min U64_MAX (expected + 1) + Z.of_nat i)) with
        (Z.min U64_MAX (expected + Z.of_nat (S i))) by lia.
      destruct i; exact Hb.
  - intros [Hh Hb] [|i] h Hi.
    + injection Hi as <-. by rewrite Z.add_0_r, Z.min_r by lia.
    + specialize (Hb i h Hi).
      replace (Z.min U64_MAX (Z.min U64_MAX (expected + 1) + Z.of_nat i)) with
        (Z.min U64_MAX (expected + Z.of_nat (S i))) in Hb by lia.
      destruct i; exact Hb.
Qed.
Lemma check_headers_spec now_ms index prev_hash expected headers heights :
  expected ≤ U64_MAX →
  Sync.check_headers config now_ms index prev_hash expected headers = Ok heights ↔
  heights = heights_from expected (length headers) ∧ batch_ok now_ms expected prev_hash headers.
Proof.
  revert index prev_hash expected heights. induction headers as [|header headers IH];
    intros index prev_hash expected heights He.
  { cbn. split; [intros [= <-]; split; [done|by intros i h]|by intros [-> _]]. }
  cbn [length]. rewrite heights_from_S, batch_ok_cons by done. cbn [Sync.check_headers].
  rewrite guard_ok, bool_decide_ne_false.
  rewrite guard_ok, negb_false_iff, Z.eqb_eq.
  rewrite !guard_ok, Z.ltb_ge.
  assert ((Nat.eqb index 0 && bool_decide (bh_parent_hash header ≠ prev_hash) = false ∧
           Nat.ltb 0 index && bool_decide (bh_parent_hash header ≠ prev_hash) = false) ↔
    bh_parent_hash header = prev_hash) as Hp.
  { destruct index; cbn [Nat.eqb Nat.ltb Nat.leb andb]; rewrite bool_decide_ne_false; tauto. }
  split.
  - intros (Hc & Hh & Hp0 & Hp1 & Ht & Hrun). apply res_bind_inv_ok in Hrun as (rest & Hrest & [= <-]).
    apply IH in Hrest as [-> Hb]; [|unfold saturating_add; lia].
    rewrite Hh. split; [done|]. split; [|done]. split; [done|done|by apply Hp|done].
  - intros [-> [[Hc Hh Hpar Ht] Hb]]. apply Hp in Hpar as [Hp0 Hp1]. split_and!; try done.
    assert (saturating_add U64_MAX expected 1 ≤ U64_MAX) as He' by (unfold saturating_add; lia).
    rewrite (proj2 (IH (S index) _ _ _ He') (conj eq_refl Hb)). cbn. by rewrite Hh.
Qed.
(** A batch of headers is accepted exactly when it is empty, or no longer than asked
    for, for this chain, contiguous from the next height, linked from the latest local
    block on, and not from the far future; what is queued are its heights, in order. *)
Lemma header_batch_exact now_ms local_height headers pending store heights :
  ph_start_height pending ≤ U64_MAX →
  let first := Z.max (ph_start_height pending) (saturating_add U64_MAX local_height 1) in
  Sync.validate_header_batch config now_ms local_height headers pending store = Ok heights ↔
  heights = heights_from first (length headers) ∧
  (headers = [] ∨
   (Z.of_nat (length headers) ≤ ph_limit pending ∧
    batch_ok now_ms first (Sync.latest_hash store) headers)).
Proof.
  intros Hs first. unfold Sync.validate_header_batch. destruct headers as [|header headers].
  { split; [intros [= <-]; split; [done|by left]|by intros [-> _]]. }
  assert (first ≤ U64_MAX) as Hf by (unfold first, saturating_add; lia).
  rewrite guard_ok, Z.ltb_ge, check_headers_spec by done. fold first. split.
  - intros (Hlen & -> & Hb). split; [done|]. by right.
  - intros [-> [|[Hlen Hb]]]; done.
Qed.
(** The links of a batch are hashes of headers, but a header names the hash of its parent's
    whole block; so an honest answer with two headers or more is accepted only if the digests
    of a block and of its header agree. *)
Lemma honest_batch_rejected now_ms local_height start limit pending store remote headers heights :
  ph_start_height pending ≤ U64_MAX →
  (∀ h b b', Store.get_block_by_height h remote = Some b →
     Store.get_block_by_height (h + 1) remote = Some b' →
     bh_parent_hash (bk_header (fb_block b')) = Block_hash (fb_block b)) →
  Sync.build_sync_response (ReqHeaders start limit) remote = RespHeaders headers →
  (2 ≤ length headers)%nat →
  Sync.validate_header_batch config now_ms local_height headers pending store = Ok heights →
  ∃ b, Store.get_block_by_height start remote = Some b ∧
    Block_hash (fb_block b) = hash_bytes (encode_to_vec (bk_header (fb_block b))).
Proof.
  intros Hp Hlinked Hr Hlen Hv. cbn [Sync.build_sync_response] in Hr. injection Hr as Hr.
  assert (∃ b1 b2, Store.get_block_by_height start remote = Some b1 ∧
    Store.get_block_by_height (start + 1) remote = Some b2 ∧
    headers !! 0%nat = Some (bk_header (fb_block b1)) ∧
    headers !! 1%nat = Some (bk_header (fb_block b2))) as (b1 & b2 & Hb1 & Hb2 & H1' & H2').
  { set (n := _ - start) in Hr. destruct (decide (0 < n)) as [Hn|Hn]; [|rewrite seqZ_nil in Hr by lia; subst; cbn in Hlen; lia].
    rewrite seqZ_cons in Hr by lia. cbn [Sync.stored_headers] in Hr.
    destruct (Store.get_block_by_height start remote) as [b1|] eqn:E1; [|subst; cbn in Hlen; lia].
    destruct (decide (0 < Z.pred n)) as [Hn2|Hn2]; [|rewrite seqZ_nil in Hr by lia; subst; cbn in Hlen; lia].
    rewrite seqZ_cons in Hr by lia. cbn [Sync.stored_headers] in Hr. rewrite <-Z.add_1_r in Hr.
    destruct (Store.get_block_by_height (start + 1) remote) as [b2|] eqn:E2; [|subst; cbn in Hlen; lia].
    exists b1, b2. by subst. }
  exists b1. split; [done|]. destruct headers as [|h1 headers]; [done|].
  unfold Sync.validate_header_batch in Hv.
  apply guard_ok in Hv as [_ Hv]. apply check_headers_spec in Hv as [_ Hb];
    [|unfold saturating_add; lia].
  destruct (Hb 1%nat _ H2') as [_ _ Hpar _]. cbn [link] in Hpar. rewrite H1' in Hpar.
  by rewrite <-(Hlinked _ _ _ Hb1 Hb2).
Qed.
End headers.

(** ** The state of the download *)
Section machine.
Context `{HashBackend, HexEncode, ChainCodec, RevmBackend} (default_scheme : SignatureScheme)
  (config : NodeConfig) (genesis : Genesis) (consensus : ConsensusEngine)
  (scheme : SignatureScheme).

(** At most one request is pending; headers are asked for when nothing is queued, and at
    most 32 at a time; the queue, after the block that is asked for, is contiguous. *)
Record sync_ok (s : SyncState) : Prop := {
  so_headers p : sy_pending_headers s = Some p →
    sy_pending_block s = None ∧ sy_queued_heights s = [] ∧ 1 ≤ ph_limit p ≤ 32 ∧
    ph_start_height p ≤ U64_MAX;
  so_queue : ∃ a n, a ≤ U64_MAX ∧ (n ≤ 32)%nat ∧ sy_queued_heights s = heights_from a n;
  so_block p : sy_pending_block s = Some p →
    ∃ n, (n ≤ 32)%nat ∧ pr_height p ≤ U64_MAX ∧
      pr_height p :: sy_queued_heights s = heights_from (pr_height p) n
}.
Definition runtime_ok (r : Runtime) : Prop := sync_ok (ru_sync r).

Lemma fresh_ok peer target :
  sync_ok {| sy_active_peer := peer; sy_target_height := target; sy_pending_headers := None;
             sy_pending_block := None; sy_queued_heights := [] |}.
Proof. split; cbn; try done. exists 0, 0%nat. split_and!; [lia|lia|done]. Qed.
Lemma wp_send_to peer message r (P : Runtime → Prop) :
  (∀ sent, P (upd_ru_sent (λ _, sent) r)) → P r →
  keeps (Sync.send_to peer message : eff Runtime RuntimeError ()) r P.
Proof.
  intros HP Hr. unfold Sync.send_to. do 2 wp_step. destruct (nd_network_up (ru_node r)); wp_step; [|done|done].
  apply (HP (ru_sent r ++ [(peer, message)])).
Qed.
Lemma heights_from_tail a n height rest :
  a ≤ U64_MAX → height :: rest = heights_from a n →
  ∃ m, n = S m ∧ height = a ∧ rest = heights_from (saturating_add U64_MAX a 1) m.
Proof.
  intros Ha E. destruct n as [|m]; [done|]. rewrite heights_from_S in E by done.
  injection E as -> ->. by exists m.
Qed.
Lemma continue_sync_ok peer r :
  runtime_ok r → keeps (Sync.continue_sync peer : eff Runtime RuntimeError ()) r runtime_ok.
Proof.
  intros Hr. unfold Sync.continue_sync. do 2 wp_step. cbv zeta.
  destruct (negb _); [by wp_step|].
  destruct (bool_decide (is_Some (sy_pending_headers (ru_sync r)))) eqn:Eh; [cbn [orb]; by wp_step|].
  destruct (bool_decide (is_Some (sy_pending_block (ru_sync r)))) eqn:Eb;
    cbn [orb]; [by wp_step|].
  apply bool_decide_eq_false, eq_None_not_Some in Eh. apply bool_decide_eq_false, eq_None_not_Some in Eb.
  pose proof (so_queue _ Hr) as (a & n & Ha & Hn & Hq).
  destruct (sy_queued_heights (ru_sync r)) as [|height rest] eqn:Eq.
  - destruct (Z.ltb_spec (Provider.latest_height (nd_store (ru_node r))) (sy_target_height (ru_sync r)));
      [|by wp_step].
    unfold Sync.next_request_id. repeat wp_step. apply wp_send_to.
    all: unfold runtime_ok; cbn; try intros sent; split; cbn; rewrite ?Eb, ?Eq; try done;
      [intros p [= <-]; cbn; unfold saturating_add; split_and!; try done; lia
      | by exists a, n].
  - apply heights_from_tail in Hq as (m & -> & -> & ->); [|done].
    unfold Sync.next_request_id. repeat wp_step. apply wp_send_to.
    all: unfold runtime_ok; cbn; try intros sent; split; cbn; rewrite ?Eh; try done;
      [exists (saturating_add U64_MAX a 1), m; unfold saturating_add; split_and!; [lia|lia|done]
      | intros p [= <-]; cbn; exists (S m); split_and!; [lia|done|by rewrite heights_from_S]].
Qed.
Lemma take_headers_ok now_ms local peer id headers r :
  runtime_ok r →
  keeps (Sync.take_headers config now_ms local peer id headers : eff Runtime RuntimeError bool) r
    (λ r', runtime_ok r' ∧ ru_node r' = ru_node r).
Proof.
  intros Hr. unfold Sync.take_headers. do 2 wp_step. destruct (negb _); [by wp_step|].
  destruct (sy_pending_headers (ru_sync r)) as [p|] eqn:Ep; [|by wp_step].
  destruct (negb _); [by wp_step|].
  destruct (so_headers _ Hr p Ep) as (Hb & Hq & Hlim & Hst).
  assert (sync_ok (upd_sy_pending_headers (λ _, None) (ru_sync r))) as Hok.
  { split; cbn; rewrite ?Hb, ?Hq; try done. exists 0, 0%nat. by split_and!; [lia|lia|]. }
  do 4 wp_step; [|done]. repeat wp_step. split; [|done]. unfold runtime_ok. cbn. split; cbn; try done.
  - rewrite Hq. rename select (Sync.validate_header_batch _ _ _ _ _ _ = _) into Hv.
    cbn [app]. unfold Sync.validate_header_batch in Hv. destruct headers as [|h hs].
    + injection Hv as <-. exists 0, 0%nat. by split_and!; [lia|lia|].
    + apply guard_ok in Hv as [Hlen Hv]. apply Z.ltb_ge in Hlen.
      assert (Z.max (ph_start_height p) (saturating_add U64_MAX local 1) ≤ U64_MAX) as Hmax
        by (unfold saturating_add; lia).
      apply check_headers_spec in Hv as [-> _]; [|exact Hmax].
      eexists _, (length (h :: hs)). split_and!; [exact Hmax| |done]. lia.
  - by rewrite Hb.
Qed.
Lemma take_block_ok peer id r :
  runtime_ok r →
  keeps (Sync.take_block peer id : eff Runtime RuntimeError (option Z)) r
    (λ r', runtime_ok r' ∧ ru_node r' = ru_node r).
Proof.
  intros Hr. unfold Sync.take_block. do 2 wp_step. destruct (negb _); [by wp_step|].
  destruct (sy_pending_block (ru_sync r)) as [p|] eqn:Ep; [|by wp_step].
  destruct (negb _); [by wp_step|]. repeat wp_step. split; [|done]. unfold runtime_ok. cbn.
  destruct Hr as [Hh Hq Hb]. split; cbn; try done.
  intros q Eq. by destruct (Hh q Eq) as (? & _); simplify_eq.
Qed.
Lemma import_block_sync block r :
  keeps (Sync.import_block default_scheme consensus scheme block) r (λ r', ru_sync r' = ru_sync r).
Proof. apply keeps_run. unfold Sync.import_block. by destruct (Consensus.import_external_finalized_block _ _ _ _ _). Qed.
Lemma handle_sync_response_ok now_ms peer id response r :
  runtime_ok r →
  keeps (Sync.handle_sync_response default_scheme config consensus scheme now_ms peer id response) r
    runtime_ok.
Proof.
  intros Hr. destruct response as [headers|block|]; cbn [Sync.handle_sync_response]; [| |by wp_step].
  - do 2 wp_step. wp_step. eapply wp_mono; [by apply take_headers_ok| |by intros ? []].
    intros taken r' [Hr' _]. destruct taken; [by apply continue_sync_ok|by wp_step].
  - wp_step. eapply wp_mono; [by apply take_block_ok| |by intros ? []].
    intros expected r' [Hr' _]. destruct expected as [height|]; [|by wp_step].
    destruct block as [block|]; [|by apply continue_sync_ok]. destruct (negb _); [by wp_step|].
    wp_step. eapply wp_mono; [apply import_block_sync| |].
    + intros [] r2 Heq. apply continue_sync_ok. unfold runtime_ok. by rewrite Heq.
    + intros r2 Heq. unfold runtime_ok. by rewrite Heq.
Qed.
Lemma sync_with_best_peer_ok peers r :
  runtime_ok r → keeps (Sync.sync_with_best_peer peers : eff Runtime RuntimeError ()) r runtime_ok.
Proof.
  intros Hr. unfold Sync.sync_with_best_peer. do 2 wp_step.
  destruct (Sync.best_peer _ _) as [[peer state]|]; [|by wp_step].
  do 2 wp_step. apply continue_sync_ok. unfold runtime_ok. cbn.
  destruct (negb _); [apply fresh_ok|]. destruct Hr as [Hh Hq Hb]. by split.
Qed.
(** What the tasks of the node do to the download. *)
Inductive runtime_step : Runtime → Runtime → Prop :=
  | step_gossip now_ms peer message r :
      runtime_step r (Sync.on_gossip default_scheme config consensus scheme now_ms peer message r).2
  | step_tick peers r : runtime_step r (Sync.sync_with_best_peer peers r : res RuntimeError () * Runtime).2
  | step_node node r : runtime_step r (upd_ru_node (λ _, node) r).
Definition idle (node : Node) : Runtime :=
  {| ru_node := node; ru_sync := SyncState_default; ru_request_ids := 1; ru_sent := [] |}.
(** C21: whatever messages, ticks and consensus steps arrive, in any order and with any
    errors: at most one request is pending; headers are requested only with an empty queue
    and for 1 to 32 heights; and the heights still to be fetched, the one requested first,
    are at most 32 consecutive ones. *)
Theorem sync_invariant node r :
  rtc runtime_step (idle node) r → sync_ok (ru_sync r).
Proof.
  intros Hr. assert (runtime_ok (idle node)) as Hi by apply fresh_ok. revert Hi. generalize (idle node), r, Hr.
  clear. intros r0 r Hr. induction Hr as [|r1 r2 r3 Hst _ IH]; [done|]. intros Hi. apply IH.
  destruct Hst as [now_ms peer message r|peers r|node r]; [| |exact Hi].
  - apply keeps_run. destruct message; cbn [Sync.on_gossip]; try by wp_step.
    + do 2 wp_step. by apply wp_send_to.
    + by apply handle_sync_response_ok.
    + by apply wp_send_to.
  - apply keeps_run. by apply sync_with_best_peer_ok.
Qed.
(** An answer that was not asked for, from another peer, with another id, or when
    nothing is awaited, changes nothing at all. *)
Lemma unsolicited_response_ignored now_ms peer id response r :
  match response with
  | RespHeaders _ => sy_active_peer (ru_sync r) ≠ Some peer ∨
      ∀ p, sy_pending_headers (ru_sync r) = Some p → ph_request_id p ≠ id
  | RespBlock _ => sy_active_peer (ru_sync r) ≠ Some peer ∨
      ∀ p, sy_pending_block (ru_sync r) = Some p → pr_request_id p ≠ id
  | RespNotFound => True
  end →
  Sync.handle_sync_response default_scheme config consensus scheme now_ms peer id response r = (Ok tt, r).
Proof.
  intros Hun. destruct response as [headers|block|]; [| |done];
    cbn [Sync.handle_sync_response]; unfold Sync.take_headers, Sync.take_block, mbind, eff_bind, eff_get.
  - destruct (bool_decide_reflect (sy_active_peer (ru_sync r) = Some peer)) as [Ha|Ha]; [|done].
    cbn [negb]. destruct (sy_pending_headers (ru_sync r)) as [p|]; [|done].
    destruct Hun as [Hun|Hun]; [done|]. specialize (Hun p eq_refl). by rewrite (proj2 (Z.eqb_neq _ _) Hun).
  - destruct (bool_decide_reflect (sy_active_peer (ru_sync r) = Some peer)) as [Ha|Ha]; [|done].
    cbn [negb]. destruct (sy_pending_block (ru_sync r)) as [p|]; [|done].
    destruct Hun as [Hun|Hun]; [done|]. specialize (Hun p eq_refl). by rewrite (proj2 (Z.eqb_neq _ _) Hun).
Qed.
(** A request that is never answered ends the download from that peer: while the peer stays
    the best one, no tick sends anything again. *)
Lemma lost_answer_stalls peer state peers r :
  Sync.best_peer (Provider.latest_height (nd_store (ru_node r))) peers = Some (peer, state) →
  sy_active_peer (ru_sync r) = Some peer →
  is_Some (sy_pending_headers (ru_sync r)) ∨ is_Some (sy_pending_block (ru_sync r)) →
  (Sync.sync_with_best_peer peers r : res RuntimeError () * Runtime) =
  (Ok tt, upd_ru_sync (upd_sy_target_height (λ h, Z.max h (ps_best_height state))) r).
Proof.
  intros Hb Ha Hp. unfold Sync.sync_with_best_peer, Sync.continue_sync, mbind, eff_bind, eff_get, eff_modify.
  rewrite Hb. unfold upd_ru_sync. cbn [ru_sync].
  rewrite (bool_decide_true (sy_active_peer (ru_sync r) = Some peer)) by done. cbn.
  rewrite bool_decide_true by done. cbn [negb].
  destruct Hp as [Hp|Hp].
  - by rewrite (bool_decide_true (is_Some (sy_pending_headers (ru_sync r)))) by done.
  - rewrite (bool_decide_true (is_Some (sy_pending_block (ru_sync r)))) by done. by rewrite orb_true_r.
Qed.
End machine.
