(* ===== verification/SyncProgress.v ===== *)
(** Synchronisation makes progress: the import of a valid external block succeeds, on any
    store and whatever its transactions are, and one round of the download brings a node that
    is one block behind to the height of its peer. *)

From S2P Require Import Prelude Wp Types Codec Hash Crypto Wire Primitives Storage Smt Staking.
From S2P Require Import Mempool Zk Evm Execution Rounds Consensus ConsensusProgress Network Setup.
From S2P Require Import Bootstrap Provider Sync.
Open Scope Z_scope.

(** ** Execution does not look at the consensus log *)

(** A computation that commutes with a change [g] of the state. *)
Definition commutes {T E A} (g : T → T) (m : eff T E A) : Prop :=
  ∀ s, m (g s) = let '(r, s') := m s in (r, g s').
Lemma commutes_ret {T E A} g (r : res E A) : commutes g (λ s : T, (r, s)).
Proof. by intros s. Qed.
Lemma commutes_bind {T E A B} g (m : eff T E A) (f : A → eff T E B) :
  commutes g m → (∀ a, commutes g (f a)) → commutes g (m ≫= f).
Proof.
  intros Hm Hf s. unfold mbind, eff_bind. rewrite Hm.
  destruct (m s) as [[a|e|] s']; [apply Hf|done..].
Qed.

(** What is read of the state is not what [g] changes. *)
Lemma commutes_get {T E B} g (f : T → eff T E B) :
  (∀ s, f (g s) = f s) → (∀ s, commutes g (f s)) → commutes g (eff_get ≫= f).
Proof. intros Hg Hf s. unfold mbind, eff_bind, eff_get. rewrite Hg. apply Hf. Qed.
Lemma commutes_err_into {T E F A} g (h : E → F) (m : eff T E A) :
  commutes g m → commutes g (Execution.err_into h m).
Proof. intros Hm s. unfold Execution.err_into. rewrite Hm. by destruct (m s). Qed.

Section unlogged.
Context `{HashBackend, HexEncode, ChainCodec, RevmBackend} (default_scheme : SignatureScheme)
  (self : ExecutionEngine) (scheme : SignatureScheme)
  (log : list ConsensusWalEntry → list ConsensusWalEntry).
Abbreviation relog := (upd_consensus_wal log).
Definition relog2 (p : MemoryInner * Smt.StateSnapshot) : MemoryInner * Smt.StateSnapshot :=
  (relog p.1, p.2).
Ltac commute := repeat first [apply commutes_ret | apply commutes_bind; [|intros ?]
  | by intros ? | by intros []].

Lemma persist_accounts_unlogged db accounts : commutes relog (Evm.persist_accounts db accounts).
Proof.
  induction accounts as [|[a acc] l IH]; [commute|]. cbn [Evm.persist_accounts].
  case_match; [commute|]. apply commutes_bind; [commute | intros; exact IH].
Qed.
Lemma interpret_unlogged machine caller tx : commutes relog (Evm.interpret machine caller tx).
Proof.
  apply commutes_get; [done|]. intros s. apply commutes_bind; [commute|]. intros db.
  apply commutes_bind; [commute|]. intros [c db1].
  apply commutes_bind; [commute|]. intros [result db2].
  apply commutes_bind; [apply persist_accounts_unlogged|commute].
Qed.
Lemma execute_unlogged machine caller tx : commutes relog (Evm.execute default_scheme machine caller tx).
Proof.
  unfold Evm.execute. destruct (ev_kind tx) as [code|contract input]; [apply interpret_unlogged|].
  destruct (Evm.precompile _ _ _); [commute | apply interpret_unlogged].
Qed.
Lemma apply_transaction_unlogged height tx :
  commutes relog2 (Execution.apply_transaction default_scheme self scheme height tx).
Proof.
  apply commutes_get; [by intros []|]. intros [s st].
  do 5 (apply commutes_bind; [commute|intros ?]).
  apply commutes_bind; [|commute]. destruct (tb_evm (tx_body tx)) as [evm_tx|]; [|commute].
  apply commutes_bind; [commute|]. intros id [s1 st1]. unfold relog2, Execution.on_store. cbn [fst snd].
  rewrite execute_unlogged. by destruct (Evm.execute _ _ _ _ _).
Qed.
Lemma apply_transactions_unlogged height txs fees rcs :
  commutes relog2 (Execution.apply_transactions default_scheme self scheme height txs fees rcs).
Proof.
  revert fees rcs. induction txs as [|tx txs IH]; intros; [commute|].
  apply commutes_bind; [apply apply_transaction_unlogged | intros; apply IH].
Qed.
Lemma run_block_unlogged height proposer txs :
  commutes relog2 (Execution.run_block default_scheme self scheme height proposer txs).
Proof.
  apply commutes_bind; [apply apply_transactions_unlogged|]. intros [fees rcs].
  apply commutes_bind; [|commute]. apply commutes_err_into.
  apply commutes_get; [by intros []|]. intros [s st].
  destruct (en_economics self); [|commute]. do 2 (apply commutes_bind; [commute|intros ?]).
  apply commutes_bind; [commute|]. intros [[staking governance] transition]. commute.
Qed.
Lemma prepare_block_unlogged block :
  commutes relog (Execution.prepare_block default_scheme self scheme block).
Proof.
  apply commutes_bind; [commute|]. intros []. apply commutes_get; [done|]. intros s.
  case_bool_decide; [commute|]. apply commutes_bind.
  - intros s1. unfold Execution.on_snapshot.
    change (relog s1, Smt.load (relog s1)) with (relog2 (s1, Smt.load s1)).
    rewrite run_block_unlogged. by destruct (Execution.run_block _ _ _ _ _ _ _) as [? []].
  - intros [[[rcs fees] acc] st]. by repeat case_bool_decide.
Qed.
End unlogged.

(** ** The import of an external block *)
Section import.
Context `{HashBackend, HexEncode, ChainCodec, RevmBackend} (default_scheme : SignatureScheme)
  (self : ConsensusEngine) (scheme : SignatureScheme).
Abbreviation height_of finalized := (bh_height (bk_header (fb_block finalized))).

(** A finalized block that a node can take as it is: its certificate is not of an earlier
    height than the node's and passes the validation, and the block prepares on the node's
    store with the receipts and the epoch transition that come with it. *)
Record importable (n : Node) (finalized : FinalizedBlock) (pb : PreparedBlock) : Prop := {
  im_height : rs_height (nd_state n) ≤ cc_height (fb_certificate finalized);
  im_certificate : Consensus.validate_commit_certificate self scheme (fb_block finalized)
    (fb_certificate finalized) (nd_store n) = Ok ();
  im_prepared : (Execution.prepare_block default_scheme (ce_execution self) scheme
    (fb_block finalized) (nd_store n)).1 = Ok pb;
  im_receipts : pb_receipts pb = fb_receipts finalized;
  im_transition : aa_epoch_transition (pb_accounting pb) = fb_epoch_transition finalized
}.
(** What the import leaves. *)
Record imported (n n' : Node) (finalized : FinalizedBlock) (pb : PreparedBlock) : Prop := {
  id_state : nd_state n' = Consensus.clear_locks (Consensus.clear_round
    (wrapping U64_MAX (height_of finalized + 1)) 0 (nd_state n));
  id_blocks : ms_blocks_by_height (nd_store n') =
    <[height_of finalized := finalized]> (ms_blocks_by_height (nd_store n));
  id_accounts : Store.accounts (nd_store n') = pb_state pb;
  id_pool : nd_mempool n' =
    Mempool.remove_committed (bk_transactions (fb_block finalized)) (nd_mempool n);
  id_outbox : nd_outbox n' = nd_outbox n;
  id_network : nd_network_up n' = nd_network_up n
}.

Lemma persist_accounting_blocks pb s :
  ms_blocks_by_height (Execution.persist_accounting pb s) = ms_blocks_by_height s.
Proof.
  unfold Execution.persist_accounting, Smt.persist. rewrite foldl_put_accounts_eq.
  by destruct (aa_staking _), (aa_governance _), (aa_epoch_transition _).
Qed.
Lemma validate_and_commit_run finalized pb log s s1 :
  Execution.prepare_block default_scheme (ce_execution self) scheme (fb_block finalized) s = (Ok pb, s1) →
  pb_receipts pb = fb_receipts finalized →
  aa_epoch_transition (pb_accounting pb) = fb_epoch_transition finalized →
  ∃ s2, Execution.validate_and_commit_finalized_block default_scheme (ce_execution self) scheme
      finalized (upd_consensus_wal log s) = (Ok tt, s2) ∧
    ms_blocks_by_height s2 = <[height_of finalized := finalized]> (ms_blocks_by_height s) ∧
    Store.accounts s2 = pb_state pb.
Proof.
  intros Hp Hr Ht. pose proof (prepare_block_frame default_scheme (ce_execution self) scheme
    (fb_block finalized) s) as [m Hm]. rewrite Hp in Hm. cbn in Hm. subst s1.
  pose proof (prepare_block_dom _ _ _ _ _ _ _ Hp) as Hd.
  set (s2 := Execution.persist_accounting pb (Execution.commit_finalized_block finalized (pb_state pb)
    (upd_consensus_wal log (upd_evm_accounts (λ _, m) s)))).
  exists s2. split_and!.
  - unfold Execution.validate_and_commit_finalized_block, mbind, eff_bind.
    rewrite (prepare_block_unlogged default_scheme (ce_execution self) scheme log), Hp.
    rewrite !bool_decide_false by (by intros []). done.
  - unfold s2. rewrite persist_accounting_blocks. unfold Execution.commit_finalized_block.
    by rewrite atomic_commit_blocks.
  - by eapply cm_accounts, commit_committed.
Qed.
Lemma import_run n finalized pb :
  importable n finalized pb →
  ∃ n', Consensus.import_external_finalized_block default_scheme self scheme finalized n = (Ok tt, n') ∧
    imported n n' finalized pb.
Proof.
  intros [Hh Hc Hp Hr Ht].
  destruct (Execution.prepare_block _ _ _ _ (nd_store n)) as [r s1] eqn:E. cbn in Hp. subst r.
  destruct (validate_and_commit_run finalized pb (λ wal, wal ++ [CommitFinalized
    (cc_height (fb_certificate finalized)) (cc_round (fb_certificate finalized))
    (cc_block_hash (fb_certificate finalized))]) _ _ E Hr Ht) as (s2 & Hrun & Hb & Ha).
  unfold Consensus.import_external_finalized_block, mbind, eff_bind, Consensus.get_state,
    Consensus.get_store, eff_lift. rewrite (proj2 (Z.ltb_ge _ _) Hh), Hc. cbn iota beta.
  unfold Consensus.append_wal, Consensus.modify_store, Consensus.on_store, Execution.err_into,
    Store.append_consensus_wal, eff_modify. cbn [nd_store upd_nd_store].
  rewrite Hrun. eexists. split; [reflexivity|]. split; try done.
Qed.

(** A block that is not importable changes nothing but the consensus log, which is written
    before the block is prepared, and the EVM accounts. *)
Record refused (n n' : Node) : Prop := {
  rf_state : nd_state n' = nd_state n;
  rf_store : ∃ log accounts, nd_store n' =
    upd_evm_accounts (λ _, accounts) (upd_consensus_wal log (nd_store n));
  rf_pool : nd_mempool n' = nd_mempool n;
  rf_outbox : nd_outbox n' = nd_outbox n
}.
Lemma validate_and_commit_refused finalized s r s2 :
  Execution.validate_and_commit_finalized_block default_scheme (ce_execution self) scheme finalized s =
    (r, s2) →
  is_ok r = false → evm_frame s s2.
Proof.
  pose proof (prepare_block_frame default_scheme (ce_execution self) scheme (fb_block finalized) s) as Hf.
  unfold Execution.validate_and_commit_finalized_block, mbind, eff_bind.
  destruct (Execution.prepare_block _ _ _ _ _) as [[pb|e|] s1]; cbn [snd] in Hf;
    [|by intros [= <- <-]..].
  unfold eff_lift, eff_modify. repeat case_bool_decide; by intros [= <- <-].
Qed.
Lemma validate_and_commit_inv finalized log s s2 :
  Execution.validate_and_commit_finalized_block default_scheme (ce_execution self) scheme finalized
    (upd_consensus_wal log s) = (Ok tt, s2) →
  ∃ pb, (Execution.prepare_block default_scheme (ce_execution self) scheme (fb_block finalized) s).1 =
      Ok pb ∧ pb_receipts pb = fb_receipts finalized ∧
    aa_epoch_transition (pb_accounting pb) = fb_epoch_transition finalized.
Proof.
  unfold Execution.validate_and_commit_finalized_block, mbind, eff_bind.
  rewrite (prepare_block_unlogged default_scheme (ce_execution self) scheme log).
  destruct (Execution.prepare_block _ _ _ _ _) as [[pb|e|] s1]; [|done..].
  unfold eff_lift. repeat case_bool_decide; try done. intros _. by exists pb.
Qed.
Lemma import_refused n finalized :
  rs_height (nd_state n) ≤ cc_height (fb_certificate finalized) →
  (∀ pb, ¬ importable n finalized pb) →
  let run := Consensus.import_external_finalized_block default_scheme self scheme finalized n in
  is_ok run.1 = false ∧ refused n run.2.
Proof.
  intros Hh Hno. unfold Consensus.import_external_finalized_block, mbind, eff_bind,
    Consensus.get_state, Consensus.get_store, eff_lift. rewrite (proj2 (Z.ltb_ge _ _) Hh). cbn iota beta.
  destruct (Consensus.validate_commit_certificate _ _ _ _ _) as [[]|e|] eqn:Hc.
  2,3: split; [done|]; split; [done| |done..].
  2,3: exists id, (ms_evm_accounts (nd_store n)); by destruct n as [? [] ? ? ?].
  unfold Consensus.append_wal, Consensus.modify_store, Consensus.on_store, Execution.err_into,
    Store.append_consensus_wal, eff_modify. cbn [nd_store upd_nd_store].
  destruct (Execution.validate_and_commit_finalized_block _ _ _ _ _) as [r s2] eqn:E.
  destruct r as [[]|e|]; cbn [map_err].
  { apply validate_and_commit_inv in E as (pb & Hp & Hr & Ht). by destruct (Hno pb). }
  all: apply validate_and_commit_refused in E as [m ->]; [|done]; split; [done|]; split; [done| |done..]; by eexists _, m.
Qed.

(** The highest block of a store that holds every block under its height. *)
Lemma latest_after_insert s s' finalized :
  map_Forall (λ k b, height_of b = k) (ms_blocks_by_height s) →
  Provider.latest_height s < height_of finalized →
  ms_blocks_by_height s' = <[height_of finalized := finalized]> (ms_blocks_by_height s) →
  Provider.latest_height s' = height_of finalized.
Proof.
  intros Hk Hl Hs. unfold Provider.latest_height, Store.latest_block in *. rewrite Hs.
  rewrite last_key_value_insert; [done|]. intros k [b Hb].
  destruct (last_key_value (ms_blocks_by_height s)) as [[m top]|] eqn:E.
  - apply last_key_value_Some in E as [Hm Hmax]. cbn [fmap option_fmap option_map snd] in Hl.
    rewrite (Hk m top Hm) in Hl. destruct (Hmax k ltac:(by eexists)) as [Hlt|<-]; left.
    + exact (Z.lt_trans _ _ _ Hlt Hl).
    + exact Hl.
  - apply last_key_value_None in E. rewrite E in Hb. done.
Qed.
End import.

(** ** One round of the download, step by step *)
Section download.
Context `{HashBackend, HexEncode, ChainCodec, RevmBackend} (default_scheme : SignatureScheme)
  (config : NodeConfig) (consensus : ConsensusEngine) (scheme : SignatureScheme).

#[local] Arguments Provider.latest_height : simpl never.
Lemma ask_headers peer node sent i target :
  let h := Provider.latest_height (nd_store node) in
  h < target → nd_network_up node = true →
  let id := wrapping U64_MAX (i + 1) in
  let limit := Z.min (target - h) 32 in
  let start := saturating_add U64_MAX h 1 in
  Sync.continue_sync peer {| ru_node := node; ru_sync := {| sy_active_peer := Some peer;
    sy_target_height := target; sy_pending_headers := None; sy_pending_block := None;
    sy_queued_heights := [] |}; ru_request_ids := i; ru_sent := sent |} =
  (Ok tt : res RuntimeError (), {| ru_node := node; ru_sync := {| sy_active_peer := Some peer;
    sy_target_height := target; sy_pending_headers := Some {| ph_request_id := i;
      ph_start_height := start; ph_limit := limit |}; sy_pending_block := None;
    sy_queued_heights := [] |}; ru_request_ids := id;
    ru_sent := sent ++ [(peer, MsgSyncRequest i (ReqHeaders start limit))] |}).
Proof.
  intros h Hh Hup id limit start. unfold Sync.continue_sync, Sync.send_to, Sync.next_request_id,
    mbind, eff_bind, eff_get, eff_modify, mret, eff_ret. cbn.
  rewrite bool_decide_true by done. cbn. fold h. rewrite (proj2 (Z.ltb_lt _ _) Hh). cbn. by rewrite Hup.
Qed.
Lemma take_one_header now_ms peer node sent i j target header :
  let h := Provider.latest_height (nd_store node) in
  header_ok config now_ms (saturating_add U64_MAX h 1) (Sync.latest_hash (nd_store node)) header →
  nd_network_up node = true →
  Sync.handle_sync_response default_scheme config consensus scheme now_ms peer i (RespHeaders [header])
    {| ru_node := node; ru_sync := {| sy_active_peer := Some peer; sy_target_height := target;
       sy_pending_headers := Some {| ph_request_id := i; ph_start_height := saturating_add U64_MAX h 1;
         ph_limit := 1 |}; sy_pending_block := None; sy_queued_heights := [] |};
       ru_request_ids := j; ru_sent := sent |} =
  (Ok tt, {| ru_node := node; ru_sync := {| sy_active_peer := Some peer; sy_target_height := target;
       sy_pending_headers := None; sy_pending_block := Some {| pr_request_id := j;
         pr_height := saturating_add U64_MAX h 1 |}; sy_queued_heights := [] |};
       ru_request_ids := wrapping U64_MAX (j + 1);
       ru_sent := sent ++ [(peer, MsgSyncRequest j (ReqBlockByHeight (saturating_add U64_MAX h 1)))] |}).
Proof.
  intros h Hok Hup. cbn [Sync.handle_sync_response].
  unfold Sync.take_headers, mbind, eff_bind, eff_get, eff_modify, eff_lift, mret, eff_ret.
  cbn [ru_sync sy_active_peer sy_pending_headers ru_node ph_request_id].
  rewrite bool_decide_true by done. cbn [negb]. rewrite Z.eqb_refl. cbn [negb].
  assert (Sync.validate_header_batch config now_ms h [header] {| ph_request_id := i;
    ph_start_height := saturating_add U64_MAX h 1; ph_limit := 1 |} (nd_store node) =
    Ok [saturating_add U64_MAX h 1]) as Hv.
  { unfold Sync.validate_header_batch. cbn [ph_limit ph_start_height length]. change (1 <? 1) with false.
    cbn match. rewrite Z.max_id. apply check_headers_spec; [unfold saturating_add; lia|]. split.
    - cbn [length]. rewrite heights_from_S by (unfold saturating_add; lia). done.
    - apply batch_ok_cons; [unfold saturating_add; lia|]. split; [exact Hok|]. by intros k hd. }
  fold h. rewrite Hv. unfold Sync.continue_sync, Sync.send_to, Sync.next_request_id, mbind, eff_bind,
    eff_get, eff_modify, mret, eff_ret. cbn. rewrite bool_decide_true by done. cbn. by rewrite Hup.
Qed.
Lemma take_one_block now_ms peer node node' sent j k target block :
  let height := bh_height (bk_header (fb_block block)) in
  Consensus.import_external_finalized_block default_scheme consensus scheme block node = (Ok tt, node') →
  Provider.latest_height (nd_store node') = target →
  Sync.handle_sync_response default_scheme config consensus scheme now_ms peer j (RespBlock (Some block))
    {| ru_node := node; ru_sync := {| sy_active_peer := Some peer; sy_target_height := target;
       sy_pending_headers := None; sy_pending_block := Some {| pr_request_id := j;
         pr_height := height |}; sy_queued_heights := [] |};
       ru_request_ids := k; ru_sent := sent |} =
  (Ok tt, {| ru_node := node'; ru_sync := {| sy_active_peer := Some peer; sy_target_height := target;
       sy_pending_headers := None; sy_pending_block := None; sy_queued_heights := [] |};
       ru_request_ids := k; ru_sent := sent |}).
Proof.
  intros height Himp Hl. cbn [Sync.handle_sync_response].
  unfold Sync.take_block, Sync.import_block, mbind, eff_bind, eff_get, eff_modify, mret, eff_ret.
  cbn. rewrite bool_decide_true by done. cbn. rewrite Z.eqb_refl. cbn. rewrite Z.eqb_refl. cbn.
  rewrite Himp. cbn. unfold Sync.continue_sync, mbind, eff_bind, eff_get, mret, eff_ret. cbn.
  rewrite bool_decide_true by done. cbn. rewrite Hl, Z.ltb_irrefl. done.
Qed.
(** C20: a node that is one block behind catches up, when the peer answers.  The node has its
    network up, blocks under their heights and no download from that peer yet; the peer is
    the best one, reports the next height and stores a block there whose header continues
    the node's chain and which is importable: certified for the node, and preparing on the
    node's store with its receipts and epoch transition.  Then the tick asks for one header,
    the peer's answer makes the node ask for the block, and the peer's answer to that is
    imported without an error: the block is stored at its height, which is the new latest
    one, the accounts are the prepared ones, its transactions leave the pool, the consensus
    engine opens the height after it, and no request is pending. *)
Theorem one_block_sync now_ms peers peer state r remote block pb :
  let node := ru_node r in
  let h := Provider.latest_height (nd_store node) in
  let i := ru_request_ids r in
  let j := wrapping U64_MAX (i + 1) in
  h + 1 < U64_MAX → nd_network_up node = true →
  map_Forall (λ k b, bh_height (bk_header (fb_block b)) = k) (ms_blocks_by_height (nd_store node)) →
  Sync.best_peer h peers = Some (peer, state) → ps_best_height state = h + 1 →
  sy_active_peer (ru_sync r) ≠ Some peer →
  Store.get_block_by_height (h + 1) remote = Some block →
  header_ok config now_ms (h + 1) (Sync.latest_hash (nd_store node)) (bk_header (fb_block block)) →
  importable default_scheme consensus scheme node block pb →
  ∃ r1 r2 r3,
    Sync.sync_with_best_peer peers r = (Ok tt : res RuntimeError (), r1) ∧
    ru_sent r1 = ru_sent r ++ [(peer, MsgSyncRequest i (ReqHeaders (h + 1) 1))] ∧
    Sync.on_gossip default_scheme config consensus scheme now_ms peer
      (MsgSyncResponse i (Sync.build_sync_response (ReqHeaders (h + 1) 1) remote)) r1 = (Ok tt, r2) ∧
    ru_sent r2 = ru_sent r1 ++ [(peer, MsgSyncRequest j (ReqBlockByHeight (h + 1)))] ∧
    Sync.on_gossip default_scheme config consensus scheme now_ms peer
      (MsgSyncResponse j (Sync.build_sync_response (ReqBlockByHeight (h + 1)) remote)) r2 = (Ok tt, r3) ∧
    imported node (ru_node r3) block pb ∧ Provider.latest_height (nd_store (ru_node r3)) = h + 1 ∧
    sy_pending_headers (ru_sync r3) = None ∧ sy_pending_block (ru_sync r3) = None ∧
    sy_queued_heights (ru_sync r3) = [].
Proof.
  intros node0 h i j Hmax Hup Hkeyed Hbest Hstate Ha Hb Hok Himportable.
  destruct (import_run _ _ _ _ _ _ Himportable) as (node' & Himp & Hdone).
  assert (bh_height (bk_header (fb_block block)) = h + 1) as Hheight by apply Hok.
  assert (Provider.latest_height (nd_store node') = h + 1) as Hl.
  { rewrite <-Hheight. apply (latest_after_insert (nd_store node0));
      [exact Hkeyed | rewrite Hheight; fold h; lia | apply Hdone]. }
  assert (saturating_add U64_MAX h 1 = h + 1) as Hsat by (unfold saturating_add; lia).
  assert (Sync.build_sync_response (ReqHeaders (h + 1) 1) remote = RespHeaders [bk_header (fb_block block)]) as Hr1.
  { cbn [Sync.build_sync_response]. change (Z.min 256 (Z.max 1 1)) with 1. unfold saturating_add.
    rewrite Z.min_r by lia. replace (h + 1 + 1 - (h + 1)) with 1 by lia.
    rewrite seqZ_cons, seqZ_nil by lia. cbn [Sync.stored_headers]. by rewrite Hb. }
  assert (Sync.build_sync_response (ReqBlockByHeight (h + 1)) remote = RespBlock (Some block)) as Hr2
    by (cbn [Sync.build_sync_response]; by rewrite Hb).
  unfold node0 in *. clear node0. destruct r as [node sync i0 sent].
  cbn [ru_node ru_sync ru_request_ids ru_sent] in *.
  pose proof (ask_headers peer node sent i (h + 1) ltac:(lia) Hup) as E1. fold h in E1.
  replace (Z.min (h + 1 - h) 32) with 1 in E1 by lia. rewrite Hsat in E1.
  assert (header_ok config now_ms (saturating_add U64_MAX h 1) (Sync.latest_hash (nd_store node))
    (bk_header (fb_block block))) as Hok' by (by rewrite Hsat).
  pose proof (take_one_header now_ms peer node (sent ++ [(peer, MsgSyncRequest i (ReqHeaders (h + 1) 1))])
    i j (h + 1) _ Hok' Hup) as E2. fold h in E2. rewrite Hsat in E2.
  pose proof (take_one_block now_ms peer node node' ((sent ++ [(peer, MsgSyncRequest i (ReqHeaders (h + 1) 1))]) ++
    [(peer, MsgSyncRequest j (ReqBlockByHeight (h + 1)))]) j (wrapping U64_MAX (j + 1)) (h + 1) block Himp Hl) as E3.
  rewrite Hheight in E3. rewrite Hr1, Hr2. cbn [Sync.on_gossip].
  eexists _, _, _. split.
  { unfold Sync.sync_with_best_peer, mbind at 1, eff_bind at 1, eff_get. cbn [ru_node].
    fold h. rewrite Hbest. unfold mbind at 1, eff_bind at 1, eff_modify, upd_ru_sync. cbn [ru_sync].
    rewrite bool_decide_false by done. cbn [negb]. rewrite Hstate. exact E1. }
  split; [done|]. split; [exact E2|]. split; [done|]. split; [exact E3|]. by split_and!.
Qed.
End download.

(** C19: the import of an external block is exact.  A block whose certificate is of an earlier
    height than the node's is ignored.  Any other is imported if and only if it is
    importable (its certificate passes the validation and it prepares on the node's store
    with the receipts and the epoch transition that come with it): then the block is stored
    under its height, the accounts are the prepared ones, its transactions leave the pool
    and the engine opens the height after it.  A block that is not importable ends the import
    with an error and leaves the round, the pool, the outbox and everything in the store as
    they were but for the consensus log and the EVM accounts. *)
Theorem external_block_import_exact `{HashBackend, HexEncode, ChainCodec, RevmBackend}
    (default_scheme scheme : SignatureScheme) (self : ConsensusEngine) (n : Node)
    (finalized : FinalizedBlock) :
  let run := Consensus.import_external_finalized_block default_scheme self scheme finalized n in
  let old := cc_height (fb_certificate finalized) < rs_height (nd_state n) in
  (old → run = (Ok tt, n)) ∧
  (∀ pb, importable default_scheme self scheme n finalized pb →
    run.1 = Ok tt ∧ imported n run.2 finalized pb) ∧
  (¬ old → (∀ pb, ¬ importable default_scheme self scheme n finalized pb) →
    is_ok run.1 = false ∧ refused n run.2).
Proof.
  intros run old. split_and!.
  - intros Hold. unfold run, Consensus.import_external_finalized_block, mbind, eff_bind,
      Consensus.get_state. by rewrite (proj2 (Z.ltb_lt _ _) Hold).
  - intros pb (n' & E & Hdone)%import_run. unfold run. by rewrite E.
  - intros Hnew%Z.nlt_ge. by apply import_refused.
Qed.
