(* ===== verification/Services.v ===== *)
(** [crates/zeno-node/src/runtime.rs], [run_services]: the tasks of a running node, one turn
    of one task at a time in any order, and what they do to each other. *)

From S2P Require Import Prelude Wp Types Codec Hash Crypto Wire Primitives Storage Smt Staking.
From S2P Require Import Mempool Zk Evm EthTx Execution Rounds Durability Consensus ConsensusInv.
From S2P Require Import Certificates ConsensusSafety Network Setup Bootstrap Provider Startup.
From S2P Require Import Json Rpc RpcProofs RpcNode Sync.
Open Scope Z_scope.

(** The tasks that [run_services] joins; the RPC task only accepts connections, each of
    which has a task of its own. *)
Inductive Task := GossipTask | StatusTask | SyncTask | ConsensusTask.
#[export] Instance task_eq_dec : EqDecision Task.
Proof. solve_decision. Defined.

(** A running process: the state its tasks share, the limiter of the server, the shielded
    pool, the tasks that have ended with an error, and whether a task has panicked, which
    makes [try_join!] return and the process exit. *)
Record Services := {
  sv_runtime : Runtime;
  sv_limiter : RateLimiter;
  sv_pool : ShieldedPool;
  sv_ended : list (Task * RuntimeError);
  sv_down : bool
}.
Definition sv_node (s : Services) : Node := ru_node (sv_runtime s).

(** What a task is woken up for. *)
Inductive Turn :=
  | OnGossip (now_ms : Z) (peer : string) (message : NetworkMessage)
  | OnStatusTick (peers : list string)
  | OnSyncTick (peers : list (string * PeerState))
  | OnConsensus (event : Event)
  | OnRequest (now : Z) (forwarded_for : option string) (body : list byte) (peers : list string).

Module Services.
Section services.
Context `{HashBackend, HexEncode, HexBackend, KeccakBackend, EcdsaBackend, ChainCodec, RevmBackend,
  SerdeJson, ParseIp}.
Context (default_scheme scheme : SignatureScheme) (config : NodeConfig) (genesis : Genesis)
  (plane : ExecutionPlane) (faucet_file : option (res AnyError WalletKeyFile))
  (show : NodeError → string) (metrics : string) (fuel : nat)
  (consensus : ConsensusEngine) (iteration : Inner → list Transaction).

(** A raw transaction whose decoding never ends within [fuel] (the loop of [rlp_decode_list],
    which no fuel ends on some inputs) is never answered: it is a request that is lost, like
    one whose handler panics.  The thread and the memory that the loop of the source goes on
    taking are not modelled. *)
Definition send_raw (raw : string) : eff MemoryInner NodeError Hash32 := λ store,
  default (Panic, store) (Provider.eth_send_raw_transaction default_scheme plane fuel raw store).
#[local] Instance provider : RpcProvider RpcNode :=
  node_provider default_scheme scheme config genesis plane faucet_file show metrics send_raw.

(** The process once its consensus task has made its first turn, with this result. *)
Definition ended_by (task : Task) (result : res RuntimeError ()) : list (Task * RuntimeError) :=
  match result with Err e => [(task, e)] | _ => [] end.
Definition is_panic {E A} (result : res E A) : bool := match result with Panic => true | _ => false end.
Definition launched (first_turn : res ConsensusError () * Node) : Services := {|
  sv_runtime := idle first_turn.2;
  sv_limiter := Limiter.new 100 200;
  sv_pool := Zk.new_pool;
  sv_ended := ended_by ConsensusTask (map_err RuConsensus first_turn.1);
  sv_down := is_panic first_turn.1 |}.

Definition ended (task : Task) (s : Services) : bool := bool_decide (task ∈ fst <$> sv_ended s).
(** A turn of a task that is still there: its error ends it, and nothing else. *)
Definition run_task (task : Task) (m : eff Runtime RuntimeError ()) (s : Services) : Services :=
  if ended task s then s else
  let '(result, runtime) := m (sv_runtime s) in {|
  sv_runtime := runtime;
  sv_limiter := sv_limiter s;
  sv_pool := sv_pool s;
  sv_ended := sv_ended s ++ ended_by task result;
  sv_down := is_panic result |}.
Definition on_engine (m : eff Node ConsensusError ()) : eff Runtime RuntimeError () := λ r,
  let '(result, node) := m (ru_node r) in (map_err RuConsensus result, upd_ru_node (λ _, node) r).
(** A request; a handler that panics loses its own connection only. *)
Definition respond (now : Z) (forwarded_for : option string) (body : list byte)
    (peers : list string) (s : Services) : res string (Rpc.StatusCode * Value) * Services :=
  let node := {| rn_node := sv_node s; rn_pool := sv_pool s; rn_peers := peers |} in
  let '(reply, (limiter, node)) := Rpc.handle_rpc now forwarded_for body (sv_limiter s, node) in
  (reply, {|
  sv_runtime := upd_ru_node (λ _, rn_node node) (sv_runtime s);
  sv_limiter := limiter;
  sv_pool := rn_pool node;
  sv_ended := sv_ended s;
  sv_down := sv_down s |}).
Definition turn (t : Turn) (s : Services) : Services :=
  if sv_down s then s else
  match t with
  | OnGossip now_ms peer message =>
      run_task GossipTask (Sync.on_gossip default_scheme config consensus scheme now_ms peer message) s
  | OnStatusTick peers => run_task StatusTask (Sync.on_status_tick config genesis peers) s
  | OnSyncTick peers => run_task SyncTask (Sync.sync_with_best_peer peers) s
  | OnConsensus event =>
      run_task ConsensusTask
        (on_engine (Consensus.on_event default_scheme consensus scheme iteration event)) s
  | OnRequest now forwarded_for body peers => (respond now forwarded_for body peers s).2
  end.
Definition run (turns : list Turn) (s : Services) : Services := foldl (λ s t, turn t s) s turns.
End services.
End Services.

(** ** What the clients of a node can do to it *)

(** The parts of the store that only consensus writes. *)
Record same_chain (s s' : MemoryInner) : Prop := {
  sc_blocks : ms_blocks_by_height s' = ms_blocks_by_height s;
  sc_journal : ms_consensus_wal s' = ms_consensus_wal s;
  sc_snapshot : ms_snapshot s' = ms_snapshot s;
  sc_slashing : ms_slashing_protection s' = ms_slashing_protection s
}.
#[export] Instance same_chain_preorder : PreOrder same_chain.
Proof. split; [by split|]. intros s s1 s2 [] []. split; congruence. Qed.
(** Requests leave the round and the chain as they are, and send transactions only. *)
Record client (n n' : Node) : Prop := {
  cl_state : nd_state n' = nd_state n;
  cl_chain : same_chain (nd_store n) (nd_store n');
  cl_network : nd_network_up n' = nd_network_up n;
  cl_outbox : ∃ txs, nd_outbox n' = nd_outbox n ++ (MsgTransaction <$> txs)
}.
#[export] Instance client_preorder : PreOrder client.
Proof.
  split.
  - intros n. split; [done..|]. exists []. by rewrite app_nil_r.
  - intros n n1 n2 [S1 C1 N1 [txs1 O1]] [S2 C2 N2 [txs2 O2]].
    split; [congruence|by etrans|congruence|]. exists (txs1 ++ txs2).
    by rewrite O2, O1, fmap_app, (assoc_L (++)).
Qed.
Lemma client_store n f : same_chain (nd_store n) (f (nd_store n)) → client n (upd_nd_store f n).
Proof. intros Hc. split; [done|exact Hc|done|]. exists []. by rewrite app_nil_r. Qed.
Lemma client_inv scheme n n' `{HashBackend, ChainCodec} : client n n' → node_inv scheme n → node_inv scheme n'.
Proof.
  intros [S [_ J P _] _ [txs O]] [Hr Hs Hd]. split; rewrite ?S, ?J, ?P; [done| |done].
  rewrite O. clear O. revert Hs. generalize (nd_outbox n). induction txs as [|tx txs IH]; intros o Hs.
  { by rewrite app_nil_r. }
  cbn. rewrite cons_middle, (assoc_L (++)). by apply IH, sent_other.
Qed.

Section clients.
Context `{HashBackend, HexEncode, HexBackend, KeccakBackend, EcdsaBackend, ChainCodec, RevmBackend,
  SerdeJson, ParseIp}.
Context (default_scheme scheme : SignatureScheme) (config : NodeConfig) (genesis : Genesis)
  (plane : ExecutionPlane) (faucet_file : option (res AnyError WalletKeyFile))
  (show : NodeError → string) (metrics : string) (fuel : nat).
#[local] Instance provider_s : RpcProvider RpcNode :=
  Services.provider default_scheme scheme config genesis plane faucet_file show metrics fuel.
Abbreviation clientele := (λ n n', client (rn_node n) (rn_node n')).
#[export] Instance clientele_preorder : PreOrder (λ n n', client (rn_node n) (rn_node n')).
Proof. split; [intros n; reflexivity|intros n n1 n2; apply transitivity]. Qed.

(** The operations on the store. *)
Lemma register_chain q s : same_chain s (Provider.register_validator scheme genesis q s).2.
Proof.
  unfold Provider.register_validator, mbind, eff_bind, eff_lift, eff_get. 
  repeat (case_match; simplify_eq/=; try done); by split.
Qed.
Lemma faucet_chain a amount s : same_chain s (Provider.faucet_send faucet_file a amount s).2.
Proof.
  unfold Provider.faucet_send, mbind, eff_bind, eff_lift, eff_get, Provider.faucet_put, eff_modify, mret, eff_ret.
  repeat (case_match; simplify_eq/=; try done); by split.
Qed.
Lemma raw_chain raw s : same_chain s (Services.send_raw default_scheme plane fuel raw s).2.
Proof.
  unfold Services.send_raw, Provider.eth_send_raw_transaction, EthTx.execute_raw_ethereum_tx.
  destruct (ep_evm_chain_id plane); [|done].
  destruct (EthTx.decode_raw_tx fuel raw) as [[d| |]|]; [|done..].
  cbn. unfold mbind, eff_bind, eff_lift. cbn. destruct (negb _); [done|].
  destruct (execute_frame default_scheme {| ex_evm_chain_id := z |} (de_sender d) (EthTx.evm_transaction d) s)
    as [m Hm].
  destruct (Evm.execute _ _ _ _ s) as [[]]; cbn in Hm |- *; rewrite Hm; by split.
Qed.
Lemma store_moves {A} (m : eff MemoryInner NodeError A) :
  (∀ s, same_chain s (m s).2) → moves clientele (on_store show m).
Proof.
  intros Hm n. unfold on_store. specialize (Hm (rn_store n)). destruct (m (rn_store n)) as [r s]. 
  by apply client_store.
Qed.
(** Every method. *)
Lemma methods_move : Forall (λ nh : string * Rpc.handler,
  True → ∀ params latest, moves clientele (nh.2 params latest)) Rpc.handlers.
Proof.
  apply handlers_move; [apply _|..].
  - intros tx n. cbn. unfold on_node.
    destruct (Provider.submit_tx scheme plane tx (rn_node n)) as [r node] eqn:E. cbn.
    revert E. unfold Provider.submit_tx, Provider.pool_insert, mbind, eff_bind, eff_lift, eff_get, eff_modify, mret, eff_ret.
    repeat (case_match; simplify_eq/=); intros; simplify_eq/=; try reflexivity;
      (split; [done|by split|done|first [by exists [tx]|by exists []; rewrite app_nil_r]]).
  - intros raw. apply store_moves, raw_chain.
  - intros q. apply store_moves, register_chain.
  - intros a amount. apply store_moves, faucet_chain.
  - intros q n. cbn. unfold on_pool. destruct (Provider.zk_shield _ _) as [r pool]. cbn. by apply client_store.
  - intros q n. cbn. unfold on_pool, Provider.zk_unshield.
    destruct (Zk.unshield q (rn_pool n)) as [[] pool]; by apply client_store.
Qed.
End clients.

(** ** The tasks *)
Section tasks.
Context `{HashBackend, HexEncode, ChainCodec, RevmBackend} (default_scheme scheme : SignatureScheme)
  (config : NodeConfig) (genesis : Genesis) (consensus : ConsensusEngine).

(** The download leaves the node alone, up to the import of a block. *)
Definition node_kept (r r' : Runtime) : Prop := ru_node r' = ru_node r.
#[local] Instance node_kept_preorder : PreOrder node_kept.
Proof. unfold node_kept. split; [done|]. intros r r1 r2 E1 E2. by rewrite E2. Qed.
Ltac by_kept := by_moves ltac:(apply moves_modify; done).
Lemma send_to_kept peer message : moves node_kept (Sync.send_to peer message).
Proof. unfold Sync.send_to. by_kept. Qed.
Lemma continue_kept peer : moves node_kept (Sync.continue_sync peer).
Proof.
  unfold Sync.continue_sync, Sync.next_request_id.
  by_moves ltac:(first [apply send_to_kept|apply moves_modify; done]).
Qed.
Lemma sync_tick_kept peers : moves node_kept (Sync.sync_with_best_peer peers).
Proof.
  unfold Sync.sync_with_best_peer. by_moves ltac:(first [apply continue_kept|apply moves_modify; done]).
Qed.
Lemma take_headers_kept now_ms h peer id headers :
  moves node_kept (Sync.take_headers config now_ms h peer id headers).
Proof. unfold Sync.take_headers. by_kept. Qed.
Lemma take_block_kept peer id : moves node_kept (Sync.take_block peer id).
Proof. unfold Sync.take_block. by_kept. Qed.

(** The block that a message brings. *)
Definition brings (message : NetworkMessage) (block : FinalizedBlock) : Prop :=
  ∃ request_id, message = MsgSyncResponse request_id (RespBlock (Some block)).
Lemma moves_within {S E A} (R R' : relation S) (m : eff S E A) :
  (∀ s s', R s s' → R' s s') → moves R m → moves R' m.
Proof. intros HR Hm s. apply HR, Hm. Qed.
(** A message changes the pool, or imports the block it brings, or leaves the node alone. *)
Lemma gossip_moves (R : relation Runtime) `{!PreOrder R} now_ms peer message :
  (∀ r r', node_kept r r' → R r r') →
  (∀ f r, R r (upd_ru_node (upd_nd_mempool f) r)) →
  (∀ block, brings message block → moves R (Sync.import_block default_scheme consensus scheme block)) →
  moves R (Sync.on_gossip default_scheme config consensus scheme now_ms peer message).
Proof.
  intros Hk Hp Hi. destruct message; cbn [Sync.on_gossip]; try by apply moves_ret.
  - apply moves_modify. apply Hp.
  - by_moves ltac:(apply (moves_within node_kept), send_to_kept; exact Hk).
  - unfold Sync.handle_sync_response. destruct response as [headers|block|]; [| |by apply moves_ret].
    + by_moves ltac:(first [apply (moves_within node_kept), continue_kept; exact Hk
        |apply (moves_within node_kept), take_headers_kept; exact Hk]).
    + destruct block as [block|].
      * by_moves ltac:(first [apply Hi; by eexists|apply (moves_within node_kept), continue_kept; exact Hk
          |apply (moves_within node_kept), take_block_kept; exact Hk]).
      * by_moves ltac:(first [apply (moves_within node_kept), continue_kept; exact Hk
          |apply (moves_within node_kept), take_block_kept; exact Hk]).
  - apply (moves_within node_kept); [exact Hk|apply send_to_kept].
Qed.

(** *** The messages of a validator *)
Definition own (m : NetworkMessage) : Prop :=
  match m with MsgVote _ | MsgProposal _ => True | _ => False end.
#[export] Instance own_dec m : Decision (own m).
Proof. destruct m; apply _. Defined.
Definition own_messages (n : Node) : list NetworkMessage := filter own (nd_outbox n).
Definition silent (n n' : Node) : Prop := own_messages n' = own_messages n.
Lemma client_silent n n' : client n n' → silent n n'.
Proof.
  intros [_ _ _ [txs O]]. unfold silent, own_messages. rewrite O, filter_app.
  assert (filter own (MsgTransaction <$> txs) = []) as ->; [|by rewrite app_nil_r].
  clear O; induction txs as [|tx txs IH]; [done|]. rewrite fmap_cons, filter_cons_False; [exact IH|]. by intros [].
Qed.
Definition outbox_kept (n n' : Node) : Prop := nd_outbox n' = nd_outbox n.
#[local] Instance outbox_kept_preorder : PreOrder outbox_kept.
Proof. unfold outbox_kept. split; [done|]. intros n n1 n2 E1 E2. by rewrite E2. Qed.
Lemma on_store_outbox {A} (m : eff MemoryInner ConsensusError A) : moves outbox_kept (Consensus.on_store m).
Proof. intros n. unfold Consensus.on_store. by destruct (m (nd_store n)). Qed.
(** An import sends nothing. *)
Lemma import_outbox block :
  moves outbox_kept (Consensus.import_external_finalized_block default_scheme consensus scheme block).
Proof.
  unfold Consensus.import_external_finalized_block, Consensus.advance_height, Consensus.append_wal,
    Consensus.modify_state, Consensus.persist_snapshot, Consensus.get_state, Consensus.get_store,
    Consensus.modify_store.
  by_moves ltac:(first [apply on_store_outbox | apply moves_modify; done | intros n; by cbn]).
Qed.
End tasks.

(** ** Turns *)
Section turns.
Context `{HashBackend, HexEncode, HexBackend, KeccakBackend, EcdsaBackend, ChainCodec, RevmBackend,
  SerdeJson, ParseIp}.
Context (default_scheme scheme : SignatureScheme) (config : NodeConfig) (genesis : Genesis)
  (plane : ExecutionPlane) (faucet_file : option (res AnyError WalletKeyFile))
  (show : NodeError → string) (metrics : string) (fuel : nat)
  (consensus : ConsensusEngine) (iteration : Inner → list Transaction).
Abbreviation turn := (Services.turn default_scheme scheme config genesis plane faucet_file show metrics
  fuel consensus iteration).
Abbreviation on_event := (Consensus.on_event default_scheme consensus scheme iteration).
Abbreviation import := (Consensus.import_external_finalized_block default_scheme consensus scheme).
Abbreviation start := (Consensus.start default_scheme consensus scheme iteration).

Definition turn_brings (t : Turn) (block : FinalizedBlock) : Prop :=
  match t with OnGossip _ _ message => brings message block | _ => False end.
Lemma run_task_node task m s :
  sv_node (Services.run_task task m s) =
  if Services.ended task s then sv_node s else ru_node (m (sv_runtime s)).2.
Proof.
  unfold Services.run_task, sv_node. destruct (Services.ended task s); [done|].
  by destruct (m (sv_runtime s)) as [r runtime].
Qed.
(** What one turn does to the node, by its task. *)
Lemma turn_within (R : relation Node) `{!PreOrder R} t s :
  (∀ n n', client n n' → R n n') → (∀ f n, R n (upd_nd_mempool f n)) →
  (∀ status n, R n (upd_nd_outbox (λ o, o ++ [MsgStatus status]) n)) →
  (∀ block n, turn_brings t block → R n (import block n).2) →
  (∀ event, t = OnConsensus event → Services.ended ConsensusTask s = false →
    R (sv_node s) (on_event event (sv_node s)).2) →
  R (sv_node s) (sv_node (turn t s)).
Proof.
  intros Hc Hp Hst Hi He.
  set (lifted := λ r r', R (ru_node r) (ru_node r')).
  assert (PreOrder lifted) as Hpre.
  { split; [intros r; unfold lifted; reflexivity|]. intros r r1 r2. unfold lifted. apply transitivity. }
  assert (∀ r r', node_kept r r' → lifted r r') as Hkept
    by (intros r r' E; unfold lifted; rewrite E; reflexivity).
  unfold Services.turn. destruct (sv_down s); [reflexivity|].
  destruct t as [now_ms peer message|peers|peers|event|now forwarded_for body peers];
    rewrite ?run_task_node; try (case_match; [reflexivity|]).
  - change (lifted (sv_runtime s) (Sync.on_gossip default_scheme config consensus scheme now_ms peer message
      (sv_runtime s)).2).
    apply gossip_moves; [done|exact Hkept|intros f r; apply Hp|].
    intros block Hb r. unfold Sync.import_block, lifted. specialize (Hi block (ru_node r) Hb).
    destruct (import block (ru_node r)) as [r' node]. exact Hi.
  - unfold Sync.on_status_tick, mbind, eff_bind, eff_get, eff_lift, eff_modify. cbn.
    destruct (nd_network_up _); [apply Hst|reflexivity].
  - change (lifted (sv_runtime s) (Sync.sync_with_best_peer peers (sv_runtime s)).2).
    apply Hkept, sync_tick_kept.
  - unfold Services.on_engine. specialize (He event eq_refl eq_refl). unfold sv_node in *.
    destruct (on_event event (ru_node (sv_runtime s))) as [r node]. exact He.
  - apply Hc. unfold Services.respond.
    pose proof (body_moves (λ n n', client (rn_node n) (rn_node n')) (λ _, True) (methods_move default_scheme
      scheme config genesis plane faucet_file show metrics fuel) now forwarded_for body (sv_limiter s)
      {| rn_node := sv_node s; rn_pool := sv_pool s; rn_peers := peers |} (λ _ _ _ _, I)) as Hb.
    unfold provider_s in Hb.
    destruct (Rpc.handle_rpc now forwarded_for body _) as [reply [limiter node]]. exact Hb.
Qed.

(** *** Safety *)
(** The counters have room for what the turn may add. *)
Definition spacious (t : Turn) (s : Services) : Prop :=
  match t with OnConsensus event => roomy event (sv_node s) | _ => True end ∧
  ∀ block, turn_brings t block → bh_height (bk_header (fb_block block)) + 1 ≤ U64_MAX.
Lemma turn_inv t s :
  node_inv scheme (sv_node s) → spacious t s → node_inv scheme (sv_node (turn t s)).
Proof.
  intros Hs [Hroom Hbring]. revert Hs.
  assert (PreOrder (λ n n', node_inv scheme n → node_inv scheme n')) as Hpre.
  { split; [by intros n|]. intros n n1 n2 Hn1 Hn2 Hn. by apply Hn2, Hn1. }
  apply (turn_within (λ n n', node_inv scheme n → node_inv scheme n')).
  - intros n n' Hc. by apply client_inv.
  - intros f n. by apply quiet_inv.
  - intros status n [Hr Hse Hd]. split; [exact Hr|by apply sent_other|exact Hd].
  - intros block n Hb Hn. pose proof (proj1 (keeps_run _ _ _) (wp_import default_scheme consensus scheme block n Hn
      (Hbring block Hb))) as [[Hi _]|[Hi _]]; exact Hi.
  - intros event -> _ Hn. exact (proj1 (keeps_run _ _ _) (wp_on_event default_scheme consensus scheme iteration event
      (sv_node s) Hn Hroom)).
Qed.

(** A new process finds what the old one recorded, whatever else changed in the store. *)
Lemma recovered_same s s' : same_chain s s' → Consensus.recovered_state s' = Consensus.recovered_state s.
Proof.
  intros [B J S _]. unfold Consensus.recovered_state, Consensus.initial_snapshot,
    Store.get_consensus_snapshot, Store.load_consensus_wal, Store.latest_block. by rewrite B, J, S.
Qed.
Lemma recoverable_same s s' : same_chain s s' → recoverable s → recoverable s'.
Proof.
  intros Hc [A B C D]. pose proof (recovered_same _ _ Hc) as E. destruct Hc as [Hb J S _].
  by split; rewrite ?E, ?J.
Qed.
Lemma bootstrap_chain g s : same_chain s (Bootstrap.bootstrap_genesis g s).2.
Proof.
  unfold Bootstrap.bootstrap_genesis. destruct (Bootstrap.bond_validators _ _ _) as [[[]| |] staking]; cbn;
    unfold Bootstrap.install_genesis; destruct (Store.get_genesis s); try done; rewrite foldl_put_accounts_eq; done.
Qed.

(** The processes of a node: a first one, its turns, and a new process on what the old one
    left in the store. *)
Inductive serving : Services → Prop :=
  | serving_launch store pool up now_ms :
      unjournaled store → 0 ≤ rs_height (Consensus.recovered_state store) →
      rs_height (Consensus.recovered_state store) + 1 ≤ U64_MAX →
      serving (Services.launched (start now_ms (boot store pool up)))
  | serving_turn t s : serving s → spacious t s → serving (turn t s)
  | serving_restart store pool up now_ms s :
      serving s → same_chain (nd_store (sv_node s)) store →
      rs_height (Consensus.recovered_state store) + 1 ≤ U64_MAX →
      serving (Services.launched (start now_ms (boot store pool up))).
Lemma launched_inv store pool up now_ms :
  recoverable store → rs_height (Consensus.recovered_state store) + 1 ≤ U64_MAX →
  node_inv scheme (sv_node (Services.launched (start now_ms (boot store pool up)))).
Proof. intros Hr Hh. exact (proj1 (keeps_run _ _ _) (start_inv _ _ _ _ store pool up now_ms Hr Hh)). Qed.
Lemma serving_inv s : serving s → node_inv scheme (sv_node s).
Proof.
  induction 1 as [store pool up now_ms Hu H0' Hm|t s _ IH Hsp|store pool up now_ms s _ IH Hc Hm].
  - apply launched_inv; [by apply unjournaled_recoverable|done].
  - by apply turn_inv.
  - apply launched_inv; [|done]. eapply recoverable_same; [exact Hc|].
    exact (proj2 (restart_recovers scheme _ IH)).
Qed.

(** C1: the services of a node cannot make it equivocate.  Whatever peers send, whatever
    its clients ask of its RPC server, however the turns of its tasks are interleaved, and
    however often it was started anew on what was left in its store (in a state where all
    but the chain may have changed): a process broadcasts at most one vote for each step of
    each round of each height, and the next process finds its round with its lock, or a
    later height. *)
Theorem services_never_equivocate s :
  serving s →
  (∀ i j v w, nd_outbox (sv_node s) !! i = Some (MsgVote v) → nd_outbox (sv_node s) !! j = Some (MsgVote w) →
    vt_step v = vt_step w → vt_height v = vt_height w → vt_round v = vt_round w → i = j) ∧
  ∀ store, same_chain (nd_store (sv_node s)) store →
    recovered_well (nd_state (sv_node s)) (Consensus.recovered_state store).
Proof.
  intros Hs%serving_inv. split.
  - intros i j v w Hi Hj Hst Hh Hr. destruct Hs as [_ [Hnd _] _].
    eapply (omap_lookup_NoDup vote_slot); [exact Hnd|exact Hi|exact Hj|done|]. cbn. by rewrite Hst, Hh, Hr.
  - intros store Hc. rewrite (recovered_same _ _ Hc). exact (proj1 (restart_recovers scheme _ Hs)).
Qed.

(** *** A consensus task that is gone *)
Definition is_request (t : Turn) : Prop := match t with OnRequest _ _ _ _ => True | _ => False end.
Abbreviation gone s := (Services.ended ConsensusTask s = true).
Lemma ended_app task (l l' : list (Task * RuntimeError)) :
  bool_decide (task ∈ l.*1) = true → bool_decide (task ∈ (l ++ l').*1) = true.
Proof. rewrite !bool_decide_eq_true, fmap_app. set_solver. Qed.
Lemma run_task_gone task m s : gone s → gone (Services.run_task task m s).
Proof.
  intros Hg. unfold Services.run_task. destruct (Services.ended task s); [exact Hg|].
  destruct (m (sv_runtime s)) as [r runtime]. by apply ended_app.
Qed.
Lemma respond_keeps now forwarded_for body peers s :
  let s' := (Services.respond default_scheme scheme config genesis plane faucet_file show metrics fuel
    now forwarded_for body peers s).2 in
  sv_ended s' = sv_ended s ∧ sv_down s' = sv_down s.
Proof. unfold Services.respond. by destruct (Rpc.handle_rpc _ _ _ _) as [reply [limiter node]]. Qed.
Lemma turn_gone t s : gone s → gone (turn t s).
Proof.
  intros Hg. unfold Services.turn. destruct (sv_down s); [done|].
  destruct t; try by apply run_task_gone. unfold Services.ended. by rewrite (proj1 (respond_keeps _ _ _ _ _)).
Qed.
Lemma request_up t s : is_request t → sv_down s = false → sv_down (turn t s) = false.
Proof.
  intros Ht Hd. unfold Services.turn. rewrite Hd. destruct t; try done.
  by rewrite (proj2 (respond_keeps _ _ _ _ _)).
Qed.
(** Without it the node says nothing of its own. *)
Lemma gone_silent t s : gone s → silent (sv_node s) (sv_node (turn t s)).
Proof.
  intros Hg. assert (PreOrder silent) as Hpre.
  { unfold silent. split; [done|]. intros n n1 n2 E1 E2. by rewrite E2. }
  apply turn_within; [done|by apply client_silent|done|..].
  - intros status n. unfold silent, own_messages. cbn. rewrite filter_app, filter_cons_False by (by intros []).
    by rewrite app_nil_r.
  - intros block n _. unfold silent, own_messages. by rewrite (import_outbox default_scheme scheme consensus block n).
  - intros event _ He. by rewrite Hg in He.
Qed.
(** And the chain grows by blocks that others send only. *)
Definition chain_kept (n n' : Node) : Prop :=
  ms_blocks_by_height (nd_store n') = ms_blocks_by_height (nd_store n).
Lemma gone_frozen t s :
  gone s → (∀ block, ¬ turn_brings t block) → chain_kept (sv_node s) (sv_node (turn t s)).
Proof.
  intros Hg Hb. assert (PreOrder chain_kept) as Hpre.
  { unfold chain_kept. split; [done|]. intros n n1 n2 E1 E2. by rewrite E2. }
  apply turn_within; [done|by intros n n' [_ [Hc _ _ _] _ _]|done|done|..].
  - intros block n Ht. by apply Hb in Ht.
  - intros event _ He. by rewrite Hg in He.
Qed.

Abbreviation run := (Services.run default_scheme scheme config genesis plane faucet_file show metrics
  fuel consensus iteration).
Lemma run_gone turns s :
  gone s →
  gone (run turns s) ∧ silent (sv_node s) (sv_node (run turns s)) ∧
  (Forall is_request turns → sv_down s = false → sv_down (run turns s) = false) ∧
  (Forall (λ t, ∀ block, ¬ turn_brings t block) turns → chain_kept (sv_node s) (sv_node (run turns s))).
Proof.
  revert s. induction turns as [|t turns IH]; intros s Hg; [by split_and!|].
  destruct (IH (turn t s) (turn_gone t s Hg)) as (G & S & D & C).
  change (run (t :: turns) s) with (run turns (turn t s)). split_and!; [exact G|..].
  - unfold silent in *. by rewrite S, (gone_silent t s Hg).
  - intros [Ht Hts]%Forall_cons Hd. apply D; [done|]. by apply request_up.
  - intros [Ht Hts]%Forall_cons. unfold chain_kept in *. by rewrite (C Hts), (gone_frozen t s Hg Ht).
Qed.

(** C11: nobody notices when the consensus task ends.  An error of one of its turns ends the
    task, and the process goes on without it: from then on, whatever turns the other tasks
    make, the validator sends no vote and no proposal, its chain grows by blocks from other
    nodes only, and requests are served as before. *)
Theorem lost_consensus_task_goes_unnoticed event e n' s :
  sv_down s = false → Services.ended ConsensusTask s = false →
  on_event event (sv_node s) = (Err e, n') →
  let s1 := turn (OnConsensus event) s in
  sv_down s1 = false ∧ sv_node s1 = n' ∧ (ConsensusTask, RuConsensus e) ∈ sv_ended s1 ∧
  ∀ turns, let s' := run turns s1 in
    own_messages (sv_node s') = own_messages n' ∧
    (Forall is_request turns → sv_down s' = false) ∧
    (Forall (λ t, ∀ block, ¬ turn_brings t block) turns →
      ms_blocks_by_height (nd_store (sv_node s')) = ms_blocks_by_height (nd_store n')).
Proof.
  intros Hd He Hrun s1.
  assert (sv_down s1 = false ∧ sv_node s1 = n' ∧ sv_ended s1 = sv_ended s ++ [(ConsensusTask, RuConsensus e)])
    as (D & N & En).
  { unfold s1, Services.turn, Services.run_task, Services.on_engine, sv_node in *. by rewrite Hd, He, Hrun. }
  split; [exact D|]. split; [exact N|]. split; [rewrite En; set_solver|]. intros turns s'.
  assert (gone s1) as Hg by (apply bool_decide_eq_true; rewrite En, fmap_app; set_solver).
  destruct (run_gone turns s1 Hg) as (_ & S & U & C). unfold silent, chain_kept in *. rewrite N in *.
  split_and!; [exact S|by intros Hr; apply U|exact C].
Qed.
End turns.
