(* ===== verification/SyncExamples.v ===== *)
(** Runs of the download: a follower that catches up with the first block of a chain, and
    the runs that show where the download stops for good. *)

From S2P Require Import Prelude Types Codec Hash Crypto Wire Toy Primitives Storage Smt Staking.
From S2P Require Import Mempool Zk Evm Execution Rounds Consensus ConsensusExamples Network Setup.
From S2P Require Import Bootstrap Provider Sync SyncProgress.
Import Toy ToyRevm.

Definition node_config : NodeConfig := Devnet.config_of "out" "zeno" 1 0 addr pk pk.
(** The store of the peer: the chain of one validator after its first block. *)
Definition remote : MemoryInner := nd_store solo_run.2.
Definition first_block : FinalizedBlock := default bogus (Store.get_block_by_height 1 remote).
Definition behind : Node := (start_of follower).2.
Definition seed : PeerState :=
  {| ps_score := 10; ps_best_height := 1; ps_connected_at := 0; ps_last_message_at := 0;
     ps_messages_received := 0; ps_is_outbound := true; ps_banned_until := None; ps_node_id := "s" |}.
Abbreviation seeds := ([("seed"%string, seed)] : list (string * PeerState)).

Lemma first_block_stored : Store.get_block_by_height 1 remote = Some first_block.
Proof. apply is_default. vm_compute. reflexivity. Qed.
Lemma first_header_ok :
  header_ok node_config 1000000 1 (Sync.latest_hash (nd_store behind)) (bk_header (fb_block first_block)).
Proof.
  assert (bool_decide (bh_chain_id (bk_header (fb_block first_block)) = nc_chain_id node_config) = true) as H1
    by (vm_compute; reflexivity).
  assert (bool_decide (bh_parent_hash (bk_header (fb_block first_block)) =
    Sync.latest_hash (nd_store behind)) = true) as H2 by (vm_compute; reflexivity).
  apply bool_decide_eq_true in H1, H2.
  split; [exact H1 | vm_compute; reflexivity | exact H2 | apply Z.leb_le; vm_compute; reflexivity].
Qed.
Definition prepared_first : res ExecutionError PreparedBlock :=
  (Execution.prepare_block scheme (ce_execution follower) scheme (fb_block first_block)
    (nd_store behind)).1.
Definition first_pb : PreparedBlock :=
  match prepared_first with
  | Ok pb => pb
  | _ => {| pb_state := Smt.load MemoryInner_default; pb_receipts := []; pb_proposer_fees := 0;
            pb_accounting := {| aa_staking := None; aa_governance := None;
                                aa_epoch_transition := None |} |}
  end.
Lemma first_importable : importable scheme follower scheme behind first_block first_pb.
Proof.
  split.
  - apply Z.leb_le. vm_compute. reflexivity.
  - vm_compute. reflexivity.
  - assert (is_ok prepared_first = true) as Hok by (vm_compute; reflexivity).
    change (prepared_first = Ok first_pb). unfold first_pb. revert Hok. by destruct prepared_first.
  - vm_compute. reflexivity.
  - vm_compute. reflexivity.
Qed.
Lemma external_block_import_exact_witness :
  let run := Consensus.import_external_finalized_block scheme follower scheme first_block behind in
  run.1 = Ok tt ∧ imported behind run.2 first_block first_pb.
Proof.
  exact (proj1 (proj2 (external_block_import_exact scheme scheme follower behind first_block))
    first_pb first_importable).
Defined.
Lemma one_block_sync_witness :
  ∃ r3, imported behind (ru_node r3) first_block first_pb ∧
    Provider.latest_height (nd_store (ru_node r3)) = 1 ∧ sy_queued_heights (ru_sync r3) = [].
Proof.
  destruct (one_block_sync scheme node_config follower scheme 1000000 seeds "seed" seed (idle behind)
    remote first_block first_pb) as (r1 & r2 & r3 & _ & _ & _ & _ & _ & Hn & Hl & _ & _ & Hq).
  - apply Z.ltb_lt. vm_compute. reflexivity.
  - vm_compute. reflexivity.
  - apply (bool_decide_unpack _). vm_compute. exact I.
  - vm_compute. reflexivity.
  - vm_compute. reflexivity.
  - discriminate.
  - exact first_block_stored.
  - exact first_header_ok.
  - exact first_importable.
  - exists r3. split; [exact Hn|]. split; [exact Hl|exact Hq].
Defined.
Lemma header_batch_exact_witness :
  Sync.validate_header_batch node_config 1000000 0 [bk_header (fb_block first_block)]
    {| ph_request_id := 1; ph_start_height := 1; ph_limit := 1 |} (nd_store behind) = Ok [1].
Proof.
  apply (header_batch_exact node_config 1000000 0 [bk_header (fb_block first_block)]
    {| ph_request_id := 1; ph_start_height := 1; ph_limit := 1 |} (nd_store behind) [1]); [discriminate|].
  split; [reflexivity|]. right. split; [discriminate|].
  apply (batch_ok_cons node_config 1000000 1); [discriminate|]. split; [exact first_header_ok|].
  intros i header Hi. discriminate Hi.
Defined.
(** The states after the first tick and after the first answer. *)
Definition asking : Runtime := (Sync.sync_with_best_peer seeds (idle behind) : res RuntimeError () * Runtime).2.
Definition answered : Runtime :=
  (Sync.on_gossip scheme node_config follower scheme 1000000 "seed"
    (MsgSyncResponse 1 (Sync.build_sync_response (ReqHeaders 1 1) remote)) asking).2.
Lemma answered_reached : rtc (runtime_step scheme node_config follower scheme) (idle behind) answered.
Proof.
  eapply rtc_l; [apply step_tick|]. eapply rtc_once. exact (step_gossip _ _ _ _ 1000000 "seed" _ asking).
Qed.
Lemma answered_pending :
  pr_height <$> sy_pending_block (ru_sync answered) = Some 1.
Proof. vm_compute. reflexivity. Qed.
Lemma sync_invariant_witness :
  pr_height <$> sy_pending_block (ru_sync answered) = Some 1 ∧ sync_ok (ru_sync answered).
Proof.
  split; [exact answered_pending|].
  exact (sync_invariant scheme node_config follower scheme behind answered answered_reached).
Defined.
Lemma unsolicited_response_ignored_witness :
  Sync.handle_sync_response scheme node_config follower scheme 1000000 "other" 1 (RespBlock (Some first_block))
    answered = (Ok tt, answered).
Proof.
  apply (unsolicited_response_ignored scheme node_config follower scheme 1000000 "other" 1
    (RespBlock (Some first_block)) answered).
  left. apply (bool_decide_unpack _). vm_compute. reflexivity.
Defined.

(** A node that is two blocks behind rejects the honest answer to its own request; the error
    ends the task that handles all its messages. *)
Definition ahead : PeerState := set_best_height 2 seed.
Definition two_behind : Runtime :=
  (Sync.sync_with_best_peer [("seed"%string, ahead)] (idle behind) : res RuntimeError () * Runtime).2.
Lemma two_blocks_behind_fails :
  ru_sent two_behind = [("seed"%string, MsgSyncRequest 1 (ReqHeaders 1 2))] ∧
  match Sync.build_sync_response (ReqHeaders 1 2) (nd_store solo_next.2) with
  | RespHeaders headers => length headers = 2%nat
  | _ => False
  end ∧
  (Sync.on_gossip scheme node_config follower scheme 1000000000 "seed"
    (MsgSyncResponse 1 (Sync.build_sync_response (ReqHeaders 1 2) (nd_store solo_next.2))) two_behind).1 =
  Err (sync_error "sync header parent hash chain broken at height 2").
Proof. split_and!; vm_compute; reflexivity. Qed.
(** An answer [NotFound] leaves the request pending, and no tick sends another. *)
Lemma not_found_stalls :
  let stuck := (Sync.on_gossip scheme node_config follower scheme 1000000 "seed"
    (MsgSyncResponse 1 RespNotFound) asking).2 in
  ru_sent (Sync.sync_with_best_peer seeds stuck : res RuntimeError () * Runtime).2 = ru_sent asking.
Proof. vm_compute. reflexivity. Qed.
