(* ===== verification/ServicesExamples.v ===== *)
(** Runs of a whole node: the witnesses of [Services.v], and a network of one validator
    that a single gossiped transaction stops. *)

From S2P Require Import Prelude Types Codec Hash Crypto Wire Toy Primitives Storage Smt Staking.
From S2P Require Import Mempool Zk Evm EthTx Execution Rounds Durability Consensus ConsensusInv.
From S2P Require Import Certificates ConsensusSafety ConsensusProgress ProposalCheck Delivery Finality.
From S2P Require Import Solo ConsensusExamples Network Setup Bootstrap Provider Startup LivenessExamples.
From S2P Require Import Json Rpc RpcProofs RpcNode RpcExamples Sync Services.
Import Toy ToyRevm.
Open Scope Z_scope.
#[local] Existing Instance ToyHex.decode.
#[local] Existing Instance ToySerde.serde_json.
#[local] Existing Instance RpcRuns.keccak.
#[local] Existing Instance RpcRuns.ecdsa.
#[local] Existing Instance RpcRuns.parse_v4.

(** The services around the node of [LivenessExamples.lone]. *)
Definition lone_genesis : Genesis := new_genesis.
Definition lone_plane : ExecutionPlane := Plane.new chain lone_genesis.
Abbreviation lone_turn := (Services.turn scheme scheme Config.default_config lone_genesis lone_plane None
  (λ _, "refused"%string) "" 10 lone values).
Abbreviation lone_run := (Services.run scheme scheme Config.default_config lone_genesis lone_plane None
  (λ _, "refused"%string) "" 10 lone values).
Abbreviation lone_serving := (serving scheme scheme Config.default_config lone_genesis lone_plane None
  (λ _, "refused"%string) "" 10 lone values).
Definition lone_services : Services :=
  Services.launched (Consensus.start scheme lone scheme values 0 (boot lone_store Inner_default true)).
Lemma lone_serves : lone_serving lone_services.
Proof.
  apply serving_launch; [by split|vm_compute; discriminate..].
Qed.

(** ** Safety *)
Definition busy : list Turn := [
  OnGossip 0 "peer" (MsgTransaction transfer); OnSyncTick []; OnConsensus (RoundTimeout 5000);
  OnStatusTick []; OnRequest 0 None (bytes_of_string "?") []].
Definition busy_services : Services := lone_run busy lone_services.
Lemma serve t s : lone_serving s → spacious t s → lone_serving (lone_turn t s).
Proof. apply serving_turn. Qed.
Lemma quiet_turn t s :
  match t with OnConsensus _ => False | OnGossip _ _ (MsgSyncResponse _ _) => False | _ => True end →
  spacious t s.
Proof.
  intros Ht. split; [by destruct t|]. intros block Hb.
  destruct t as [? ? message| | | |]; [|done..]. destruct Hb as [id ->]. done.
Qed.
Lemma busy_serves : lone_serving busy_services.
Proof.
  unfold busy_services, busy. cbn [Services.run foldl].
  apply serve; [|by apply quiet_turn]. apply serve; [|by apply quiet_turn].
  apply serve; [|split; [split_and!; vm_compute; done|intros block []]].
  apply serve; [|by apply quiet_turn]. apply serve; [exact lone_serves|by apply quiet_turn].
Qed.
(** Two blocks, each with two votes of the node. *)
Lemma busy_run :
  rs_height (nd_state (sv_node busy_services)) = 3 ∧
  (λ m, match m with MsgVote v => Some (vt_height v, vt_round v, vt_step v) | _ => None end) <$>
    nd_outbox (sv_node busy_services) =
  [None; Some (1, 0, Prevote); Some (1, 0, Precommit); None;
   Some (2, 0, Prevote); Some (2, 0, Precommit);
   None; Some (2, 1, Prevote); Some (2, 1, Precommit); None; None].
Proof. split; vm_compute; reflexivity. Qed.
Definition first_vote : Vote := default polka_vote (sent_vote_at 1 (sv_node busy_services)).
Lemma services_never_equivocate_witness :
  nd_outbox (sv_node busy_services) !! 1%nat = Some (MsgVote first_vote) ∧
  (∀ j w, nd_outbox (sv_node busy_services) !! j = Some (MsgVote w) → vt_step first_vote = vt_step w →
    vt_height first_vote = vt_height w → vt_round first_vote = vt_round w → 1%nat = j) ∧
  recovered_well (nd_state (sv_node busy_services))
    (Consensus.recovered_state (nd_store (sv_node busy_services))).
Proof.
  destruct (services_never_equivocate scheme scheme Config.default_config lone_genesis lone_plane None
    (λ _, "refused"%string) "" 10 lone values busy_services busy_serves) as [Hone Hrec].
  assert (nd_outbox (sv_node busy_services) !! 1%nat = Some (MsgVote first_vote)) as H1
    by (apply sent_vote_spec; vm_compute; reflexivity).
  split; [exact H1|]. split; [|apply Hrec; by split].
  intros j w Hj Hs Hh Hr. exact (Hone 1%nat j first_vote w H1 Hj Hs Hh Hr).
Defined.

(** ** One gossiped transaction *)
Definition poisoned : Services := lone_turn (OnGossip 0 "peer" (MsgTransaction unsigned)) lone_services.
Abbreviation timeout := (OnConsensus (RoundTimeout 5000)).
Abbreviation poisoned_run :=
  (Consensus.on_event scheme lone scheme values (RoundTimeout 5000) (sv_node poisoned)).
Lemma err_run {E A S} (run : res E A * S) :
  match run.1 with Err _ => true | _ => false end = true → ∃ e, run = (Err e, run.2).
Proof. destruct run as [[|e|] s]; [done| |done]. by exists e. Qed.
Definition later_turns : list Turn := [
  timeout; OnStatusTick []; OnGossip 0 "peer" (MsgTransaction transfer); OnSyncTick []; timeout;
  OnRequest 0 None (bytes_of_string "?") []; timeout].
Lemma lost_consensus_task_goes_unnoticed_witness :
  let stopped := lone_turn timeout poisoned in
  sv_down stopped = false ∧
  own_messages (sv_node (lone_run later_turns stopped)) = own_messages (sv_node stopped) ∧
  Store.get_block_by_height 2 (nd_store (sv_node (lone_run later_turns stopped))) = None.
Proof.
  assert (sv_down poisoned = false) as Hd by (vm_compute; reflexivity).
  assert (Services.ended ConsensusTask poisoned = false) as He by (vm_compute; reflexivity).
  destruct (err_run poisoned_run) as [e E]; [vm_compute; reflexivity|].
  destruct (lost_consensus_task_goes_unnoticed scheme scheme Config.default_config lone_genesis lone_plane
    None (λ _, "refused"%string) "" 10 lone values (RoundTimeout 5000) e poisoned_run.2 poisoned Hd He E)
    as (Hup & Hnode & _ & Hlater).
  destruct (Hlater later_turns) as (Hown & _ & Hblocks).
  split; [exact Hup|]. split; [exact (eq_trans Hown (f_equal own_messages (eq_sym Hnode)))|].
  unfold Store.get_block_by_height. rewrite Hblocks; [vm_compute; reflexivity|].
  repeat constructor; intros block; try (by intros []); by intros [id ?].
Defined.
(** The whole story: the transaction arrives, the round times out, and the validator is
    silent from then on, although the process runs. *)
Lemma one_gossiped_transaction_stops_the_chain :
  let stopped := lone_run [timeout; timeout; timeout] poisoned in
  rs_height (nd_state (sv_node stopped)) = 2 ∧ sv_down stopped = false ∧
  fst <$> sv_ended stopped = [ConsensusTask] ∧
  Mempool.len (nd_mempool (sv_node stopped)) = 1%nat.
Proof. split_and!; vm_compute; reflexivity. Qed.
